(** * Job-Hunter pipeline: a shallow embedding of the runner, the AI scorer,
      the provider-level deduplicator and the digest query.

    Source files embedded here:
      - [src/pipeline/aiScorer.ts]   (stripHtml, trimBoilerplate,
        computeVerdict, scoreJobs, dedupAndSummarise)
      - the pipeline runner           (matchesTitleFilter, runPipeline)
      - the layer-1 deduplicator      (filterNewJobs)
      - the email report              (sendDailyReport)
      - [src/db.ts]                   (tables, row types, transaction,
        seedSettings)
      - the fetcher                   (normalizeWorkMode, parsePostedDate,
        mapToJobPosting, filterByTimeWindow, fetchJobs)
      - the scheduler                 (startSchedule, stopSchedule,
        getScheduleStatus)
      - the routes                    (parseGroupBody, the group, job and
        run routes of /api, extractCountry of the jobs and analytics pages)
      - the email report              (escapeHtml)

    Conventions of the embedding.
      - A JavaScript string is a [string] of 8-bit code units, read as the
        Latin-1 range U+0000..U+00FF of UTF-16.  On that range the
        definitions of [toLowerCase], [trim], [\s], [\w], [.] below are the
        ECMAScript ones.
      - JavaScript numbers that the code only uses as integers (scores,
        thresholds, row ids, counters) are [Z].
      - SQL NULL / JS null is [None].
      - The external services (provider fetch, the language model, the mail
        API) are functions supplied in an environment record; every request
        sent to the language model is recorded in a trace.
      - The SQLite database is an explicit record of tables that is threaded
        through the run; statements on it do not fail except where the schema
        makes them fail (UNIQUE with OR IGNORE, and the FOREIGN KEY of
        [duplicate_of_job_id]).
      - A run is taken from its gate to its [finally] as one step: no
        request is handled while it awaits.  The rows that [run_id] and
        [group_id] of a new row refer to are then rows the run itself
        inserted or read, so these two foreign keys hold and are not
        checked.  (The program serves requests during a run; a group that is
        deleted then is outside this embedding.) *)

From Stdlib Require Import ZArith String Ascii List Bool Lia.
From Stdlib Require Import DecimalString DecimalPos.
From stdpp Require Import base gmap sets strings.

Import ListNotations.
Set Warnings "-abstract-large-number".
Local Open Scope Z_scope.
Local Open Scope string_scope.
Local Open Scope list_scope.

(* ================================================================== *)
(** ** JavaScript strings                                              *)
(* ================================================================== *)

Module Js.

Definition code (c : ascii) : N := N_of_ascii c.

Definition between (lo hi : N) (c : ascii) : bool :=
  (N.leb lo (code c) && N.leb (code c) hi)%bool.

Definition isUpperAscii (c : ascii) : bool := between 65 90 c.
Definition isLowerAscii (c : ascii) : bool := between 97 122 c.
Definition isDigit (c : ascii) : bool := between 48 57 c.

(** ECMAScript WhiteSpace and LineTerminator code points below U+0100:
    TAB, LF, VT, FF, CR, SPACE, NBSP.  This is the set matched by [\s] and
    removed by [trim], [trimEnd]. *)
Definition isWhiteSpace (c : ascii) : bool :=
  (between 9 13 c || N.eqb (code c) 32 || N.eqb (code c) 160)%bool.

(** LineTerminator below U+0100: LF and CR. *)
Definition isLineTerminator (c : ascii) : bool :=
  (N.eqb (code c) 10 || N.eqb (code c) 13)%bool.

(** [\w] without the unicode flag: [A-Za-z0-9_]. *)
Definition isWordChar (c : ascii) : bool :=
  (isUpperAscii c || isLowerAscii c || isDigit c || N.eqb (code c) 95)%bool.

(** Latin-1 capital letters with a one-unit lower case: U+00C0..U+00DE
    except the multiplication sign U+00D7. *)
Definition isUpperLatin1 (c : ascii) : bool :=
  (between 192 222 c && negb (N.eqb (code c) 215))%bool.

Definition lowerChar (c : ascii) : ascii :=
  if (isUpperAscii c || isUpperLatin1 c)%bool
  then ascii_of_N (code c + 32) else c.

(** SQLite's built-in [lower()] folds ASCII letters only. *)
Definition sqliteLowerChar (c : ascii) : ascii :=
  if isUpperAscii c then ascii_of_N (code c + 32) else c.

Fixpoint smap (f : ascii -> ascii) (s : string) : string :=
  match s with
  | EmptyString => EmptyString
  | String c s' => String (f c) (smap f s')
  end.

Definition toLowerCase (s : string) : string := smap lowerChar s.
Definition sqliteLower (s : string) : string := smap sqliteLowerChar s.

Fixpoint trimStart (s : string) : string :=
  match s with
  | EmptyString => EmptyString
  | String c s' => if isWhiteSpace c then trimStart s' else s
  end.

(** [trimEnd]: a character is dropped when it is white space and everything
    after it has been dropped. *)
Fixpoint trimEnd (s : string) : string :=
  match s with
  | EmptyString => EmptyString
  | String c s' =>
      match trimEnd s' with
      | EmptyString => if isWhiteSpace c then EmptyString else String c EmptyString
      | r => String c r
      end
  end.

Definition trim (s : string) : string := trimEnd (trimStart s).

(** [s.substring(0, n)]. *)
Fixpoint take (n : nat) (s : string) : string :=
  match n, s with
  | O, _ => EmptyString
  | _, EmptyString => EmptyString
  | S n', String c s' => String c (take n' s')
  end.

(** [s.split(sep)] for a one-unit separator: always at least one piece. *)
Fixpoint splitOn (sep : ascii) (s : string) : list string :=
  match s with
  | EmptyString => [EmptyString]
  | String c s' =>
      match splitOn sep s' with
      | [] => [EmptyString]          (* unreachable: the result is never empty *)
      | p :: ps => if Ascii.eqb c sep then EmptyString :: p :: ps
                   else String c p :: ps
      end
  end.

(** JS truthiness of a string ([Boolean(s)], [s || d], [if (s)]). *)
Definition truthy (s : string) : bool :=
  match s with EmptyString => false | _ => true end.

(** [s || null]. *)
Definition orNull (s : string) : option string :=
  if truthy s then Some s else None.

(** The maximal runs of code units satisfying [p], in order.  [cur] is the
    run being read, reversed. *)
Fixpoint revString (acc s : string) : string :=
  match s with
  | EmptyString => acc
  | String c s' => revString (String c acc) s'
  end.

Definition flush (cur : string) : list string :=
  match cur with EmptyString => [] | _ => [revString EmptyString cur] end.

Fixpoint runsFrom (p : ascii -> bool) (cur : string) (s : string) : list string :=
  match s with
  | EmptyString => flush cur
  | String c s' =>
      if p c then runsFrom p (String c cur) s'
      else flush cur ++ runsFrom p EmptyString s'
  end.

(** [s.split(/\W+/).filter(Boolean)]: the maximal runs of word characters. *)
Definition splitNonWord (s : string) : list string :=
  runsFrom isWordChar EmptyString s.

(** Template-literal rendering of an integer. *)
Definition showZ (z : Z) : string := NilZero.string_of_int (Z.to_int z).

(** [xs.join(sep)]. *)
Fixpoint join (sep : string) (xs : list string) : string :=
  match xs with
  | [] => EmptyString
  | [x] => x
  | x :: rest => x +:+ sep +:+ join sep rest
  end.

End Js.

(* ================================================================== *)
(** ** The fragment of ECMAScript regular expressions the source uses  *)
(* ================================================================== *)

Module Regex.

(** Quantifiers in the source only ever apply to a single character class
    ([\s*], [.{0,60}], [[^>]+], [\n{3,}]) or are the optional [r?]; the
    syntax below has exactly those.  Alternatives are tried left to right
    and quantifiers are greedy, as in the ECMAScript backtracking matcher. *)
Inductive regex : Type :=
  | Eps
  | Chr (p : ascii -> bool)
  | Seq (r1 r2 : regex)
  | Alt (r1 r2 : regex)
  | Star (p : ascii -> bool)
  | UpTo (n : nat) (p : ascii -> bool)
  | WordB
  | Bol.

Definition Opt (r : regex) : regex := Alt r Eps.
Definition Plus (p : ascii -> bool) : regex := Seq (Chr p) (Star p).

Definition isChr (c : ascii) : ascii -> bool := fun x => Ascii.eqb x c.
(** A literal character under the [i] flag. *)
Definition isCI (c : ascii) : ascii -> bool :=
  fun x => Ascii.eqb (Js.lowerChar x) (Js.lowerChar c).
(** [.] : anything but a line terminator. *)
Definition dot : ascii -> bool := fun x => negb (Js.isLineTerminator x).

Fixpoint lit (s : string) : regex :=
  match s with
  | EmptyString => Eps
  | String c s' => Seq (Chr (isChr c)) (lit s')
  end.

Fixpoint litCI (s : string) : regex :=
  match s with
  | EmptyString => Eps
  | String c s' => Seq (Chr (isCI c)) (litCI s')
  end.

Fixpoint alts (rs : list regex) : regex :=
  match rs with
  | [] => Eps
  | [r] => r
  | r :: rest => Alt r (alts rest)
  end.

Fixpoint seqs (rs : list regex) : regex :=
  match rs with
  | [] => Eps
  | [r] => r
  | r :: rest => Seq r (seqs rest)
  end.

Section Matcher.
  (** The matcher is written in continuation-passing style: [k prev rest]
      is what remains to be matched once the current node has consumed a
      prefix; [prev] is the code unit just before the current position
      ([None] at the start of the input). *)
Context {R : Type}.
Definition cont := option ascii -> string -> option R.

Definition wordAt (o : option ascii) : bool :=
    match o with Some c => Js.isWordChar c | None => false end.

Definition next (s : string) : option ascii :=
    match s with EmptyString => None | String c _ => Some c end.

Fixpoint star (p : ascii -> bool) (k : cont) (prev : option ascii) (s : string)
    : option R :=
    match s with
    | String c s' =>
        if p c then
          match star p k (Some c) s' with
          | Some r => Some r
          | None => k prev s
          end
        else k prev s
    | EmptyString => k prev s
    end.

Fixpoint upTo (n : nat) (p : ascii -> bool) (k : cont) (prev : option ascii)
    (s : string) : option R :=
    match n, s with
    | S n', String c s' =>
        if p c then
          match upTo n' p k (Some c) s' with
          | Some r => Some r
          | None => k prev s
          end
        else k prev s
    | _, _ => k prev s
    end.

Fixpoint matchRe (r : regex) (k : cont) (prev : option ascii) (s : string)
    : option R :=
    match r with
    | Eps => k prev s
    | Chr p =>
        match s with
        | String c s' => if p c then k (Some c) s' else None
        | EmptyString => None
        end
    | Seq r1 r2 => matchRe r1 (fun prev' s' => matchRe r2 k prev' s') prev s
    | Alt r1 r2 =>
        match matchRe r1 k prev s with
        | Some x => Some x
        | None => matchRe r2 k prev s
        end
    | Star p => star p k prev s
    | UpTo n p => upTo n p k prev s
    | WordB => if xorb (wordAt prev) (wordAt (next s)) then k prev s else None
    | Bol =>
        match prev with
        | None => k prev s
        | Some c => if Js.isLineTerminator c then k prev s else None
        end
    end.
End Matcher.

(** A match attempt at the current position; the result is the code unit
    before the end of the match and the rest of the input after it. *)
Definition matchHere (r : regex) (prev : option ascii) (s : string)
  : option (option ascii * string) :=
  matchRe r (fun prev' rest => Some (prev', rest)) prev s.

(** [r.exec(s)] for a regex without the [g] and [y] flags: the index of the
    leftmost match, if any. *)
Fixpoint execFrom (r : regex) (prev : option ascii) (idx : nat) (s : string)
  : option nat :=
  match matchHere r prev s with
  | Some _ => Some idx
  | None =>
      match s with
      | EmptyString => None
      | String c s' => execFrom r (Some c) (S idx) s'
      end
  end.

Definition exec (r : regex) (s : string) : option nat := execFrom r None 0 s.

(** [s.replace(r, repl)] for a regex with the [g] flag and a replacement
    without [$] patterns.  After an empty match the scan advances by one
    code unit.  Every step consumes a code unit, so [length s + 1] steps
    are enough. *)
Fixpoint replaceFrom (fuel : nat) (r : regex) (repl : string)
  (prev : option ascii) (s : string) : string :=
  match fuel with
  | O => s
  | S fuel' =>
      match matchHere r prev s with
      | Some (prev', rest) =>
          if Nat.ltb (String.length rest) (String.length s)
          then repl +:+ replaceFrom fuel' r repl prev' rest
          else match s with
               | EmptyString => repl
               | String c s' => repl +:+ String c (replaceFrom fuel' r repl (Some c) s')
               end
      | None =>
          match s with
          | EmptyString => EmptyString
          | String c s' => String c (replaceFrom fuel' r repl (Some c) s')
          end
      end
  end.

Definition replaceAll (r : regex) (repl : string) (s : string) : string :=
  replaceFrom (S (String.length s)) r repl None s.

End Regex.

Import Js Regex.

Definition LF : ascii := ascii_of_nat 10.
Definition nl : string := String LF EmptyString.
Definition dquote : string := String (ascii_of_nat 34) EmptyString.

(* ================================================================== *)
(** ** aiScorer.ts: helpers                                            *)
(* ================================================================== *)

(** [stripHtml]: the twelve steps of the source, in order. *)
Definition stripHtml (html : string) : string :=
  let s := replaceAll
             (seqs [litCI "<br"; Star isWhiteSpace; Opt (lit "/"); lit ">"])
             nl html in
  let s := replaceAll (litCI "</p>") nl s in
  let s := replaceAll (litCI "</li>") nl s in
  let s := replaceAll
             (seqs [lit "<"; Plus (fun c => negb (isChr ">" c)); lit ">"])
             "" s in
  let s := replaceAll (lit "&nbsp;") " " s in
  let s := replaceAll (lit "&amp;") "&" s in
  let s := replaceAll (lit "&lt;") "<" s in
  let s := replaceAll (lit "&gt;") ">" s in
  let s := replaceAll (lit "&quot;") dquote s in
  let s := replaceAll (lit "&#39;") "'" s in
  let s := replaceAll
             (seqs [Chr (isChr LF); Chr (isChr LF); Chr (isChr LF); Star (isChr LF)])
             (nl +:+ nl) s in
  trim s.

Definition spaceOrDash (c : ascii) : bool := (isWhiteSpace c || isChr "-" c)%bool.
Definition colonOrLF (c : ascii) : bool := (isChr ":" c || isChr LF c)%bool.
(** [(?:^|\n)] under the [m] flag. *)
Definition lineStart : regex := Alt Bol (Chr (isChr LF)).

(** [BOILERPLATE_PATTERNS]; all six carry the [i] flag, the last two also
    the [m] flag.  Their literals are ASCII, so comparing lower-cased code
    units is the case-insensitive comparison of the [i] flag. *)
Definition BOILERPLATE_PATTERNS : list regex :=
  [ (* /\bequal[\s-]opportunity[\s-](employer|employment)\b/i *)
    seqs [WordB; litCI "equal"; Chr spaceOrDash; litCI "opportunity";
          Chr spaceOrDash; alts [litCI "employer"; litCI "employment"]; WordB];
    (* /\bwithout regard to\b.{0,60}(race|color|sex|age|national origin|disability|veteran)/i *)
    seqs [WordB; litCI "without regard to"; WordB; UpTo 60 dot;
          alts [litCI "race"; litCI "color"; litCI "sex"; litCI "age";
                litCI "national origin"; litCI "disability"; litCI "veteran"]];
    (* /\bif you (need|require|request)\b.{0,50}\breasonable accommodation\b/i *)
    seqs [WordB; litCI "if you ";
          alts [litCI "need"; litCI "require"; litCI "request"];
          WordB; UpTo 50 dot; WordB; litCI "reasonable accommodation"; WordB];
    (* /\bwe (celebrate|embrace|champion|welcome)\b.{0,40}\bdiversity\b/i *)
    seqs [WordB; litCI "we ";
          alts [litCI "celebrate"; litCI "embrace"; litCI "champion"; litCI "welcome"];
          WordB; UpTo 40 dot; WordB; litCI "diversity"; WordB];
    (* /(?:^|\n)(benefits?|perks?( & benefits?)?|what we offer|total rewards?)\s*[:\n]/im *)
    seqs [lineStart;
          alts [seqs [litCI "benefit"; Opt (litCI "s")];
                seqs [litCI "perk"; Opt (litCI "s");
                      Opt (seqs [litCI " & benefit"; Opt (litCI "s")])];
                litCI "what we offer";
                seqs [litCI "total reward"; Opt (litCI "s")]];
          Star isWhiteSpace; Chr colonOrLF];
    (* /(?:^|\n)about (us|the company)\s*[:\n]/im *)
    seqs [lineStart; litCI "about "; alts [litCI "us"; litCI "the company"];
          Star isWhiteSpace; Chr colonOrLF] ].

(** The loop of [trimBoilerplate]: [cutAt] starts at [text.length] and is
    lowered by every pattern whose leftmost match starts earlier. *)
Definition cutStep (text : string) (cutAt : nat) (pattern : regex) : nat :=
  match exec pattern text with
  | Some index => if Nat.ltb index cutAt then index else cutAt
  | None => cutAt
  end.

Definition cutIndex (patterns : list regex) (text : string) : nat :=
  fold_left (cutStep text) patterns (String.length text).

Definition trimBoilerplateWith (patterns : list regex) (text : string) : string :=
  trimEnd (take (cutIndex patterns text) text).

Definition trimBoilerplate (text : string) : string :=
  trimBoilerplateWith BOILERPLATE_PATTERNS text.

Inductive Verdict : Type := STRONG_MATCH | WEAK_MATCH | NO_MATCH.

(** [SettingsRow], the columns the pipeline reads. *)
Record SettingsRow : Type := {
  ai_system_prompt : string;
  ai_model : string;
  dedup_system_prompt : string;
  summary_prompt : string;
  score_no_match_max : Z;
  score_weak_match_max : Z;
  score_strong_match_min : Z;
  email_recipient : string;
  email_enabled : Z
}.

Definition computeVerdict (score : Z) (settings : SettingsRow) : Verdict :=
  if score >=? score_strong_match_min settings then STRONG_MATCH
  else if score >=? score_no_match_max settings + 1 then WEAK_MATCH
  else NO_MATCH.

(* ================================================================== *)
(** ** fetcher.ts: the normalised posting                              *)
(* ================================================================== *)

Inductive Confidence : Type := HIGH | LOW.

Record JobPosting : Type := {
  jobId : string;
  title : string;
  company : string;
  location : string;
  workMode : string;
  url : string;
  applyUrl : option string;
  postedDate : option string;
  postedDateConfidence : Confidence;
  description : string
}.

(** [{ ...job, description: d }]. *)
Definition withDescription (job : JobPosting) (d : string) : JobPosting :=
  {| jobId := jobId job; title := title job; company := company job;
     location := location job; workMode := workMode job; url := url job;
     applyUrl := applyUrl job; postedDate := postedDate job;
     postedDateConfidence := postedDateConfidence job; description := d |}.

(* ================================================================== *)
(** ** aiScorer.ts: the two calls to the language model                *)
(* ================================================================== *)

(** What the model returns from a call: the call throws (network error,
    timeout, empty [output_text], text that is not JSON), or [JSON.parse]
    yields a value, which is [null] or the object. *)
Inductive Reply (A : Type) : Type :=
  | Throws (message : string)
  | Returns (value : option A).
Arguments Throws {A} message.
Arguments Returns {A} value.

(** [ScoringLlmOutput]; the fields carry the prefix [llm_] here. *)
Record ScoringLlmOutput : Type := {
  llm_score : Z;
  llm_verdict : string;
  llm_rationale : string;
  llm_rejection_category : string;
  llm_summary : option string
}.

(** [DedupSummaryLlmOutput]. *)
Record DedupSummaryLlmOutput : Type := {
  is_duplicate_out : bool;
  duplicate_of_id_out : option Z
}.

(** The request of Call 1: the system prompt, the model, and the values
    that [buildScoringUserMessage] interpolates into its fixed template. *)
Record ScoringRequest : Type := {
  sr_systemPrompt : string;
  sr_model : string;
  sr_title : string;
  sr_company : string;
  sr_location : string;
  sr_workMode : string;
  sr_description : string;
  sr_summaryPrompt : string
}.

Record ExistingJob : Type := {
  ex_id : Z;
  ex_title : string;
  ex_description : string
}.

(** The request of Call 2: the values [buildDedupSummarySystemPrompt] and
    [buildDedupSummaryUserMessage] interpolate. *)
Record DedupRequest : Type := {
  dr_dedupPrompt : string;
  dr_model : string;
  dr_title : string;
  dr_company : string;
  dr_location : string;
  dr_workMode : string;
  dr_description : string;
  dr_existing : list ExistingJob
}.

Inductive LlmCall : Type :=
  | Call1 (req : ScoringRequest)
  | Call2 (req : DedupRequest).

(** The language model: its answer may depend on the request and on how
    many requests were made before. *)
Record Llm : Type := {
  callScoringLlm : nat -> ScoringRequest -> Reply ScoringLlmOutput;
  callDedupLlm : nat -> DedupRequest -> Reply DedupSummaryLlmOutput
}.

Record ScoredJob : Type := {
  job : JobPosting;
  score : Z;
  verdict : Verdict;
  rationale : string;
  rejectionCategory : option string;
  summary : option string
}.

Record DedupeAndSummaryResult : Type := {
  isDuplicate : bool;
  duplicateOfId : option Z
}.

Definition buildScoringUserMessage (systemPrompt model : string)
  (j : JobPosting) (summaryPrompt : string) : ScoringRequest :=
  {| sr_systemPrompt := systemPrompt;
     sr_model := model;
     sr_title := title j;
     sr_company := company j;
     sr_location := location j;
     sr_workMode := workMode j;
     sr_description := take 8000 (trimBoilerplate (stripHtml (description j)));
     sr_summaryPrompt := summaryPrompt |}.

Definition verdictEqb (a b : Verdict) : bool :=
  match a, b with
  | STRONG_MATCH, STRONG_MATCH | WEAK_MATCH, WEAK_MATCH | NO_MATCH, NO_MATCH => true
  | _, _ => false
  end.

(** [Math.max(0, Math.min(100, Math.round(output.score)))]; the schema of
    the call makes [output.score] an integer, on which [Math.round] is the
    identity. *)
Definition clampScore (raw : Z) : Z := Z.max 0 (Z.min 100 raw).

(** The tail of the loop body of [scoreJobs]: from the parsed output to the
    pushed [ScoredJob]. *)
Definition toScoredJob (j : JobPosting) (settings : SettingsRow)
  (output : ScoringLlmOutput) : ScoredJob :=
  let score := clampScore (llm_score output) in
  let verdict := computeVerdict score settings in
  let rejectionCategory :=
    if (verdictEqb verdict NO_MATCH
        && negb (String.eqb (llm_rejection_category output) "NONE"))%bool
    then Some (llm_rejection_category output) else None in
  let summary :=
    if verdictEqb verdict STRONG_MATCH
    then orNull (trim (match llm_summary output with Some s => s | None => "" end))
    else None in
  {| job := j; score := score; verdict := verdict;
     rationale := take 600 (llm_rationale output);
     rejectionCategory := rejectionCategory; summary := summary |}.

(** The job of the retry: [{ ...job, description: trimBoilerplate(
    stripHtml(job.description)).substring(0, 3_000) }]. *)
Definition truncatedJob (j : JobPosting) : JobPosting :=
  withDescription j (take 3000 (trimBoilerplate (stripHtml (description j)))).

(** One iteration of the loop of [scoreJobs].  [trace] is the list of
    requests made so far; the result is the parsed output, if any, and the
    extended trace. *)
Definition scoreOne (llm : Llm) (settings : SettingsRow) (j : JobPosting)
  (trace : list LlmCall) : option ScoringLlmOutput * list LlmCall :=
  let req1 := buildScoringUserMessage (ai_system_prompt settings)
                (ai_model settings) j (summary_prompt settings) in
  match callScoringLlm llm (length trace) req1 with
  | Returns output => (output, trace ++ [Call1 req1])
  | Throws _ =>
      let trace1 := trace ++ [Call1 req1] in
      let req2 := buildScoringUserMessage (ai_system_prompt settings)
                    (ai_model settings) (truncatedJob j) (summary_prompt settings) in
      match callScoringLlm llm (length trace1) req2 with
      | Returns output => (output, trace1 ++ [Call1 req2])
      | Throws _ => (None, trace1 ++ [Call1 req2])
      end
  end.

Fixpoint scoreJobs (llm : Llm) (jobs : list JobPosting) (settings : SettingsRow)
  (trace : list LlmCall) : list ScoredJob * list LlmCall :=
  match jobs with
  | [] => ([], trace)
  | j :: rest =>
      let '(output, trace1) := scoreOne llm settings j trace in
      let '(results, trace2) := scoreJobs llm rest settings trace1 in
      match output with
      | Some o => (toScoredJob j settings o :: results, trace2)
      | None => (results, trace2)
      end
  end.

Definition buildDedupSummaryUserMessage (dedupPrompt model : string)
  (scoredJob : ScoredJob) (existingJobs : list ExistingJob) : DedupRequest :=
  let descLen := match existingJobs with [] => 7000%nat | _ => 5000%nat end in
  let cleanDesc := stripHtml (description (job scoredJob)) in
  {| dr_dedupPrompt := dedupPrompt;
     dr_model := model;
     dr_title := title (job scoredJob);
     dr_company := company (job scoredJob);
     dr_location := location (job scoredJob);
     dr_workMode := workMode (job scoredJob);
     dr_description := take descLen cleanDesc;
     dr_existing :=
       map (fun e => {| ex_id := ex_id e; ex_title := ex_title e;
                        ex_description := take 1500 (ex_description e) |})
           existingJobs |}.

Definition dedupAndSummarise (llm : Llm) (scoredJob : ScoredJob)
  (existingJobs : list ExistingJob) (settings : SettingsRow)
  (trace : list LlmCall) : DedupeAndSummaryResult * list LlmCall :=
  let req := buildDedupSummaryUserMessage (dedup_system_prompt settings)
               (ai_model settings) scoredJob existingJobs in
  let trace1 := trace ++ [Call2 req] in
  match callDedupLlm llm (length trace) req with
  | Returns (Some output) =>
      let isDup := is_duplicate_out output in
      ({| isDuplicate := isDup;
          duplicateOfId := if isDup then duplicate_of_id_out output else None |},
       trace1)
  | Returns None | Throws _ =>
      (* On failure: treat as non-duplicate *)
      ({| isDuplicate := false; duplicateOfId := None |}, trace1)
  end.

(* ================================================================== *)
(** ** db.ts: row types and tables                                     *)
(* ================================================================== *)

Module SearchGroupRow.
  (** The JSON columns [locations], [keywords], [work_modes] are kept as
      the outcome of [JSON.parse] on them: the parsed array, or the message
      of the [SyntaxError] it throws. *)
Record t : Type := {
    id : Z;
    group_name : string;
    locations : string + list string;
    keywords : string + list string;
    job_type : string;
    work_modes : string + list string;
    ai_system_prompt : string;
    title_filter : string;
    score_no_match_max : Z;
    score_weak_match_max : Z;
    score_strong_match_min : Z;
    is_active : Z
  }.
End SearchGroupRow.

Module BlacklistedCompanyRow.
Record t : Type := { company_name : string; notes : string }.
End BlacklistedCompanyRow.

Module JobRow.
Record t : Type := {
    id : Z;
    linkedin_job_id : string;
    title : string;
    company : string;
    location : option string;
    work_mode : option string;
    description : string;
    url : option string;
    posted_date : option string;
    fetched_at : string;
    ai_score : Z;
    ai_rationale : option string;
    ai_summary : option string;
    ai_verdict : string;
    rejection_category : option string;
    is_duplicate : Z;
    duplicate_of_job_id : option Z;
    seen : Z;
    seen_at : option string;
    group_id : option Z;
    applied : Z;
    user_notes : option string;
    apply_url : option string
  }.

  (** [UPDATE jobs SET seen = 1, seen_at = ?] on one row. *)
Definition markSeen (now : string) (r : t) : t :=
    {| id := id r; linkedin_job_id := linkedin_job_id r; title := title r;
       company := company r; location := location r; work_mode := work_mode r;
       description := description r; url := url r; posted_date := posted_date r;
       fetched_at := fetched_at r; ai_score := ai_score r;
       ai_rationale := ai_rationale r; ai_summary := ai_summary r;
       ai_verdict := ai_verdict r; rejection_category := rejection_category r;
       is_duplicate := is_duplicate r; duplicate_of_job_id := duplicate_of_job_id r;
       seen := 1; seen_at := Some now;
       group_id := group_id r; applied := applied r; user_notes := user_notes r;
       apply_url := apply_url r |}.

Definition withId (i : Z) (r : t) : t :=
    {| id := i; linkedin_job_id := linkedin_job_id r; title := title r;
       company := company r; location := location r; work_mode := work_mode r;
       description := description r; url := url r; posted_date := posted_date r;
       fetched_at := fetched_at r; ai_score := ai_score r;
       ai_rationale := ai_rationale r; ai_summary := ai_summary r;
       ai_verdict := ai_verdict r; rejection_category := rejection_category r;
       is_duplicate := is_duplicate r; duplicate_of_job_id := duplicate_of_job_id r;
       seen := seen r; seen_at := seen_at r;
       group_id := group_id r; applied := applied r; user_notes := user_notes r;
       apply_url := apply_url r |}.
End JobRow.

Module SearchRunRow.
Record t : Type := {
    id : Z;
    ran_at : string;
    jobs_fetched : Z;
    jobs_scored : Z;
    jobs_strong_match : Z;
    jobs_weak_match : Z;
    jobs_no_match : Z;
    jobs_duplicate : Z;
    status : string;
    error_log : option string;
    duration_ms : option Z;
    trigger : string
  }.
End SearchRunRow.

Module RunJobLogRow.
  (** The surrogate key [id] of [run_job_logs] is never read by the
      pipeline and is left out. *)
Record t : Type := {
    run_id : Z;
    group_id : option Z;
    linkedin_job_id : string;
    title : string;
    company : string;
    location : option string;
    url : option string;
    ai_score : option Z;
    ai_verdict : string;
    ai_rationale : option string;
    rejection_category : option string;
    logged_at : string
  }.
End RunJobLogRow.

(** The database.  A table is the list of its rows in insertion order;
    [search_groups] is read [ORDER BY id ASC], which is that order.  The
    [_seq] fields are the AUTOINCREMENT counters of [sqlite_sequence]. *)
Record Db : Type := {
  settings_row : option SettingsRow;   (* the row [id = 1] of [settings] *)
  search_groups : list SearchGroupRow.t;
  blacklisted_companies : list BlacklistedCompanyRow.t;
  jobs : list JobRow.t;
  jobs_seq : Z;
  search_runs : list SearchRunRow.t;
  search_runs_seq : Z;
  run_job_logs : list RunJobLogRow.t
}.

Definition setJobs (d : Db) (js : list JobRow.t) (seq : Z) : Db :=
  {| settings_row := settings_row d; search_groups := search_groups d;
     blacklisted_companies := blacklisted_companies d;
     jobs := js; jobs_seq := seq;
     search_runs := search_runs d; search_runs_seq := search_runs_seq d;
     run_job_logs := run_job_logs d |}.

Definition setRuns (d : Db) (rs : list SearchRunRow.t) (seq : Z) : Db :=
  {| settings_row := settings_row d; search_groups := search_groups d;
     blacklisted_companies := blacklisted_companies d;
     jobs := jobs d; jobs_seq := jobs_seq d;
     search_runs := rs; search_runs_seq := seq;
     run_job_logs := run_job_logs d |}.

Definition setLogs (d : Db) (ls : list RunJobLogRow.t) : Db :=
  {| settings_row := settings_row d; search_groups := search_groups d;
     blacklisted_companies := blacklisted_companies d;
     jobs := jobs d; jobs_seq := jobs_seq d;
     search_runs := search_runs d; search_runs_seq := search_runs_seq d;
     run_job_logs := ls |}.

(** AUTOINCREMENT: one more than the largest key that ever existed. *)
Definition nextId (seq : Z) (ids : list Z) : Z :=
  fold_right Z.max seq ids + 1.

(** [insertJobLog.run(...)].  [run_id] is the key of the row the run
    inserted and [group_id] the key of a group the run read; see the
    conventions at the head of the file. *)
Definition insertJobLog (row : RunJobLogRow.t) (d : Db) : Db :=
  setLogs d (run_job_logs d ++ [row]).

Inductive InsertResult : Type :=
  | Inserted (d : Db)
  | Ignored (d : Db)             (* OR IGNORE: the UNIQUE key already exists *)
  | ConstraintError (message : string).

Definition hasJobId (d : Db) (i : Z) : bool :=
  existsb (fun r => Z.eqb (JobRow.id r) i) (jobs d).

Definition hasLinkedinId (d : Db) (lid : string) : bool :=
  existsb (fun r => String.eqb (JobRow.linkedin_job_id r) lid) (jobs d).

(** [insertJob.run(...)]: [INSERT OR IGNORE INTO jobs].  A row whose
    [linkedin_job_id] exists is skipped; the statement has then drawn a key
    from the AUTOINCREMENT sequence all the same, so the sequence advances
    by one and the next row gets a larger key.  [duplicate_of_job_id]
    REFERENCES [jobs(id)] and foreign keys are ON: a dangling reference
    makes the statement throw (OR IGNORE does not cover foreign keys).  The
    [id] of [row] is assigned here. *)
Definition insertJob (row : JobRow.t) (d : Db) : InsertResult :=
  let i := nextId (jobs_seq d) (map JobRow.id (jobs d)) in
  if hasLinkedinId d (JobRow.linkedin_job_id row) then Ignored (setJobs d (jobs d) i)
  else
    let fkOk := match JobRow.duplicate_of_job_id row with
                | None => true
                | Some k => hasJobId d k
                end in
    if fkOk then Inserted (setJobs d (jobs d ++ [JobRow.withId i row]) i)
    else ConstraintError "FOREIGN KEY constraint failed".

(** [db.transaction(() => { for (const x of rows) insertJob.run(...) })]:
    the whole batch, or a ROLLBACK and the error. *)
Fixpoint insertJobs (rows : list JobRow.t) (d : Db) : string + Db :=
  match rows with
  | [] => inr d
  | row :: rest =>
      match insertJob row d with
      | Inserted d' => insertJobs rest d'
      | Ignored d' => insertJobs rest d'
      | ConstraintError msg => inl msg
      end
  end.

Definition insertJobLogs (rows : list RunJobLogRow.t) (d : Db) : Db :=
  fold_left (fun d' row => insertJobLog row d') rows d.

(* ================================================================== *)
(** ** deduplicator.ts                                                 *)
(* ================================================================== *)

Definition has (s : gset string) (x : string) : bool := bool_decide (x ∈ s).

(** The parameter [jobs] of the source is [postings] here; [jobs] is the
    table. *)
Definition filterNewJobs (d : Db) (postings : list JobPosting)
  : list JobPosting * list JobPosting :=
  match postings with
  | [] => ([], [])
  | _ =>
      let asked : gset string := list_to_set (map jobId postings) in
      let rows := List.filter (fun r => has asked (JobRow.linkedin_job_id r)) (jobs d) in
      let existingIds : gset string := list_to_set (map JobRow.linkedin_job_id rows) in
      let newJobs := List.filter (fun j => negb (has existingIds (jobId j))) postings in
      let providerDupes := List.filter (fun j => has existingIds (jobId j)) postings in
      (newJobs, providerDupes)
  end.

(* ================================================================== *)
(** ** emailReport.ts                                                  *)
(* ================================================================== *)

Record RunStats : Type := {
  rs_jobsFetched : Z;
  rs_jobsScored : Z;
  rs_strongMatch : Z;
  rs_weakMatch : Z;
  rs_noMatch : Z;
  rs_duplicates : Z
}.

(** What happens when the digest is handed to the mail API: an exception
    that escapes [sendDailyReport] (the client cannot be constructed), an
    error that [sendDailyReport] catches (it returns [sent: false]), or
    success. *)
Inductive MailOutcome : Type :=
  | MailThrows (message : string)
  | MailRejected (message : string)
  | MailSent.

(** The external services of one run, and its readings of the clock.  One
    reading [now] stands for every [new Date().toISOString()] of the run. *)
Record Env : Type := {
  fetchJobs : SearchGroupRow.t -> string + list JobPosting;
  llm : Llm;
  sendMail : list JobRow.t -> RunStats -> string -> MailOutcome;
  now : string;
  elapsedMs : Z
}.

(** [SELECT * FROM jobs WHERE seen = 0 AND is_duplicate = 0 AND
    ai_verdict = 'STRONG_MATCH'].  The ORDER BY of the source only orders
    the cards of the mail. *)
Definition unseenStrongMatches (d : Db) : list JobRow.t :=
  List.filter
    (fun r => Z.eqb (JobRow.seen r) 0 && Z.eqb (JobRow.is_duplicate r) 0
              && String.eqb (JobRow.ai_verdict r) "STRONG_MATCH")
    (jobs d).

(** [UPDATE jobs SET seen = 1, seen_at = ? WHERE id IN (ids)]. *)
Definition markJobsSeen (now : string) (ids : list Z) (d : Db) : Db :=
  setJobs d
    (map (fun r => if existsb (Z.eqb (JobRow.id r)) ids
                   then JobRow.markSeen now r else r) (jobs d))
    (jobs_seq d).

(** [sendDailyReport]: the thrown message, or [(sent, jobCount)]. *)
Definition sendDailyReport (env : Env) (stats : RunStats) (recipientEmail : string)
  (d : Db) : (string + bool * nat) * Db :=
  let selected := unseenStrongMatches d in
  match sendMail env selected stats recipientEmail with
  | MailThrows msg => (inl msg, d)
  | MailRejected _ => (inr (false, length selected), d)
  | MailSent =>
      let d' := match selected with
                | [] => d
                | _ => markJobsSeen (now env) (map JobRow.id selected) d
                end in
      (inr (true, length selected), d')
  end.

(* ================================================================== *)
(** ** runner.ts                                                       *)
(* ================================================================== *)

Definition matchesTitleFilter (title filter : string) : bool :=
  let titleWords : gset string := list_to_set (splitNonWord (toLowerCase title)) in
  existsb
    (fun line => forallb (fun w => has titleWords w) (splitNonWord line))
    (List.filter truthy
       (map (fun l => toLowerCase (trim l)) (splitOn LF filter))).

Inductive Trigger : Type := scheduled | manual.
Inductive RunStatus : Type := success | partial_error | failed | running.

Definition triggerName (t : Trigger) : string :=
  match t with scheduled => "scheduled" | manual => "manual" end.

Definition statusName (s : RunStatus) : string :=
  match s with
  | success => "success" | partial_error => "partial_error"
  | failed => "failed" | running => "running"
  end.

Definition verdictName (v : Verdict) : string :=
  match v with
  | STRONG_MATCH => "STRONG_MATCH" | WEAK_MATCH => "WEAK_MATCH"
  | NO_MATCH => "NO_MATCH"
  end.

Module PipelineResult.
Record t : Type := {
    ranAt : string;
    durationMs : Z;
    jobsFetched : Z;
    jobsScored : Z;
    jobsStrongMatch : Z;
    jobsWeakMatch : Z;
    jobsNoMatch : Z;
    jobsDuplicate : Z;
    status : RunStatus;
    errorLog : option string;
    trigger : Trigger
  }.
End PipelineResult.

(** The six counters of [runPipeline]. *)
Record Counts : Type := {
  jobsFetched : Z;
  jobsScored : Z;
  jobsStrongMatch : Z;
  jobsWeakMatch : Z;
  jobsNoMatch : Z;
  jobsDuplicate : Z
}.

Definition zeroCounts : Counts :=
  {| jobsFetched := 0; jobsScored := 0; jobsStrongMatch := 0;
     jobsWeakMatch := 0; jobsNoMatch := 0; jobsDuplicate := 0 |}.

Definition addFetched (n : Z) (c : Counts) : Counts :=
  {| jobsFetched := jobsFetched c + n; jobsScored := jobsScored c;
     jobsStrongMatch := jobsStrongMatch c; jobsWeakMatch := jobsWeakMatch c;
     jobsNoMatch := jobsNoMatch c; jobsDuplicate := jobsDuplicate c |}.

Definition addScored (n : Z) (c : Counts) : Counts :=
  {| jobsFetched := jobsFetched c; jobsScored := jobsScored c + n;
     jobsStrongMatch := jobsStrongMatch c; jobsWeakMatch := jobsWeakMatch c;
     jobsNoMatch := jobsNoMatch c; jobsDuplicate := jobsDuplicate c |}.

Definition addStrong (n : Z) (c : Counts) : Counts :=
  {| jobsFetched := jobsFetched c; jobsScored := jobsScored c;
     jobsStrongMatch := jobsStrongMatch c + n; jobsWeakMatch := jobsWeakMatch c;
     jobsNoMatch := jobsNoMatch c; jobsDuplicate := jobsDuplicate c |}.

Definition addWeak (n : Z) (c : Counts) : Counts :=
  {| jobsFetched := jobsFetched c; jobsScored := jobsScored c;
     jobsStrongMatch := jobsStrongMatch c; jobsWeakMatch := jobsWeakMatch c + n;
     jobsNoMatch := jobsNoMatch c; jobsDuplicate := jobsDuplicate c |}.

Definition addNoMatch (n : Z) (c : Counts) : Counts :=
  {| jobsFetched := jobsFetched c; jobsScored := jobsScored c;
     jobsStrongMatch := jobsStrongMatch c; jobsWeakMatch := jobsWeakMatch c;
     jobsNoMatch := jobsNoMatch c + n; jobsDuplicate := jobsDuplicate c |}.

Definition addDuplicate (n : Z) (c : Counts) : Counts :=
  {| jobsFetched := jobsFetched c; jobsScored := jobsScored c;
     jobsStrongMatch := jobsStrongMatch c; jobsWeakMatch := jobsWeakMatch c;
     jobsNoMatch := jobsNoMatch c; jobsDuplicate := jobsDuplicate c + n |}.

Definition len {A : Type} (l : list A) : Z := Z.of_nat (length l).

(** [x || null] on a nullable string. *)
Definition orNullOpt (o : option string) : option string :=
  match o with Some s => orNull s | None => None end.

(** [n || null] on a nullable number. *)
Definition orNullZ (o : option Z) : option Z :=
  match o with Some n => if Z.eqb n 0 then None else Some n | None => None end.

(** The row of [insertJobLog.run(runId, group.id, job.jobId, job.title,
    job.company, job.location || null, job.url || null, score, verdict,
    rationale, rejection, loggedAt)]. *)
Definition logRow (runId groupId : Z) (j : JobPosting) (aiScore : option Z)
  (aiVerdict : string) (aiRationale rejection : option string) (loggedAt : string)
  : RunJobLogRow.t :=
  {| RunJobLogRow.run_id := runId;
     RunJobLogRow.group_id := Some groupId;
     RunJobLogRow.linkedin_job_id := jobId j;
     RunJobLogRow.title := title j;
     RunJobLogRow.company := company j;
     RunJobLogRow.location := orNull (location j);
     RunJobLogRow.url := orNull (url j);
     RunJobLogRow.ai_score := aiScore;
     RunJobLogRow.ai_verdict := aiVerdict;
     RunJobLogRow.ai_rationale := aiRationale;
     RunJobLogRow.rejection_category := rejection;
     RunJobLogRow.logged_at := loggedAt |}.

(** The unscored entries: FILTERED, DUPLICATE, BLACKLISTED. *)
Definition plainLogRow (runId groupId : Z) (label loggedAt : string)
  (j : JobPosting) : RunJobLogRow.t :=
  logRow runId groupId j None label None None loggedAt.

Module JobResult.
Record t : Type := {
    scored : ScoredJob;
    isDuplicate : bool;
    duplicateOfId : option Z;
    summary : option string
  }.
End JobResult.

Definition scoredLogRow (runId groupId : Z) (loggedAt : string)
  (r : JobResult.t) : RunJobLogRow.t :=
  let s := JobResult.scored r in
  let logVerdict := if JobResult.isDuplicate r then "DUPLICATE"
                    else verdictName (verdict s) in
  logRow runId groupId (job s) (Some (score s)) logVerdict
    (orNull (rationale s)) (orNullOpt (rejectionCategory s)) loggedAt.

(** The row bound by step "Store blacklisted jobs in jobs table".  Columns
    the statement does not list take their defaults. *)
Definition blacklistedJobRow (groupId : Z) (now : string) (j : JobPosting)
  : JobRow.t :=
  {| JobRow.id := 0;
     JobRow.linkedin_job_id := jobId j;
     JobRow.title := title j;
     JobRow.company := company j;
     JobRow.location := orNull (location j);
     JobRow.work_mode := orNull (workMode j);
     JobRow.description := description j;
     JobRow.url := orNull (url j);
     JobRow.posted_date := orNullOpt (postedDate j);
     JobRow.fetched_at := now;
     JobRow.ai_score := 0;
     JobRow.ai_rationale := None;
     JobRow.ai_summary := None;
     JobRow.ai_verdict := "BLACKLISTED";
     JobRow.rejection_category := None;
     JobRow.is_duplicate := 0;
     JobRow.duplicate_of_job_id := None;
     JobRow.seen := 0;
     JobRow.seen_at := None;
     JobRow.group_id := Some groupId;
     JobRow.applied := 0;
     JobRow.user_notes := None;
     JobRow.apply_url := orNullOpt (applyUrl j) |}.

(** The row bound by step 6, "Store all scored jobs". *)
Definition scoredJobRow (groupId : Z) (now : string) (r : JobResult.t)
  : JobRow.t :=
  let s := JobResult.scored r in
  let j := job s in
  let dup := JobResult.isDuplicate r in
  {| JobRow.id := 0;
     JobRow.linkedin_job_id := jobId j;
     JobRow.title := title j;
     JobRow.company := company j;
     JobRow.location := orNull (location j);
     JobRow.work_mode := orNull (workMode j);
     JobRow.description := description j;
     JobRow.url := orNull (url j);
     JobRow.posted_date := orNullOpt (postedDate j);
     JobRow.fetched_at := now;
     JobRow.ai_score := score s;
     JobRow.ai_rationale := orNull (rationale s);
     JobRow.ai_summary := orNullOpt (JobResult.summary r);
     JobRow.ai_verdict := verdictName (verdict s);
     JobRow.rejection_category := orNullOpt (rejectionCategory s);
     JobRow.is_duplicate := if dup then 1 else 0;
     JobRow.duplicate_of_job_id := orNullZ (JobResult.duplicateOfId r);
     JobRow.seen := if dup then 1 else 0;
     JobRow.seen_at := if dup then Some now else None;
     JobRow.group_id := Some groupId;
     JobRow.applied := 0;
     JobRow.user_notes := None;
     JobRow.apply_url := orNullOpt (applyUrl j) |}.

(** The local variables of [runPipeline] that live across groups, with the
    database and the trace of model requests. *)
Record RunState : Type := {
  st_db : Db;
  st_trace : list LlmCall;
  st_errors : list string;
  st_counts : Counts;
  st_seenInRunJobIds : gset string;
  st_seenStrongInRun : gset string
}.

(** [group.title_filter && group.title_filter.trim()]. *)
Definition titleFilterActive (g : SearchGroupRow.t) : bool :=
  (truthy (SearchGroupRow.title_filter g)
   && truthy (trim (SearchGroupRow.title_filter g)))%bool.

(** Whether a posting survives step 2. *)
Definition passesTitleFilter (g : SearchGroupRow.t) (j : JobPosting) : bool :=
  if titleFilterActive g
  then matchesTitleFilter (title j) (SearchGroupRow.title_filter g)
  else true.

(** [blacklistNames.has(j.company.toLowerCase().trim())]. *)
Definition isBlacklisted (blacklistNames : gset string) (j : JobPosting) : bool :=
  has blacklistNames (trim (toLowerCase (company j))).

(** [new Set(blacklist.map((b) => b.company_name.toLowerCase().trim()))]. *)
Definition blacklistNamesOf (rows : list BlacklistedCompanyRow.t) : gset string :=
  list_to_set
    (map (fun b => trim (toLowerCase (BlacklistedCompanyRow.company_name b))) rows).

(** Step 3a, first loop: [(batchDupes, batchUnique)]. *)
Fixpoint batchDedup (seenInBatch : gset string) (l : list JobPosting)
  : list JobPosting * list JobPosting :=
  match l with
  | [] => ([], [])
  | j :: rest =>
      if has seenInBatch (jobId j) then
        let '(dupes, unique) := batchDedup seenInBatch rest in (j :: dupes, unique)
      else
        let '(dupes, unique) := batchDedup (seenInBatch ∪ {[ jobId j ]}) rest in
        (dupes, j :: unique)
  end.

(** [for (const j of allFetched) seenInRunJobIds.add(j.jobId)]. *)
Definition addJobIds (seen : gset string) (l : list JobPosting) : gset string :=
  fold_left (fun s j => s ∪ {[ jobId j ]}) l seen.

(** [SELECT id, title, description FROM jobs WHERE lower(company) =
    lower(?) AND lower(title) = lower(?) AND is_duplicate = 0 AND
    ai_verdict = 'STRONG_MATCH' ORDER BY fetched_at DESC LIMIT 5].
    Rows with equal [fetched_at] keep their table order. *)
Fixpoint insertByFetchedAtDesc (r : JobRow.t) (sorted : list JobRow.t)
  : list JobRow.t :=
  match sorted with
  | [] => [r]
  | x :: rest =>
      if String.ltb (JobRow.fetched_at r) (JobRow.fetched_at x)
      then x :: insertByFetchedAtDesc r rest
      else r :: sorted
  end.

Definition orderByFetchedAtDesc (rows : list JobRow.t) : list JobRow.t :=
  fold_right insertByFetchedAtDesc [] rows.

Definition isPriorStrongMatch (companyName titleText : string) (r : JobRow.t) : bool :=
  (String.eqb (sqliteLower (JobRow.company r)) (sqliteLower companyName)
   && String.eqb (sqliteLower (JobRow.title r)) (sqliteLower titleText)
   && Z.eqb (JobRow.is_duplicate r) 0
   && String.eqb (JobRow.ai_verdict r) "STRONG_MATCH")%bool.

Definition selectExistingJobs (d : Db) (companyName titleText : string)
  : list ExistingJob :=
  map (fun r => {| ex_id := JobRow.id r; ex_title := JobRow.title r;
                   ex_description := JobRow.description r |})
      (firstn 5 (orderByFetchedAtDesc
                   (List.filter (isPriorStrongMatch companyName titleText) (jobs d)))).

(** [`${company.toLowerCase()}|||${title.toLowerCase()}`]. *)
Definition runKeyOf (s : ScoredJob) : string :=
  toLowerCase (company (job s)) +:+ "|||" +:+ toLowerCase (title (job s)).

(** What the loop of step 4b reads and writes. *)
Record DedupVars : Type := {
  dv_trace : list LlmCall;
  dv_seenStrongInRun : gset string;
  dv_counts : Counts
}.

(** [if (isDuplicate) jobsDuplicate++; else if (STRONG) ...]. *)
Definition countResult (isDup : bool) (v : Verdict) (c : Counts) : Counts :=
  if isDup then addDuplicate 1 c
  else match v with
       | STRONG_MATCH => addStrong 1 c
       | WEAK_MATCH => addWeak 1 c
       | NO_MATCH => addNoMatch 1 c
       end.

(** One iteration of [for (const scored of scoredJobs)]. *)
Definition dedupStep (env : Env) (settings : SettingsRow) (d : Db)
  (vars : DedupVars) (scored : ScoredJob) : JobResult.t * DedupVars :=
  let '(isDup, dupId, summ, trace', seen') :=
    if verdictEqb (verdict scored) STRONG_MATCH then
      let runKey := runKeyOf scored in
      if has (dv_seenStrongInRun vars) runKey then
        (* claimed this run: duplicate, no AI call *)
        (true, None, None, dv_trace vars, dv_seenStrongInRun vars)
      else
        let existingJobs :=
          selectExistingJobs d (company (job scored)) (title (job scored)) in
        let '(isDup, dupId, trace') :=
          match existingJobs with
          | [] => (false, None, dv_trace vars)
          | _ =>
              let '(dedup, trace') :=
                dedupAndSummarise (llm env) scored existingJobs settings
                  (dv_trace vars) in
              (isDuplicate dedup, duplicateOfId dedup, trace')
          end in
        if isDup then (true, dupId, None, trace', dv_seenStrongInRun vars)
        else (false, dupId, summary scored, trace',
              dv_seenStrongInRun vars ∪ {[ runKey ]})
    else (false, None, None, dv_trace vars, dv_seenStrongInRun vars) in
  ({| JobResult.scored := scored; JobResult.isDuplicate := isDup;
      JobResult.duplicateOfId := dupId; JobResult.summary := summ |},
   {| dv_trace := trace'; dv_seenStrongInRun := seen';
      dv_counts := countResult isDup (verdict scored) (dv_counts vars) |}).

Fixpoint dedupLoop (env : Env) (settings : SettingsRow) (d : Db)
  (vars : DedupVars) (scoredJobs : list ScoredJob)
  : list JobResult.t * DedupVars :=
  match scoredJobs with
  | [] => ([], vars)
  | scored :: rest =>
      let '(r, vars1) := dedupStep env settings d vars scored in
      let '(rs, vars2) := dedupLoop env settings d vars1 rest in
      (r :: rs, vars2)
  end.

(** [{ ...settings, ai_system_prompt: group.ai_system_prompt, ... }]. *)
Definition scoringSettingsOf (settings : SettingsRow) (g : SearchGroupRow.t)
  : SettingsRow :=
  {| ai_system_prompt := SearchGroupRow.ai_system_prompt g;
     ai_model := ai_model settings;
     dedup_system_prompt := dedup_system_prompt settings;
     summary_prompt := summary_prompt settings;
     score_no_match_max := SearchGroupRow.score_no_match_max g;
     score_weak_match_max := SearchGroupRow.score_weak_match_max g;
     score_strong_match_min := SearchGroupRow.score_strong_match_min g;
     email_recipient := email_recipient settings;
     email_enabled := email_enabled settings |}.

(** How an iteration of the group loop ends: normally (also by [continue]),
    or by an exception that leaves the loop. *)
Inductive Step : Type :=
  | Next (st : RunState)
  | Fatal (message : string) (st : RunState).

(** The three [JSON.parse] calls that open the loop body. *)
Definition parseGroup (g : SearchGroupRow.t) : option string :=
  match SearchGroupRow.keywords g with
  | inl msg => Some msg
  | inr _ =>
      match SearchGroupRow.locations g with
      | inl msg => Some msg
      | inr _ =>
          match SearchGroupRow.work_modes g with
          | inl msg => Some msg
          | inr _ => None
          end
      end
  end.

(** Steps 2 to 6 of the loop body, on the fetched list.  The guards
    [if (xs.length > 0)] of the source around the logging and storing
    transactions skip empty transactions and additions of zero; they are
    not repeated here. *)
Definition processFetched (env : Env) (settings : SettingsRow)
  (blacklistNames : gset string) (runId : Z) (g : SearchGroupRow.t)
  (st : RunState) (fetched : list JobPosting) : Step :=
  let gid := SearchGroupRow.id g in
  let counts := addFetched (len fetched) (st_counts st) in
  (* 2. Title filter *)
  let titleFiltered := List.filter (fun j => negb (passesTitleFilter g j)) fetched in
  let allFetched := List.filter (passesTitleFilter g) fetched in
  let d := insertJobLogs
             (map (plainLogRow runId gid "FILTERED" (now env)) titleFiltered)
             (st_db st) in
  (* 3. Blacklist filter *)
  let blacklistedJobs := List.filter (isBlacklisted blacklistNames) allFetched in
  let allFetched :=
    List.filter (fun j => negb (isBlacklisted blacklistNames j)) allFetched in
  (* 3a. Within-run dedup *)
  let '(batchDupes, batchUnique) := batchDedup ∅ allFetched in
  let withinRunDupes :=
    batchDupes
    ++ List.filter (fun j => has (st_seenInRunJobIds st) (jobId j)) batchUnique in
  let allFetched :=
    List.filter (fun j => negb (has (st_seenInRunJobIds st) (jobId j))) batchUnique in
  let seenInRun := addJobIds (st_seenInRunJobIds st) allFetched in
  let counts := addDuplicate (len withinRunDupes) counts in
  let d := insertJobLogs
             (map (plainLogRow runId gid "DUPLICATE" (now env)) withinRunDupes) d in
  (* 3b. Provider-level dedup *)
  let '(newJobs, providerDupes) := filterNewJobs d allFetched in
  let counts := addDuplicate (len providerDupes) counts in
  let d := insertJobLogs
             (map (plainLogRow runId gid "DUPLICATE" (now env)) providerDupes) d in
  (* 4. Score all new jobs (Call 1) *)
  let scoringSettings := scoringSettingsOf settings g in
  let '(scoredJobs, trace) :=
    scoreJobs (llm env) newJobs scoringSettings (st_trace st) in
  let counts := addScored (len scoredJobs) counts in
  (* 4b. Dedup for strong matches (Call 2) *)
  let '(jobResults, vars) :=
    dedupLoop env settings d
      {| dv_trace := trace; dv_seenStrongInRun := st_seenStrongInRun st;
         dv_counts := counts |}
      scoredJobs in
  (* 5. Log all jobs from this group *)
  let d := insertJobLogs
             (map (plainLogRow runId gid "BLACKLISTED" (now env)) blacklistedJobs
              ++ map (scoredLogRow runId gid (now env)) jobResults) d in
  (* Store blacklisted jobs in the jobs table *)
  let afterBlacklisted :=
    insertJobs (map (blacklistedJobRow gid (now env)) blacklistedJobs) d in
  let d := match afterBlacklisted with inr d' => d' | inl _ => d end in
  let mk (d' : Db) : RunState :=
    {| st_db := d'; st_trace := dv_trace vars; st_errors := st_errors st;
       st_counts := dv_counts vars; st_seenInRunJobIds := seenInRun;
       st_seenStrongInRun := dv_seenStrongInRun vars |} in
  match afterBlacklisted with
  | inl msg => Fatal msg (mk d)
  | inr _ =>
      (* 6. Store all scored jobs *)
      match insertJobs (map (scoredJobRow gid (now env)) jobResults) d with
      | inr d' => Next (mk d')
      | inl msg => Fatal msg (mk d)
      end
  end.

Definition withErrors (st : RunState) (errs : list string) : RunState :=
  {| st_db := st_db st; st_trace := st_trace st; st_errors := errs;
     st_counts := st_counts st; st_seenInRunJobIds := st_seenInRunJobIds st;
     st_seenStrongInRun := st_seenStrongInRun st |}.

Definition withDb (st : RunState) (d : Db) : RunState :=
  {| st_db := d; st_trace := st_trace st; st_errors := st_errors st;
     st_counts := st_counts st; st_seenInRunJobIds := st_seenInRunJobIds st;
     st_seenStrongInRun := st_seenStrongInRun st |}.

(** The body of [for (const group of groups)]. *)
Definition processGroup (env : Env) (settings : SettingsRow)
  (blacklistNames : gset string) (runId : Z) (st : RunState)
  (g : SearchGroupRow.t) : Step :=
  if Z.eqb (SearchGroupRow.is_active g) 0 then Next st
  else
    match parseGroup g with
    | Some msg => Fatal msg st
    | None =>
        (* 1. Fetch *)
        match fetchJobs env g with
        | inl msg =>
            Next (withErrors st
                    (st_errors st
                     ++ ["Group " +:+ showZ (SearchGroupRow.id g)
                         +:+ " fetch error: " +:+ msg]))
        | inr allFetched =>
            processFetched env settings blacklistNames runId g st allFetched
        end
    end.

Fixpoint runGroups (env : Env) (settings : SettingsRow)
  (blacklistNames : gset string) (runId : Z) (groups : list SearchGroupRow.t)
  (st : RunState) : Step :=
  match groups with
  | [] => Next st
  | g :: rest =>
      match processGroup env settings blacklistNames runId st g with
      | Next st' => runGroups env settings blacklistNames runId rest st'
      | Fatal msg st' => Fatal msg st'
      end
  end.

(** [INSERT INTO search_runs (ran_at, status, trigger) VALUES (?,
    'running', ?)]; the result is [lastInsertRowid] and the database. *)
Definition insertRunningRun (ranAt : string) (trigger : Trigger) (d : Db) : Z * Db :=
  let i := nextId (search_runs_seq d) (map SearchRunRow.id (search_runs d)) in
  (i, setRuns d
        (search_runs d
         ++ [{| SearchRunRow.id := i; SearchRunRow.ran_at := ranAt;
                SearchRunRow.jobs_fetched := 0; SearchRunRow.jobs_scored := 0;
                SearchRunRow.jobs_strong_match := 0;
                SearchRunRow.jobs_weak_match := 0;
                SearchRunRow.jobs_no_match := 0;
                SearchRunRow.jobs_duplicate := 0;
                SearchRunRow.status := "running";
                SearchRunRow.error_log := None;
                SearchRunRow.duration_ms := None;
                SearchRunRow.trigger := triggerName trigger |}])
        i).

(** The fallback of the [catch] block: [INSERT INTO search_runs (...)
    VALUES (?, 0, 0, 0, 0, 0, 0, 'failed', ?, ?, ?)]. *)
Definition insertFailedRun (ranAt errorMsg : string) (durationMs : Z)
  (trigger : Trigger) (d : Db) : Db :=
  let i := nextId (search_runs_seq d) (map SearchRunRow.id (search_runs d)) in
  setRuns d
    (search_runs d
     ++ [{| SearchRunRow.id := i; SearchRunRow.ran_at := ranAt;
            SearchRunRow.jobs_fetched := 0; SearchRunRow.jobs_scored := 0;
            SearchRunRow.jobs_strong_match := 0;
            SearchRunRow.jobs_weak_match := 0;
            SearchRunRow.jobs_no_match := 0;
            SearchRunRow.jobs_duplicate := 0;
            SearchRunRow.status := "failed";
            SearchRunRow.error_log := Some errorMsg;
            SearchRunRow.duration_ms := Some durationMs;
            SearchRunRow.trigger := triggerName trigger |}])
    i.

(** [UPDATE search_runs SET ... WHERE id = ?]. *)
Definition updateRuns (runId : Z) (f : SearchRunRow.t -> SearchRunRow.t) (d : Db) : Db :=
  setRuns d
    (map (fun r => if Z.eqb (SearchRunRow.id r) runId then f r else r)
         (search_runs d))
    (search_runs_seq d).

(** [SET status = 'failed', error_log = ?, duration_ms = ?]. *)
Definition markFailed (errorMsg : string) (durationMs : Z) (r : SearchRunRow.t)
  : SearchRunRow.t :=
  {| SearchRunRow.id := SearchRunRow.id r;
     SearchRunRow.ran_at := SearchRunRow.ran_at r;
     SearchRunRow.jobs_fetched := SearchRunRow.jobs_fetched r;
     SearchRunRow.jobs_scored := SearchRunRow.jobs_scored r;
     SearchRunRow.jobs_strong_match := SearchRunRow.jobs_strong_match r;
     SearchRunRow.jobs_weak_match := SearchRunRow.jobs_weak_match r;
     SearchRunRow.jobs_no_match := SearchRunRow.jobs_no_match r;
     SearchRunRow.jobs_duplicate := SearchRunRow.jobs_duplicate r;
     SearchRunRow.status := "failed";
     SearchRunRow.error_log := Some errorMsg;
     SearchRunRow.duration_ms := Some durationMs;
     SearchRunRow.trigger := SearchRunRow.trigger r |}.

(** Step 8: [SET jobs_fetched = ?, ..., status = ?, error_log = ?,
    duration_ms = ?]. *)
Definition finalize (c : Counts) (status : RunStatus) (errorLog : option string)
  (durationMs : Z) (r : SearchRunRow.t) : SearchRunRow.t :=
  {| SearchRunRow.id := SearchRunRow.id r;
     SearchRunRow.ran_at := SearchRunRow.ran_at r;
     SearchRunRow.jobs_fetched := jobsFetched c;
     SearchRunRow.jobs_scored := jobsScored c;
     SearchRunRow.jobs_strong_match := jobsStrongMatch c;
     SearchRunRow.jobs_weak_match := jobsWeakMatch c;
     SearchRunRow.jobs_no_match := jobsNoMatch c;
     SearchRunRow.jobs_duplicate := jobsDuplicate c;
     SearchRunRow.status := statusName status;
     SearchRunRow.error_log := errorLog;
     SearchRunRow.duration_ms := Some durationMs;
     SearchRunRow.trigger := SearchRunRow.trigger r |}.

Definition mkResult (ranAt : string) (durationMs : Z) (c : Counts)
  (status : RunStatus) (errorLog : option string) (trigger : Trigger)
  : PipelineResult.t :=
  {| PipelineResult.ranAt := ranAt;
     PipelineResult.durationMs := durationMs;
     PipelineResult.jobsFetched := jobsFetched c;
     PipelineResult.jobsScored := jobsScored c;
     PipelineResult.jobsStrongMatch := jobsStrongMatch c;
     PipelineResult.jobsWeakMatch := jobsWeakMatch c;
     PipelineResult.jobsNoMatch := jobsNoMatch c;
     PipelineResult.jobsDuplicate := jobsDuplicate c;
     PipelineResult.status := status;
     PipelineResult.errorLog := errorLog;
     PipelineResult.trigger := trigger |}.

(** [errors.length > 0 ? errors.join('\n') : null]. *)
Definition errorLogOf (errors : list string) : option string :=
  match errors with [] => None | _ => Some (join nl errors) end.

(** Step 7. *)
Definition emailStep (env : Env) (settings : SettingsRow) (st : RunState) : RunState :=
  if Z.eqb (email_enabled settings) 0 then st
  else
    let c := st_counts st in
    let emailStats :=
      {| rs_jobsFetched := jobsFetched c; rs_jobsScored := jobsScored c;
         rs_strongMatch := jobsStrongMatch c; rs_weakMatch := jobsWeakMatch c;
         rs_noMatch := jobsNoMatch c; rs_duplicates := jobsDuplicate c |} in
    match sendDailyReport env emailStats (email_recipient settings) (st_db st) with
    | (inl msg, d) =>
        withErrors (withDb st d) (st_errors st ++ ["Email send error: " +:+ msg])
    | (inr _, d) => withDb st d
    end.

(** The process-wide state of the runner module, with the database it
    works on and the requests made to the model so far. *)
Record Process : Type := {
  isRunning : bool;
  lastRunResult : option PipelineResult.t;
  database : Db;
  llmTrace : list LlmCall
}.

(** How the [try] block ends. *)
Inductive TryOutcome : Type :=
  | Returned (result : PipelineResult.t) (d : Db) (trace : list LlmCall)
  | Caught (errorMsg : string) (runId : option Z) (d : Db) (trace : list LlmCall).

(** The [try] block of [runPipeline]. *)
Definition tryBlock (env : Env) (trigger : Trigger) (d : Db)
  (trace : list LlmCall) : TryOutcome :=
  match settings_row d with
  | None => Caught "Settings not found in database" None d trace
  | Some settings =>
      let groups := search_groups d in
      match groups with
      | [] => Caught "No roles configured. Add at least one role in Settings."
                None d trace
      | _ =>
          let blacklistNames := blacklistNamesOf (blacklisted_companies d) in
          let '(runId, d1) := insertRunningRun (now env) trigger d in
          let st0 := {| st_db := d1; st_trace := trace; st_errors := [];
                        st_counts := zeroCounts; st_seenInRunJobIds := ∅;
                        st_seenStrongInRun := ∅ |} in
          match runGroups env settings blacklistNames runId groups st0 with
          | Fatal msg st => Caught msg (Some runId) (st_db st) (st_trace st)
          | Next st =>
              let st := emailStep env settings st in
              let durationMs := elapsedMs env in
              let status := match st_errors st with
                            | [] => success | _ => partial_error end in
              let errorLog := errorLogOf (st_errors st) in
              let d2 := updateRuns runId
                          (finalize (st_counts st) status errorLog durationMs)
                          (st_db st) in
              Returned (mkResult (now env) durationMs (st_counts st) status
                          errorLog trigger)
                       d2 (st_trace st)
          end
      end
  end.

(** The [catch] block: record the failure on the run row, or insert one. *)
Definition catchBlock (env : Env) (trigger : Trigger) (errorMsg : string)
  (runId : option Z) (d : Db) : PipelineResult.t * Db :=
  let durationMs := elapsedMs env in
  let d' := match runId with
            | Some i => updateRuns i (markFailed errorMsg durationMs) d
            | None => insertFailedRun (now env) errorMsg durationMs trigger d
            end in
  (mkResult (now env) durationMs zeroCounts failed (Some errorMsg) trigger, d').

(** The result returned when a run is already in progress. *)
Definition alreadyRunning (env : Env) (trigger : Trigger) : PipelineResult.t :=
  mkResult (now env) 0 zeroCounts failed (Some "Pipeline already running") trigger.

Definition setRunning (b : bool) (p : Process) : Process :=
  {| isRunning := b; lastRunResult := lastRunResult p;
     database := database p; llmTrace := llmTrace p |}.

(** [try { ... } catch { ... }] of a run that passed the gate; the flag is
    not touched here. *)
Definition runBody (env : Env) (trigger : Trigger) (p : Process)
  : PipelineResult.t * Process :=
  match tryBlock env trigger (database p) (llmTrace p) with
  | Returned result d trace =>
      (result, {| isRunning := isRunning p; lastRunResult := Some result;
                  database := d; llmTrace := trace |})
  | Caught errorMsg runId d trace =>
      let '(result, d') := catchBlock env trigger errorMsg runId d in
      (result, {| isRunning := isRunning p; lastRunResult := Some result;
                  database := d'; llmTrace := trace |})
  end.

(** [runPipeline]: the gate, [isRunning = true], the body, and the
    [finally] that clears the flag. *)
Definition runPipeline (env : Env) (trigger : Trigger) (p : Process)
  : PipelineResult.t * Process :=
  if isRunning p then (alreadyRunning env trigger, p)
  else
    let '(result, p') := runBody env trigger (setRunning true p) in
    (result, setRunning false p').

(** Runs overlap only at their [await]s.  A trigger that arrives while a
    run is suspended there executes the gate of [runPipeline] at once.  The
    system below keeps the number of runs that passed the gate and have not
    yet reached [finally]. *)
Record System : Type := {
  proc : Process;
  inFlight : nat
}.

Inductive Event : Type :=
  | Arrive (env : Env) (trigger : Trigger)    (* runPipeline is invoked *)
  | Settle (env : Env) (trigger : Trigger).   (* a run in flight ends *)

Definition step (s : System) (e : Event) : System :=
  match e with
  | Arrive env trigger =>
      if isRunning (proc s) then s
      else {| proc := setRunning true (proc s); inFlight := S (inFlight s) |}
  | Settle env trigger =>
      match inFlight s with
      | O => s
      | S n =>
          {| proc := setRunning false (snd (runBody env trigger (proc s)));
             inFlight := n |}
      end
  end.

Definition steps (s : System) (es : list Event) : System := fold_left step es s.


(* ================================================================== *)
(** ** More of the JavaScript library                                  *)
(* ================================================================== *)

(** [s.includes(sub)]. *)
Fixpoint includes (s sub : string) : bool :=
  (String.prefix sub s
   || match s with
      | EmptyString => false
      | String _ s' => includes s' sub
      end)%bool.

(** [o || d] on an optional string: [undefined] and [''] give [d]. *)
Definition orElse (o : option string) (d : string) : string :=
  match o with
  | Some s => if truthy s then s else d
  | None => d
  end.

Definition digitValue (c : ascii) : Z := Z.of_N (code c) - 48.

(** The value of the longest prefix of decimal digits, after [acc]. *)
Fixpoint readDigits (acc : Z) (s : string) : Z :=
  match s with
  | String c s' => if isDigit c then readDigits (10 * acc + digitValue c) s' else acc
  | EmptyString => acc
  end.

Definition startsWithDigit (s : string) : bool :=
  match s with String c _ => isDigit c | EmptyString => false end.

(** [parseInt(s, 10)]: leading white space is skipped, then an optional
    sign, then the longest run of decimal digits; [None] is [NaN].  The
    value is the mathematical integer; the code below only compares it with
    integers of at most sixteen digits and stores it when it has at most
    three, where the Number that [parseInt] returns is that integer. *)
Definition parseInt10 (s : string) : option Z :=
  let t := trimStart s in
  let '(negative, body) :=
    match t with
    | String "-" r => (true, r)
    | String "+" r => (false, r)
    | _ => (false, t)
    end in
  if startsWithDigit body
  then Some (if negative then - readDigits 0 body else readDigits 0 body)
  else None.

(* ================================================================== *)
(** ** fetcher.ts                                                      *)
(* ================================================================== *)

Module Fetcher.

(** [HarvestJobLocation] and [HarvestJob], as the interfaces declare them.
    An optional field is an [option]; the fields of [HarvestJob] carry the
    prefix [hj_] here. *)
Record ParsedLocation : Type := {
  city : option string;
  state : option string;
  country : option string
}.

Record HarvestJobLocation : Type := {
  linkedinText : option string;
  parsed : option ParsedLocation
}.

Inductive LocationField : Type :=
  | LocationText (s : string)
  | LocationObject (l : HarvestJobLocation).

Inductive CompanyField : Type :=
  | CompanyText (s : string)
  | CompanyObject (name : option string).

(** [string | number]; the provider's numbers are integer time stamps. *)
Inductive RawDate : Type :=
  | DateText (s : string)
  | DateNumber (n : Z).

Record HarvestJob : Type := {
  hj_id : option string;
  hj_jobId : option string;
  hj_title : option string;
  hj_companyName : option string;
  hj_company : option CompanyField;
  hj_location : option LocationField;
  hj_workplaceType : option string;
  hj_descriptionText : option string;
  hj_description : option string;
  hj_descriptionHtml : option string;
  hj_linkedinUrl : option string;
  hj_applyUrl : option string;
  hj_url : option string;
  hj_postedDate : option string;
  hj_listedAt : option RawDate
}.

(** What the code asks of [Date]: the date part of [toISOString()] of a
    valid time value, the time value of [new Date(text)] ([None] when it is
    NaN), and the time value of [new Date()]. *)
Record DateApi : Type := {
  isoDateOf : Z -> string;
  timeOf : string -> option Z;
  currentTime : Z
}.

(** A time value is valid up to 8.64e15 milliseconds from the epoch;
    [toISOString] throws a RangeError on any other. *)
Definition validTime (ms : Z) : bool := Z.leb (Z.abs ms) 8640000000000000.

(** The provider: [client.actor(...).call(actorInput)] followed by
    [client.dataset(...).listItems()].  [actorInput] holds the key words and
    the locations of the filters, and constants. *)
Record ProviderApi : Type := {
  runActor : list string -> list string -> string + list HarvestJob
}.

(** The class [[_\s-]]. *)
Definition isSeparator (c : ascii) : bool :=
  (isChr "_" c || isWhiteSpace c || isChr "-" c)%bool.

Definition normalizeWorkMode (raw : option string) : string :=
  let val := replaceAll (Chr isSeparator) "" (toLowerCase (orElse raw "")) in
  if includes val "remote" then "remote"
  else if includes val "hybrid" then "hybrid"
  else "onsite".

Definition getCompanyName (item : HarvestJob) : string :=
  match hj_companyName item with
  | Some (String c s) => String c s
  | _ =>
      match hj_company item with
      | Some (CompanyText s) => s
      | Some (CompanyObject (Some (String c s))) => String c s
      | _ => "Unknown Company"
      end
  end.

Definition getLocationText (loc : option LocationField) : string :=
  match loc with
  | None => ""
  | Some (LocationText s) => s
  | Some (LocationObject l) =>
      orElse (linkedinText l)
        (orElse (match parsed l with Some p => city p | None => None end) "")
  end.

(** [!raw]. *)
Definition falsyDate (raw : option RawDate) : bool :=
  match raw with
  | None => true
  | Some (DateText s) => negb (truthy s)
  | Some (DateNumber n) => Z.eqb n 0
  end.

(** [String(raw)]. *)
Definition dateText (raw : RawDate) : string :=
  match raw with DateText s => s | DateNumber n => showZ n end.

(** [typeof raw === 'number' ? raw : parseInt(String(raw), 10)], when the
    test [!isNaN(ts) && ts > 1_000_000_000] accepts it. *)
Definition timeStampOf (raw : RawDate) : option Z :=
  let ts := match raw with
            | DateNumber n => Some n
            | DateText s => parseInt10 s
            end in
  match ts with
  | Some t => if Z.ltb 1000000000 t then Some t else None
  | None => None
  end.

(** [parsePostedDate]: the message of the RangeError that [toISOString]
    throws ([inl]), or the date and its confidence. *)
Definition parsePostedDate (dates : DateApi) (raw : option RawDate)
  : string + (option string * Confidence) :=
  match raw with
  | None => inr (None, LOW)
  | Some r =>
      if falsyDate raw then inr (None, LOW)
      else
        match timeStampOf r with
        | Some ts =>
            let ms := if Z.ltb 1000000000000 ts then ts else ts * 1000 in
            if validTime ms then inr (Some (isoDateOf dates ms), HIGH)
            else inl "Invalid time value"
        | None =>
            match timeOf dates (dateText r) with
            | Some time => inr (Some (isoDateOf dates time), HIGH)
            | None => inr (None, LOW)
            end
        end
  end.

Definition mapToJobPosting (dates : DateApi) (item : HarvestJob)
  : string + JobPosting :=
  let jobId := orElse (hj_id item) (orElse (hj_jobId item) "") in
  let rawDate := match hj_postedDate item with
                 | Some s => Some (DateText s)
                 | None => hj_listedAt item
                 end in
  match parsePostedDate dates rawDate with
  | inl msg => inl msg
  | inr (date, confidence) =>
      let description :=
        orElse (hj_descriptionHtml item)
          (orElse (hj_descriptionText item) (orElse (hj_description item) "")) in
      let url :=
        orElse (hj_linkedinUrl item)
          (orElse (hj_url item)
             (if truthy jobId
              then "https://www.linkedin.com/jobs/view/" +:+ jobId +:+ "/"
              else "")) in
      let applyUrl :=
        match hj_applyUrl item with
        | Some a => if (truthy a && negb (String.eqb a url))%bool then Some a else None
        | None => None
        end in
      inr {| jobId := jobId;
             title := orElse (hj_title item) "Unknown Title";
             company := getCompanyName item;
             location := getLocationText (hj_location item);
             workMode := normalizeWorkMode (hj_workplaceType item);
             url := url;
             applyUrl := applyUrl;
             postedDate := date;
             postedDateConfidence := confidence;
             description := take 20000 description |}
  end.

(** [filterByTimeWindow]: the cutoff is 48 hours before now; a date that
    does not parse compares false. *)
Definition filterByTimeWindow (dates : DateApi) (job : JobPosting) : bool :=
  match postedDate job with
  | None => true
  | Some d =>
      if truthy d then
        match timeOf dates d with
        | Some posted => Z.leb (currentTime dates - 172800000) posted
        | None => false
        end
      else true
  end.

(** [items.map(mapToJobPosting)]: the first exception ends it. *)
Fixpoint mapItems (dates : DateApi) (items : list HarvestJob)
  : string + list JobPosting :=
  match items with
  | [] => inr []
  | item :: rest =>
      match mapToJobPosting dates item with
      | inl msg => inl msg
      | inr j =>
          match mapItems dates rest with
          | inl msg => inl msg
          | inr js => inr (j :: js)
          end
      end
  end.

(** [fetchJobs]: the work modes and the job type of the filters are not
    sent to the provider. *)
Definition fetchJobs (api : ProviderApi) (dates : DateApi)
  (keywords locations workModes : list string) (jobType : string)
  : string + list JobPosting :=
  match runActor api keywords locations with
  | inl msg => inl msg
  | inr items =>
      match mapItems dates items with
      | inl msg => inl msg
      | inr jobs =>
          inr (List.filter (filterByTimeWindow dates)
                 (List.filter (fun j => truthy (jobId j)) jobs))
      end
  end.

End Fetcher.

(* ================================================================== *)
(** ** emailReport.ts: escapeHtml                                      *)
(* ================================================================== *)

Definition escapeHtml (str : string) : string :=
  let s := replaceAll (lit "&") "&amp;" str in
  let s := replaceAll (lit "<") "&lt;" s in
  let s := replaceAll (lit ">") "&gt;" s in
  let s := replaceAll (lit dquote) "&quot;" s in
  replaceAll (lit "'") "&#39;" s.

(* ================================================================== *)
(** ** scheduler.ts                                                    *)
(* ================================================================== *)

Module Scheduler.

(** What the code asks of [node-cron]: [cron.validate], and whether
    [cron.schedule] throws for an expression and a time zone. *)
Record CronApi : Type := {
  validate : string -> bool;
  scheduleThrows : string -> string -> option string
}.

(** A task returned by [cron.schedule]; [task_id] tells tasks apart. *)
Record ScheduledTask : Type := {
  task_id : nat;
  task_expression : string;
  task_timezone : string
}.

(** The three variables of the module, with the library's side of the
    matter: the tasks that were scheduled and not stopped, and the number
    of tasks scheduled so far. *)
Record State : Type := {
  cronJob : option ScheduledTask;
  activeExpression : option string;
  activeTimezone : option string;
  ticking : list ScheduledTask;
  scheduled : nat
}.

Definition initial : State :=
  {| cronJob := None; activeExpression := None; activeTimezone := None;
     ticking := []; scheduled := 0 |}.

Definition stopSchedule (s : State) : State :=
  match cronJob s with
  | Some t =>
      {| cronJob := None; activeExpression := None; activeTimezone := None;
         ticking := List.filter (fun x => negb (Nat.eqb (task_id x) (task_id t)))
                      (ticking s);
         scheduled := scheduled s |}
  | None => s
  end.

(** [startSchedule]: the message of an exception of [cron.schedule], if
    any, and the state. *)
Definition startSchedule (api : CronApi) (expression timezone : string) (s : State)
  : option string * State :=
  let s1 := stopSchedule s in
  let expression := if validate api expression then expression else "0 7 * * *" in
  match scheduleThrows api expression timezone with
  | Some msg => (Some msg, s1)
  | None =>
      let t := {| task_id := scheduled s1; task_expression := expression;
                  task_timezone := timezone |} in
      (None,
       {| cronJob := Some t; activeExpression := Some expression;
          activeTimezone := Some timezone;
          ticking := ticking s1 ++ [t]; scheduled := S (scheduled s1) |})
  end.

Record Status : Type := {
  active : bool;
  expression : option string;
  timezone : option string
}.

Definition getScheduleStatus (s : State) : Status :=
  {| active := match cronJob s with Some _ => true | None => false end;
     expression := activeExpression s;
     timezone := activeTimezone s |}.

(** The calls that other modules make. *)
Inductive Call : Type :=
  | Start (expression timezone : string)
  | Stop.

Definition call (api : CronApi) (s : State) (c : Call) : State :=
  match c with
  | Start expression timezone => snd (startSchedule api expression timezone s)
  | Stop => stopSchedule s
  end.

End Scheduler.

(* ================================================================== *)
(** ** routes/jobs.ts, routes/analytics.ts: extractCountry             *)
(* ================================================================== *)

Definition AGGREGATES : gset string :=
  list_to_set
    ["emea"; "european union"; "european economic area"; "eea";
     "eu"; "worldwide"; "global"; "international"; "apac"; "latam";
     "mena"; "dach"; "benelux"; "cee"; "anz"].

Definition REGION_TO_COUNTRY : list (string * string) :=
  [("greater london metropolitan area", "United Kingdom");
   ("greater london", "United Kingdom");
   ("greater manchester", "United Kingdom");
   ("greater barcelona metropolitan area", "Spain");
   ("greater madrid metropolitan area", "Spain");
   ("basque country", "Spain");
   ("catalonia", "Spain");
   ("community of madrid", "Spain");
   ("ile-de-france", "France");
   ("grand paris", "France");
   ("greater paris metropolitan area", "France");
   ("north holland", "Netherlands");
   ("greater amsterdam metropolitan area", "Netherlands");
   ("greater berlin metropolitan area", "Germany");
   ("bavaria", "Germany");
   ("flanders", "Belgium");
   ("wallonia", "Belgium");
   ("lombardy", "Italy");
   ("greater milan metropolitan area", "Italy");
   ("greater warsaw metropolitan area", "Poland");
   ("masovian voivodeship", "Poland")].

(** What [extractCountry] returns: a text, or, for a key that an object
    literal inherits, the inherited value, which is not a string. *)
Inductive Country : Type :=
  | CountryName (name : string)
  | Inherited (key : string).

(** The properties that an object literal inherits from [Object.prototype]. *)
Definition objectPrototypeKeys : list string :=
  ["constructor"; "__proto__"; "hasOwnProperty"; "isPrototypeOf";
   "propertyIsEnumerable"; "toLocaleString"; "toString"; "valueOf";
   "__defineGetter__"; "__defineSetter__"; "__lookupGetter__"; "__lookupSetter__"].

Fixpoint assoc (key : string) (table : list (string * string)) : option string :=
  match table with
  | [] => None
  | (k, v) :: rest => if String.eqb k key then Some v else assoc key rest
  end.

(** [REGION_TO_COUNTRY[key] ?? fallback]. *)
Definition regionOr (key fallback : string) : Country :=
  match assoc key REGION_TO_COUNTRY with
  | Some v => CountryName v
  | None =>
      if existsb (String.eqb key) objectPrototypeKeys then Inherited key
      else CountryName fallback
  end.

Module JobsRoute.

Definition extractCountry (location : option string) : Country :=
  match location with
  | None => CountryName "Remote / Unknown"
  | Some l =>
      if truthy l then
        let trimmed := trim l in
        if (negb (truthy trimmed) || String.eqb (toLowerCase trimmed) "remote")%bool
        then CountryName "Remote / Unknown"
        else if has AGGREGATES (toLowerCase trimmed) then CountryName trimmed
        else
          let parts := List.filter truthy (map trim (splitOn "," trimmed)) in
          match List.last (map Some parts) None with
          | None => CountryName trimmed
          | Some last =>
              if has AGGREGATES (toLowerCase last) then CountryName last
              else
                match parts with
                | [_] => regionOr (toLowerCase last) last
                | _ => CountryName last
                end
          end
      else CountryName "Remote / Unknown"
  end.

End JobsRoute.

Module AnalyticsRoute.

Definition extractCountry (location : option string) : Country :=
  match location with
  | None => CountryName "Unknown"
  | Some l =>
      if truthy l then
        let trimmed := trim l in
        if (negb (truthy trimmed) || String.eqb (toLowerCase trimmed) "remote")%bool
        then CountryName "Remote"
        else if has AGGREGATES (toLowerCase trimmed) then CountryName trimmed
        else
          let parts := List.filter truthy (map trim (splitOn "," trimmed)) in
          match List.last (map Some parts) None with
          | None => CountryName trimmed
          | Some last =>
              if has AGGREGATES (toLowerCase last) then CountryName last
              else
                match parts with
                | [_] => regionOr (toLowerCase last) last
                | _ => CountryName last
                end
          end
      else CountryName "Unknown"
  end.

End AnalyticsRoute.

(* ================================================================== *)
(** ** db.ts: seedSettings                                             *)
(* ================================================================== *)

(** The server: the process-wide state of the runner, with its database,
    and the AUTOINCREMENT counter of [search_groups], which is not part of
    [Db]. *)
Record Server : Type := {
  runner : Process;
  search_groups_seq : Z
}.

Definition setGroups (d : Db) (gs : list SearchGroupRow.t) : Db :=
  {| settings_row := settings_row d; search_groups := gs;
     blacklisted_companies := blacklisted_companies d;
     jobs := jobs d; jobs_seq := jobs_seq d;
     search_runs := search_runs d; search_runs_seq := search_runs_seq d;
     run_job_logs := run_job_logs d |}.

Definition setSettings (d : Db) (cfg : option SettingsRow) : Db :=
  {| settings_row := cfg; search_groups := search_groups d;
     blacklisted_companies := blacklisted_companies d;
     jobs := jobs d; jobs_seq := jobs_seq d;
     search_runs := search_runs d; search_runs_seq := search_runs_seq d;
     run_job_logs := run_job_logs d |}.

Definition setDatabase (p : Process) (d : Db) : Process :=
  {| isRunning := isRunning p; lastRunResult := lastRunResult p;
     database := d; llmTrace := llmTrace p |}.

Definition withDatabase (s : Server) (d : Db) : Server :=
  {| runner := setDatabase (runner s) d; search_groups_seq := search_groups_seq s |}.

Definition DEFAULT_LOCATIONS : list string :=
  ["London"; "Berlin"; "Cyprus"; "Netherlands"; "Spain"; "Armenia"].

Definition DEFAULT_KEYWORDS : list string :=
  ["Product Manager"; "Product Lead"; "Head of Product"; "Product Director";
   "Group Product Manager"].

(** [INSERT INTO search_groups (...)]: the new row takes the next key.  A
    column that holds [JSON.stringify] of an array of strings is kept as
    what [JSON.parse] reads back from it, the array. *)
Definition insertGroup (row : SearchGroupRow.t) (s : Server) : Z * Server :=
  let d := database (runner s) in
  let i := nextId (search_groups_seq s) (map SearchGroupRow.id (search_groups d)) in
  let row' :=
    {| SearchGroupRow.id := i;
       SearchGroupRow.group_name := SearchGroupRow.group_name row;
       SearchGroupRow.locations := SearchGroupRow.locations row;
       SearchGroupRow.keywords := SearchGroupRow.keywords row;
       SearchGroupRow.job_type := SearchGroupRow.job_type row;
       SearchGroupRow.work_modes := SearchGroupRow.work_modes row;
       SearchGroupRow.ai_system_prompt := SearchGroupRow.ai_system_prompt row;
       SearchGroupRow.title_filter := SearchGroupRow.title_filter row;
       SearchGroupRow.score_no_match_max := SearchGroupRow.score_no_match_max row;
       SearchGroupRow.score_weak_match_max := SearchGroupRow.score_weak_match_max row;
       SearchGroupRow.score_strong_match_min := SearchGroupRow.score_strong_match_min row;
       SearchGroupRow.is_active := SearchGroupRow.is_active row |} in
  (i, {| runner := setDatabase (runner s) (setGroups d (search_groups d ++ [row']));
         search_groups_seq := i |}).

(** [seedSettings].  The texts of the two default prompts are parameters.
    Columns that the INSERT statements do not list take the defaults of
    the schema: [summary_prompt] is empty, [email_enabled] is 1, and the
    group has no name, no title filter, the thresholds 50, 70, 71 and is
    active. *)
Definition seedSettings (DEFAULT_AI_SYSTEM_PROMPT DEFAULT_DEDUP_SYSTEM_PROMPT : string)
  (s : Server) : Server :=
  let d := database (runner s) in
  match settings_row d with
  | Some _ => s
  | None =>
      let s1 :=
        withDatabase s
          (setSettings d
             (Some {| ai_system_prompt := DEFAULT_AI_SYSTEM_PROMPT;
                      ai_model := "gpt-5.2";
                      dedup_system_prompt := DEFAULT_DEDUP_SYSTEM_PROMPT;
                      summary_prompt := "";
                      score_no_match_max := 50;
                      score_weak_match_max := 70;
                      score_strong_match_min := 71;
                      email_recipient := "";
                      email_enabled := 1 |})) in
      match search_groups d with
      | [] =>
          snd (insertGroup
                 {| SearchGroupRow.id := 0;
                    SearchGroupRow.group_name := "";
                    SearchGroupRow.locations := inr DEFAULT_LOCATIONS;
                    SearchGroupRow.keywords := inr DEFAULT_KEYWORDS;
                    SearchGroupRow.job_type := "fullTime";
                    SearchGroupRow.work_modes := inr ["remote"; "hybrid"; "onsite"];
                    SearchGroupRow.ai_system_prompt := DEFAULT_AI_SYSTEM_PROMPT;
                    SearchGroupRow.title_filter := "";
                    SearchGroupRow.score_no_match_max := 50;
                    SearchGroupRow.score_weak_match_max := 70;
                    SearchGroupRow.score_strong_match_min := 71;
                    SearchGroupRow.is_active := 1 |}
                 s1)
      | _ => s1
      end
  end.

(** The database that [initSchema] creates, in a process that has not run
    the pipeline. *)
Definition freshServer : Server :=
  {| runner :=
       {| isRunning := false; lastRunResult := None;
          database :=
            {| settings_row := None; search_groups := [];
               blacklisted_companies := []; jobs := []; jobs_seq := 0;
               search_runs := []; search_runs_seq := 0; run_job_logs := [] |};
          llmTrace := [] |};
     search_groups_seq := 0 |}.

(* ================================================================== *)
(** ** routes/api.ts: groups, jobs, manual run                         *)
(* ================================================================== *)

Module Api.

(** The four errors of [parseGroupBody], for their messages. *)
Inductive GroupError : Type :=
  | NoLocation            (* At least one location is required. *)
  | NoKeyword             (* At least one keyword is required. *)
  | NoWorkMode            (* At least one work mode is required. *)
  | InvalidThresholds.    (* Invalid score thresholds. Ensure: ... *)

(** A value of the body that the code reads as [String(b.x || default)]:
    a falsy value (the field is missing, or it is [null], [''], [0],
    [false] or [NaN]), for which the default is taken, or a truthy value
    with its text [String(value)]. *)
Inductive RawText : Type :=
  | Falsy
  | Truthy (text : string).

(** [String(v || d)]. *)
Definition textOr (v : RawText) (d : string) : string :=
  match v with
  | Falsy => d
  | Truthy s => s
  end.

(** The body of a group request, field by field.  The four texts are read
    with [||].  A list is [None] when the field is anything but an array,
    and else holds [String(l)] of each element.  A threshold is read with
    [??]: [None] is a field that is missing or [null], and else it holds
    [String(value)]. *)
Record RawGroupBody : Type := {
  raw_group_name : RawText;
  raw_locations : option (list string);
  raw_keywords : option (list string);
  raw_job_type : RawText;
  raw_work_modes : option (list string);
  raw_ai_system_prompt : RawText;
  raw_title_filter : RawText;
  raw_score_no_match_max : option string;
  raw_score_weak_match_max : option string;
  raw_score_strong_match_min : option string
}.

Record GroupBody : Type := {
  group_name : string;
  locations : list string;
  keywords : list string;
  job_type : string;
  work_modes : list string;
  ai_system_prompt : string;
  title_filter : string;
  score_no_match_max : Z;
  score_weak_match_max : Z;
  score_strong_match_min : Z
}.

(** [(Array.isArray(x) ? x : []).map((l) => String(l).trim()).filter(Boolean)]. *)
Definition cleanList (o : option (list string)) : list string :=
  List.filter truthy (map trim (match o with Some l => l | None => [] end)).

(** [parseInt(String(x ?? default), 10)]. *)
Definition threshold (o : option string) (default : string) : option Z :=
  parseInt10 (match o with Some s => s | None => default end).

Definition parseGroupBody (b : RawGroupBody) : GroupError + GroupBody :=
  let locations := cleanList (raw_locations b) in
  let keywords := cleanList (raw_keywords b) in
  let workModes := cleanList (raw_work_modes b) in
  let noMatchMax := threshold (raw_score_no_match_max b) "50" in
  let weakMatchMax := threshold (raw_score_weak_match_max b) "70" in
  let strongMin := threshold (raw_score_strong_match_min b) "71" in
  match locations, keywords, workModes with
  | [], _, _ => inl NoLocation
  | _, [], _ => inl NoKeyword
  | _, _, [] => inl NoWorkMode
  | _, _, _ =>
      match noMatchMax, weakMatchMax, strongMin with
      | Some n, Some w, Some s =>
          if (Z.ltb n 0 || Z.ltb 99 n || Z.leb w n || Z.ltb 99 w
              || negb (Z.eqb s (w + 1)))%bool
          then inl InvalidThresholds
          else inr {| group_name := take 50 (trim (textOr (raw_group_name b) ""));
                      locations := locations;
                      keywords := keywords;
                      job_type := textOr (raw_job_type b) "fullTime";
                      work_modes := workModes;
                      ai_system_prompt := textOr (raw_ai_system_prompt b) "";
                      title_filter := trim (textOr (raw_title_filter b) "");
                      score_no_match_max := n;
                      score_weak_match_max := w;
                      score_strong_match_min := s |}
      | _, _, _ => inl InvalidThresholds
      end
  end.

Inductive ApiError : Type :=
  | MaxRoles                      (* Maximum of 15 roles reached. *)
  | BadGroupBody (e : GroupError)
  | InvalidGroupId                (* Invalid group id. *)
  | GroupNotFound                 (* Group not found. *)
  | LastRole                      (* Cannot delete the last role. *)
  | LocationConflict (other : SearchGroupRow.t) (conflict : string)
  | InvalidJobId                  (* Invalid job id. *)
  | InvalidVerdict                (* Invalid verdict. Must be one of: ... *)
  | JobNotFound                   (* Job not found. *)
  | AlreadyRunning                (* Pipeline is already running. *)
  | Exception (message : string). (* the handler threw *)

(** The status of the response, the error it reports, and the group it
    returns. *)
Record Response : Type := {
  status : Z;
  error : option ApiError;
  group : option SearchGroupRow.t
}.

Definition ok (code : Z) (g : option SearchGroupRow.t) : Response :=
  {| status := code; error := None; group := g |}.

Definition refuse (code : Z) (e : ApiError) : Response :=
  {| status := code; error := Some e; group := None |}.

(** The row written from a validated body, with key [i] and activity [a]. *)
Definition rowOf (i a : Z) (b : GroupBody) : SearchGroupRow.t :=
  {| SearchGroupRow.id := i;
     SearchGroupRow.group_name := group_name b;
     SearchGroupRow.locations := inr (locations b);
     SearchGroupRow.keywords := inr (keywords b);
     SearchGroupRow.job_type := job_type b;
     SearchGroupRow.work_modes := inr (work_modes b);
     SearchGroupRow.ai_system_prompt := ai_system_prompt b;
     SearchGroupRow.title_filter := title_filter b;
     SearchGroupRow.score_no_match_max := score_no_match_max b;
     SearchGroupRow.score_weak_match_max := score_weak_match_max b;
     SearchGroupRow.score_strong_match_min := score_strong_match_min b;
     SearchGroupRow.is_active := a |}.

(** [SELECT * FROM search_groups WHERE id = ?]. *)
Definition findGroup (d : Db) (i : Z) : option SearchGroupRow.t :=
  List.find (fun g => Z.eqb (SearchGroupRow.id g) i) (search_groups d).

(** [UPDATE search_groups SET ... WHERE id = ?]. *)
Definition updateGroups (i : Z) (f : SearchGroupRow.t -> SearchGroupRow.t) (d : Db) : Db :=
  setGroups d
    (map (fun g => if Z.eqb (SearchGroupRow.id g) i then f g else g) (search_groups d)).

(** POST /api/groups. *)
Definition postGroup (body : RawGroupBody) (s : Server) : Response * Server :=
  let d := database (runner s) in
  if Z.leb 15 (len (search_groups d)) then (refuse 409 MaxRoles, s)
  else
    match parseGroupBody body with
    | inl e => (refuse 400 (BadGroupBody e), s)
    | inr b =>
        let '(i, s') := insertGroup (rowOf 0 1 b) s in
        (ok 201 (findGroup (database (runner s')) i), s')
    end.

(** PUT /api/groups/:id. *)
Definition putGroup (idParam : string) (body : RawGroupBody) (s : Server)
  : Response * Server :=
  match parseInt10 idParam with
  | None => (refuse 400 InvalidGroupId, s)
  | Some i =>
      match parseGroupBody body with
      | inl e => (refuse 400 (BadGroupBody e), s)
      | inr b =>
          let d := database (runner s) in
          match findGroup d i with
          | None => (refuse 404 GroupNotFound, s)
          | Some _ =>
              let d' := updateGroups i
                          (fun g => rowOf (SearchGroupRow.id g)
                                      (SearchGroupRow.is_active g) b) d in
              (ok 200 (findGroup d' i), withDatabase s d')
          end
      end
  end.

(** The loop of PATCH /api/groups/:id over the other active groups: the
    message of the exception of [JSON.parse], the first conflict, or
    neither. *)
Fixpoint findConflict (myLocations : list string) (others : list SearchGroupRow.t)
  : option (string + SearchGroupRow.t * string) :=
  match others with
  | [] => None
  | other :: rest =>
      match SearchGroupRow.locations other with
      | inl msg => Some (inl msg)
      | inr otherLocations =>
          match List.find (fun loc => existsb (String.eqb loc) otherLocations)
                  myLocations with
          | Some conflict =>
              if truthy conflict then Some (inr (other, conflict))
              else findConflict myLocations rest
          | None => findConflict myLocations rest
          end
      end
  end.

Definition setActive (a : Z) (g : SearchGroupRow.t) : SearchGroupRow.t :=
  {| SearchGroupRow.id := SearchGroupRow.id g;
     SearchGroupRow.group_name := SearchGroupRow.group_name g;
     SearchGroupRow.locations := SearchGroupRow.locations g;
     SearchGroupRow.keywords := SearchGroupRow.keywords g;
     SearchGroupRow.job_type := SearchGroupRow.job_type g;
     SearchGroupRow.work_modes := SearchGroupRow.work_modes g;
     SearchGroupRow.ai_system_prompt := SearchGroupRow.ai_system_prompt g;
     SearchGroupRow.title_filter := SearchGroupRow.title_filter g;
     SearchGroupRow.score_no_match_max := SearchGroupRow.score_no_match_max g;
     SearchGroupRow.score_weak_match_max := SearchGroupRow.score_weak_match_max g;
     SearchGroupRow.score_strong_match_min := SearchGroupRow.score_strong_match_min g;
     SearchGroupRow.is_active := a |}.

(** [SELECT * FROM search_groups WHERE is_active = 1 AND id != ?]. *)
Definition otherActive (d : Db) (i : Z) : list SearchGroupRow.t :=
  List.filter
    (fun g => (Z.eqb (SearchGroupRow.is_active g) 1
               && negb (Z.eqb (SearchGroupRow.id g) i))%bool)
    (search_groups d).

(** PATCH /api/groups/:id; [isActive] is
    [b.is_active === true || b.is_active === 1]. *)
Definition patchGroup (idParam : string) (isActive : bool) (s : Server)
  : Response * Server :=
  match parseInt10 idParam with
  | None => (refuse 400 InvalidGroupId, s)
  | Some i =>
      let d := database (runner s) in
      match findGroup d i with
      | None => (refuse 404 GroupNotFound, s)
      | Some existing =>
          let blocked :=
            if isActive then
              match SearchGroupRow.locations existing with
              | inl msg => Some (inl msg)
              | inr myLocations => findConflict myLocations (otherActive d i)
              end
            else None in
          match blocked with
          | Some (inl msg) => (refuse 500 (Exception msg), s)
          | Some (inr (other, conflict)) =>
              (refuse 409 (LocationConflict other conflict), s)
          | None =>
              let d' := updateGroups i (setActive (if isActive then 1 else 0)) d in
              (ok 200 (findGroup d' i), withDatabase s d')
          end
      end
  end.

(** A row of [jobs] or of [run_job_logs] refers to the group: with foreign
    keys on, [DELETE FROM search_groups] of that group throws. *)
Definition groupReferenced (d : Db) (i : Z) : bool :=
  (existsb (fun r => match JobRow.group_id r with
                     | Some g => Z.eqb g i | None => false end) (jobs d)
   || existsb (fun r => match RunJobLogRow.group_id r with
                        | Some g => Z.eqb g i | None => false end) (run_job_logs d))%bool.

(** DELETE /api/groups/:id. *)
Definition deleteGroup (idParam : string) (s : Server) : Response * Server :=
  match parseInt10 idParam with
  | None => (refuse 400 InvalidGroupId, s)
  | Some i =>
      let d := database (runner s) in
      if Z.leb (len (search_groups d)) 1 then (refuse 409 LastRole, s)
      else
        match findGroup d i with
        | None => (refuse 404 GroupNotFound, s)
        | Some _ =>
            if groupReferenced d i
            then (refuse 500 (Exception "FOREIGN KEY constraint failed"), s)
            else
              (ok 200 None,
               withDatabase s
                 (setGroups d
                    (List.filter (fun g => negb (Z.eqb (SearchGroupRow.id g) i))
                       (search_groups d))))
        end
  end.

(** [UPDATE jobs SET ... WHERE id = ?]. *)
Definition updateJobs (i : Z) (f : JobRow.t -> JobRow.t) (d : Db) : Db :=
  setJobs d (map (fun r => if Z.eqb (JobRow.id r) i then f r else r) (jobs d))
    (jobs_seq d).

(** [SET ai_verdict = ?, is_duplicate = ?]. *)
Definition setVerdict (v : string) (dup : Z) (r : JobRow.t) : JobRow.t :=
  {| JobRow.id := JobRow.id r; JobRow.linkedin_job_id := JobRow.linkedin_job_id r;
     JobRow.title := JobRow.title r; JobRow.company := JobRow.company r;
     JobRow.location := JobRow.location r; JobRow.work_mode := JobRow.work_mode r;
     JobRow.description := JobRow.description r; JobRow.url := JobRow.url r;
     JobRow.posted_date := JobRow.posted_date r; JobRow.fetched_at := JobRow.fetched_at r;
     JobRow.ai_score := JobRow.ai_score r; JobRow.ai_rationale := JobRow.ai_rationale r;
     JobRow.ai_summary := JobRow.ai_summary r;
     JobRow.ai_verdict := v;
     JobRow.rejection_category := JobRow.rejection_category r;
     JobRow.is_duplicate := dup;
     JobRow.duplicate_of_job_id := JobRow.duplicate_of_job_id r;
     JobRow.seen := JobRow.seen r; JobRow.seen_at := JobRow.seen_at r;
     JobRow.group_id := JobRow.group_id r; JobRow.applied := JobRow.applied r;
     JobRow.user_notes := JobRow.user_notes r; JobRow.apply_url := JobRow.apply_url r |}.

(** [SET applied = ?]. *)
Definition setApplied (a : Z) (r : JobRow.t) : JobRow.t :=
  {| JobRow.id := JobRow.id r; JobRow.linkedin_job_id := JobRow.linkedin_job_id r;
     JobRow.title := JobRow.title r; JobRow.company := JobRow.company r;
     JobRow.location := JobRow.location r; JobRow.work_mode := JobRow.work_mode r;
     JobRow.description := JobRow.description r; JobRow.url := JobRow.url r;
     JobRow.posted_date := JobRow.posted_date r; JobRow.fetched_at := JobRow.fetched_at r;
     JobRow.ai_score := JobRow.ai_score r; JobRow.ai_rationale := JobRow.ai_rationale r;
     JobRow.ai_summary := JobRow.ai_summary r;
     JobRow.ai_verdict := JobRow.ai_verdict r;
     JobRow.rejection_category := JobRow.rejection_category r;
     JobRow.is_duplicate := JobRow.is_duplicate r;
     JobRow.duplicate_of_job_id := JobRow.duplicate_of_job_id r;
     JobRow.seen := JobRow.seen r; JobRow.seen_at := JobRow.seen_at r;
     JobRow.group_id := JobRow.group_id r; JobRow.applied := a;
     JobRow.user_notes := JobRow.user_notes r; JobRow.apply_url := JobRow.apply_url r |}.

(** [SET user_notes = ?]. *)
Definition setNotes (n : option string) (r : JobRow.t) : JobRow.t :=
  {| JobRow.id := JobRow.id r; JobRow.linkedin_job_id := JobRow.linkedin_job_id r;
     JobRow.title := JobRow.title r; JobRow.company := JobRow.company r;
     JobRow.location := JobRow.location r; JobRow.work_mode := JobRow.work_mode r;
     JobRow.description := JobRow.description r; JobRow.url := JobRow.url r;
     JobRow.posted_date := JobRow.posted_date r; JobRow.fetched_at := JobRow.fetched_at r;
     JobRow.ai_score := JobRow.ai_score r; JobRow.ai_rationale := JobRow.ai_rationale r;
     JobRow.ai_summary := JobRow.ai_summary r;
     JobRow.ai_verdict := JobRow.ai_verdict r;
     JobRow.rejection_category := JobRow.rejection_category r;
     JobRow.is_duplicate := JobRow.is_duplicate r;
     JobRow.duplicate_of_job_id := JobRow.duplicate_of_job_id r;
     JobRow.seen := JobRow.seen r; JobRow.seen_at := JobRow.seen_at r;
     JobRow.group_id := JobRow.group_id r; JobRow.applied := JobRow.applied r;
     JobRow.user_notes := n; JobRow.apply_url := JobRow.apply_url r |}.

Definition allowedVerdicts : list string :=
  ["STRONG_MATCH"; "WEAK_MATCH"; "NO_MATCH"; "DUPLICATE"].

(** PATCH /api/jobs/:id/verdict; [verdict] is [b.verdict]. *)
Definition patchVerdict (idParam : string) (verdict : option string) (s : Server)
  : Response * Server :=
  match parseInt10 idParam with
  | None => (refuse 400 InvalidJobId, s)
  | Some i =>
      let v := trim (orElse verdict "") in
      if negb (existsb (String.eqb v) allowedVerdicts)
      then (refuse 400 InvalidVerdict, s)
      else
        let d := database (runner s) in
        if hasJobId d i
        then (ok 200 None,
              withDatabase s
                (updateJobs i
                   (setVerdict v (if String.eqb v "DUPLICATE" then 1 else 0)) d))
        else (refuse 404 JobNotFound, s)
  end.

(** PATCH /api/jobs/:id/applied; [applied] is
    [b.applied === true || b.applied === 1]. *)
Definition patchApplied (idParam : string) (applied : bool) (s : Server)
  : Response * Server :=
  match parseInt10 idParam with
  | None => (refuse 400 InvalidJobId, s)
  | Some i =>
      let d := database (runner s) in
      if hasJobId d i
      then (ok 200 None,
            withDatabase s (updateJobs i (setApplied (if applied then 1 else 0)) d))
      else (refuse 404 JobNotFound, s)
  end.

(** PATCH /api/jobs/:id/notes; [notes] is [b.notes]. *)
Definition patchNotes (idParam : string) (notes : option string) (s : Server)
  : Response * Server :=
  match parseInt10 idParam with
  | None => (refuse 400 InvalidJobId, s)
  | Some i =>
      let n := take 5000 (trim (match notes with Some t => t | None => "" end)) in
      let d := database (runner s) in
      if hasJobId d i
      then (ok 200 None, withDatabase s (updateJobs i (setNotes (orNull n)) d))
      else (refuse 404 JobNotFound, s)
  end.

(** POST /api/run: the answer is sent before the run; the run is taken to
    its end here. *)
Definition postRun (env : Env) (s : Server) : Response * Server :=
  if isRunning (runner s) then (refuse 409 AlreadyRunning, s)
  else
    (ok 200 None,
     {| runner := snd (runPipeline env manual (runner s));
        search_groups_seq := search_groups_seq s |}).

(** A request to one of the routes above. *)
Inductive Request : Type :=
  | PostGroup (body : RawGroupBody)
  | PutGroup (idParam : string) (body : RawGroupBody)
  | PatchGroup (idParam : string) (isActive : bool)
  | DeleteGroup (idParam : string)
  | PatchVerdict (idParam : string) (verdict : option string)
  | PatchApplied (idParam : string) (applied : bool)
  | PatchNotes (idParam : string) (notes : option string)
  | PostRun (env : Env).

Definition handle (s : Server) (r : Request) : Response * Server :=
  match r with
  | PostGroup body => postGroup body s
  | PutGroup i body => putGroup i body s
  | PatchGroup i a => patchGroup i a s
  | DeleteGroup i => deleteGroup i s
  | PatchVerdict i v => patchVerdict i v s
  | PatchApplied i a => patchApplied i a s
  | PatchNotes i n => patchNotes i n s
  | PostRun env => postRun env s
  end.

(** What may happen to a server: a request, or the cron task calling
    [runPipeline('scheduled')].  A run is one step here, as everywhere in
    this file: the requests of a list of actions come before or after a
    run, never while it awaits. *)
Inductive Action : Type :=
  | Call (r : Request)
  | Tick (env : Env).

Definition act (s : Server) (a : Action) : Server :=
  match a with
  | Call r => snd (handle s r)
  | Tick env =>
      {| runner := snd (runPipeline env scheduled (runner s));
         search_groups_seq := search_groups_seq s |}
  end.

Definition serve (s : Server) (actions : list Action) : Server :=
  fold_left act actions s.

End Api.
(* ================================================================== *)
(** ** Vocabulary of the statements                                    *)
(* ================================================================== *)

(** The invariant of a group's thresholds that the groups API enforces. *)
Definition groupInvariant (g : SearchGroupRow.t) : Prop :=
  SearchGroupRow.score_no_match_max g < SearchGroupRow.score_weak_match_max g
  /\ SearchGroupRow.score_strong_match_min g
     = SearchGroupRow.score_weak_match_max g + 1.

Fixpoint allWhiteSpace (s : string) : bool :=
  match s with
  | EmptyString => true
  | String c s' => (isWhiteSpace c && allWhiteSpace s')%bool
  end.

(** The last code unit of [s] is white space. *)
Fixpoint endsWithWhiteSpace (s : string) : bool :=
  match s with
  | EmptyString => false
  | String c s' =>
      match s' with
      | EmptyString => isWhiteSpace c
      | String _ _ => endsWithWhiteSpace s'
      end
  end.

(** The request of Call 1 for a posting under [settings]. *)
Definition scoringRequest (settings : SettingsRow) (j : JobPosting) : ScoringRequest :=
  buildScoringUserMessage (ai_system_prompt settings) (ai_model settings) j
    (summary_prompt settings).

(** No boilerplate pattern matches anywhere in [text]. *)
Definition noPatternMatches (text : string) : Prop :=
  forall p, In p BOILERPLATE_PATTERNS -> exec p text = None.


(** Follows the spec's words, for comparison with [matchesTitleFilter]:
    "whitespace-tokenized words". *)
Definition splitWhiteSpace (s : string) : list string :=
  runsFrom (fun c => negb (isWhiteSpace c)) EmptyString s.

(** Follows the spec's words, for comparison with [passesTitleFilter]: the
    title contains all the whitespace-tokenized words of at least one
    non-empty line of the filter text, case-insensitively, as token sets;
    an empty filter passes everything. *)
Definition specPassesTitleFilter (titleText filterText : string) : bool :=
  match trim filterText with
  | EmptyString => true
  | _ =>
      let titleWords : gset string :=
        list_to_set (splitWhiteSpace (toLowerCase titleText)) in
      existsb
        (fun line => forallb (fun w => has titleWords w) (splitWhiteSpace line))
        (List.filter truthy
           (map (fun l => toLowerCase (trim l)) (splitOn LF filterText)))
  end.

(** A call to the model failed: it threw, or its answer parsed to [null]
    (reading a field of [null] throws inside [dedupAndSummarise]). *)
Definition dedupCallFailed (r : Reply DedupSummaryLlmOutput) : Prop :=
  match r with
  | Returns (Some _) => False
  | _ => True
  end.

(** The state in which an iteration, or the loop, ends. *)
Definition stepState (s : Step) : RunState :=
  match s with Next st => st | Fatal _ st => st end.

(** The lists that steps 2 to 3b of the loop body compute from the fetched
    postings of a group. *)
Definition titleFilteredOf (g : SearchGroupRow.t) (fetched : list JobPosting)
  : list JobPosting :=
  List.filter (fun j => negb (passesTitleFilter g j)) fetched.

Definition blacklistedOf (blacklistNames : gset string) (g : SearchGroupRow.t)
  (fetched : list JobPosting) : list JobPosting :=
  List.filter (isBlacklisted blacklistNames) (List.filter (passesTitleFilter g) fetched).

Definition notBlacklistedOf (blacklistNames : gset string) (g : SearchGroupRow.t)
  (fetched : list JobPosting) : list JobPosting :=
  List.filter (fun j => negb (isBlacklisted blacklistNames j))
    (List.filter (passesTitleFilter g) fetched).

Definition withinRunDupesOf (seenInRun : gset string) (clean : list JobPosting)
  : list JobPosting :=
  fst (batchDedup ∅ clean)
  ++ List.filter (fun j => has seenInRun (jobId j)) (snd (batchDedup ∅ clean)).

Definition survivorsOf (seenInRun : gset string) (clean : list JobPosting)
  : list JobPosting :=
  List.filter (fun j => negb (has seenInRun (jobId j))) (snd (batchDedup ∅ clean)).

(** The company named in a request to the model. *)
Definition companyOfCall (c : LlmCall) : string :=
  match c with
  | Call1 r => sr_company r
  | Call2 r => dr_company r
  end.

(** [isBlacklisted] on the company name alone. *)
Definition blacklistedCompany (blacklistNames : gset string) (name : string) : bool :=
  has blacklistNames (trim (toLowerCase name)).

(** The two shapes in which the loop writes the duplicate and seen columns
    of a new row of [jobs]. *)
Definition insertedBy (now : string) (row : JobRow.t) : Prop :=
  (JobRow.is_duplicate row = 1 /\ JobRow.seen row = 1
   /\ JobRow.seen_at row = Some now)
  \/ (JobRow.is_duplicate row = 0 /\ JobRow.seen row = 0
      /\ JobRow.seen_at row = None).

(** How the state may change from one point of the group loop to a later
    one: the configuration and [search_runs] stay, the log, [jobs] and the
    trace of requests grow at their end, and keys stay claimed. *)
Record Extends (env : Env) (blacklistNames : gset string) (st st' : RunState)
  : Prop := {
  ext_settings : settings_row (st_db st') = settings_row (st_db st);
  ext_groups : search_groups (st_db st') = search_groups (st_db st);
  ext_blacklist : blacklisted_companies (st_db st') = blacklisted_companies (st_db st);
  ext_runs : search_runs (st_db st') = search_runs (st_db st);
  ext_runs_seq : search_runs_seq (st_db st') = search_runs_seq (st_db st);
  ext_logs : exists added,
      run_job_logs (st_db st') = run_job_logs (st_db st) ++ added;
  ext_jobs : exists added,
      jobs (st_db st') = jobs (st_db st) ++ added
      /\ Forall (insertedBy (now env)) added;
  ext_trace : exists calls,
      st_trace st' = st_trace st ++ calls
      /\ Forall (fun c => blacklistedCompany blacklistNames (companyOfCall c) = false)
           calls;
  ext_seenStrong : st_seenStrongInRun st ⊆ st_seenStrongInRun st'
}.

(** The row that [runPipeline] inserts before the first group. *)
Definition runningRow (i : Z) (ranAt : string) (trigger : Trigger) : SearchRunRow.t :=
  {| SearchRunRow.id := i; SearchRunRow.ran_at := ranAt;
     SearchRunRow.jobs_fetched := 0; SearchRunRow.jobs_scored := 0;
     SearchRunRow.jobs_strong_match := 0; SearchRunRow.jobs_weak_match := 0;
     SearchRunRow.jobs_no_match := 0; SearchRunRow.jobs_duplicate := 0;
     SearchRunRow.status := "running"; SearchRunRow.error_log := None;
     SearchRunRow.duration_ms := None;
     SearchRunRow.trigger := triggerName trigger |}.

(** The database and the trace with which the [try] block ends. *)
Definition outcomeDb (o : TryOutcome) : Db :=
  match o with Returned _ d _ => d | Caught _ _ d _ => d end.

Definition outcomeTrace (o : TryOutcome) : list LlmCall :=
  match o with Returned _ _ t => t | Caught _ _ _ t => t end.

(** The result and the variables after an iteration of the loop of step 4b
    that finds the key of a strong match claimed. *)
Definition markedDuplicate (s : ScoredJob) : JobResult.t :=
  {| JobResult.scored := s; JobResult.isDuplicate := true;
     JobResult.duplicateOfId := None; JobResult.summary := None |}.

Definition countedDuplicate (vars : DedupVars) : DedupVars :=
  {| dv_trace := dv_trace vars;
     dv_seenStrongInRun := dv_seenStrongInRun vars;
     dv_counts := addDuplicate 1 (dv_counts vars) |}.

(** A lower bound on the number of code units a match of [r] consumes. *)
Fixpoint minLen (r : regex) : nat :=
  match r with
  | Chr _ => 1
  | Seq r1 r2 => minLen r1 + minLen r2
  | Alt r1 r2 => Nat.min (minLen r1) (minLen r2)
  | _ => 0
  end.

(* ================================================================== *)
(** ** Vocabulary of the further properties                            *)
(* ================================================================== *)

(** Every code unit [c] of [s] replaced by the text [f c]. *)
Fixpoint substitute (f : ascii -> string) (s : string) : string :=
  match s with
  | EmptyString => EmptyString
  | String c s' => f c +:+ substitute f s'
  end.

(** The entity that stands for a code unit in escaped text. *)
Definition escapeChar (c : ascii) : string :=
  if isChr "&" c then "&amp;"
  else if isChr "<" c then "&lt;"
  else if isChr ">" c then "&gt;"
  else if isChr (ascii_of_nat 34) c then "&quot;"
  else if isChr "'" c then "&#39;"
  else String c EmptyString.

(** [c] occurs in [s]. *)
Fixpoint occurs (c : ascii) (s : string) : bool :=
  match s with
  | EmptyString => false
  | String x s' => (Ascii.eqb x c || occurs c s')%bool
  end.

(** The characters with a meaning in HTML text and attribute values. *)
Definition htmlSpecial (c : ascii) : bool :=
  (isChr "<" c || isChr ">" c || isChr (ascii_of_nat 34) c || isChr "'" c)%bool.

(** [s] without the code units that satisfy [p]. *)
Fixpoint without (p : ascii -> bool) (s : string) : string :=
  match s with
  | EmptyString => EmptyString
  | String c s' => if p c then without p s' else String c (without p s')
  end.

(** A regex that matches exactly the single code units in the class [p]. *)
Definition oneOf (r : regex) (p : ascii -> bool) : Prop :=
  forall prev s,
    matchHere r prev s
    = match s with
      | String c s' => if p c then Some (Some c, s') else None
      | EmptyString => None
      end.

(** The code unit for which escaped text starts, and the text after its
    entity. *)
Definition readEscaped (s : string) : option (ascii * string) :=
  match s with
  | String "&" (String "a" (String "m" (String "p" (String ";" r)))) => Some ("&"%char, r)
  | String "&" (String "l" (String "t" (String ";" r))) => Some ("<"%char, r)
  | String "&" (String "g" (String "t" (String ";" r))) => Some (">"%char, r)
  | String "&" (String "q" (String "u" (String "o" (String "t" (String ";" r))))) =>
      Some (ascii_of_nat 34, r)
  | String "&" (String "#" (String "3" (String "9" (String ";" r)))) => Some ("'"%char, r)
  | String c r => Some (c, r)
  | EmptyString => None
  end.

(** [s] has no white space at either end. *)
Definition trimmed (s : string) : Prop := trim s = s.

(** The thresholds that the groups API lets through. *)
Definition validThresholds (noMatchMax weakMatchMax strongMin : Z) : Prop :=
  0 <= noMatchMax /\ noMatchMax < weakMatchMax /\ weakMatchMax <= 99
  /\ strongMin = weakMatchMax + 1.

(** [computeVerdict] with the thresholds of a validated body. *)
Definition verdictFor (g : Api.GroupBody) (score : Z) : Verdict :=
  computeVerdict score
    {| ai_system_prompt := Api.ai_system_prompt g; ai_model := "";
       dedup_system_prompt := ""; summary_prompt := "";
       score_no_match_max := Api.score_no_match_max g;
       score_weak_match_max := Api.score_weak_match_max g;
       score_strong_match_min := Api.score_strong_match_min g;
       email_recipient := ""; email_enabled := 0 |}.

(** What [normalizeWorkMode] looks at: the raw value in lower case, without
    the characters [_], [-] and white space. *)
Definition workModeKey (raw : option string) : string :=
  without Fetcher.isSeparator (toLowerCase (orElse raw "")).

Definition isWorkMode (s : string) : Prop :=
  s = "remote" \/ s = "hybrid" \/ s = "onsite".

(** What the pipeline may rely on in a posting that the fetcher returns. *)
Record Normalised (j : JobPosting) : Prop := {
  norm_jobId : jobId j <> EmptyString;
  norm_title : title j <> EmptyString;
  norm_url : url j <> EmptyString;
  norm_workMode : isWorkMode (workMode j);
  norm_description : (String.length (description j) <= 20000)%nat;
  norm_applyUrl : forall a, applyUrl j = Some a -> a <> EmptyString /\ a <> url j;
  norm_confidence : postedDate j = None <-> postedDateConfidence j = LOW
}.

(** The state of the scheduler module is consistent with the tasks that
    tick: the task it holds is the only one, and the expression and the
    time zone it reports are those of that task. *)
Definition schedulerConsistent (s : Scheduler.State) : Prop :=
  match Scheduler.cronJob s with
  | Some t =>
      Scheduler.ticking s = [t]
      /\ Scheduler.activeExpression s = Some (Scheduler.task_expression t)
      /\ Scheduler.activeTimezone s = Some (Scheduler.task_timezone t)
  | None =>
      Scheduler.ticking s = []
      /\ Scheduler.activeExpression s = None
      /\ Scheduler.activeTimezone s = None
  end.

(** The state after a list of calls, from the state of a new process. *)
Definition schedulerAfter (api : Scheduler.CronApi) (calls : list Scheduler.Call)
  : Scheduler.State :=
  fold_left (Scheduler.call api) calls Scheduler.initial.

(** A group that the pipeline can process: its thresholds are in order and
    in range, and its three JSON columns parse. *)
Definition groupOk (g : SearchGroupRow.t) : Prop :=
  groupInvariant g
  /\ 0 <= SearchGroupRow.score_no_match_max g
  /\ SearchGroupRow.score_weak_match_max g <= 99
  /\ parseGroup g = None.

(** A database on which a run passes its configuration checks: there is a
    settings row and at least one group, the keys of the groups are
    distinct, and every group is one the pipeline can process. *)
Record configured (d : Db) : Prop := {
  cfg_settings : settings_row d <> None;
  cfg_groups : search_groups d <> [];
  cfg_keys : List.NoDup (map SearchGroupRow.id (search_groups d));
  cfg_each : Forall groupOk (search_groups d)
}.

(** The keys of the rows of [jobs]. *)
Definition jobIds (d : Db) : list Z := map JobRow.id (jobs d).

(** Every job with a key in [ids] is stored and marked seen. *)
Definition allSeen (ids : list Z) (d : Db) : Prop :=
  List.NoDup (jobIds d)
  /\ forall i, In i ids ->
       exists x, In x (jobs d) /\ JobRow.id x = i /\ JobRow.seen x = 1.

(** The row of [search_runs] that shows what a result reports. *)
Definition rowOfResult (i : Z) (r : PipelineResult.t) : SearchRunRow.t :=
  {| SearchRunRow.id := i;
     SearchRunRow.ran_at := PipelineResult.ranAt r;
     SearchRunRow.jobs_fetched := PipelineResult.jobsFetched r;
     SearchRunRow.jobs_scored := PipelineResult.jobsScored r;
     SearchRunRow.jobs_strong_match := PipelineResult.jobsStrongMatch r;
     SearchRunRow.jobs_weak_match := PipelineResult.jobsWeakMatch r;
     SearchRunRow.jobs_no_match := PipelineResult.jobsNoMatch r;
     SearchRunRow.jobs_duplicate := PipelineResult.jobsDuplicate r;
     SearchRunRow.status := statusName (PipelineResult.status r);
     SearchRunRow.error_log := PipelineResult.errorLog r;
     SearchRunRow.duration_ms := Some (PipelineResult.durationMs r);
     SearchRunRow.trigger := triggerName (PipelineResult.trigger r) |}.

(** The number of entries of a job log under a label, and the number of
    its entries that carry a score. *)
Definition countLabel (label : string) (logs : list RunJobLogRow.t) : Z :=
  len (List.filter (fun e => String.eqb (RunJobLogRow.ai_verdict e) label) logs).

Definition hasScore (e : RunJobLogRow.t) : bool :=
  match RunJobLogRow.ai_score e with Some _ => true | None => false end.

Definition countScored (logs : list RunJobLogRow.t) : Z :=
  len (List.filter hasScore logs).

(** The counters [c] are those of the log entries [logs]. *)
Record Tallies (c : Counts) (logs : list RunJobLogRow.t) : Prop := {
  tally_duplicate : jobsDuplicate c = countLabel "DUPLICATE" logs;
  tally_strong : jobsStrongMatch c = countLabel "STRONG_MATCH" logs;
  tally_weak : jobsWeakMatch c = countLabel "WEAK_MATCH" logs;
  tally_no_match : jobsNoMatch c = countLabel "NO_MATCH" logs;
  tally_scored : jobsScored c = countScored logs;
  tally_fetched : len logs <= jobsFetched c;
  tally_verdicts :
    jobsStrongMatch c + jobsWeakMatch c + jobsNoMatch c <= jobsScored c
}.

(** The job log of [st] is [base] followed by entries of run [runId], and
    the counters of [st] are those of these entries. *)
Definition talliedFrom (base : list RunJobLogRow.t) (runId : Z) (st : RunState)
  : Prop :=
  exists added,
    run_job_logs (st_db st) = base ++ added
    /\ Forall (fun e => RunJobLogRow.run_id e = runId) added
    /\ Tallies (st_counts st) added.

(** The dedup model answers within what it was offered: when it calls a
    posting a duplicate, the job it names is one of the request's existing
    jobs, or it names none (also 0, which [|| null] turns into null). *)
Definition namesOfferedJobs (m : Llm) : Prop :=
  forall n req out,
    callDedupLlm m n req = Returns (Some out) ->
    is_duplicate_out out = true ->
    match duplicate_of_id_out out with
    | None => True
    | Some i => i = 0 \/ In i (map ex_id (dr_existing req))
    end.

(** The reference of a new row of [jobs] points to a stored job. *)
Definition referenceOk (d : Db) (row : JobRow.t) : Prop :=
  match JobRow.duplicate_of_job_id row with
  | None => True
  | Some i => hasJobId d i = true
  end.

(** The size limits of a request to the model. *)
Definition boundedCall (c : LlmCall) : Prop :=
  match c with
  | Call1 r => (String.length (sr_description r) <= 8000)%nat
  | Call2 r =>
      (1 <= length (dr_existing r) <= 5)%nat
      /\ (String.length (dr_description r) <= 5000)%nat
      /\ Forall (fun e => (String.length (ex_description e) <= 1500)%nat)
           (dr_existing r)
  end.

(** The trace [t'] is [t] followed by requests within the size limits. *)
Definition boundedFrom (t t' : list LlmCall) : Prop :=
  exists calls, t' = t ++ calls /\ Forall boundedCall calls.

(** The identifiers of the postings that the entries [logs] scored. *)
Definition scoredIds (logs : list RunJobLogRow.t) : list string :=
  map RunJobLogRow.linkedin_job_id (List.filter hasScore logs).

(** The job log of [st] is [base] followed by entries that score no posting
    twice and none that [d0] stores; what they score is in the set of the
    identifiers seen in the run, and the rows of [d0] are still stored. *)
Definition scoredOnce (d0 : Db) (base : list RunJobLogRow.t) (st : RunState)
  : Prop :=
  exists added,
    run_job_logs (st_db st) = base ++ added
    /\ List.NoDup (scoredIds added)
    /\ (forall i, In i (scoredIds added) ->
          (i ∈ st_seenInRunJobIds st) /\ hasLinkedinId d0 i = false)
    /\ (forall i, hasLinkedinId d0 i = true -> hasLinkedinId (st_db st) i = true).

(** An entry of the job log that reports a scored or a blacklisted
    posting. *)
Definition reportsStoredPosting (e : RunJobLogRow.t) : bool :=
  (hasScore e || String.eqb (RunJobLogRow.ai_verdict e) "BLACKLISTED")%bool.

(** The job log of [st] is [base] followed by entries whose scored and
    blacklisted postings are in [jobs]. *)
Definition storedFrom (base : list RunJobLogRow.t) (st : RunState) : Prop :=
  exists added,
    run_job_logs (st_db st) = base ++ added
    /\ forall e, In e added -> reportsStoredPosting e = true ->
         hasLinkedinId (st_db st) (RunJobLogRow.linkedin_job_id e) = true.

(* ================================================================== *)
(** ** Concrete data for the examples                                  *)
(* ================================================================== *)

Definition exSettings : SettingsRow :=
  {| ai_system_prompt := "global"; ai_model := "gpt"; dedup_system_prompt := "dedup";
     summary_prompt := "sum"; score_no_match_max := 50; score_weak_match_max := 70;
     score_strong_match_min := 71; email_recipient := "me@example.org";
     email_enabled := 0 |}.

Definition exGroup (i : Z) (filter : string) : SearchGroupRow.t :=
  {| SearchGroupRow.id := i; SearchGroupRow.group_name := "g";
     SearchGroupRow.locations := inr ["London"];
     SearchGroupRow.keywords := inr ["Product Manager"];
     SearchGroupRow.job_type := "fullTime";
     SearchGroupRow.work_modes := inr ["remote"];
     SearchGroupRow.ai_system_prompt := "prompt";
     SearchGroupRow.title_filter := filter;
     SearchGroupRow.score_no_match_max := 50;
     SearchGroupRow.score_weak_match_max := 70;
     SearchGroupRow.score_strong_match_min := 71;
     SearchGroupRow.is_active := 1 |}.

Definition exPosting (i t c : string) : JobPosting :=
  {| jobId := i; title := t; company := c; location := "London";
     workMode := "remote"; url := "https://example.org/" +:+ i; applyUrl := None;
     postedDate := None; postedDateConfidence := LOW;
     description := "Build things for " +:+ i |}.

Definition exOutput (s : Z) : ScoringLlmOutput :=
  {| llm_score := s; llm_verdict := "NO_MATCH"; llm_rationale := "because";
     llm_rejection_category := "NONE"; llm_summary := Some "A product." |}.

(** A model whose first [n] scoring requests time out and which then
    answers with score [s]; its dedup requests time out. *)
Definition flakyLlm (n : nat) (s : Z) : Llm :=
  {| callScoringLlm := fun k _ => if Nat.ltb k n then Throws "timeout"
                                  else Returns (Some (exOutput s));
     callDedupLlm := fun _ _ => Throws "timeout" |}.

Definition exScored (i t c : string) : ScoredJob :=
  toScoredJob (exPosting i t c) exSettings (exOutput 90).

Definition exExisting : ExistingJob :=
  {| ex_id := 7; ex_title := "PM"; ex_description := "Build things" |}.

(** A group whose [keywords] column does not parse. *)
Definition exBrokenGroup (i : Z) : SearchGroupRow.t :=
  {| SearchGroupRow.id := i; SearchGroupRow.group_name := "g";
     SearchGroupRow.locations := inr ["London"];
     SearchGroupRow.keywords := inl "Unexpected end of JSON input";
     SearchGroupRow.job_type := "fullTime";
     SearchGroupRow.work_modes := inr ["remote"];
     SearchGroupRow.ai_system_prompt := "prompt";
     SearchGroupRow.title_filter := "";
     SearchGroupRow.score_no_match_max := 50;
     SearchGroupRow.score_weak_match_max := 70;
     SearchGroupRow.score_strong_match_min := 71;
     SearchGroupRow.is_active := 1 |}.

(** A row of [jobs] as an earlier run stored it: a strong match that is
    not a duplicate. *)
Definition exStored (i : Z) (lid t c : string) : JobRow.t :=
  JobRow.withId i
    (scoredJobRow 1 "2025-12-31T07:00:00.000Z"
       {| JobResult.scored := exScored lid t c;
          JobResult.isDuplicate := false; JobResult.duplicateOfId := None;
          JobResult.summary := Some "A product." |}).

Definition exDb (cfg : option SettingsRow) (groups : list SearchGroupRow.t)
  (stored : list JobRow.t) : Db :=
  {| settings_row := cfg; search_groups := groups;
     blacklisted_companies :=
       [{| BlacklistedCompanyRow.company_name := "Acme";
           BlacklistedCompanyRow.notes := "" |}];
     jobs := stored; jobs_seq := len stored;
     search_runs := []; search_runs_seq := 0; run_job_logs := [] |}.

Definition exProcess (d : Db) : Process :=
  {| isRunning := false; lastRunResult := None; database := d; llmTrace := [] |}.

(** A provider that returns [fetched] for every group, a model [m], and a
    mail API that accepts the digest. *)
Definition exEnv (fetched : list JobPosting) (m : Llm) : Env :=
  {| fetchJobs := fun _ => inr fetched; llm := m;
     sendMail := fun _ _ _ => MailSent; now := "2026-01-01T07:00:00.000Z";
     elapsedMs := 1234 |}.

(** A model that scores every posting [s] and calls every strong match a
    duplicate of the stored job [i]. *)
Definition dupLlm (s i : Z) : Llm :=
  {| callScoringLlm := fun _ _ => Returns (Some (exOutput s));
     callDedupLlm := fun _ _ =>
       Returns (Some {| is_duplicate_out := true; duplicate_of_id_out := Some i |}) |}.

(** The state in which the group loop starts on database [d]. *)
Definition exState (d : Db) : RunState :=
  {| st_db := d; st_trace := []; st_errors := []; st_counts := zeroCounts;
     st_seenInRunJobIds := ∅; st_seenStrongInRun := ∅ |}.

Definition exNames : gset string :=
  blacklistNamesOf (blacklisted_companies (exDb (Some exSettings) [] [])).

(** Two postings of the blacklisted company: the title of the first passes
    the filter ["manager"], the title of the second does not. *)
Definition exAcmeManager : JobPosting := exPosting "b1" "Product Manager" " ACME ".
Definition exAcmeEngineer : JobPosting := exPosting "b2" "Engineer" "Acme".

(** A posting whose identifier is stored already, and two new postings with
    one company and title under different identifiers. *)
Definition exRepost : JobPosting := exPosting "p1" "PM" "Good".
Definition exFirstCopy : JobPosting := exPosting "n1" "PM" "Good".
Definition exSecondCopy : JobPosting := exPosting "n2" "PM" "Good".

Definition exVars (seen : gset string) : DedupVars :=
  {| dv_trace := []; dv_seenStrongInRun := seen; dv_counts := zeroCounts |}.

(** A provider whose call fails for every group. *)
Definition exFailingEnv (m : Llm) : Env :=
  {| fetchJobs := fun _ => inl "actor run failed"; llm := m;
     sendMail := fun _ _ _ => MailSent; now := "2026-01-01T07:00:00.000Z";
     elapsedMs := 1234 |}.

(** A provider that returns the first copy for group 1 and the second copy
    for every other group. *)
Definition exTwoGroupEnv (m : Llm) : Env :=
  {| fetchJobs := fun g => if Z.eqb (SearchGroupRow.id g) 1
                           then inr [exFirstCopy] else inr [exSecondCopy];
     llm := m;
     sendMail := fun _ _ _ => MailSent; now := "2026-01-01T07:00:00.000Z";
     elapsedMs := 1234 |}.

(** An answer of the model with a rejection category. *)
Definition exRejection (s : Z) (category : string) : ScoringLlmOutput :=
  {| llm_score := s; llm_verdict := "STRONG_MATCH"; llm_rationale := "because";
     llm_rejection_category := category; llm_summary := None |}.

(* ================================================================== *)
(** ** Concrete data for the further properties                        *)
(* ================================================================== *)

(** A group body as a form would send it. *)
Definition exRawBody (noMatchMax weakMatchMax strongMin : option string)
  : Api.RawGroupBody :=
  {| Api.raw_group_name := Api.Truthy "  Berlin PM  ";
     Api.raw_locations := Some [" Berlin "; ""];
     Api.raw_keywords := Some ["Product Manager"];
     Api.raw_job_type := Api.Falsy;
     Api.raw_work_modes := Some ["remote"];
     Api.raw_ai_system_prompt := Api.Truthy "Score it.";
     Api.raw_title_filter := Api.Truthy " manager ";
     Api.raw_score_no_match_max := noMatchMax;
     Api.raw_score_weak_match_max := weakMatchMax;
     Api.raw_score_strong_match_min := strongMin |}.

(** An item of the provider with a work place type, a company object and a
    time stamp in seconds. *)
Definition exItem (i : string) (listedAt : Z) : Fetcher.HarvestJob :=
  {| Fetcher.hj_id := Some i; Fetcher.hj_jobId := None;
     Fetcher.hj_title := Some "Product Manager";
     Fetcher.hj_companyName := None;
     Fetcher.hj_company := Some (Fetcher.CompanyObject (Some "Good"));
     Fetcher.hj_location := Some (Fetcher.LocationText "Berlin, Germany");
     Fetcher.hj_workplaceType := Some "On_Site";
     Fetcher.hj_descriptionText := Some "Build things.";
     Fetcher.hj_description := None; Fetcher.hj_descriptionHtml := None;
     Fetcher.hj_linkedinUrl := None; Fetcher.hj_applyUrl := Some "https://good.example/jobs/1";
     Fetcher.hj_url := None; Fetcher.hj_postedDate := None;
     Fetcher.hj_listedAt := Some (Fetcher.DateNumber listedAt) |}.

(** A clock at 1.7e12 ms that renders every date as one day and parses no
    text but that day. *)
Definition exDates : Fetcher.DateApi :=
  {| Fetcher.isoDateOf := fun _ => "2023-11-14";
     Fetcher.timeOf := fun s => if String.eqb s "2023-11-14" then Some 1699920000000
                                else None;
     Fetcher.currentTime := 1700000000000 |}.

Definition exProvider (items : list Fetcher.HarvestJob) : Fetcher.ProviderApi :=
  {| Fetcher.runActor := fun _ _ => inr items |}.

(** A server whose database holds the settings, one group and one stored
    strong match that no digest has carried yet. *)
Definition exServer : Server :=
  {| runner := exProcess (exDb (Some exSettings) [exGroup 1 ""]
                            [exStored 1 "p1" "PM" "Good"]);
     search_groups_seq := 1 |}.

Definition exStats : RunStats :=
  {| rs_jobsFetched := 1; rs_jobsScored := 1; rs_strongMatch := 1;
     rs_weakMatch := 0; rs_noMatch := 0; rs_duplicates := 0 |}.

(** After the digest: a scheduled run that fetches the stored posting again
    and a new one, then a verdict override and a note on the stored job. *)
Definition exLaterActions : list Api.Action :=
  [Api.Tick (exEnv [exRepost; exFirstCopy] (flakyLlm 0 85));
   Api.Call (Api.PatchVerdict "1" (Some "STRONG_MATCH"));
   Api.Call (Api.PatchNotes "1" (Some "call them"))].

(** A provider that returns a posting that is stored already, a new one and
    one of a blacklisted company; the model scores 85. *)
Definition exMixedEnv : Env :=
  exEnv [exRepost; exFirstCopy; exAcmeManager] (flakyLlm 0 85).

(** A model that scores every posting [s] and calls every strong match a
    duplicate of the first job it is offered. *)
Definition firstOfferedLlm (s : Z) : Llm :=
  {| callScoringLlm := fun _ _ => Returns (Some (exOutput s));
     callDedupLlm := fun _ req =>
       Returns (Some {| is_duplicate_out := true;
                        duplicate_of_id_out :=
                          match dr_existing req with
                          | e :: _ => Some (ex_id e)
                          | [] => None
                          end |}) |}.
(* ================================================================== *)
(** * Properties                                                       *)
(* ================================================================== *)

(** ** Verdicts (aiScorer.ts) *)

Lemma computeVerdict_strong (sc : Z) (s : SettingsRow) :
  computeVerdict sc s = STRONG_MATCH <-> score_strong_match_min s <= sc.
Proof.
  unfold computeVerdict. rewrite !Z.geb_leb.
  destruct (Z.leb_spec (score_strong_match_min s) sc);
    destruct (Z.leb_spec (score_no_match_max s + 1) sc);
    split; intros; try discriminate; try lia; reflexivity.
Qed.

Lemma computeVerdict_weak (sc : Z) (s : SettingsRow) :
  computeVerdict sc s = WEAK_MATCH
  <-> score_no_match_max s < sc < score_strong_match_min s.
Proof.
  unfold computeVerdict. rewrite !Z.geb_leb.
  destruct (Z.leb_spec (score_strong_match_min s) sc);
    destruct (Z.leb_spec (score_no_match_max s + 1) sc);
    split; intros; try discriminate; try lia; reflexivity.
Qed.

Lemma computeVerdict_no_match (sc : Z) (s : SettingsRow) :
  score_no_match_max s < score_strong_match_min s ->
  computeVerdict sc s = NO_MATCH <-> sc <= score_no_match_max s.
Proof.
  intros Hinv. unfold computeVerdict. rewrite !Z.geb_leb.
  destruct (Z.leb_spec (score_strong_match_min s) sc);
    destruct (Z.leb_spec (score_no_match_max s + 1) sc);
    split; intros; try discriminate; try lia; reflexivity.
Qed.

Lemma clampScore_range (raw : Z) : 0 <= clampScore raw <= 100.
Proof. unfold clampScore. lia. Qed.

(** Every element of the result of [scoreJobs] was built by [toScoredJob]
    from one of the postings and an output of the model. *)
Lemma scoreJobs_results (m : Llm) (settings : SettingsRow) :
  forall (postings : list JobPosting) (trace : list LlmCall) (r : ScoredJob),
    In r (fst (scoreJobs m postings settings trace)) ->
    exists j o, In j postings /\ r = toScoredJob j settings o.
Proof.
  induction postings as [|j rest IH]; intros trace r Hin; simpl in Hin.
  - contradiction.
  - destruct (scoreOne m settings j trace) as [output trace1].
    specialize (IH trace1 r).
    destruct (scoreJobs m rest settings trace1) as [results trace2].
    destruct output as [o|]; simpl in *.
    + destruct Hin as [<- | Hin].
      * exists j, o. split; [now left | reflexivity].
      * destruct (IH Hin) as (j' & o' & Hj & ->). exists j', o'. split; [now right | reflexivity].
    + destruct (IH Hin) as (j' & o' & Hj & ->). exists j', o'. split; [now right | reflexivity].
Qed.

(** What one iteration of the loop of [scoreJobs] returns is the answer
    to a request it made for its posting: the first one, or the retry that
    follows a first one that threw. *)
Lemma scoreOne_reply (m : Llm) (settings : SettingsRow) (j : JobPosting)
  (trace : list LlmCall) :
  (length trace <= length (snd (scoreOne m settings j trace)))%nat
  /\ forall o, fst (scoreOne m settings j trace) = Some o ->
       callScoringLlm m (length trace) (scoringRequest settings j) = Returns (Some o)
       \/ callScoringLlm m (S (length trace)) (scoringRequest settings (truncatedJob j))
          = Returns (Some o).
Proof.
  unfold scoreOne, scoringRequest.
  destruct (callScoringLlm m (length trace) _) as [msg | v] eqn:H1; cbn [fst snd].
  - rewrite List.length_app. cbn [length]. rewrite Nat.add_1_r.
    destruct (callScoringLlm m (S (length trace)) _) as [msg' | v'] eqn:H2;
      cbn [fst snd]; rewrite !List.length_app; cbn [length]; (split; [lia|]).
    + discriminate.
    + intros o ->. now right.
  - rewrite List.length_app. cbn [length]. split; [lia|].
    intros o ->. now left.
Qed.

Lemma scoreJobs_replies (m : Llm) (settings : SettingsRow) :
  forall (postings : list JobPosting) (trace : list LlmCall) (r : ScoredJob),
    In r (fst (scoreJobs m postings settings trace)) ->
    exists j o n,
      In j postings /\ r = toScoredJob j settings o /\ (length trace <= n)%nat
      /\ (callScoringLlm m n (scoringRequest settings j) = Returns (Some o)
          \/ callScoringLlm m n (scoringRequest settings (truncatedJob j))
             = Returns (Some o)).
Proof.
  induction postings as [|j rest IH]; intros trace r Hin; cbn [scoreJobs] in Hin.
  - contradiction.
  - destruct (scoreOne_reply m settings j trace) as [Hlen Hreply].
    destruct (scoreOne m settings j trace) as [output trace1]. cbn [fst snd] in *.
    specialize (IH trace1 r).
    destruct (scoreJobs m rest settings trace1) as [results trace2]. cbn [fst] in *.
    assert (Htail : In r results ->
              exists j' o n,
                In j' (j :: rest) /\ r = toScoredJob j' settings o
                /\ (length trace <= n)%nat
                /\ (callScoringLlm m n (scoringRequest settings j') = Returns (Some o)
                    \/ callScoringLlm m n (scoringRequest settings (truncatedJob j'))
                       = Returns (Some o))).
    { intros H. destruct (IH H) as (j' & o & n & Hj' & Hr & Hn & Hcall).
      exists j', o, n. split; [now right|]. split; [exact Hr|]. split; [lia | exact Hcall]. }
    destruct output as [o|]; cbn [fst] in Hin; [|now apply Htail].
    destruct Hin as [<- | Hin]; [|now apply Htail].
    destruct (Hreply o eq_refl) as [H1 | H2].
    + exists j, o, (length trace). split; [now left|]. split; [reflexivity|].
      split; [lia | now left].
    + exists j, o, (S (length trace)). split; [now left|]. split; [reflexivity|].
      split; [lia | now right].
Qed.

(** C1.  Every posting scored by Call 1 carries the score of the model's
    answer to a request made for that posting (the first request, or the
    retry on its truncated description), clamped to 0..100, and a verdict
    that is the function [computeVerdict] of that score and of the group's
    thresholds; the verdict field of the model's answer plays no part:
    whatever answer the model gives to the first request for a posting, the
    scored job has the clamped score of that answer and the verdict computed
    from it.  Under the group invariant the verdict is STRONG_MATCH iff the
    score reaches [score_strong_match_min], WEAK_MATCH iff it lies strictly
    between [score_no_match_max] and [score_strong_match_min], and NO_MATCH
    iff it is at most [score_no_match_max]. *)
Theorem verdict_recomputed_from_score (m : Llm) (settings : SettingsRow)
  (g : SearchGroupRow.t) (postings : list JobPosting) (trace : list LlmCall)
  (r : ScoredJob) :
  groupInvariant g ->
  In r (fst (scoreJobs m postings (scoringSettingsOf settings g) trace)) ->
  (exists j o n,
     In j postings /\ job r = j /\ (length trace <= n)%nat
     /\ (callScoringLlm m n (scoringRequest (scoringSettingsOf settings g) j)
         = Returns (Some o)
         \/ callScoringLlm m n
              (scoringRequest (scoringSettingsOf settings g) (truncatedJob j))
            = Returns (Some o))
     /\ score r = clampScore (llm_score o))
  /\ 0 <= score r <= 100
  /\ verdict r = computeVerdict (score r) (scoringSettingsOf settings g)
  /\ (verdict r = STRONG_MATCH
      <-> score r >= SearchGroupRow.score_strong_match_min g)
  /\ (verdict r = WEAK_MATCH
      <-> SearchGroupRow.score_no_match_max g < score r
          < SearchGroupRow.score_strong_match_min g)
  /\ (verdict r = NO_MATCH <-> score r <= SearchGroupRow.score_no_match_max g)
  /\ (forall j rest o,
        callScoringLlm m (length trace)
          (scoringRequest (scoringSettingsOf settings g) j) = Returns (Some o) ->
        exists r0 rs,
          fst (scoreJobs m (j :: rest) (scoringSettingsOf settings g) trace) = r0 :: rs
          /\ job r0 = j
          /\ score r0 = clampScore (llm_score o)
          /\ verdict r0
             = computeVerdict (clampScore (llm_score o)) (scoringSettingsOf settings g)).
Proof.
  intros [Hlt Heq] Hin.
  destruct (scoreJobs_replies _ _ _ _ _ Hin) as (j & o & n & Hj & -> & Hn & Hcall).
  cbn [toScoredJob score verdict job].
  split; [exists j, o, n; repeat split; assumption|].
  split; [apply clampScore_range|].
  split; [reflexivity|].
  split; [|split; [|split]].
  - rewrite computeVerdict_strong. cbn. lia.
  - rewrite computeVerdict_weak. cbn. lia.
  - rewrite computeVerdict_no_match; cbn; lia.
  - intros j0 rest o0 H0. cbn [scoreJobs]. unfold scoreOne.
    unfold scoringRequest in H0. rewrite H0.
    destruct (scoreJobs m rest (scoringSettingsOf settings g) _) as [results trace2].
    cbn [fst]. eexists _, results. split; [reflexivity|]. now repeat split.
Qed.

Lemma verdict_recomputed_from_score_witness :
  groupInvariant (exGroup 1 "")
  /\ In (toScoredJob (exPosting "n1" "PM" "Good")
           (scoringSettingsOf exSettings (exGroup 1 "")) (exOutput 85))
        (fst (scoreJobs (flakyLlm 0 85) [exPosting "n1" "PM" "Good"]
                (scoringSettingsOf exSettings (exGroup 1 "")) []))
  /\ llm_verdict (exOutput 85) = "NO_MATCH"
  /\ verdict (toScoredJob (exPosting "n1" "PM" "Good")
                (scoringSettingsOf exSettings (exGroup 1 "")) (exOutput 85))
     = STRONG_MATCH.
Proof.
  assert (Hinv : groupInvariant (exGroup 1 "")) by (split; reflexivity).
  assert (Hin : In (toScoredJob (exPosting "n1" "PM" "Good")
                      (scoringSettingsOf exSettings (exGroup 1 "")) (exOutput 85))
                   (fst (scoreJobs (flakyLlm 0 85) [exPosting "n1" "PM" "Good"]
                           (scoringSettingsOf exSettings (exGroup 1 "")) [])))
    by (left; reflexivity).
  split; [exact Hinv|]. split; [exact Hin|]. split; [reflexivity|].
  destruct (verdict_recomputed_from_score (flakyLlm 0 85) exSettings (exGroup 1 "")
              [exPosting "n1" "PM" "Good"] [] _ Hinv Hin)
    as (_ & _ & _ & Hstrong & _).
  apply Hstrong. vm_compute. discriminate.
Defined.

(** The thresholds 50 / 70 / 71: 85 is a strong match, 70 a weak match, and
    40 no match, with the rejection category of the model; the model's own
    verdict, STRONG_MATCH each time, is not used. *)
Example thresholds_50_70_71 :
  let s := scoringSettingsOf exSettings (exGroup 1 "") in
  let j := exPosting "n1" "PM" "Good" in
  verdict (toScoredJob j s (exRejection 85 "NONE")) = STRONG_MATCH
  /\ verdict (toScoredJob j s (exRejection 70 "NONE")) = WEAK_MATCH
  /\ verdict (toScoredJob j s (exRejection 40 "PROFILE_MISMATCH")) = NO_MATCH
  /\ rejectionCategory (toScoredJob j s (exRejection 40 "PROFILE_MISMATCH"))
     = Some "PROFILE_MISMATCH"
  /\ score (toScoredJob j s (exRejection 140 "NONE")) = 100.
Proof. repeat split; vm_compute; reflexivity. Qed.

(** ** Boilerplate trimming (aiScorer.ts) *)

Lemma append_cons (c : ascii) (a b : string) :
  String c a +:+ b = String c (a +:+ b).
Proof. reflexivity. Qed.

Lemma append_nil (b : string) : EmptyString +:+ b = b.
Proof. reflexivity. Qed.

Lemma append_nil_r (a : string) : a +:+ EmptyString = a.
Proof.
  induction a as [|c a IH]; [reflexivity|]. now rewrite append_cons, IH.
Qed.



Lemma take_prefix (n : nat) (s : string) : exists rest, s = take n s +:+ rest.
Proof.
  revert s. induction n as [|n IH]; intros s.
  - exists s. reflexivity.
  - destruct s as [|c s']; [exists EmptyString; reflexivity|].
    destruct (IH s') as [rest Hrest]. exists rest. simpl. rewrite append_cons. f_equal. exact Hrest.
Qed.

Lemma take_length (s : string) : take (String.length s) s = s.
Proof. induction s as [|c s IH]; simpl; [reflexivity | now rewrite IH]. Qed.

Lemma take_length_le (n : nat) (s : string) : (String.length (take n s) <= n)%nat.
Proof.
  revert s. induction n as [|n IH]; intros [|c s']; simpl; try lia.
  specialize (IH s'). lia.
Qed.

Lemma trimEnd_split (s : string) :
  exists ws, s = trimEnd s +:+ ws /\ allWhiteSpace ws = true.
Proof.
  induction s as [|c s' (ws & Hs & Hws)].
  - exists EmptyString. split; reflexivity.
  - simpl. destruct (trimEnd s') as [|c' r] eqn:Ht.
    + rewrite append_nil in Hs. subst ws. destruct (isWhiteSpace c) eqn:Hc.
      * exists (String c s'). split; [reflexivity|]. simpl. now rewrite Hc, Hws.
      * exists s'. split; [reflexivity | assumption].
    + exists ws. split; [|assumption]. rewrite append_cons. f_equal. exact Hs.
Qed.

Section CutIndex.
Variable text : string.

Lemma cut_fold_le (ps : list regex) (init : nat) :
    (fold_left (cutStep text) ps init <= init)%nat.
  Proof.
    revert init. induction ps as [|p ps IH]; intros init; simpl; [lia|].
    specialize (IH (cutStep text init p)).
    assert ((cutStep text init p <= init)%nat); [|lia].
    unfold cutStep. destruct (exec p text) as [i|]; [|lia].
    destruct (Nat.ltb_spec i init); lia.
  Qed.

Lemma cut_fold_lower (ps : list regex) (init : nat) (p : regex) (i : nat) :
    In p ps -> exec p text = Some i ->
    (fold_left (cutStep text) ps init <= i)%nat.
  Proof.
    revert init. induction ps as [|q ps IH]; intros init Hin Hex; simpl.
    - contradiction.
    - destruct Hin as [-> | Hin].
      + pose proof (cut_fold_le ps (cutStep text init p)) as Hle.
        assert ((cutStep text init p <= i)%nat); [|lia].
        unfold cutStep. rewrite Hex. destruct (Nat.ltb_spec i init); lia.
      + now apply IH.
  Qed.

Lemma cut_fold_attained (ps : list regex) (init : nat) :
    fold_left (cutStep text) ps init = init
    \/ exists p, In p ps /\ exec p text = Some (fold_left (cutStep text) ps init).
  Proof.
    revert init. induction ps as [|q ps IH]; intros init; simpl; [now left|].
    destruct (IH (cutStep text init q)) as [Heq | (p & Hin & Hex)].
    - rewrite Heq. unfold cutStep. destruct (exec q text) as [i|] eqn:Hq; [|now left].
      destruct (Nat.ltb_spec i init); [|now left].
      right. exists q. split; [now left | assumption].
    - right. exists p. split; [now right | assumption].
  Qed.
End CutIndex.

(** What [trimEnd] returns does not end in white space, and it is the only
    such text that white space alone separates from the end of [s]. *)
Lemma trimEnd_no_trailing (s : string) : endsWithWhiteSpace (trimEnd s) = false.
Proof.
  induction s as [|c s IH]; [reflexivity|].
  cbn [trimEnd]. destruct (trimEnd s) as [|x r].
  - destruct (isWhiteSpace c) eqn:Hc; [reflexivity | exact Hc].
  - exact IH.
Qed.

Lemma trimEnd_allWhiteSpace (ws : string) :
  allWhiteSpace ws = true -> trimEnd ws = EmptyString.
Proof.
  induction ws as [|c ws IH]; [reflexivity|].
  cbn [allWhiteSpace]. intros H. apply andb_true_iff in H. destruct H as [Hc Hws].
  cbn [trimEnd]. now rewrite (IH Hws), Hc.
Qed.

Lemma trimEnd_unique (r ws : string) :
  allWhiteSpace ws = true -> endsWithWhiteSpace r = false ->
  trimEnd (r +:+ ws) = r.
Proof.
  intros Hws. induction r as [|c r IH]; intros Hr.
  - rewrite append_nil. now apply trimEnd_allWhiteSpace.
  - rewrite append_cons. cbn [trimEnd]. destruct r as [|x r'].
    + rewrite append_nil, (trimEnd_allWhiteSpace ws Hws).
      cbn [endsWithWhiteSpace] in Hr. now rewrite Hr.
    + rewrite (IH Hr). reflexivity.
Qed.

(** C8 (amended).  [trimBoilerplate] cuts at the earliest index at which any
    of the fixed patterns matches (at the end of the text when none does)
    and then removes the white space that ends the part it keeps: the result
    is a prefix of the text, what lies between it and the cut is white
    space only, and it does not end in white space; it is the only text
    with these properties, the [trimEnd] of the part before the cut.  When
    no pattern matches, the text is returned without its trailing white
    space, and unchanged exactly when it does not end in white space. *)
Theorem trimBoilerplate_cut_then_trimEnd (text : string) :
  let cutAt := cutIndex BOILERPLATE_PATTERNS text in
  (cutAt <= String.length text)%nat
  /\ (forall p i, In p BOILERPLATE_PATTERNS -> exec p text = Some i ->
                  (cutAt <= i)%nat)
  /\ (cutAt = String.length text
      \/ exists p, In p BOILERPLATE_PATTERNS /\ exec p text = Some cutAt)
  /\ (exists ws rest,
        take cutAt text = trimBoilerplate text +:+ ws
        /\ allWhiteSpace ws = true
        /\ text = take cutAt text +:+ rest)
  /\ (noPatternMatches text ->
      exists ws, text = trimBoilerplate text +:+ ws /\ allWhiteSpace ws = true)
  /\ endsWithWhiteSpace (trimBoilerplate text) = false
  /\ trimBoilerplate text = trimEnd (take cutAt text)
  /\ (forall r ws,
        take cutAt text = r +:+ ws -> allWhiteSpace ws = true ->
        endsWithWhiteSpace r = false -> trimBoilerplate text = r)
  /\ (noPatternMatches text ->
      trimBoilerplate text = trimEnd text
      /\ (trimBoilerplate text = text <-> endsWithWhiteSpace text = false)).
Proof.
  intros cutAt. subst cutAt. unfold cutIndex.
  assert (Hnone : noPatternMatches text ->
            fold_left (cutStep text) BOILERPLATE_PATTERNS (String.length text)
            = String.length text).
  { intros Hno.
    destruct (cut_fold_attained text BOILERPLATE_PATTERNS (String.length text))
      as [Heq | (p & Hin & Hex)]; [exact Heq|].
    rewrite (Hno p Hin) in Hex. discriminate. }
  split; [apply cut_fold_le|].
  split; [intros p i; apply cut_fold_lower|].
  split; [apply cut_fold_attained|].
  split.
  { destruct (trimEnd_split (take (cutIndex BOILERPLATE_PATTERNS text) text))
      as (ws & Hs & Hws).
    destruct (take_prefix (cutIndex BOILERPLATE_PATTERNS text) text) as [rest Hrest].
    exists ws, rest. repeat split; assumption. }
  split.
  { intros Hno. unfold trimBoilerplate, trimBoilerplateWith, cutIndex.
    rewrite (Hnone Hno), take_length. apply trimEnd_split. }
  split; [apply trimEnd_no_trailing|].
  split; [reflexivity|].
  split.
  { intros r ws Hcut Hws Hr. unfold trimBoilerplate, trimBoilerplateWith, cutIndex.
    rewrite Hcut. now apply trimEnd_unique. }
  intros Hno.
  assert (Heq : trimBoilerplate text = trimEnd text).
  { unfold trimBoilerplate, trimBoilerplateWith, cutIndex.
    now rewrite (Hnone Hno), take_length. }
  split; [exact Heq|]. rewrite Heq. split.
  - intros H. rewrite <- H. apply trimEnd_no_trailing.
  - intros H. rewrite <- (append_nil_r text) at 1. now apply trimEnd_unique.
Qed.

(** C8 as stated fails: on the text ["a "] no pattern matches and yet the
    result differs from the text; on ["Ship it.  We are an equal opportunity
    employer"] the cut is at index 20 and the space at index 19, which
    precedes the cut, is not kept. *)
Lemma trimBoilerplate_not_verbatim :
  (noPatternMatches "a " /\ trimBoilerplate "a " <> "a ")
  /\ (cutIndex BOILERPLATE_PATTERNS "Ship it.  We are an equal opportunity employer"
      = 20%nat
      /\ trimBoilerplate "Ship it.  We are an equal opportunity employer"
         <> take 20 "Ship it.  We are an equal opportunity employer").
Proof.
  split; split.
  - intros p Hin. cbv [BOILERPLATE_PATTERNS In] in Hin.
    repeat (destruct Hin as [<- | Hin]; [vm_compute; reflexivity|]).
    contradiction.
  - vm_compute. discriminate.
  - vm_compute. reflexivity.
  - vm_compute. discriminate.
Qed.

(** ** Title filter (runner.ts) *)

Lemma has_true (s : gset string) (x : string) : has s x = true <-> x ∈ s.
Proof. unfold has. apply bool_decide_eq_true. Qed.

Lemma has_list_to_set (l : list string) (x : string) :
  has (list_to_set l) x = true <-> In x l.
Proof. rewrite has_true, elem_of_list_to_set. apply list_elem_of_In. Qed.

Lemma truthy_true (s : string) : truthy s = true <-> s <> EmptyString.
Proof. destruct s; simpl; split; intros; congruence. Qed.

Lemma truthy_toLowerCase (s : string) : truthy (toLowerCase s) = truthy s.
Proof. destruct s; reflexivity. Qed.

Lemma titleFilterActive_false (g : SearchGroupRow.t) :
  titleFilterActive g = false <-> trim (SearchGroupRow.title_filter g) = EmptyString.
Proof.
  unfold titleFilterActive.
  destruct (SearchGroupRow.title_filter g) as [|c f] eqn:Hf.
  - split; reflexivity.
  - cbn [truthy andb]. destruct (trim (String c f)); simpl; split; congruence.
Qed.

Lemma matchesTitleFilter_true (titleText filterText : string) :
  matchesTitleFilter titleText filterText = true
  <-> exists line,
        In line (splitOn LF filterText) /\ trim line <> EmptyString
        /\ forall w, In w (splitNonWord (toLowerCase (trim line))) ->
                     In w (splitNonWord (toLowerCase titleText)).
Proof.
  unfold matchesTitleFilter. rewrite existsb_exists. split.
  - intros (l & Hl & Hall).
    apply filter_In in Hl. destruct Hl as [Hl Htruthy].
    apply in_map_iff in Hl. destruct Hl as (line & <- & Hline).
    exists line. split; [assumption|]. split.
    + rewrite truthy_toLowerCase in Htruthy. now apply truthy_true.
    + intros w Hw. rewrite forallb_forall in Hall.
      apply has_list_to_set. now apply Hall.
  - intros (line & Hline & Hne & Hall).
    exists (toLowerCase (trim line)). split.
    + apply filter_In. split.
      * apply in_map_iff. now exists line.
      * rewrite truthy_toLowerCase. now apply truthy_true.
    + apply forallb_forall. intros w Hw. apply has_list_to_set. now apply Hall.
Qed.

Lemma passesTitleFilter_true (g : SearchGroupRow.t) (j : JobPosting) :
  passesTitleFilter g j = true
  <-> trim (SearchGroupRow.title_filter g) = EmptyString
      \/ exists line,
           In line (splitOn LF (SearchGroupRow.title_filter g))
           /\ trim line <> EmptyString
           /\ forall w, In w (splitNonWord (toLowerCase (trim line))) ->
                        In w (splitNonWord (toLowerCase (title j))).
Proof.
  unfold passesTitleFilter.
  destruct (titleFilterActive g) eqn:Hact.
  - rewrite matchesTitleFilter_true. split; [now right|].
    intros [Hblank | H]; [|exact H].
    apply titleFilterActive_false in Hblank. congruence.
  - apply titleFilterActive_false in Hact. split; [now left | reflexivity].
Qed.

(** C9 (amended).  A posting passes the title filter of its group iff the
    filter text is blank, or the title contains every token of at least one
    line of the filter text that is non-empty after trimming.  Tokens are
    the maximal runs of word characters [A-Za-z0-9_] of the lower-cased
    text: white space and every other character separate tokens.  Only the
    set of the title's tokens matters, not their order or number. *)
Theorem title_filter_by_word_tokens (g : SearchGroupRow.t) (j : JobPosting) :
  (passesTitleFilter g j = true
   <-> trim (SearchGroupRow.title_filter g) = EmptyString
       \/ exists line,
            In line (splitOn LF (SearchGroupRow.title_filter g))
            /\ trim line <> EmptyString
            /\ forall w, In w (splitNonWord (toLowerCase (trim line))) ->
                         In w (splitNonWord (toLowerCase (title j))))
  /\ (forall j' : JobPosting,
        (forall w, In w (splitNonWord (toLowerCase (title j)))
                   <-> In w (splitNonWord (toLowerCase (title j')))) ->
        passesTitleFilter g j' = passesTitleFilter g j).
Proof.
  split; [apply passesTitleFilter_true|].
  intros j' Hsame.
  assert (Hiff : passesTitleFilter g j' = true <-> passesTitleFilter g j = true).
  { rewrite !passesTitleFilter_true.
    split; (intros [Hb | (line & Hl & Hne & Hall)]; [now left | right]);
      exists line; repeat split; try assumption; intros w Hw; apply Hsame; now apply Hall. }
  destruct (passesTitleFilter g j'), (passesTitleFilter g j); try reflexivity.
  - symmetry. now apply Hiff.
  - now apply Hiff.
Qed.

(** C9 as stated fails: with the filter line ["senior, manager"] the title
    ["Senior Manager"] passes, because the comma separates tokens and is
    dropped; the white-space tokens of the line are ["senior,"] and
    ["manager"], and the title has no token ["senior,"]. *)
Lemma title_filter_splits_at_punctuation :
  passesTitleFilter (exGroup 1 "senior, manager")
    (exPosting "1" "Senior Manager" "Initech") = true
  /\ specPassesTitleFilter "Senior Manager" "senior, manager" = false.
Proof. split; vm_compute; reflexivity. Qed.

(** ** What the retry sends *)

Section Consumes.
Context {R : Type}.

Lemma star_consumes (p : ascii -> bool) (k : @cont R) :
  forall (s : string) (prev : option ascii) (x : R),
    star p k prev s = Some x ->
    exists prev' s', k prev' s' = Some x
                     /\ (String.length s' <= String.length s)%nat.
Proof.
  induction s as [|c s IH]; intros prev x H; simpl in H.
  - exists prev, EmptyString. split; [assumption | lia].
  - destruct (p c).
    + destruct (star p k (Some c) s) as [y|] eqn:Hs.
      * injection H as <-. destruct (IH _ _ Hs) as (prev' & s' & Hk & Hle).
        exists prev', s'. split; [assumption | simpl; lia].
      * exists prev, (String c s). split; [assumption | lia].
    + exists prev, (String c s). split; [assumption | lia].
Qed.

Lemma upTo_consumes (p : ascii -> bool) (k : @cont R) :
  forall (n : nat) (s : string) (prev : option ascii) (x : R),
    upTo n p k prev s = Some x ->
    exists prev' s', k prev' s' = Some x
                     /\ (String.length s' <= String.length s)%nat.
Proof.
  induction n as [|n IH]; intros s prev x H.
  - destruct s; simpl in H; exists prev; eexists; (split; [exact H | lia]).
  - destruct s as [|c s]; simpl in H.
    + exists prev, EmptyString. split; [assumption | lia].
    + destruct (p c).
      * destruct (upTo n p k (Some c) s) as [y|] eqn:Hs.
        -- injection H as <-. destruct (IH _ _ _ Hs) as (prev' & s' & Hk & Hle).
           exists prev', s'. split; [assumption | simpl; lia].
        -- exists prev, (String c s). split; [assumption | lia].
      * exists prev, (String c s). split; [assumption | lia].
Qed.
End Consumes.

Lemma matchRe_consumes {R : Type} (r : regex) :
  forall (k : @cont R) (prev : option ascii) (s : string) (x : R),
    matchRe r k prev s = Some x ->
    exists prev' s', k prev' s' = Some x
                     /\ (String.length s' + minLen r <= String.length s)%nat.
Proof.
  induction r as [| p | r1 IH1 r2 IH2 | r1 IH1 r2 IH2 | p | n p | |];
    intros k prev s x H; cbn [matchRe minLen] in *.
  - exists prev, s. split; [assumption | lia].
  - destruct s as [|c s]; [discriminate|]. destruct (p c); [|discriminate].
    exists (Some c), s. split; [assumption | simpl; lia].
  - destruct (IH1 _ _ _ _ H) as (p1 & s1 & H1 & Hle1).
    destruct (IH2 _ _ _ _ H1) as (p2 & s2 & H2 & Hle2).
    exists p2, s2. split; [assumption | lia].
  - destruct (matchRe r1 k prev s) as [y|] eqn:Hr1.
    + injection H as <-. destruct (IH1 _ _ _ _ Hr1) as (p1 & s1 & H1 & Hle1).
      exists p1, s1. split; [assumption | lia].
    + destruct (IH2 _ _ _ _ H) as (p2 & s2 & H2 & Hle2).
      exists p2, s2. split; [assumption | lia].
  - destruct (star_consumes _ _ _ _ _ H) as (p' & s' & Hk & Hle).
    exists p', s'. split; [assumption | lia].
  - destruct (upTo_consumes _ _ _ _ _ _ H) as (p' & s' & Hk & Hle).
    exists p', s'. split; [assumption | lia].
  - destruct (xorb _ _); [|discriminate]. exists prev, s. split; [assumption | lia].
  - destruct prev as [c|].
    + destruct (isLineTerminator c); [|discriminate].
      exists (Some c), s. split; [assumption | lia].
    + exists None, s. split; [assumption | lia].
Qed.

Lemma append_length (a b : string) :
  String.length (a +:+ b) = (String.length a + String.length b)%nat.
Proof. induction a as [|c a IH]; [reflexivity|]. rewrite append_cons. simpl. now rewrite IH. Qed.

(** A global replacement whose replacement text is no longer than any
    match does not lengthen the string. *)
Lemma replaceFrom_length (r : regex) (repl : string) :
  (String.length repl <= minLen r)%nat ->
  forall (fuel : nat) (prev : option ascii) (s : string),
    (String.length (replaceFrom fuel r repl prev s) <= String.length s)%nat.
Proof.
  intros Hrepl. induction fuel as [|fuel IH]; intros prev s; cbn [replaceFrom]; [lia|].
  destruct (matchHere r prev s) as [[prev' rest]|] eqn:Hm.
  - unfold matchHere in Hm. apply matchRe_consumes in Hm.
    destruct Hm as (p' & s' & [= <- <-] & Hle).
    destruct (Nat.ltb_spec (String.length s') (String.length s)).
    + rewrite append_length. specialize (IH p' s'). lia.
    + destruct s as [|c s]; [lia|].
      rewrite append_length. cbn [String.length]. specialize (IH (Some c) s).
      simpl in *. lia.
  - destruct s as [|c s]; [simpl; lia|]. cbn [String.length].
    specialize (IH (Some c) s). lia.
Qed.

Lemma replaceAll_length (r : regex) (repl : string) (s : string) :
  (String.length repl <= minLen r)%nat ->
  (String.length (replaceAll r repl s) <= String.length s)%nat.
Proof. intros H. now apply replaceFrom_length. Qed.

Lemma trimStart_length (s : string) :
  (String.length (trimStart s) <= String.length s)%nat.
Proof.
  induction s as [|c s IH]; simpl; [lia|]. destruct (isWhiteSpace c); simpl; lia.
Qed.

Lemma trimEnd_length (s : string) :
  (String.length (trimEnd s) <= String.length s)%nat.
Proof.
  destruct (trimEnd_split s) as (ws & Hs & _).
  rewrite Hs at 2. rewrite append_length. lia.
Qed.

Lemma take_length_le_string (n : nat) (s : string) :
  (String.length (take n s) <= String.length s)%nat.
Proof.
  destruct (take_prefix n s) as [rest Hrest].
  rewrite Hrest at 2. rewrite append_length. lia.
Qed.

Lemma stripHtml_length (html : string) :
  (String.length (stripHtml html) <= String.length html)%nat.
Proof.
  unfold stripHtml, trim.
  repeat match goal with
  | |- (String.length (trimEnd ?x) <= _)%nat =>
      etransitivity; [apply trimEnd_length|]
  | |- (String.length (trimStart ?x) <= _)%nat =>
      etransitivity; [apply trimStart_length|]
  | |- (String.length (replaceAll ?r ?repl ?x) <= _)%nat =>
      etransitivity; [apply replaceAll_length; vm_compute; lia|]
  end.
  lia.
Qed.

Lemma trimBoilerplate_length (text : string) :
  (String.length (trimBoilerplate text) <= String.length text)%nat.
Proof.
  unfold trimBoilerplate, trimBoilerplateWith.
  etransitivity; [apply trimEnd_length | apply take_length_le_string].
Qed.

Lemma take_length_min (n : nat) (s : string) :
  String.length (take n s) = Nat.min n (String.length s).
Proof.
  revert s. induction n as [|n IH]; intros [|c s]; simpl; try reflexivity.
  now rewrite IH.
Qed.

(** The description in the request of the retry: at most 3000 code units,
    and never more than in the first request. *)
Lemma retry_description_length (systemPrompt model summaryPrompt : string)
  (j : JobPosting) :
  let first := buildScoringUserMessage systemPrompt model j summaryPrompt in
  let retry := buildScoringUserMessage systemPrompt model (truncatedJob j)
                 summaryPrompt in
  (String.length (sr_description retry) <= 3000)%nat
  /\ (String.length (sr_description retry) <= String.length (sr_description first))%nat.
Proof.
  cbn [buildScoringUserMessage sr_description truncatedJob withDescription description].
  set (X := trimBoilerplate (stripHtml (description j))).
  assert (Hcaps : (3000 <= 8000)%nat) by (apply Nat.leb_le; vm_compute; reflexivity).
  revert Hcaps. generalize 3000%nat, 8000%nat. intros a b Hab.
  assert (H : (String.length (take b (trimBoilerplate (stripHtml (take a X))))
               <= String.length (take a X))%nat).
  { etransitivity; [apply take_length_le_string|].
    etransitivity; [apply trimBoilerplate_length | apply stripHtml_length]. }
  rewrite (take_length_min a X) in H. rewrite (take_length_min b X).
  split; lia.
Qed.

(** ** Failures of the two calls (aiScorer.ts) *)

Lemma length_snoc {A : Type} (l : list A) (x : A) : length (l ++ [x]) = S (length l).
Proof. rewrite length_app. simpl. lia. Qed.

Lemma app_snoc2 {A : Type} (l : list A) (x y : A) : (l ++ [x]) ++ [y] = l ++ [x; y].
Proof. now rewrite <- app_assoc. Qed.

(** C6.  A scoring request that returns is not repeated.  When the first
    scoring request of a posting throws, exactly one more request is made
    for it, built from the posting with its cleaned description cut to 3000
    code units (the first request allows 8000): the description it sends
    has at most 3000 code units and is never longer than the one sent
    first.  When the retry answers, the posting is scored from that answer:
    the [ScoredJob] carries the posting as it was fetched (not the truncated
    one), the clamped score of the answer and the verdict computed from it,
    and the loop goes on after the two requests.  When the retry throws too,
    or answers [null], the posting yields no [ScoredJob] and the loop goes
    on with the next posting.  When the dedup request fails, the answer is
    [isDuplicate = false], [duplicateOfId = null], and in the runner the
    strong match is kept as a non-duplicate with its summary. *)
Theorem ai_call_failures (env : Env) (settings : SettingsRow) (j : JobPosting)
  (rest : list JobPosting) (trace : list LlmCall) :
  let m := llm env in
  let req1 := buildScoringUserMessage (ai_system_prompt settings)
                (ai_model settings) j (summary_prompt settings) in
  let req2 := buildScoringUserMessage (ai_system_prompt settings)
                (ai_model settings) (truncatedJob j) (summary_prompt settings) in
  (forall msg, callScoringLlm m (length trace) req1 = Throws msg ->
     snd (scoreOne m settings j trace) = trace ++ [Call1 req1; Call1 req2]
     /\ (String.length (description (truncatedJob j)) <= 3000)%nat
     /\ (String.length (sr_description req2) <= 3000)%nat
     /\ (String.length (sr_description req2) <= String.length (sr_description req1))%nat
     /\ (forall msg', callScoringLlm m (S (length trace)) req2 = Throws msg' ->
           fst (scoreOne m settings j trace) = None
           /\ scoreJobs m (j :: rest) settings trace
              = scoreJobs m rest settings (trace ++ [Call1 req1; Call1 req2]))
     /\ (forall o, callScoringLlm m (S (length trace)) req2 = Returns (Some o) ->
           fst (scoreOne m settings j trace) = Some o
           /\ fst (scoreJobs m (j :: rest) settings trace)
              = toScoredJob j settings o
                :: fst (scoreJobs m rest settings (trace ++ [Call1 req1; Call1 req2]))
           /\ snd (scoreJobs m (j :: rest) settings trace)
              = snd (scoreJobs m rest settings (trace ++ [Call1 req1; Call1 req2]))
           /\ job (toScoredJob j settings o) = j
           /\ score (toScoredJob j settings o) = clampScore (llm_score o)
           /\ verdict (toScoredJob j settings o)
              = computeVerdict (clampScore (llm_score o)) settings)
     /\ (callScoringLlm m (S (length trace)) req2 = Returns None ->
           fst (scoreOne m settings j trace) = None
           /\ scoreJobs m (j :: rest) settings trace
              = scoreJobs m rest settings (trace ++ [Call1 req1; Call1 req2])))
  /\ (forall (scored : ScoredJob) (existingJobs : list ExistingJob),
        let req := buildDedupSummaryUserMessage (dedup_system_prompt settings)
                     (ai_model settings) scored existingJobs in
        dedupCallFailed (callDedupLlm m (length trace) req) ->
        dedupAndSummarise m scored existingJobs settings trace
        = ({| isDuplicate := false; duplicateOfId := None |}, trace ++ [Call2 req]))
  /\ (forall (d : Db) (scored : ScoredJob) (vars : DedupVars),
        let existingJobs :=
          selectExistingJobs d (company (job scored)) (title (job scored)) in
        let req := buildDedupSummaryUserMessage (dedup_system_prompt settings)
                     (ai_model settings) scored existingJobs in
        verdict scored = STRONG_MATCH ->
        has (dv_seenStrongInRun vars) (runKeyOf scored) = false ->
        existingJobs <> [] ->
        dedupCallFailed (callDedupLlm m (length (dv_trace vars)) req) ->
        fst (dedupStep env settings d vars scored)
        = {| JobResult.scored := scored; JobResult.isDuplicate := false;
             JobResult.duplicateOfId := None;
             JobResult.summary := summary scored |})
  /\ (forall output, callScoringLlm m (length trace) req1 = Returns output ->
        scoreOne m settings j trace = (output, trace ++ [Call1 req1])
        /\ forall o, output = Some o ->
             fst (scoreJobs m (j :: rest) settings trace)
             = toScoredJob j settings o
               :: fst (scoreJobs m rest settings (trace ++ [Call1 req1]))).
Proof.
  intros m req1 req2. split; [|split; [|split]].
  - intros msg H1. unfold scoreOne. fold req1. fold req2. rewrite H1.
    rewrite length_snoc. split; [|split; [|split; [|split; [|split; [|split]]]]].
    + destruct (callScoringLlm m (S (length trace)) req2); simpl; apply app_snoc2.
    + apply take_length_le.
    + apply retry_description_length.
    + apply retry_description_length.
    + intros msg' H2. cbn [scoreJobs]. unfold scoreOne. fold req1. fold req2.
      rewrite H1, length_snoc, H2. cbn [fst]. split; [reflexivity|].
      rewrite app_snoc2.
      destruct (scoreJobs m rest settings (trace ++ [Call1 req1; Call1 req2]));
        reflexivity.
    + intros o H2. cbn [scoreJobs]. unfold scoreOne. fold req1. fold req2.
      rewrite H1, length_snoc, H2. cbn [fst]. split; [reflexivity|].
      rewrite app_snoc2.
      destruct (scoreJobs m rest settings (trace ++ [Call1 req1; Call1 req2]));
        now repeat split.
    + intros H2. cbn [scoreJobs]. unfold scoreOne. fold req1. fold req2.
      rewrite H1, length_snoc, H2. cbn [fst]. split; [reflexivity|].
      rewrite app_snoc2.
      destruct (scoreJobs m rest settings (trace ++ [Call1 req1; Call1 req2]));
        reflexivity.
  - intros scored existingJobs req Hfail. unfold dedupAndSummarise. fold req.
    destruct (callDedupLlm m (length trace) req) as [msg | [o|]];
      [reflexivity | contradiction | reflexivity].
  - intros d scored vars existingJobs req Hv Hkey Hex Hfail.
    subst req. unfold dedupStep. rewrite Hv. cbn [verdictEqb]. rewrite Hkey.
    fold existingJobs. clearbody existingJobs.
    destruct existingJobs as [|e es]; [congruence|].
    unfold dedupAndSummarise. fold m.
    destruct (callDedupLlm m (length (dv_trace vars))
                (buildDedupSummaryUserMessage (dedup_system_prompt settings)
                   (ai_model settings) scored (e :: es))) as [msg | [o|]];
      [reflexivity | contradiction | reflexivity].
  - intros output H1. split.
    + unfold scoreOne. fold req1. now rewrite H1.
    + intros o ->. cbn [scoreJobs]. unfold scoreOne. fold req1. rewrite H1.
      destruct (scoreJobs m rest settings (trace ++ [Call1 req1])); reflexivity.
Qed.

Lemma ai_call_failures_witness :
  snd (scoreOne (flakyLlm 2 85) exSettings (exPosting "n1" "PM" "Good") [])
  = [Call1 (buildScoringUserMessage "global" "gpt" (exPosting "n1" "PM" "Good") "sum");
     Call1 (buildScoringUserMessage "global" "gpt"
              (truncatedJob (exPosting "n1" "PM" "Good")) "sum")]
  /\ scoreJobs (flakyLlm 2 85) [exPosting "n1" "PM" "Good"] exSettings [] =
     ([], [Call1 (buildScoringUserMessage "global" "gpt" (exPosting "n1" "PM" "Good") "sum");
           Call1 (buildScoringUserMessage "global" "gpt"
                    (truncatedJob (exPosting "n1" "PM" "Good")) "sum")])
  /\ fst (dedupAndSummarise (flakyLlm 2 85) (exScored "n1" "PM" "Good")
            [exExisting] exSettings [])
     = {| isDuplicate := false; duplicateOfId := None |}
  /\ fst (dedupStep (exEnv [] (flakyLlm 2 85)) exSettings
            (exDb (Some exSettings) [exGroup 1 ""] [exStored 1 "p1" "PM" "Good"])
            (exVars ∅) (exScored "n1" "PM" "Good"))
     = {| JobResult.scored := exScored "n1" "PM" "Good";
          JobResult.isDuplicate := false; JobResult.duplicateOfId := None;
          JobResult.summary := summary (exScored "n1" "PM" "Good") |}
  /\ fst (scoreJobs (flakyLlm 1 85) [exPosting "n1" "PM" "Good"] exSettings [])
     = [toScoredJob (exPosting "n1" "PM" "Good") exSettings (exOutput 85)]
  /\ description (job (toScoredJob (exPosting "n1" "PM" "Good") exSettings
                         (exOutput 85)))
     = description (exPosting "n1" "PM" "Good").
Proof.
  pose (env := exEnv [] (flakyLlm 2 85)).
  destruct (ai_call_failures env exSettings (exPosting "n1" "PM" "Good") [] [])
    as (Hscore & Hdedup & Hstep & _).
  destruct (Hscore "timeout" eq_refl) as (Htrace & _ & _ & _ & Hskip & _).
  destruct (Hskip "timeout" eq_refl) as (_ & Hjobs).
  split; [exact Htrace|]. split; [exact Hjobs|].
  split; [exact (f_equal fst (Hdedup (exScored "n1" "PM" "Good") [exExisting] I))|].
  assert (Hex : selectExistingJobs
                  (exDb (Some exSettings) [exGroup 1 ""] [exStored 1 "p1" "PM" "Good"])
                  (company (job (exScored "n1" "PM" "Good")))
                  (title (job (exScored "n1" "PM" "Good"))) <> [])
    by (vm_compute; discriminate).
  split.
  { exact (Hstep (exDb (Some exSettings) [exGroup 1 ""] [exStored 1 "p1" "PM" "Good"])
             (exScored "n1" "PM" "Good") (exVars ∅) eq_refl eq_refl Hex I). }
  destruct (ai_call_failures (exEnv [] (flakyLlm 1 85)) exSettings
              (exPosting "n1" "PM" "Good") [] [])
    as (Hretry & _).
  destruct (Hretry "timeout" eq_refl) as (_ & _ & _ & _ & _ & Hanswer & _).
  destruct (Hanswer (exOutput 85) eq_refl) as (_ & Hhead & _ & Hjob & _).
  split; [exact Hhead|]. now rewrite Hjob.
Defined.

(** ** The database operations *)

Lemma insertJobLogs_eq (rows : list RunJobLogRow.t) (d : Db) :
  insertJobLogs rows d = setLogs d (run_job_logs d ++ rows).
Proof.
  unfold insertJobLogs. revert d. induction rows as [|r rows IH]; intros d; simpl.
  - rewrite app_nil_r. now destruct d.
  - rewrite IH. unfold insertJobLog, setLogs. cbn. now rewrite <- app_assoc.
Qed.

Lemma insertJob_inserted (row : JobRow.t) (d d' : Db) :
  insertJob row d = Inserted d' ->
  exists i, d' = setJobs d (jobs d ++ [JobRow.withId i row]) i.
Proof.
  unfold insertJob. destruct (hasLinkedinId d _); [discriminate|].
  destruct (match JobRow.duplicate_of_job_id row with
            | Some i => hasJobId d i | None => true end); [|discriminate].
  intros [= <-]. eexists. reflexivity.
Qed.

(** A skipped row: its identifier was stored, and only the key sequence
    has moved. *)
Lemma insertJob_ignored (row : JobRow.t) (d d' : Db) :
  insertJob row d = Ignored d' ->
  hasLinkedinId d (JobRow.linkedin_job_id row) = true
  /\ d' = setJobs d (jobs d) (nextId (jobs_seq d) (map JobRow.id (jobs d))).
Proof.
  unfold insertJob. destruct (hasLinkedinId d _).
  - intros [= <-]. now split.
  - destruct (match JobRow.duplicate_of_job_id row with
              | Some i => hasJobId d i | None => true end); discriminate.
Qed.

(** What a committed batch of [insertJob] leaves: the other tables as they
    were, and the old rows of [jobs] followed by rows of the batch. *)
Lemma insertJobs_inr (rows : list JobRow.t) :
  forall d d', insertJobs rows d = inr d' ->
    settings_row d' = settings_row d
    /\ search_groups d' = search_groups d
    /\ blacklisted_companies d' = blacklisted_companies d
    /\ search_runs d' = search_runs d
    /\ search_runs_seq d' = search_runs_seq d
    /\ run_job_logs d' = run_job_logs d
    /\ exists added,
         jobs d' = jobs d ++ added
         /\ Forall (fun row => exists r0 i, In r0 rows /\ row = JobRow.withId i r0) added.
Proof.
  induction rows as [|row rows IH]; intros d d' H; simpl in H.
  - injection H as <-. repeat split. exists []. split; [now rewrite app_nil_r | constructor].
  - destruct (insertJob row d) as [d1 | d1 | msg] eqn:Hins; [| |discriminate].
    + apply insertJob_inserted in Hins. destruct Hins as [i ->].
      destruct (IH _ _ H) as (-> & -> & -> & -> & -> & -> & added & -> & Hall).
      repeat split. exists (JobRow.withId i row :: added). split.
      * cbn. now rewrite <- app_assoc.
      * constructor.
        -- exists row, i. split; [now left | reflexivity].
        -- eapply Forall_impl; [exact Hall|].
           intros r (r0 & i0 & Hin & ->). exists r0, i0. split; [now right | reflexivity].
    + apply insertJob_ignored in Hins. destruct Hins as [_ ->].
      destruct (IH _ _ H) as (-> & -> & -> & -> & -> & -> & added & -> & Hall).
      repeat split. exists added. split; [reflexivity|].
      eapply Forall_impl; [exact Hall|].
      intros r (r0 & i0 & Hin & ->). exists r0, i0. split; [now right | reflexivity].
Qed.

Lemma hasLinkedinId_true (d : Db) (lid : string) :
  hasLinkedinId d lid = true
  <-> exists row, In row (jobs d) /\ JobRow.linkedin_job_id row = lid.
Proof.
  unfold hasLinkedinId. rewrite existsb_exists.
  split; intros (row & Hin & H); exists row; (split; [assumption|]).
  - now apply String.eqb_eq.
  - now apply String.eqb_eq.
Qed.

Lemma insertJob_no_fk (row : JobRow.t) (d : Db) :
  JobRow.duplicate_of_job_id row = None ->
  forall msg, insertJob row d <> ConstraintError msg.
Proof.
  intros Hnone msg. unfold insertJob. rewrite Hnone.
  destruct (hasLinkedinId d _); discriminate.
Qed.

Lemma insertJobs_no_fk (rows : list JobRow.t) :
  Forall (fun row => JobRow.duplicate_of_job_id row = None) rows ->
  forall d, exists d', insertJobs rows d = inr d'.
Proof.
  induction 1 as [|row rows Hrow _ IH]; intros d; simpl.
  - now exists d.
  - destruct (insertJob row d) as [d1 | d1 | msg] eqn:Hins.
    + apply IH.
    + apply IH.
    + now apply insertJob_no_fk in Hins.
Qed.

(** A row that is skipped draws a key all the same: after the rows with the
    identifiers a, a and b are handed to [insertJob] on an empty table, the
    rows stored have the keys 1 and 3. *)
Example skipped_row_draws_a_key :
  match insertJobs [exStored 0 "a" "PM" "Good"; exStored 0 "a" "PM" "Good";
                    exStored 0 "b" "PM" "Good"]
          (exDb (Some exSettings) [exGroup 1 ""] []) with
  | inr d => map JobRow.id (jobs d) = [1; 3] /\ jobs_seq d = 3
  | inl _ => False
  end.
Proof. vm_compute. split; reflexivity. Qed.

(** After a committed batch every row of the batch has its
    [linkedin_job_id] in the table: it was there, or it was inserted. *)
Lemma insertJobs_present (rows : list JobRow.t) :
  forall d d', insertJobs rows d = inr d' ->
    forall r0, In r0 rows -> hasLinkedinId d' (JobRow.linkedin_job_id r0) = true.
Proof.
  induction rows as [|row rows IH]; intros d d' H r0 Hin; simpl in H.
  - contradiction.
  - destruct Hin as [<- | Hin].
    + assert (Hnow : exists d1, hasLinkedinId d1 (JobRow.linkedin_job_id row) = true
                                /\ insertJobs rows d1 = inr d').
      { destruct (insertJob row d) as [d1 | d1 | msg] eqn:Hins; [| |discriminate].
        - exists d1. split; [|assumption].
          apply insertJob_inserted in Hins. destruct Hins as [i ->].
          apply hasLinkedinId_true. exists (JobRow.withId i row). split; [|reflexivity].
          cbn. apply in_or_app. right. now left.
        - exists d1. split; [|assumption].
          apply insertJob_ignored in Hins. destruct Hins as [Hhas ->]. exact Hhas. }
      destruct Hnow as (d1 & Hhas & Hrest).
      apply hasLinkedinId_true in Hhas. destruct Hhas as (r & Hr & Hid).
      destruct (insertJobs_inr _ _ _ Hrest) as (_ & _ & _ & _ & _ & _ & added & Hjobs & _).
      apply hasLinkedinId_true. exists r. split; [|assumption].
      rewrite Hjobs. apply in_or_app. now left.
    + destruct (insertJob row d) as [d1 | d1 | msg] eqn:Hins; [| |discriminate];
        eapply IH; eassumption.
Qed.

Lemma dedupLoop_db (env : Env) (settings : SettingsRow) (d : Db)
  (logs : list RunJobLogRow.t) (scoredJobs : list ScoredJob) :
  forall vars,
    dedupLoop env settings (setLogs d logs) vars scoredJobs
    = dedupLoop env settings d vars scoredJobs.
Proof.
  induction scoredJobs as [|s rest IH]; intros vars; simpl; [reflexivity|].
  change (dedupStep env settings (setLogs d logs) vars s)
    with (dedupStep env settings d vars s).
  destruct (dedupStep env settings d vars s) as [r vars1]. now rewrite IH.
Qed.

Lemma logs_setLogs (d : Db) (logs : list RunJobLogRow.t) :
  run_job_logs (setLogs d logs) = logs.
Proof. reflexivity. Qed.

Lemma setLogs_setLogs (d : Db) (a b : list RunJobLogRow.t) :
  setLogs (setLogs d a) b = setLogs d b.
Proof. reflexivity. Qed.

Lemma filterNewJobs_setLogs (d : Db) (logs : list RunJobLogRow.t)
  (postings : list JobPosting) :
  filterNewJobs (setLogs d logs) postings = filterNewJobs d postings.
Proof. destruct postings; reflexivity. Qed.

(** What one pass of the loop body over a fetched list leaves behind,
    whether it ends normally or by the exception of step 6. *)
Lemma processFetched_outcome (env : Env) (settings : SettingsRow)
  (names : gset string) (runId : Z) (g : SearchGroupRow.t) (st : RunState)
  (fetched : list JobPosting) :
  let gid := SearchGroupRow.id g in
  let clean := notBlacklistedOf names g fetched in
  let survivors := survivorsOf (st_seenInRunJobIds st) clean in
  let blacklisted := blacklistedOf names g fetched in
  let withinRunDupes := withinRunDupesOf (st_seenInRunJobIds st) clean in
  let newJobs := fst (filterNewJobs (st_db st) survivors) in
  let providerDupes := snd (filterNewJobs (st_db st) survivors) in
  exists (scoredJobs : list ScoredJob) (trace1 : list LlmCall)
         (jobResults : list JobResult.t) (vars : DedupVars) (d' : Db),
    scoreJobs (llm env) newJobs (scoringSettingsOf settings g) (st_trace st)
    = (scoredJobs, trace1)
    /\ dedupLoop env settings (st_db st)
         {| dv_trace := trace1; dv_seenStrongInRun := st_seenStrongInRun st;
            dv_counts :=
              addScored (len scoredJobs)
                (addDuplicate (len providerDupes)
                   (addDuplicate (len withinRunDupes)
                      (addFetched (len fetched) (st_counts st)))) |}
         scoredJobs
       = (jobResults, vars)
    /\ stepState (processFetched env settings names runId g st fetched)
       = {| st_db := d'; st_trace := dv_trace vars; st_errors := st_errors st;
            st_counts := dv_counts vars;
            st_seenInRunJobIds := addJobIds (st_seenInRunJobIds st) survivors;
            st_seenStrongInRun := dv_seenStrongInRun vars |}
    /\ run_job_logs d'
       = run_job_logs (st_db st)
         ++ map (plainLogRow runId gid "FILTERED" (now env)) (titleFilteredOf g fetched)
         ++ map (plainLogRow runId gid "DUPLICATE" (now env)) withinRunDupes
         ++ map (plainLogRow runId gid "DUPLICATE" (now env)) providerDupes
         ++ map (plainLogRow runId gid "BLACKLISTED" (now env)) blacklisted
         ++ map (scoredLogRow runId gid (now env)) jobResults
    /\ settings_row d' = settings_row (st_db st)
    /\ search_groups d' = search_groups (st_db st)
    /\ blacklisted_companies d' = blacklisted_companies (st_db st)
    /\ search_runs d' = search_runs (st_db st)
    /\ search_runs_seq d' = search_runs_seq (st_db st)
    /\ (exists added,
          jobs d' = jobs (st_db st) ++ added
          /\ Forall
               (fun row => exists i,
                  (exists j, In j blacklisted
                             /\ row = JobRow.withId i (blacklistedJobRow gid (now env) j))
                  \/ (exists r, In r jobResults
                                /\ row = JobRow.withId i (scoredJobRow gid (now env) r)))
               added)
    /\ (forall j, In j blacklisted ->
          exists row,
            In row (jobs d') /\ JobRow.linkedin_job_id row = jobId j
            /\ (In row (jobs (st_db st)) \/ JobRow.ai_verdict row = "BLACKLISTED")).
Proof.
  intros gid clean survivors blacklisted withinRunDupes newJobs providerDupes.
  subst gid clean survivors blacklisted withinRunDupes newJobs providerDupes.
  unfold processFetched, withinRunDupesOf, survivorsOf, notBlacklistedOf,
    blacklistedOf, titleFilteredOf.
  destruct (batchDedup ∅ _) as [batchDupes batchUnique].
  cbn [fst snd].
  rewrite ?insertJobLogs_eq, ?logs_setLogs, ?setLogs_setLogs.
  rewrite filterNewJobs_setLogs.
  destruct (filterNewJobs (st_db st) _) as [newJobs providerDupes].
  cbn [fst snd].
  destruct (scoreJobs (llm env) newJobs _ _) as [scoredJobs trace1].
  rewrite ?insertJobLogs_eq, ?logs_setLogs, ?setLogs_setLogs.
  rewrite dedupLoop_db.
  destruct (dedupLoop env settings (st_db st) _ scoredJobs) as [jobResults vars] eqn:Hloop.
  rewrite ?insertJobLogs_eq, ?logs_setLogs, ?setLogs_setLogs.
  match goal with
  | |- context [insertJobs (map (blacklistedJobRow _ _) ?bl) (setLogs _ ?l)] =>
      remember l as logs eqn:Hlogs; remember bl as blacklisted eqn:Hbl
  end.
  assert (Hfk : Forall (fun row => JobRow.duplicate_of_job_id row = None)
                  (map (blacklistedJobRow (SearchGroupRow.id g) (now env)) blacklisted)).
  { apply List.Forall_forall. intros row Hrow. apply in_map_iff in Hrow.
    now destruct Hrow as (j & <- & _). }
  destruct (insertJobs_no_fk _ Hfk (setLogs (st_db st) logs)) as [d1 Hd1].
  rewrite Hd1.
  destruct (insertJobs_inr _ _ _ Hd1)
    as (Hs1 & Hg1 & Hb1 & Hr1 & Hq1 & Hl1 & added1 & Hj1 & Hall1).
  assert (Hpresent1 : forall j, In j blacklisted ->
            exists row,
              In row (jobs d1) /\ JobRow.linkedin_job_id row = jobId j
              /\ (In row (jobs (st_db st)) \/ JobRow.ai_verdict row = "BLACKLISTED")).
  { intros j Hj.
    assert (Hhas : hasLinkedinId d1 (jobId j) = true).
    { apply (insertJobs_present _ _ _ Hd1
               (blacklistedJobRow (SearchGroupRow.id g) (now env) j)).
      apply in_map_iff. now exists j. }
    apply hasLinkedinId_true in Hhas. destruct Hhas as (row & Hrow & Hid).
    exists row. split; [assumption|]. split; [assumption|].
    rewrite Hj1 in Hrow. apply in_app_or in Hrow. destruct Hrow as [Hold | Hnew].
    - now left.
    - right. rewrite List.Forall_forall in Hall1.
      destruct (Hall1 row Hnew) as (r0 & i & Hr0 & ->).
      apply in_map_iff in Hr0. now destruct Hr0 as (j' & <- & _). }
  assert (Hlogs' : logs = run_job_logs (st_db st)
         ++ map (plainLogRow runId (SearchGroupRow.id g) "FILTERED" (now env))
              (List.filter (fun j => negb (passesTitleFilter g j)) fetched)
         ++ map (plainLogRow runId (SearchGroupRow.id g) "DUPLICATE" (now env))
              (batchDupes ++ List.filter (fun j => has (st_seenInRunJobIds st) (jobId j)) batchUnique)
         ++ map (plainLogRow runId (SearchGroupRow.id g) "DUPLICATE" (now env)) providerDupes
         ++ map (plainLogRow runId (SearchGroupRow.id g) "BLACKLISTED" (now env)) blacklisted
         ++ map (scoredLogRow runId (SearchGroupRow.id g) (now env)) jobResults).
  { rewrite Hlogs, <- !app_assoc. reflexivity. }
  assert (Hadded1 : Forall
               (fun row => exists i,
                  (exists j, In j blacklisted
                             /\ row = JobRow.withId i (blacklistedJobRow (SearchGroupRow.id g) (now env) j))
                  \/ (exists r, In r jobResults
                                /\ row = JobRow.withId i (scoredJobRow (SearchGroupRow.id g) (now env) r)))
               added1).
  { eapply Forall_impl; [exact Hall1|]. intros row (r0 & i & Hin & ->).
    apply in_map_iff in Hin. destruct Hin as (j & <- & Hj).
    exists i. left. now exists j. }
  destruct (insertJobs (map (scoredJobRow _ _) jobResults) d1) as [msg | d2] eqn:Hd2.
  - exists scoredJobs, trace1, jobResults, vars, d1. cbn [stepState].
    split; [reflexivity|]. split; [exact Hloop|]. split; [reflexivity|].
    split; [now rewrite Hl1|].
    repeat (split; [assumption|]).
    split; [|assumption].
    exists added1. split; assumption.
  - destruct (insertJobs_inr _ _ _ Hd2)
      as (Hs2 & Hg2 & Hb2 & Hr2 & Hq2 & Hl2 & added2 & Hj2 & Hall2).
    exists scoredJobs, trace1, jobResults, vars, d2. cbn [stepState].
    split; [reflexivity|]. split; [exact Hloop|]. split; [reflexivity|].
    split; [now rewrite Hl2, Hl1|].
    split; [now rewrite Hs2|]. split; [now rewrite Hg2|]. split; [now rewrite Hb2|].
    split; [now rewrite Hr2|]. split; [now rewrite Hq2|].
    split.
    + exists (added1 ++ added2). split; [now rewrite Hj2, Hj1, app_assoc|].
      apply Forall_app. split; [assumption|].
      eapply Forall_impl; [exact Hall2|]. intros row (r0 & i & Hin & ->).
      apply in_map_iff in Hin. destruct Hin as (r & <- & Hr).
      exists i. right. now exists r.
    + intros j Hj. destruct (Hpresent1 j Hj) as (row & Hrow & Hid & Hkind).
      exists row. split; [|now split].
      rewrite Hj2. apply in_or_app. now left.
Qed.

(** ** Requests made by the two loops *)

Lemma scoreOne_trace (m : Llm) (settings : SettingsRow) (j : JobPosting)
  (trace : list LlmCall) :
  exists calls,
    snd (scoreOne m settings j trace) = trace ++ calls
    /\ Forall (fun c => companyOfCall c = company j) calls.
Proof.
  unfold scoreOne.
  destruct (callScoringLlm m (length trace) _) as [msg | v].
  - destruct (callScoringLlm m _ _) as [msg' | v'];
      eexists [_; _]; (split; [cbn [snd]; now rewrite <- app_assoc|]);
      repeat constructor.
  - eexists [_]. split; [reflexivity|]. repeat constructor.
Qed.

Lemma scoreJobs_trace (m : Llm) (settings : SettingsRow) :
  forall (postings : list JobPosting) (trace : list LlmCall),
  exists calls,
    snd (scoreJobs m postings settings trace) = trace ++ calls
    /\ Forall (fun c => exists j, In j postings /\ companyOfCall c = company j) calls.
Proof.
  induction postings as [|j rest IH]; intros trace; simpl.
  - exists []. split; [now rewrite app_nil_r | constructor].
  - destruct (scoreOne_trace m settings j trace) as (calls1 & H1 & Hall1).
    destruct (scoreOne m settings j trace) as [output trace1]. cbn [snd] in H1.
    destruct (IH trace1) as (calls2 & H2 & Hall2).
    destruct (scoreJobs m rest settings trace1) as [results trace2]. cbn [snd] in H2.
    exists (calls1 ++ calls2). split.
    + destruct output; cbn [snd]; now rewrite H2, H1, app_assoc.
    + apply Forall_app. split.
      * eapply Forall_impl; [exact Hall1|]. intros c Hc. exists j. split; [now left | assumption].
      * eapply Forall_impl; [exact Hall2|]. intros c (j' & Hj' & Hc). exists j'. split; [now right | assumption].
Qed.

Ltac no_calls := exists []; split; [now rewrite app_nil_r | constructor].
Ltac one_call := eexists [_]; split; [reflexivity | repeat constructor].

Lemma dedupStep_facts (env : Env) (settings : SettingsRow) (d : Db)
  (vars : DedupVars) (s : ScoredJob) :
  JobResult.scored (fst (dedupStep env settings d vars s)) = s
  /\ dv_seenStrongInRun vars ⊆ dv_seenStrongInRun (snd (dedupStep env settings d vars s))
  /\ exists calls,
       dv_trace (snd (dedupStep env settings d vars s)) = dv_trace vars ++ calls
       /\ Forall (fun c => companyOfCall c = company (job s)) calls.
Proof.
  unfold dedupStep.
  destruct (verdictEqb (verdict s) STRONG_MATCH).
  - destruct (has (dv_seenStrongInRun vars) (runKeyOf s)).
    + cbn. split; [reflexivity|]. split; [set_solver | no_calls].
    + destruct (selectExistingJobs d (company (job s)) (title (job s))) as [|e es].
      * cbn. split; [reflexivity|]. split; [set_solver | no_calls].
      * unfold dedupAndSummarise.
        destruct (callDedupLlm (llm env) _ _) as [msg | [o|]]; cbn.
        -- split; [reflexivity|]. split; [set_solver | one_call].
        -- destruct (is_duplicate_out o); cbn; (split; [reflexivity|]);
             (split; [set_solver | one_call]).
        -- split; [reflexivity|]. split; [set_solver | one_call].
  - cbn. split; [reflexivity|]. split; [set_solver | no_calls].
Qed.

Lemma dedupLoop_facts (env : Env) (settings : SettingsRow) (d : Db) :
  forall (scoredJobs : list ScoredJob) (vars : DedupVars),
    map JobResult.scored (fst (dedupLoop env settings d vars scoredJobs)) = scoredJobs
    /\ dv_seenStrongInRun vars
       ⊆ dv_seenStrongInRun (snd (dedupLoop env settings d vars scoredJobs))
    /\ exists calls,
         dv_trace (snd (dedupLoop env settings d vars scoredJobs))
         = dv_trace vars ++ calls
         /\ Forall (fun c => exists s, In s scoredJobs
                                       /\ companyOfCall c = company (job s)) calls.
Proof.
  induction scoredJobs as [|s rest IH]; intros vars; simpl.
  - split; [reflexivity|]. split; [set_solver|].
    exists []. split; [now rewrite app_nil_r | constructor].
  - destruct (dedupStep_facts env settings d vars s) as (Hs & Hsub1 & calls1 & Ht1 & Hall1).
    destruct (dedupStep env settings d vars s) as [r vars1]. cbn [fst snd] in *.
    destruct (IH vars1) as (Hmap & Hsub2 & calls2 & Ht2 & Hall2).
    destruct (dedupLoop env settings d vars1 rest) as [rs vars2]. cbn [fst snd] in *.
    split; [cbn [map]; now rewrite Hs, Hmap|].
    split; [now transitivity (dv_seenStrongInRun vars1)|].
    exists (calls1 ++ calls2). split; [now rewrite Ht2, Ht1, app_assoc|].
    apply Forall_app. split.
    + eapply Forall_impl; [exact Hall1|]. intros c Hc. exists s. split; [now left | assumption].
    + eapply Forall_impl; [exact Hall2|]. intros c (s' & Hs' & Hc). exists s'. split; [now right | assumption].
Qed.

(** ** The state along the group loop *)

Section GroupLoop.
Variables (env : Env) (settings : SettingsRow) (names : gset string) (runId : Z).

Lemma batchDedup_incl (l : list JobPosting) :
  forall (seenInBatch : gset string) (j : JobPosting),
    In j (snd (batchDedup seenInBatch l)) -> In j l.
Proof.
  induction l as [|x rest IH]; intros seen j Hin; simpl in Hin; [assumption|].
  destruct (has seen (jobId x)).
  - specialize (IH seen j). destruct (batchDedup seen rest) as [dupes unique].
    right. now apply IH.
  - specialize (IH (seen ∪ {[ jobId x ]}) j).
    destruct (batchDedup (seen ∪ {[ jobId x ]}) rest) as [dupes unique].
    destruct Hin as [<- | Hin]; [now left | right; now apply IH].
Qed.

Lemma filterNewJobs_incl (d : Db) (postings : list JobPosting) (j : JobPosting) :
  In j (fst (filterNewJobs d postings)) -> In j postings.
Proof.
  unfold filterNewJobs. destruct postings as [|p ps]; [intros []|].
  cbn [fst]. intros Hin. apply filter_In in Hin. tauto.
Qed.

Lemma survivors_not_blacklisted (g : SearchGroupRow.t)
  (seenInRun : gset string) (d : Db) (fetched : list JobPosting) (j : JobPosting) :
  In j (fst (filterNewJobs d (survivorsOf seenInRun (notBlacklistedOf names g fetched)))) ->
  In j fetched /\ passesTitleFilter g j = true
  /\ blacklistedCompany names (company j) = false.
Proof.
  intros Hin. apply filterNewJobs_incl in Hin.
  unfold survivorsOf in Hin. apply filter_In in Hin. destruct Hin as [Hin _].
  apply batchDedup_incl in Hin. unfold notBlacklistedOf in Hin.
  apply filter_In in Hin. destruct Hin as [Hin Hnb].
  apply filter_In in Hin. destruct Hin as [Hin Htitle].
  repeat split; try assumption.
  unfold isBlacklisted in Hnb. unfold blacklistedCompany.
  now destruct (has names (trim (toLowerCase (company j)))).
Qed.

Lemma Extends_refl (st : RunState) :
  Extends env names st st.
Proof.
  constructor; try reflexivity.
  - exists []. now rewrite app_nil_r.
  - exists []. split; [now rewrite app_nil_r | constructor].
  - exists []. split; [now rewrite app_nil_r | constructor].
Qed.

Lemma Extends_trans (a b c : RunState) :
  Extends env names a b -> Extends env names b c -> Extends env names a c.
Proof.
  intros [Hs1 Hg1 Hb1 Hr1 Hq1 [l1 Hl1] [j1 [Hj1 Hf1]] [c1 [Hc1 Ha1]] Hk1]
         [Hs2 Hg2 Hb2 Hr2 Hq2 [l2 Hl2] [j2 [Hj2 Hf2]] [c2 [Hc2 Ha2]] Hk2].
  constructor; try congruence.
  - exists (l1 ++ l2). now rewrite Hl2, Hl1, app_assoc.
  - exists (j1 ++ j2). split; [now rewrite Hj2, Hj1, app_assoc|].
    apply Forall_app. now split.
  - exists (c1 ++ c2). split; [now rewrite Hc2, Hc1, app_assoc|].
    apply Forall_app. now split.
  - now transitivity (st_seenStrongInRun b).
Qed.

Lemma insertedBy_blacklisted (gid i : Z) (now : string) (j : JobPosting) :
  insertedBy now (JobRow.withId i (blacklistedJobRow gid now j)).
Proof. right. repeat split. Qed.

Lemma insertedBy_scored (gid i : Z) (now : string) (r : JobResult.t) :
  insertedBy now (JobRow.withId i (scoredJobRow gid now r)).
Proof.
  unfold insertedBy. cbn. destruct (JobResult.isDuplicate r); [left | right];
    repeat split.
Qed.

Lemma processFetched_Extends (g : SearchGroupRow.t) (st : RunState)
  (fetched : list JobPosting) :
  Extends env names st
    (stepState (processFetched env settings names runId g st fetched)).
Proof.
  destruct (processFetched_outcome env settings names runId g st fetched)
    as (scoredJobs & trace1 & jobResults & vars & d' & Hscore & Hloop & -> & Hlogs
        & Hs & Hg & Hb & Hr & Hq & (added & Hjobs & Hadded) & _).
  constructor; cbn [st_db st_trace st_seenStrongInRun]; try assumption.
  - eexists. exact Hlogs.
  - exists added. split; [assumption|].
    eapply Forall_impl; [exact Hadded|].
    intros row (i & [(j & _ & ->) | (r & _ & ->)]);
      [apply insertedBy_blacklisted | apply insertedBy_scored].
  - pose proof (scoreJobs_trace (llm env)
                  (scoringSettingsOf settings g)
                  (fst (filterNewJobs (st_db st)
                          (survivorsOf (st_seenInRunJobIds st)
                             (notBlacklistedOf names g fetched))))
                  (st_trace st)) as (calls1 & Ht1 & Hall1).
    rewrite Hscore in Ht1. cbn [snd] in Ht1.
    pose proof (dedupLoop_facts env settings (st_db st) scoredJobs
                  {| dv_trace := trace1;
                     dv_seenStrongInRun := st_seenStrongInRun st;
                     dv_counts :=
                       addScored (len scoredJobs)
                         (addDuplicate
                            (len (snd (filterNewJobs (st_db st)
                                         (survivorsOf (st_seenInRunJobIds st)
                                            (notBlacklistedOf names g fetched)))))
                            (addDuplicate
                               (len (withinRunDupesOf (st_seenInRunJobIds st)
                                       (notBlacklistedOf names g fetched)))
                               (addFetched (len fetched) (st_counts st)))) |})
      as (_ & _ & calls2 & Ht2 & Hall2).
    rewrite Hloop in Ht2. cbn [snd dv_trace] in Ht2.
    exists (calls1 ++ calls2). split; [now rewrite Ht2, Ht1, app_assoc|].
    apply Forall_app. split.
    + eapply Forall_impl; [exact Hall1|]. intros c (j & Hj & ->).
      now apply survivors_not_blacklisted in Hj.
    + eapply Forall_impl; [exact Hall2|]. intros c (s & Hs' & ->).
      assert (Hin : In s (fst (scoreJobs (llm env)
                (fst (filterNewJobs (st_db st)
                        (survivorsOf (st_seenInRunJobIds st)
                           (notBlacklistedOf names g fetched))))
                (scoringSettingsOf settings g) (st_trace st))))
        by now rewrite Hscore.
      apply scoreJobs_results in Hin. destruct Hin as (j & o & Hj & ->).
      now apply survivors_not_blacklisted in Hj.
  - pose proof (dedupLoop_facts env settings (st_db st) scoredJobs
                  {| dv_trace := trace1;
                     dv_seenStrongInRun := st_seenStrongInRun st;
                     dv_counts :=
                       addScored (len scoredJobs)
                         (addDuplicate
                            (len (snd (filterNewJobs (st_db st)
                                         (survivorsOf (st_seenInRunJobIds st)
                                            (notBlacklistedOf names g fetched)))))
                            (addDuplicate
                               (len (withinRunDupesOf (st_seenInRunJobIds st)
                                       (notBlacklistedOf names g fetched)))
                               (addFetched (len fetched) (st_counts st)))) |})
      as (_ & Hsub & _).
    rewrite Hloop in Hsub. exact Hsub.
Qed.

Lemma processGroup_Extends (st : RunState) (g : SearchGroupRow.t) :
  Extends env names st (stepState (processGroup env settings names runId st g)).
Proof.
  unfold processGroup.
  destruct (Z.eqb (SearchGroupRow.is_active g) 0); [apply Extends_refl|].
  destruct (parseGroup g); [apply Extends_refl|].
  destruct (fetchJobs env g) as [msg | fetched].
  - cbn [stepState]. destruct (Extends_refl st). now constructor.
  - apply processFetched_Extends.
Qed.

Lemma runGroups_Extends :
  forall (groups : list SearchGroupRow.t) (st : RunState),
    Extends env names st (stepState (runGroups env settings names runId groups st)).
Proof.
  induction groups as [|g rest IH]; intros st; simpl.
  - apply Extends_refl.
  - pose proof (processGroup_Extends st g) as H.
    destruct (processGroup env settings names runId st g) as [st' | msg st'];
      cbn [stepState] in *.
    + eapply Extends_trans; [exact H | apply IH].
    + exact H.
Qed.

End GroupLoop.

Lemma emailStep_log_and_trace (env : Env) (settings : SettingsRow) (st : RunState) :
  run_job_logs (st_db (emailStep env settings st)) = run_job_logs (st_db st)
  /\ st_trace (emailStep env settings st) = st_trace st.
Proof.
  unfold emailStep. destruct (Z.eqb (email_enabled settings) 0); [now split|].
  unfold sendDailyReport.
  destruct (sendMail env _ _ _); cbn; [now split | now split |].
  destruct (unseenStrongMatches (st_db st)); now split.
Qed.

(** The job log and the trace of requests that a run leaves are those the
    group loop leaves: what follows the loop (digest, final update or the
    [catch] block) touches neither. *)
Lemma runPipeline_log_and_trace (env : Env) (trigger : Trigger) (p : Process)
  (settings : SettingsRow) :
  isRunning p = false ->
  settings_row (database p) = Some settings ->
  search_groups (database p) <> [] ->
  let names := blacklistNamesOf (blacklisted_companies (database p)) in
  let started := insertRunningRun (now env) trigger (database p) in
  let final :=
    stepState
      (runGroups env settings names (fst started) (search_groups (database p))
         {| st_db := snd started; st_trace := llmTrace p; st_errors := [];
            st_counts := zeroCounts; st_seenInRunJobIds := ∅;
            st_seenStrongInRun := ∅ |}) in
  run_job_logs (database (snd (runPipeline env trigger p)))
  = run_job_logs (st_db final)
  /\ llmTrace (snd (runPipeline env trigger p)) = st_trace final.
Proof.
  intros Hidle Hsettings Hgroups names started final.
  unfold runPipeline. rewrite Hidle. unfold runBody, tryBlock.
  cbn [setRunning database llmTrace]. rewrite Hsettings.
  destruct (search_groups (database p)) as [|g gs] eqn:Hg; [congruence|].
  subst final started names. cbn [insertRunningRun fst snd].
  match goal with
  | |- context [runGroups env settings ?n ?r ?gs0 ?s0] =>
      destruct (runGroups env settings n r gs0 s0) as [st | msg st]
  end; cbn [stepState].
  - destruct (emailStep_log_and_trace env settings st) as [Hl Ht].
    cbn [snd database llmTrace setRunning]. unfold updateRuns.
    cbn [run_job_logs setRuns]. now split.
  - cbn [catchBlock snd database llmTrace setRunning]. unfold updateRuns.
    cbn [run_job_logs setRuns]. now split.
Qed.

(** ** Duplicates and the digest *)

(** C10.  Step 6 writes a duplicate with [is_duplicate = 1], [seen = 1] and
    [seen_at] set, and a non-duplicate with [is_duplicate = 0], [seen = 0]
    and no [seen_at].  Over any stretch of the group loop the table [jobs]
    only gains rows, each in one of these two shapes.  The digest's query
    returns only rows with [seen = 0] and [is_duplicate = 0], so it never
    returns a row written as a duplicate. *)
Theorem inserted_duplicates_are_seen (env : Env) (settings : SettingsRow)
  (names : gset string) (runId : Z) (groups : list SearchGroupRow.t)
  (st : RunState) :
  (forall (gid : Z) (r : JobResult.t),
     let row := scoredJobRow gid (now env) r in
     (JobResult.isDuplicate r = true ->
        JobRow.is_duplicate row = 1 /\ JobRow.seen row = 1
        /\ JobRow.seen_at row = Some (now env))
     /\ (JobResult.isDuplicate r = false ->
           JobRow.is_duplicate row = 0 /\ JobRow.seen row = 0
           /\ JobRow.seen_at row = None))
  /\ (exists added,
        jobs (st_db (stepState (runGroups env settings names runId groups st)))
        = jobs (st_db st) ++ added
        /\ forall row, In row added ->
             (JobRow.is_duplicate row = 1 /\ JobRow.seen row = 1
              /\ JobRow.seen_at row = Some (now env))
             \/ (JobRow.is_duplicate row = 0 /\ JobRow.seen row = 0
                 /\ JobRow.seen_at row = None))
  /\ (forall (d : Db) (row : JobRow.t),
        In row (unseenStrongMatches d) ->
        JobRow.is_duplicate row = 0 /\ JobRow.seen row = 0)
  /\ (forall (d : Db) (gid i : Z) (r : JobResult.t),
        JobResult.isDuplicate r = true ->
        ~ In (JobRow.withId i (scoredJobRow gid (now env) r)) (unseenStrongMatches d)).
Proof.
  assert (Hquery : forall (d : Db) (row : JobRow.t),
             In row (unseenStrongMatches d) ->
             JobRow.is_duplicate row = 0 /\ JobRow.seen row = 0).
  { intros d row Hin. unfold unseenStrongMatches in Hin.
    apply filter_In in Hin. destruct Hin as [_ H].
    apply andb_prop in H. destruct H as [H _].
    apply andb_prop in H. destruct H as [Hseen Hdup].
    apply Z.eqb_eq in Hseen, Hdup. now split. }
  split; [|split; [|split]].
  - intros gid r row. subst row. cbn. split; intros ->; repeat split.
  - destruct (runGroups_Extends env settings names runId groups st)
      as [_ _ _ _ _ _ (added & Hjobs & Hall) _ _].
    exists added. split; [assumption|].
    intros row Hin. rewrite List.Forall_forall in Hall. exact (Hall row Hin).
  - exact Hquery.
  - intros d gid i r Hdup Hin. apply Hquery in Hin. destruct Hin as [Hd _].
    cbn in Hd. rewrite Hdup in Hd. discriminate.
Qed.

(** ** Single flight *)

Lemma runBody_isRunning (env : Env) (trigger : Trigger) (p : Process) :
  isRunning (snd (runBody env trigger p)) = isRunning p.
Proof.
  unfold runBody. destruct (tryBlock env trigger (database p) (llmTrace p)).
  - reflexivity.
  - destruct (catchBlock env trigger errorMsg runId d). reflexivity.
Qed.

Lemma steps_snoc (s : System) (es : list Event) (e : Event) :
  steps s (es ++ [e]) = step (steps s es) e.
Proof. unfold steps. now rewrite fold_left_app. Qed.

(** C5.  An invocation that finds a run in progress returns at once the
    failed result "Pipeline already running" and leaves the process and
    the database, hence [search_runs], as they are.  An invocation that
    passes the gate leaves the flag cleared, whatever the status it ends in.
    Along any sequence of arrivals of triggers and ends of runs that starts
    with the flag cleared, at most one run is in flight, and the flag is set
    exactly when one is. *)
Theorem single_flight (env : Env) (trigger : Trigger) (p : Process)
  (es : list Event) :
  runPipeline env trigger (setRunning true p)
  = (alreadyRunning env trigger, setRunning true p)
  /\ search_runs (database (snd (runPipeline env trigger (setRunning true p))))
     = search_runs (database p)
  /\ PipelineResult.status (alreadyRunning env trigger) = failed
  /\ PipelineResult.errorLog (alreadyRunning env trigger)
     = Some "Pipeline already running"
  /\ isRunning (snd (runPipeline env trigger (setRunning false p))) = false
  /\ (let s := steps {| proc := setRunning false p; inFlight := 0 |} es in
      (inFlight s <= 1)%nat
      /\ isRunning (proc s) = Nat.eqb (inFlight s) 1).
Proof.
  split; [reflexivity|]. split; [reflexivity|]. split; [reflexivity|].
  split; [reflexivity|]. split.
  - unfold runPipeline. cbn [isRunning setRunning].
    destruct (runBody env trigger _) as [result p']. reflexivity.
  - induction es as [|e es IH] using rev_ind.
    + cbn. split; [lia | reflexivity].
    + rewrite steps_snoc. cbv zeta in IH.
      destruct (steps _ es) as [q n]. cbn [proc inFlight] in IH.
      destruct IH as [Hle Hflag]. destruct e as [env' t' | env' t']; cbn [step proc inFlight].
      * destruct (isRunning q) eqn:Hq; cbn [proc inFlight].
        -- split; [assumption | now rewrite Hq].
        -- destruct n as [|[|n]]; cbn in Hflag; try discriminate; try lia.
           split; [lia | reflexivity].
      * destruct n as [|n]; cbn [proc inFlight].
        -- split; [lia | assumption].
        -- destruct n as [|n]; [|lia]. split; [lia | reflexivity].
Qed.

(** The three ways in which a run that passed the gate ends, each with the
    flag cleared. *)
Example run_ends_success :
  let r := runPipeline (exEnv [exFirstCopy] (flakyLlm 0 85)) manual
             (exProcess (exDb (Some exSettings) [exGroup 1 ""] [])) in
  PipelineResult.status (fst r) = success
  /\ PipelineResult.jobsStrongMatch (fst r) = 1
  /\ isRunning (snd r) = false.
Proof. repeat split; vm_compute; reflexivity. Qed.

Example run_ends_partial_error :
  let r := runPipeline (exFailingEnv (flakyLlm 0 85)) scheduled
             (exProcess (exDb (Some exSettings) [exGroup 1 ""] [])) in
  PipelineResult.status (fst r) = partial_error
  /\ PipelineResult.errorLog (fst r) = Some "Group 1 fetch error: actor run failed"
  /\ isRunning (snd r) = false.
Proof. repeat split; vm_compute; reflexivity. Qed.

Example run_ends_failed :
  let r := runPipeline (exEnv [] (flakyLlm 0 85)) scheduled
             (exProcess (exDb (Some exSettings) [] [])) in
  PipelineResult.status (fst r) = failed
  /\ PipelineResult.errorLog (fst r)
     = Some "No roles configured. Add at least one role in Settings."
  /\ isRunning (snd r) = false.
Proof. repeat split; vm_compute; reflexivity. Qed.

(** ** The run record on a fatal error *)

Lemma nextId_fresh (seq : Z) (ids : list Z) (i : Z) :
  In i ids -> i < nextId seq ids.
Proof.
  unfold nextId. induction ids as [|x ids IH]; intros Hin; [contradiction|].
  simpl. destruct Hin as [-> | Hin]; [lia|]. specialize (IH Hin). lia.
Qed.

Lemma updateRuns_fresh (i : Z) (f : SearchRunRow.t -> SearchRunRow.t)
  (rows : list SearchRunRow.t) :
  (forall r, In r rows -> SearchRunRow.id r <> i) ->
  map (fun r => if Z.eqb (SearchRunRow.id r) i then f r else r) rows = rows.
Proof.
  induction rows as [|r rows IH]; intros Hne; simpl; [reflexivity|].
  rewrite IH by (intros r' Hr'; apply Hne; now right).
  destruct (Z.eqb_spec (SearchRunRow.id r) i) as [Heq | _]; [|reflexivity].
  exfalso. apply (Hne r); [now left | assumption].
Qed.

(** How the [try] block can end in the [catch] block. *)
Lemma tryBlock_caught (env : Env) (trigger : Trigger) (d : Db)
  (trace : list LlmCall) (msg : string) (runId : option Z) (d' : Db)
  (trace' : list LlmCall) :
  tryBlock env trigger d trace = Caught msg runId d' trace' ->
  match runId with
  | None => d' = d /\ (settings_row d = None \/ search_groups d = [])
  | Some i =>
      i = nextId (search_runs_seq d) (map SearchRunRow.id (search_runs d))
      /\ search_runs d' = search_runs d ++ [runningRow i (now env) trigger]
      /\ search_runs_seq d' = i
  end.
Proof.
  unfold tryBlock.
  destruct (settings_row d) as [settings|]; [|intros [= <- <- <- <-]; now auto].
  destruct (search_groups d) as [|g gs] eqn:Hgroups; [intros [= <- <- <- <-]; now auto|].
  cbn [insertRunningRun].
  match goal with
  | |- context [runGroups env settings ?names ?rid ?groups ?st0] =>
      pose proof (runGroups_Extends env settings names rid groups st0) as Hext;
      destruct (runGroups env settings names rid groups st0) as [st | m st]
  end; [discriminate|].
  intros [= <- <- <- <-]. cbn [stepState] in Hext.
  destruct Hext as [_ _ _ Hruns Hseq _ _ _ _]. cbn in Hruns, Hseq.
  split; [reflexivity|]. split; assumption.
Qed.

(** C7.  When the [try] block of a run that passed the gate throws, the
    table [search_runs] ends with exactly one more row than before the run,
    and that row has status 'failed', the message of the error and a fresh
    id.  If the error came before the run row was created ([runId] is null:
    no settings row, or no group), the database was untouched until then
    and the row is inserted by the [catch] block.  If it came after, the row
    is the one that was inserted with status 'running' under [runId] at the
    start, updated in place. *)
Theorem fatal_error_one_failed_run (env : Env) (trigger : Trigger) (p : Process)
  (msg : string) (runId : option Z) (d : Db) (trace : list LlmCall) :
  isRunning p = false ->
  tryBlock env trigger (database p) (llmTrace p) = Caught msg runId d trace ->
  PipelineResult.status (fst (runPipeline env trigger p)) = failed
  /\ exists row,
       search_runs (database (snd (runPipeline env trigger p)))
       = search_runs (database p) ++ [row]
       /\ SearchRunRow.status row = "failed"
       /\ SearchRunRow.error_log row = Some msg
       /\ ~ In (SearchRunRow.id row) (map SearchRunRow.id (search_runs (database p)))
       /\ match runId with
          | None => d = database p
          | Some i =>
              SearchRunRow.id row = i
              /\ search_runs d
                 = search_runs (database p) ++ [runningRow i (now env) trigger]
              /\ row = markFailed msg (elapsedMs env) (runningRow i (now env) trigger)
          end.
Proof.
  intros Hidle Htry. pose proof (tryBlock_caught _ _ _ _ _ _ _ _ Htry) as Hc.
  unfold runPipeline. rewrite Hidle. unfold runBody.
  cbn [setRunning database llmTrace]. rewrite Htry.
  assert (Hfresh : forall i,
             i = nextId (search_runs_seq (database p))
                   (map SearchRunRow.id (search_runs (database p))) ->
             ~ In i (map SearchRunRow.id (search_runs (database p)))).
  { intros i -> Hin. apply (nextId_fresh (search_runs_seq (database p))) in Hin. lia. }
  destruct runId as [i|]; cbn [catchBlock fst snd database setRunning].
  - destruct Hc as (Hi & Hruns & Hseq).
    split; [reflexivity|].
    exists (markFailed msg (elapsedMs env) (runningRow i (now env) trigger)).
    unfold updateRuns. cbn [search_runs setRuns]. rewrite Hruns, map_app.
    rewrite updateRuns_fresh.
    + cbn [map runningRow SearchRunRow.id]. rewrite Z.eqb_refl.
      repeat split; try reflexivity. now apply Hfresh.
    + intros r Hr Heq. apply (Hfresh i Hi). rewrite <- Heq. now apply in_map.
  - destruct Hc as (-> & _).
    split; [reflexivity|].
    eexists. unfold insertFailedRun. cbn [search_runs setRuns].
    split; [reflexivity|]. cbn [SearchRunRow.status SearchRunRow.error_log SearchRunRow.id].
    repeat split; try reflexivity. now apply Hfresh.
Qed.

Lemma fatal_error_one_failed_run_witness :
  (* before the run row exists: no settings row *)
  (PipelineResult.status
     (fst (runPipeline (exEnv [] (flakyLlm 0 85)) manual
             (exProcess (exDb None [exGroup 1 ""] [])))) = failed
   /\ map SearchRunRow.status
        (search_runs (database (snd (runPipeline (exEnv [] (flakyLlm 0 85)) manual
                                       (exProcess (exDb None [exGroup 1 ""] []))))))
      = ["failed"])
  (* after the run row exists: a group whose keywords do not parse *)
  /\ (PipelineResult.status
        (fst (runPipeline (exEnv [] (flakyLlm 0 85)) scheduled
                (exProcess (exDb (Some exSettings) [exBrokenGroup 1] [])))) = failed
      /\ map (fun r => (SearchRunRow.id r, SearchRunRow.status r))
           (search_runs (database (snd (runPipeline (exEnv [] (flakyLlm 0 85)) scheduled
                                          (exProcess (exDb (Some exSettings) [exBrokenGroup 1] []))))))
         = [(1, "failed")]).
Proof.
  split.
  - pose (env := exEnv [] (flakyLlm 0 85)).
    pose (p := exProcess (exDb None [exGroup 1 ""] [])).
    destruct (fatal_error_one_failed_run env manual p
                "Settings not found in database" None
                (outcomeDb (tryBlock env manual (database p) (llmTrace p)))
                (outcomeTrace (tryBlock env manual (database p) (llmTrace p)))
                eq_refl eq_refl)
      as (Hstatus & row & Hruns & Hfailed & _).
    split; [exact Hstatus|].
    fold env p. rewrite Hruns. cbn [map app database exProcess exDb search_runs p].
    now rewrite Hfailed.
  - pose (env := exEnv [] (flakyLlm 0 85)).
    pose (p := exProcess (exDb (Some exSettings) [exBrokenGroup 1] [])).
    destruct (fatal_error_one_failed_run env scheduled p
                "Unexpected end of JSON input" (Some 1)
                (outcomeDb (tryBlock env scheduled (database p) (llmTrace p)))
                (outcomeTrace (tryBlock env scheduled (database p) (llmTrace p)))
                eq_refl eq_refl)
      as (Hstatus & row & Hruns & Hfailed & _ & _ & Hid & _).
    split; [exact Hstatus|].
    fold env p. rewrite Hruns. cbn [map app database exProcess exDb search_runs p].
    now rewrite Hfailed, Hid.
Defined.

(** A fatal error after the run row exists that comes from the schema: the
    model names a job id that does not exist as the original of a
    duplicate, the insert of step 6 violates the foreign key, the batch is
    rolled back and the run ends failed on its own row.  The log entries of
    step 5 were committed before. *)
Example dangling_duplicate_id_fails_run :
  let r := runPipeline (exEnv [exFirstCopy] (dupLlm 85 99)) manual
             (exProcess (exDb (Some exSettings) [exGroup 1 ""]
                           [exStored 1 "p1" "PM" "Good"])) in
  PipelineResult.status (fst r) = failed
  /\ PipelineResult.errorLog (fst r) = Some "FOREIGN KEY constraint failed"
  /\ map (fun x => (SearchRunRow.id x, SearchRunRow.status x))
       (search_runs (database (snd r))) = [(1, "failed")]
  /\ map JobRow.linkedin_job_id (jobs (database (snd r))) = ["p1"]
  /\ map (fun l => (RunJobLogRow.linkedin_job_id l, RunJobLogRow.ai_verdict l))
       (run_job_logs (database (snd r))) = [("n1", "DUPLICATE")].
Proof. repeat split; vm_compute; reflexivity. Qed.

(** ** Blacklisted postings and provider-level duplicates in the log *)

Lemma runGroups_from_fetched (env : Env) (settings : SettingsRow)
  (names : gset string) (runId : Z) (g : SearchGroupRow.t)
  (rest : list SearchGroupRow.t) (st : RunState) (fetched : list JobPosting) :
  SearchGroupRow.is_active g <> 0 ->
  parseGroup g = None ->
  fetchJobs env g = inr fetched ->
  Extends env names
    (stepState (processFetched env settings names runId g st fetched))
    (stepState (runGroups env settings names runId (g :: rest) st)).
Proof.
  intros Hactive Hparse Hfetch. cbn [runGroups]. unfold processGroup.
  apply Z.eqb_neq in Hactive. rewrite Hactive, Hparse, Hfetch.
  destruct (processFetched env settings names runId g st fetched) as [st' | msg st'];
    cbn [stepState].
  - apply runGroups_Extends.
  - apply Extends_refl.
Qed.

Lemma filterNewJobs_dupes (d : Db) (postings : list JobPosting) (j : JobPosting) :
  In j (snd (filterNewJobs d postings)) ->
  In j postings
  /\ hasLinkedinId d (jobId j) = true
  /\ ~ In j (fst (filterNewJobs d postings)).
Proof.
  unfold filterNewJobs. destruct postings as [|p ps]; [intros []|].
  cbn [fst snd]. intros Hin. apply filter_In in Hin. destruct Hin as [Hin Hhas].
  split; [assumption|]. split.
  - apply has_list_to_set in Hhas. apply in_map_iff in Hhas.
    destruct Hhas as (row & Hid & Hrow). apply filter_In in Hrow.
    apply hasLinkedinId_true. exists row. tauto.
  - intros Hnew. apply filter_In in Hnew. destruct Hnew as [_ Hnot].
    rewrite Hhas in Hnot. discriminate.
Qed.

(** C2 (amended).  Take a posting fetched for an active group whose company,
    lower-cased and trimmed, is in the blacklist.  No request that the group
    loop makes to the model, from whatever state and over whatever groups
    it runs, names its company: it is never scored.
    If it passes the group's title filter it is logged BLACKLISTED in the
    run's job log and written to [jobs] by [INSERT OR IGNORE]: afterwards
    [jobs] holds a row with its external identifier, one that was there
    before or a new one with the verdict BLACKLISTED.  If it fails the
    title filter it is logged FILTERED. *)
Theorem blacklisted_posting_logged_and_stored (env : Env) (settings : SettingsRow)
  (names : gset string) (runId : Z) (g : SearchGroupRow.t)
  (rest : list SearchGroupRow.t) (st : RunState) (fetched : list JobPosting)
  (j : JobPosting) :
  SearchGroupRow.is_active g <> 0 ->
  parseGroup g = None ->
  fetchJobs env g = inr fetched ->
  In j fetched ->
  isBlacklisted names j = true ->
  let final := stepState (runGroups env settings names runId (g :: rest) st) in
  (forall (groups0 : list SearchGroupRow.t) (st0 : RunState),
   exists calls,
     st_trace (stepState (runGroups env settings names runId groups0 st0))
     = st_trace st0 ++ calls
     /\ Forall (fun c => companyOfCall c <> company j) calls)
  /\ (passesTitleFilter g j = true ->
      In (plainLogRow runId (SearchGroupRow.id g) "BLACKLISTED" (now env) j)
         (run_job_logs (st_db final))
      /\ exists row, In row (jobs (st_db final))
                     /\ JobRow.linkedin_job_id row = jobId j
                     /\ (In row (jobs (st_db st))
                         \/ JobRow.ai_verdict row = "BLACKLISTED"))
  /\ (passesTitleFilter g j = false ->
      In (plainLogRow runId (SearchGroupRow.id g) "FILTERED" (now env) j)
         (run_job_logs (st_db final))).
Proof.
  intros Hactive Hparse Hfetch Hin Hbl final.
  pose proof (runGroups_from_fetched env settings names runId g rest st fetched
                Hactive Hparse Hfetch) as Hlater.
  fold final in Hlater.
  destruct (processFetched_outcome env settings names runId g st fetched)
    as (scoredJobs & trace1 & jobResults & vars & d' & _ & _ & Hmid & Hlogs
        & _ & _ & _ & _ & _ & _ & Hpresent).
  rewrite Hmid in Hlater.
  destruct Hlater as [_ _ _ _ _ (ladd & Hl) (jadd & Hj & _) _ _].
  cbn [st_db] in Hl, Hj.
  split; [|split].
  - intros groups0 st0.
    destruct (runGroups_Extends env settings names runId groups0 st0)
      as [_ _ _ _ _ _ _ (calls & Ht & Hall) _].
    exists calls. split; [exact Ht|].
    eapply Forall_impl; [exact Hall|]. intros c Hc Heq.
    unfold isBlacklisted in Hbl. unfold blacklistedCompany in Hc.
    rewrite Heq, Hbl in Hc. discriminate.
  - intros Htitle.
    assert (Hjb : In j (blacklistedOf names g fetched)).
    { unfold blacklistedOf. apply filter_In. split; [|assumption].
      apply filter_In. now split. }
    split.
    + rewrite Hl, Hlogs. apply in_or_app. left.
      do 4 (apply in_or_app; right). apply in_or_app. left.
      now apply in_map.
    + destruct (Hpresent j Hjb) as (row & Hrow & Hid & Hkind).
      exists row. split; [|now split].
      rewrite Hj. apply in_or_app. now left.
  - intros Htitle. rewrite Hl, Hlogs. apply in_or_app. left.
    apply in_or_app. right. apply in_or_app. left. apply in_map.
    unfold titleFilteredOf. apply filter_In. split; [assumption|].
    now rewrite Htitle.
Qed.

(** C3 (amended).  A posting that provider-level deduplication puts into
    [providerDupes] has its external identifier in [jobs] already, is not
    among the postings sent to scoring, and is appended to the current
    run's job log with the label DUPLICATE and no score. *)
Theorem provider_duplicates_are_logged (env : Env) (settings : SettingsRow)
  (names : gset string) (runId : Z) (g : SearchGroupRow.t)
  (rest : list SearchGroupRow.t) (st : RunState) (fetched : list JobPosting)
  (j : JobPosting) :
  SearchGroupRow.is_active g <> 0 ->
  parseGroup g = None ->
  fetchJobs env g = inr fetched ->
  let survivors :=
    survivorsOf (st_seenInRunJobIds st) (notBlacklistedOf names g fetched) in
  In j (snd (filterNewJobs (st_db st) survivors)) ->
  let final := stepState (runGroups env settings names runId (g :: rest) st) in
  let entry := plainLogRow runId (SearchGroupRow.id g) "DUPLICATE" (now env) j in
  In entry (run_job_logs (st_db final))
  /\ RunJobLogRow.run_id entry = runId
  /\ RunJobLogRow.linkedin_job_id entry = jobId j
  /\ RunJobLogRow.ai_verdict entry = "DUPLICATE"
  /\ RunJobLogRow.ai_score entry = None
  /\ hasLinkedinId (st_db st) (jobId j) = true
  /\ ~ In j (fst (filterNewJobs (st_db st) survivors)).
Proof.
  intros Hactive Hparse Hfetch survivors Hdup final entry.
  pose proof (runGroups_from_fetched env settings names runId g rest st fetched
                Hactive Hparse Hfetch) as Hlater.
  fold final in Hlater.
  destruct (processFetched_outcome env settings names runId g st fetched)
    as (scoredJobs & trace1 & jobResults & vars & d' & _ & _ & Hmid & Hlogs & _).
  rewrite Hmid in Hlater.
  destruct Hlater as [_ _ _ _ _ (ladd & Hl) _ _ _]. cbn [st_db] in Hl.
  destruct (filterNewJobs_dupes _ _ _ Hdup) as (_ & Hstored & Hnotnew).
  split; [|repeat split; assumption].
  rewrite Hl, Hlogs. apply in_or_app. left.
  do 3 (apply in_or_app; right). apply in_or_app. left.
  now apply in_map.
Qed.

(** C2 as stated fails: the posting [b1] of the blacklisted company is
    stored in [jobs], with the verdict BLACKLISTED; and the posting [b2] of
    the same company, whose title fails the filter, is logged FILTERED and
    not BLACKLISTED. *)
Lemma blacklisted_posting_is_stored :
  isBlacklisted exNames exAcmeManager = true
  /\ isBlacklisted exNames exAcmeEngineer = true
  /\ map (fun r => (JobRow.linkedin_job_id r, JobRow.ai_verdict r))
       (jobs (database (snd (runPipeline
                               (exEnv [exAcmeManager; exAcmeEngineer] (flakyLlm 0 85))
                               manual
                               (exProcess (exDb (Some exSettings) [exGroup 1 "manager"] []))))))
     = [("b1", "BLACKLISTED")]
  /\ map (fun l => (RunJobLogRow.linkedin_job_id l, RunJobLogRow.ai_verdict l))
       (run_job_logs (database (snd (runPipeline
                               (exEnv [exAcmeManager; exAcmeEngineer] (flakyLlm 0 85))
                               manual
                               (exProcess (exDb (Some exSettings) [exGroup 1 "manager"] []))))))
     = [("b2", "FILTERED"); ("b1", "BLACKLISTED")].
Proof. repeat split; vm_compute; reflexivity. Qed.

Lemma blacklisted_posting_logged_and_stored_witness :
  In (plainLogRow 1 1 "BLACKLISTED" "2026-01-01T07:00:00.000Z" exAcmeManager)
     (run_job_logs (st_db (stepState
        (runGroups (exEnv [exAcmeManager; exAcmeEngineer] (flakyLlm 0 85))
           exSettings exNames 1 [exGroup 1 "manager"]
           (exState (exDb (Some exSettings) [exGroup 1 "manager"] []))))))
  /\ (exists row,
        In row (jobs (st_db (stepState
          (runGroups (exEnv [exAcmeManager; exAcmeEngineer] (flakyLlm 0 85))
             exSettings exNames 1 [exGroup 1 "manager"]
             (exState (exDb (Some exSettings) [exGroup 1 "manager"] []))))))
        /\ JobRow.linkedin_job_id row = "b1"
        /\ (In row [] \/ JobRow.ai_verdict row = "BLACKLISTED"))
  /\ In (plainLogRow 1 1 "FILTERED" "2026-01-01T07:00:00.000Z" exAcmeEngineer)
     (run_job_logs (st_db (stepState
        (runGroups (exEnv [exAcmeManager; exAcmeEngineer] (flakyLlm 0 85))
           exSettings exNames 1 [exGroup 1 "manager"]
           (exState (exDb (Some exSettings) [exGroup 1 "manager"] [])))))).
Proof.
  pose (env := exEnv [exAcmeManager; exAcmeEngineer] (flakyLlm 0 85)).
  pose (st := exState (exDb (Some exSettings) [exGroup 1 "manager"] [])).
  assert (Hactive : SearchGroupRow.is_active (exGroup 1 "manager") <> 0)
    by (cbn; lia).
  split; [|split].
  - destruct (blacklisted_posting_logged_and_stored env exSettings exNames 1
                (exGroup 1 "manager") [] st [exAcmeManager; exAcmeEngineer]
                exAcmeManager Hactive eq_refl eq_refl
                (or_introl eq_refl) eq_refl)
      as (_ & Hpass & _).
    exact (proj1 (Hpass eq_refl)).
  - destruct (blacklisted_posting_logged_and_stored env exSettings exNames 1
                (exGroup 1 "manager") [] st [exAcmeManager; exAcmeEngineer]
                exAcmeManager Hactive eq_refl eq_refl
                (or_introl eq_refl) eq_refl)
      as (_ & Hpass & _).
    exact (proj2 (Hpass eq_refl)).
  - destruct (blacklisted_posting_logged_and_stored env exSettings exNames 1
                (exGroup 1 "manager") [] st [exAcmeManager; exAcmeEngineer]
                exAcmeEngineer Hactive eq_refl eq_refl
                (or_intror (or_introl eq_refl)) eq_refl)
      as (_ & _ & Hfail).
    exact (Hfail eq_refl).
Defined.

(** C3 as stated fails: the identifier [p1] is in [jobs] from an earlier
    run, the posting is partitioned into [providerDupes], and the run with
    id 1 appends an entry for it to the job log. *)
Lemma provider_duplicate_is_logged :
  snd (filterNewJobs (exDb (Some exSettings) [exGroup 1 ""] [exStored 1 "p1" "PM" "Good"])
         [exRepost])
  = [exRepost]
  /\ map (fun l => (RunJobLogRow.run_id l, RunJobLogRow.linkedin_job_id l,
                    RunJobLogRow.ai_verdict l, RunJobLogRow.ai_score l))
       (run_job_logs (database (snd (runPipeline
                               (exEnv [exRepost] (flakyLlm 0 85)) manual
                               (exProcess (exDb (Some exSettings) [exGroup 1 ""]
                                             [exStored 1 "p1" "PM" "Good"]))))))
     = [(1, "p1", "DUPLICATE", None)].
Proof. split; vm_compute; reflexivity. Qed.

Lemma provider_duplicates_are_logged_witness :
  In (plainLogRow 1 1 "DUPLICATE" "2026-01-01T07:00:00.000Z" exRepost)
     (run_job_logs (st_db (stepState
        (runGroups (exEnv [exRepost] (flakyLlm 0 85)) exSettings exNames 1
           [exGroup 1 ""]
           (exState (exDb (Some exSettings) [exGroup 1 ""]
                       [exStored 1 "p1" "PM" "Good"])))))).
Proof.
  pose (env := exEnv [exRepost] (flakyLlm 0 85)).
  pose (st := exState (exDb (Some exSettings) [exGroup 1 ""]
                         [exStored 1 "p1" "PM" "Good"])).
  assert (Hactive : SearchGroupRow.is_active (exGroup 1 "") <> 0) by (cbn; lia).
  assert (Hdup : In exRepost
                   (snd (filterNewJobs (st_db st)
                           (survivorsOf (st_seenInRunJobIds st)
                              (notBlacklistedOf exNames (exGroup 1 "") [exRepost])))))
    by (vm_compute; left; reflexivity).
  exact (proj1 (provider_duplicates_are_logged env exSettings exNames 1
                  (exGroup 1 "") [] st [exRepost] exRepost
                  Hactive eq_refl eq_refl Hdup)).
Defined.

(** ** The company+title guard within a run *)

Lemma dedupStep_claimed (env : Env) (settings : SettingsRow) (d : Db)
  (vars : DedupVars) (s : ScoredJob) :
  verdict s = STRONG_MATCH ->
  has (dv_seenStrongInRun vars) (runKeyOf s) = true ->
  dedupStep env settings d vars s = (markedDuplicate s, countedDuplicate vars).
Proof.
  intros Hv Hkey. unfold dedupStep. rewrite Hv. cbn [verdictEqb]. now rewrite Hkey.
Qed.

Lemma has_union_singleton (s : gset string) (k : string) : has (s ∪ {[ k ]}) k = true.
Proof. apply has_true. set_solver. Qed.

Lemma has_subseteq (s s' : gset string) (k : string) :
  s ⊆ s' -> has s k = true -> has s' k = true.
Proof. rewrite !has_true. set_solver. Qed.

(** The set of claimed keys after an iteration. *)
Lemma dedupStep_seen (env : Env) (settings : SettingsRow) (d : Db)
  (vars : DedupVars) (s : ScoredJob) :
  dv_seenStrongInRun (snd (dedupStep env settings d vars s))
  = if (verdictEqb (verdict s) STRONG_MATCH
        && negb (JobResult.isDuplicate (fst (dedupStep env settings d vars s))))%bool
    then dv_seenStrongInRun vars ∪ {[ runKeyOf s ]}
    else dv_seenStrongInRun vars.
Proof.
  unfold dedupStep.
  destruct (verdictEqb (verdict s) STRONG_MATCH); [|reflexivity].
  destruct (has (dv_seenStrongInRun vars) (runKeyOf s)); [reflexivity|].
  destruct (selectExistingJobs d (company (job s)) (title (job s))) as [|e es];
    [reflexivity|].
  unfold dedupAndSummarise.
  destruct (callDedupLlm (llm env) _ _) as [msg | [o|]]; try reflexivity.
  cbn. destruct (is_duplicate_out o); reflexivity.
Qed.

Lemma dedupLoop_app (env : Env) (settings : SettingsRow) (d : Db) :
  forall (l1 l2 : list ScoredJob) (vars : DedupVars),
    snd (dedupLoop env settings d vars (l1 ++ l2))
    = snd (dedupLoop env settings d (snd (dedupLoop env settings d vars l1)) l2).
Proof.
  induction l1 as [|s l1 IH]; intros l2 vars; [reflexivity|].
  cbn [app dedupLoop].
  destruct (dedupStep env settings d vars s) as [r vars1].
  specialize (IH l2 vars1).
  destruct (dedupLoop env settings d vars1 (l1 ++ l2)) as [rs12 v12].
  destruct (dedupLoop env settings d vars1 l1) as [rs1 v1].
  cbn [snd] in *. exact IH.
Qed.

(** C4 (amended).  In the loop of step 4b, a STRONG_MATCH posting whose
    company+title key is claimed is marked duplicate without any request to
    the model, and nothing else changes but the duplicate counter.  An
    iteration claims the key exactly when its posting is a STRONG_MATCH that
    ends as a non-duplicate; a posting judged duplicate, by Call 2 or by the
    guard, claims nothing.  So of two STRONG_MATCH postings with the same
    key in one loop, when the first ends as a non-duplicate the second is
    marked duplicate without a request, whatever is processed in between.
    A claimed key stays claimed through the rest of its loop, the loop of a
    group starts from the keys of the run and hands its keys back, and a
    claimed key stays claimed through the rest of the group loop: the guard
    works across groups as well. *)
Theorem same_key_guard (env : Env) (settings : SettingsRow) (d : Db)
  (vars : DedupVars) :
  (forall s : ScoredJob,
     verdict s = STRONG_MATCH ->
     has (dv_seenStrongInRun vars) (runKeyOf s) = true ->
     dedupStep env settings d vars s = (markedDuplicate s, countedDuplicate vars))
  /\ (forall s : ScoredJob,
        dv_seenStrongInRun (snd (dedupStep env settings d vars s))
        = if (verdictEqb (verdict s) STRONG_MATCH
              && negb (JobResult.isDuplicate (fst (dedupStep env settings d vars s))))%bool
          then dv_seenStrongInRun vars ∪ {[ runKeyOf s ]}
          else dv_seenStrongInRun vars)
  /\ (forall (before between : list ScoredJob) (a b : ScoredJob),
        verdict a = STRONG_MATCH ->
        verdict b = STRONG_MATCH ->
        runKeyOf a = runKeyOf b ->
        JobResult.isDuplicate
          (fst (dedupStep env settings d
                  (snd (dedupLoop env settings d vars before)) a)) = false ->
        dedupStep env settings d
          (snd (dedupLoop env settings d vars (before ++ a :: between))) b
        = (markedDuplicate b,
           countedDuplicate
             (snd (dedupLoop env settings d vars (before ++ a :: between)))))
  /\ (forall (scoredJobs : list ScoredJob) (k : string),
        has (dv_seenStrongInRun vars) k = true ->
        has (dv_seenStrongInRun (snd (dedupLoop env settings d vars scoredJobs))) k
        = true)
  /\ (forall (names : gset string) (runId : Z) (g : SearchGroupRow.t)
             (st : RunState) (fetched : list JobPosting),
        exists (scoredJobs : list ScoredJob) (vars0 : DedupVars),
          dv_seenStrongInRun vars0 = st_seenStrongInRun st
          /\ st_seenStrongInRun
               (stepState (processFetched env settings names runId g st fetched))
             = dv_seenStrongInRun
                 (snd (dedupLoop env settings (st_db st) vars0 scoredJobs)))
  /\ (forall (names : gset string) (runId : Z) (groups : list SearchGroupRow.t)
             (st : RunState) (k : string),
        has (st_seenStrongInRun st) k = true ->
        has (st_seenStrongInRun
               (stepState (runGroups env settings names runId groups st))) k = true).
Proof.
  split; [|split; [|split; [|split; [|split]]]].
  - intros s. apply dedupStep_claimed.
  - intros s. apply dedupStep_seen.
  - intros before between a b Ha Hb Hkey Hnondup.
    apply dedupStep_claimed; [assumption|].
    rewrite dedupLoop_app. cbn [dedupLoop].
    pose proof (dedupStep_seen env settings d
                  (snd (dedupLoop env settings d vars before)) a) as Hseen.
    rewrite Ha, Hnondup in Hseen. cbn [verdictEqb negb andb] in Hseen.
    destruct (dedupStep env settings d (snd (dedupLoop env settings d vars before)) a)
      as [ra va]. cbn [snd] in Hseen.
    destruct (dedupLoop_facts env settings d between va) as (_ & Hsub & _).
    destruct (dedupLoop env settings d va between) as [rs vb]. cbn [snd] in *.
    eapply has_subseteq; [exact Hsub|].
    rewrite Hseen, <- Hkey. apply has_union_singleton.
  - intros scoredJobs k Hk.
    destruct (dedupLoop_facts env settings d scoredJobs vars) as (_ & Hsub & _).
    eapply has_subseteq; eassumption.
  - intros names runId g st fetched.
    destruct (processFetched_outcome env settings names runId g st fetched)
      as (scoredJobs & trace1 & jobResults & vars1 & d' & _ & Hloop & -> & _).
    eexists scoredJobs, _. split; [|rewrite Hloop; reflexivity]. reflexivity.
  - intros names runId groups st k Hk.
    destruct (runGroups_Extends env settings names runId groups st)
      as [_ _ _ _ _ _ _ _ Hsub].
    eapply has_subseteq; eassumption.
Qed.

(** C4 as stated fails: [n1] and [n2] are STRONG_MATCH postings with one
    key and different identifiers; a stored strong match has their company
    and title, and the model judges [n1] a duplicate of it.  Then [n1] does
    not claim the key, and a Call 2 request is made for [n2] as well. *)
Lemma second_copy_gets_a_dedup_call :
  verdict (exScored "n1" "PM" "Good") = STRONG_MATCH
  /\ verdict (exScored "n2" "PM" "Good") = STRONG_MATCH
  /\ runKeyOf (exScored "n1" "PM" "Good") = runKeyOf (exScored "n2" "PM" "Good")
  /\ String.eqb (jobId (job (exScored "n1" "PM" "Good")))
                (jobId (job (exScored "n2" "PM" "Good"))) = false
  /\ map (fun c => match c with
                   | Call1 r => ("Call 1", sr_description r)
                   | Call2 r => ("Call 2", dr_description r)
                   end)
       (dv_trace (snd (dedupLoop (exEnv [] (dupLlm 85 1)) exSettings
                         (exDb (Some exSettings) [exGroup 1 ""]
                            [exStored 1 "p1" "PM" "Good"])
                         (exVars ∅)
                         [exScored "n1" "PM" "Good"; exScored "n2" "PM" "Good"])))
     = [("Call 2", "Build things for n1"); ("Call 2", "Build things for n2")].
Proof. repeat split; vm_compute; reflexivity. Qed.

Lemma same_key_guard_witness :
  dedupStep (exEnv [] (flakyLlm 0 85)) exSettings
    (exDb (Some exSettings) [exGroup 1 ""] [])
    (snd (dedupLoop (exEnv [] (flakyLlm 0 85)) exSettings
            (exDb (Some exSettings) [exGroup 1 ""] []) (exVars ∅)
            ([] ++ [exScored "n1" "PM" "Good"])))
    (exScored "n2" "PM" "Good")
  = (markedDuplicate (exScored "n2" "PM" "Good"),
     countedDuplicate
       (snd (dedupLoop (exEnv [] (flakyLlm 0 85)) exSettings
               (exDb (Some exSettings) [exGroup 1 ""] []) (exVars ∅)
               ([] ++ [exScored "n1" "PM" "Good"])))).
Proof.
  destruct (same_key_guard (exEnv [] (flakyLlm 0 85)) exSettings
              (exDb (Some exSettings) [exGroup 1 ""] []) (exVars ∅))
    as (_ & _ & Hpair & _).
  exact (Hpair [] [] (exScored "n1" "PM" "Good") (exScored "n2" "PM" "Good")
           eq_refl eq_refl eq_refl eq_refl).
Defined.

(** The guard across groups: group 1 fetches the first copy, group 2 the
    second.  The first is kept as a strong match, the second is marked
    duplicate; the run makes two scoring requests and no dedup request. *)
Example second_group_copy_is_marked_duplicate :
  let r := runPipeline (exTwoGroupEnv (flakyLlm 0 85)) manual
             (exProcess (exDb (Some exSettings) [exGroup 1 ""; exGroup 2 ""] [])) in
  map (fun l => (RunJobLogRow.group_id l, RunJobLogRow.linkedin_job_id l,
                 RunJobLogRow.ai_verdict l))
    (run_job_logs (database (snd r)))
  = [(Some 1, "n1", "STRONG_MATCH"); (Some 2, "n2", "DUPLICATE")]
  /\ map (fun c => match c with Call1 _ => "Call 1" | Call2 _ => "Call 2" end)
       (llmTrace (snd r))
     = ["Call 1"; "Call 1"]
  /\ map (fun x => (JobRow.linkedin_job_id x, JobRow.is_duplicate x, JobRow.seen x))
       (jobs (database (snd r)))
     = [("n1", 0, 0); ("n2", 1, 1)].
Proof. repeat split; vm_compute; reflexivity. Qed.

(* ================================================================== *)
(** * Further properties of the code                                   *)
(* ================================================================== *)

(** ** Replacing single code units *)

Lemma append_assoc (a b c : string) : (a +:+ b) +:+ c = a +:+ (b +:+ c).
Proof.
  induction a as [|x a IH]; [reflexivity|].
  rewrite !append_cons. now rewrite IH.
Qed.

Lemma append_empty_r (a : string) : a +:+ EmptyString = a.
Proof.
  induction a as [|x a IH]; [reflexivity|]. rewrite append_cons. now rewrite IH.
Qed.

Lemma substitute_app (f : ascii -> string) (a b : string) :
  substitute f (a +:+ b) = substitute f a +:+ substitute f b.
Proof.
  induction a as [|x a IH]; [reflexivity|].
  rewrite append_cons. cbn [substitute]. now rewrite IH, append_assoc.
Qed.

Lemma substitute_ext (f g : ascii -> string) (s : string) :
  (forall c, f c = g c) -> substitute f s = substitute g s.
Proof.
  intros H. induction s as [|c s IH]; [reflexivity|].
  cbn [substitute]. now rewrite H, IH.
Qed.

Lemma substitute_substitute (f g : ascii -> string) (s : string) :
  substitute g (substitute f s) = substitute (fun c => substitute g (f c)) s.
Proof.
  induction s as [|c s IH]; [reflexivity|].
  cbn [substitute]. now rewrite substitute_app, IH.
Qed.

Lemma oneOf_Chr (p : ascii -> bool) : oneOf (Chr p) p.
Proof. intros prev [|c s]; reflexivity. Qed.

Lemma oneOf_lit (c : ascii) : oneOf (lit (String c EmptyString)) (isChr c).
Proof. intros prev [|x s]; reflexivity. Qed.

Lemma replaceFrom_oneOf (r : regex) (p : ascii -> bool) (repl : string) :
  oneOf r p ->
  forall (fuel : nat) (prev : option ascii) (s : string),
    (String.length s < fuel)%nat ->
    replaceFrom fuel r repl prev s
    = substitute (fun c => if p c then repl else String c EmptyString) s.
Proof.
  intros Hr. induction fuel as [|fuel IH]; intros prev s Hlen; [lia|].
  cbn [replaceFrom]. rewrite Hr. destruct s as [|c s]; [reflexivity|].
  cbn [String.length] in Hlen. cbn [substitute].
  destruct (p c).
  - assert (Hlt : Nat.ltb (String.length s) (String.length (String c s)) = true)
      by (apply Nat.ltb_lt; cbn; lia).
    rewrite Hlt. f_equal. apply IH. lia.
  - rewrite append_cons, append_nil. f_equal. apply IH. lia.
Qed.

Lemma replaceAll_oneOf (r : regex) (p : ascii -> bool) (repl s : string) :
  oneOf r p ->
  replaceAll r repl s
  = substitute (fun c => if p c then repl else String c EmptyString) s.
Proof.
  intros Hr. unfold replaceAll. apply replaceFrom_oneOf; [assumption | lia].
Qed.

Lemma substitute_without (p : ascii -> bool) (s : string) :
  substitute (fun c => if p c then EmptyString else String c EmptyString) s
  = without p s.
Proof.
  induction s as [|c s IH]; [reflexivity|].
  cbn [substitute without]. rewrite IH. now destruct (p c).
Qed.

(** ** escapeHtml *)

Ltac each_ascii c := destruct c as [[] [] [] [] [] [] [] []].

Lemma escapeHtml_substitute (str : string) :
  escapeHtml str = substitute escapeChar str.
Proof.
  unfold escapeHtml.
  rewrite (replaceAll_oneOf _ _ _ _ (oneOf_lit "'")).
  rewrite (replaceAll_oneOf _ _ _ _ (oneOf_lit (ascii_of_nat 34))).
  rewrite (replaceAll_oneOf _ _ _ _ (oneOf_lit ">")).
  rewrite (replaceAll_oneOf _ _ _ _ (oneOf_lit "<")).
  rewrite (replaceAll_oneOf _ _ _ _ (oneOf_lit "&")).
  rewrite !substitute_substitute.
  apply substitute_ext. intros c. each_ascii c; reflexivity.
Qed.

Lemma occurs_app (c : ascii) (a b : string) :
  occurs c (a +:+ b) = (occurs c a || occurs c b)%bool.
Proof.
  induction a as [|x a IH]; [reflexivity|].
  rewrite append_cons. cbn [occurs]. rewrite IH. now rewrite orb_assoc.
Qed.

Lemma escapeChar_safe (c x : ascii) :
  htmlSpecial c = true -> occurs c (escapeChar x) = false.
Proof.
  intros Hc. unfold htmlSpecial, isChr in Hc.
  repeat (apply orb_true_iff in Hc; destruct Hc as [Hc | Hc]);
    apply Ascii.eqb_eq in Hc; subst c; each_ascii x; reflexivity.
Qed.

Lemma readEscaped_escapeChar (c : ascii) (rest : string) :
  readEscaped (escapeChar c +:+ rest) = Some (c, rest).
Proof. each_ascii c; reflexivity. Qed.

Lemma substitute_escapeChar_inj (a : string) :
  forall b, substitute escapeChar a = substitute escapeChar b -> a = b.
Proof.
  induction a as [|x a IH]; intros [|y b] H.
  - reflexivity.
  - cbn [substitute] in H. apply (f_equal readEscaped) in H.
    rewrite readEscaped_escapeChar in H. discriminate.
  - cbn [substitute] in H. apply (f_equal readEscaped) in H.
    rewrite readEscaped_escapeChar in H. discriminate.
  - cbn [substitute] in H. apply (f_equal readEscaped) in H.
    rewrite !readEscaped_escapeChar in H. injection H as -> H.
    f_equal. now apply IH.
Qed.

(** X1: [escapeHtml].  The five replacements, made one after the other with
    [&] first, amount to replacing every code unit by its entity at once.
    So the result holds none of [<], [>], the double quote and the
    apostrophe; escaping goes through concatenation; no two texts have the
    same escape; and a text without the five characters is left as it is. *)
Theorem escapeHtml_entities (a b : string) :
  escapeHtml a = substitute escapeChar a
  /\ (forall c, htmlSpecial c = true -> occurs c (escapeHtml a) = false)
  /\ escapeHtml (a +:+ b) = escapeHtml a +:+ escapeHtml b
  /\ (escapeHtml a = escapeHtml b -> a = b)
  /\ ((forall c, htmlSpecial c = true \/ c = "&"%char -> occurs c a = false) ->
      escapeHtml a = a).
Proof.
  split; [apply escapeHtml_substitute|].
  split.
  { intros c Hc. rewrite escapeHtml_substitute.
    induction a as [|x a IH]; [reflexivity|].
    cbn [substitute]. rewrite occurs_app, IH, (escapeChar_safe c x Hc). reflexivity. }
  split; [rewrite !escapeHtml_substitute; apply substitute_app|].
  split.
  { rewrite !escapeHtml_substitute. apply substitute_escapeChar_inj. }
  intros Hfree. rewrite escapeHtml_substitute.
  induction a as [|x a IH]; [reflexivity|].
  cbn [substitute].
  assert (Hx : escapeChar x = String x EmptyString).
  { assert (Hamp := Hfree "&"%char (or_intror eq_refl)).
    assert (Hlt := Hfree "<"%char (or_introl eq_refl)).
    assert (Hgt := Hfree ">"%char (or_introl eq_refl)).
    assert (Hq := Hfree (ascii_of_nat 34) (or_introl eq_refl)).
    assert (Ha := Hfree "'"%char (or_introl eq_refl)).
    cbn [occurs] in Hamp, Hlt, Hgt, Hq, Ha.
    apply orb_false_iff in Hamp, Hlt, Hgt, Hq, Ha.
    unfold escapeChar, isChr.
    destruct Hamp as [-> _], Hlt as [-> _], Hgt as [-> _], Hq as [-> _], Ha as [-> _].
    reflexivity. }
  rewrite Hx, append_cons, append_nil. f_equal. apply IH.
  intros c Hc. specialize (Hfree c Hc). cbn [occurs] in Hfree.
  now apply orb_false_iff in Hfree.
Qed.

(** ** parseInt and the rendering of integers *)

Lemma readDigits_uint_acc (d : Decimal.uint) :
  forall acc : positive,
    readDigits (Z.pos acc) (NilEmpty.string_of_uint d)
    = Z.pos (Pos.of_uint_acc d acc).
Proof.
  induction d; intros acc; cbn [NilEmpty.string_of_uint Pos.of_uint_acc];
    [reflexivity | ..];
    cbn [readDigits];
    match goal with
    | |- context [isDigit ?c] =>
        change (isDigit c) with true; cbv iota
    end;
    match goal with
    | |- readDigits ?z _ = _ =>
        match goal with
        | IH : forall acc, _ |- _ =>
            rewrite <- IH; f_equal; unfold digitValue; cbn; lia
        end
    end.
Qed.

Lemma readDigits_uint (d : Decimal.uint) :
  readDigits 0 (NilEmpty.string_of_uint d) = Z.of_N (Pos.of_uint d).
Proof.
  induction d; cbn [NilEmpty.string_of_uint Pos.of_uint]; [reflexivity | ..];
    cbn [readDigits];
    match goal with
    | |- context [isDigit ?c] => change (isDigit c) with true; cbv iota
    end;
    [ exact IHd | .. ];
    cbn [Z.of_N]; rewrite <- readDigits_uint_acc; f_equal.
Qed.

Lemma string_of_uint_head (d : Decimal.uint) :
  d <> Decimal.Nil ->
  exists c rest, NilEmpty.string_of_uint d = String c rest
                 /\ isDigit c = true /\ isWhiteSpace c = false
                 /\ c <> "-"%char /\ c <> "+"%char.
Proof.
  intros Hd. destruct d; [congruence | ..]; cbn [NilEmpty.string_of_uint];
    eexists _, _; (split; [reflexivity|]); repeat split; discriminate.
Qed.

Lemma parseInt10_digits (d : Decimal.uint) :
  d <> Decimal.Nil ->
  parseInt10 (NilEmpty.string_of_uint d) = Some (Z.of_N (Pos.of_uint d))
  /\ parseInt10 (String "-" (NilEmpty.string_of_uint d))
     = Some (- Z.of_N (Pos.of_uint d)).
Proof.
  intros Hd. pose proof (readDigits_uint d) as Hread.
  destruct (string_of_uint_head d Hd) as (c & rest & Heq & Hdig & Hws & Hm & Hp).
  rewrite Heq in *. unfold parseInt10. cbn [trimStart]. rewrite Hws.
  split.
  - assert (Hsplit : match String c rest with
                     | String "-" r => (true, r)
                     | String "+" r => (false, r)
                     | _ => (false, String c rest)
                     end = (false, String c rest)).
    { each_ascii c; try reflexivity; congruence. }
    rewrite Hsplit. cbn [startsWithDigit]. rewrite Hdig. now rewrite Hread.
  - change (isWhiteSpace "-") with false. cbv iota.
    cbn [startsWithDigit]. rewrite Hdig. now rewrite Hread.
Qed.

(** [parseInt(String(z), 10)] is [z]. *)
Lemma parseInt10_showZ (z : Z) : parseInt10 (showZ z) = Some z.
Proof.
  unfold showZ. destruct z as [|p|p]; [reflexivity | ..];
    cbn [Z.to_int NilZero.string_of_int]; unfold NilZero.string_of_uint;
    pose proof (DecimalPos.Unsigned.to_uint_nonnil p) as Hnn;
    pose proof (DecimalPos.Unsigned.of_to p) as Hof;
    destruct (parseInt10_digits (Pos.to_uint p) Hnn) as [Hpos Hneg];
    destruct (Pos.to_uint p) eqn:Hu; try congruence;
    rewrite ?Hpos, ?Hneg, Hof; reflexivity.
Qed.

(** ** trim *)

Lemma trimEnd_idem (s : string) : trimEnd (trimEnd s) = trimEnd s.
Proof.
  induction s as [|c s IH]; [reflexivity|].
  cbn [trimEnd]. destruct (trimEnd s) as [|x r] eqn:Hr.
  - destruct (isWhiteSpace c) eqn:Hc; [reflexivity|].
    cbn [trimEnd]. now rewrite Hc.
  - cbn [trimEnd] in *. now rewrite IH.
Qed.

Lemma trimStart_head (s : string) :
  match trimStart s with
  | EmptyString => True
  | String c _ => isWhiteSpace c = false
  end.
Proof.
  induction s as [|c s IH]; [exact I|].
  cbn [trimStart]. destruct (isWhiteSpace c) eqn:Hc; [exact IH | exact Hc].
Qed.

Lemma trimEnd_head (s : string) :
  match s with
  | EmptyString => True
  | String c _ =>
      isWhiteSpace c = false -> exists r, trimEnd s = String c r
  end.
Proof.
  destruct s as [|c s]; [exact I|]. intros Hc. cbn [trimEnd].
  destruct (trimEnd s); [rewrite Hc|]; eexists; reflexivity.
Qed.

Lemma trim_idem (s : string) : trim (trim s) = trim s.
Proof.
  unfold trim. pose proof (trimStart_head s) as Hh.
  destruct (trimStart s) as [|c t] eqn:Ht; [reflexivity|].
  destruct (trimEnd_head (String c t) Hh) as [r Hr].
  rewrite Hr. cbn [trimStart]. rewrite Hh. rewrite <- Hr. apply trimEnd_idem.
Qed.

Lemma trimmed_trim (s : string) : trimmed (trim s).
Proof. apply trim_idem. Qed.

(** ** The groups API: parseGroupBody *)

Lemma cleanList_items (o : option (list string)) :
  Forall (fun l => l <> EmptyString /\ trimmed l) (Api.cleanList o).
Proof.
  unfold Api.cleanList. apply List.Forall_forall. intros l Hl.
  apply filter_In in Hl. destruct Hl as [Hin Ht].
  apply in_map_iff in Hin. destruct Hin as (x & <- & _).
  split; [now apply truthy_true | apply trimmed_trim].
Qed.

Lemma parseGroupBody_inr (b : Api.RawGroupBody) (g : Api.GroupBody) :
  Api.parseGroupBody b = inr g ->
  Api.locations g = Api.cleanList (Api.raw_locations b)
  /\ Api.keywords g = Api.cleanList (Api.raw_keywords b)
  /\ Api.work_modes g = Api.cleanList (Api.raw_work_modes b)
  /\ Api.locations g <> [] /\ Api.keywords g <> [] /\ Api.work_modes g <> []
  /\ Api.threshold (Api.raw_score_no_match_max b) "50" = Some (Api.score_no_match_max g)
  /\ Api.threshold (Api.raw_score_weak_match_max b) "70" = Some (Api.score_weak_match_max g)
  /\ Api.threshold (Api.raw_score_strong_match_min b) "71"
     = Some (Api.score_strong_match_min g)
  /\ validThresholds (Api.score_no_match_max g) (Api.score_weak_match_max g)
       (Api.score_strong_match_min g)
  /\ Api.group_name g = take 50 (trim (Api.textOr (Api.raw_group_name b) ""))
  /\ Api.title_filter g = trim (Api.textOr (Api.raw_title_filter b) "").
Proof.
  unfold Api.parseGroupBody.
  destruct (Api.cleanList (Api.raw_locations b)) as [|l ls] eqn:Hl; [discriminate|].
  destruct (Api.cleanList (Api.raw_keywords b)) as [|k ks] eqn:Hk; [discriminate|].
  destruct (Api.cleanList (Api.raw_work_modes b)) as [|w ws] eqn:Hw; [discriminate|].
  destruct (Api.threshold (Api.raw_score_no_match_max b) "50") as [n|]; [|discriminate].
  destruct (Api.threshold (Api.raw_score_weak_match_max b) "70") as [wk|]; [|discriminate].
  destruct (Api.threshold (Api.raw_score_strong_match_min b) "71") as [st|]; [|discriminate].
  destruct (Z.ltb n 0 || Z.ltb 99 n || Z.leb wk n || Z.ltb 99 wk
            || negb (Z.eqb st (wk + 1)))%bool eqn:Hbad; [discriminate|].
  intros [= <-]. cbn.
  repeat (apply orb_false_iff in Hbad; destruct Hbad as [Hbad ?]).
  repeat split; try discriminate; try reflexivity; try lia.
Qed.

(** X2: [parseGroupBody].  A body that it accepts has thresholds with
    0 <= no_match_max < weak_match_max <= 99 and strong_match_min =
    weak_match_max + 1, so the row written from it satisfies the invariant
    of a group's thresholds; its three lists are not empty and hold only
    non-empty texts without white space at either end; its name has at
    most 50 code units and its title filter is trimmed.  Thresholds that
    are left out are 50, 70 and 71, and a threshold given as an integer is
    read back as that integer. *)
Theorem parseGroupBody_accepts_valid_groups (b : Api.RawGroupBody) (g : Api.GroupBody) :
  Api.parseGroupBody b = inr g ->
  validThresholds (Api.score_no_match_max g) (Api.score_weak_match_max g)
    (Api.score_strong_match_min g)
  /\ (forall i a, groupInvariant (Api.rowOf i a g))
  /\ Api.locations g <> [] /\ Api.keywords g <> [] /\ Api.work_modes g <> []
  /\ Forall (fun l => l <> EmptyString /\ trimmed l)
       (Api.locations g ++ Api.keywords g ++ Api.work_modes g)
  /\ (String.length (Api.group_name g) <= 50)%nat
  /\ trimmed (Api.title_filter g)
  /\ (Api.raw_score_no_match_max b = None -> Api.score_no_match_max g = 50)
  /\ (Api.raw_score_weak_match_max b = None -> Api.score_weak_match_max g = 70)
  /\ (Api.raw_score_strong_match_min b = None -> Api.score_strong_match_min g = 71)
  /\ (forall n, Api.raw_score_no_match_max b = Some (showZ n) ->
        Api.score_no_match_max g = n).
Proof.
  intros H. apply parseGroupBody_inr in H.
  destruct H as (Hl & Hk & Hw & Hnl & Hnk & Hnw & Hn & Hwk & Hst & Hvalid & Hname & Hfilter).
  split; [exact Hvalid|].
  split.
  { intros i a. unfold groupInvariant. cbn. unfold validThresholds in Hvalid. lia. }
  repeat (split; [assumption|]).
  split.
  { rewrite Hl, Hk, Hw. repeat (apply Forall_app; split); apply cleanList_items. }
  split; [rewrite Hname; apply take_length_le|].
  split; [rewrite Hfilter; apply trimmed_trim|].
  unfold Api.threshold in Hn, Hwk, Hst.
  split; [intros Hnone; rewrite Hnone in Hn;
          change (Some 50 = Some (Api.score_no_match_max g)) in Hn; congruence|].
  split; [intros Hnone; rewrite Hnone in Hwk;
          change (Some 70 = Some (Api.score_weak_match_max g)) in Hwk; congruence|].
  split; [intros Hnone; rewrite Hnone in Hst;
          change (Some 71 = Some (Api.score_strong_match_min g)) in Hst; congruence|].
  intros n Hsome. rewrite Hsome, parseInt10_showZ in Hn. congruence.
Qed.

Lemma parseGroupBody_accepts_valid_groups_witness :
  exists g,
    Api.parseGroupBody (exRawBody (Some "40") None None) = inr g
    /\ Api.score_no_match_max g = 40
    /\ Api.score_weak_match_max g = 70
    /\ Api.locations g = ["Berlin"]
    /\ Api.group_name g = "Berlin PM"
    /\ validThresholds (Api.score_no_match_max g) (Api.score_weak_match_max g)
         (Api.score_strong_match_min g).
Proof.
  eexists. split; [vm_compute; reflexivity|].
  repeat split; try reflexivity;
    apply (parseGroupBody_accepts_valid_groups (exRawBody (Some "40") None None));
    vm_compute; reflexivity.
Defined.

(** X3: the thresholds of a validated body and [computeVerdict].  The three
    verdicts split the scores 0..100 into three intervals, none of them
    empty: 0 is a NO_MATCH, 100 is a STRONG_MATCH, and the score just above
    no_match_max is a WEAK_MATCH. *)
Theorem validated_thresholds_split_the_scores (b : Api.RawGroupBody)
  (g : Api.GroupBody) (score : Z) :
  Api.parseGroupBody b = inr g ->
  verdictFor g 0 = NO_MATCH
  /\ verdictFor g (Api.score_no_match_max g + 1) = WEAK_MATCH
  /\ verdictFor g 100 = STRONG_MATCH
  /\ (verdictFor g score = NO_MATCH <-> score <= Api.score_no_match_max g)
  /\ (verdictFor g score = WEAK_MATCH
      <-> Api.score_no_match_max g < score <= Api.score_weak_match_max g)
  /\ (verdictFor g score = STRONG_MATCH <-> Api.score_weak_match_max g < score).
Proof.
  intros H. apply parseGroupBody_inr in H.
  destruct H as (_ & _ & _ & _ & _ & _ & _ & _ & _ & Hvalid & _).
  unfold validThresholds in Hvalid. destruct Hvalid as (H0 & Hlt & H99 & Hst).
  unfold verdictFor.
  split; [apply computeVerdict_no_match; cbn; lia|].
  split; [apply computeVerdict_weak; cbn; lia|].
  split; [apply computeVerdict_strong; cbn; lia|].
  split; [rewrite computeVerdict_no_match by (cbn; lia); cbn; lia|].
  split; [rewrite computeVerdict_weak; cbn; lia|].
  rewrite computeVerdict_strong; cbn; lia.
Qed.

Lemma validated_thresholds_split_the_scores_witness :
  exists g,
    Api.parseGroupBody (exRawBody (Some "40") (Some "60") (Some "61")) = inr g
    /\ verdictFor g 0 = NO_MATCH
    /\ verdictFor g (Api.score_no_match_max g + 1) = WEAK_MATCH
    /\ verdictFor g 100 = STRONG_MATCH
    /\ (verdictFor g 60 = WEAK_MATCH <-> 40 < 60 <= 60).
Proof.
  eexists. split; [vm_compute; reflexivity|].
  destruct (validated_thresholds_split_the_scores
              (exRawBody (Some "40") (Some "60") (Some "61")) _ 60 eq_refl)
    as (H0 & H1 & H100 & _ & Hweak & _).
  split; [exact H0|]. split; [exact H1|]. split; [exact H100|]. exact Hweak.
Defined.

(** ** The fetcher *)

Lemma lowerChar_idem (c : ascii) : lowerChar (lowerChar c) = lowerChar c.
Proof. each_ascii c; reflexivity. Qed.

Lemma toLowerCase_idem (s : string) : toLowerCase (toLowerCase s) = toLowerCase s.
Proof.
  induction s as [|c s IH]; [reflexivity|].
  unfold toLowerCase in *. cbn [smap]. now rewrite lowerChar_idem, IH.
Qed.

Lemma toLowerCase_app (a b : string) :
  toLowerCase (a +:+ b) = toLowerCase a +:+ toLowerCase b.
Proof.
  induction a as [|c a IH]; [reflexivity|].
  rewrite append_cons. unfold toLowerCase in *. cbn [smap].
  now rewrite IH, append_cons.
Qed.

Lemma without_app (p : ascii -> bool) (a b : string) :
  without p (a +:+ b) = without p a +:+ without p b.
Proof.
  induction a as [|c a IH]; [reflexivity|].
  rewrite append_cons. cbn [without]. rewrite IH.
  destruct (p c); [reflexivity | now rewrite append_cons].
Qed.

Lemma separator_lower (c : ascii) :
  Fetcher.isSeparator c = true -> Fetcher.isSeparator (lowerChar c) = true.
Proof. each_ascii c; intros H; try discriminate H; reflexivity. Qed.

Lemma orElse_some_empty (s : string) : orElse (Some s) "" = s.
Proof. now destruct s. Qed.

Lemma orElse_nonempty (o : option string) (d : string) :
  d <> EmptyString -> orElse o d <> EmptyString.
Proof.
  intros Hd. destruct o as [[|c s]|]; cbn; [assumption | discriminate | assumption].
Qed.

Lemma normalizeWorkMode_key (raw : option string) :
  Fetcher.normalizeWorkMode raw
  = if includes (workModeKey raw) "remote" then "remote"
    else if includes (workModeKey raw) "hybrid" then "hybrid"
    else "onsite".
Proof.
  unfold Fetcher.normalizeWorkMode, workModeKey.
  now rewrite (replaceAll_oneOf _ _ _ _ (oneOf_Chr Fetcher.isSeparator)),
    substitute_without.
Qed.

(** X4: [normalizeWorkMode].  The result is one of remote, hybrid, onsite
    and is a fixed point.  It depends on the raw value only through its
    lower-case form without [_], [-] and white space: remote when that
    contains "remote", else hybrid when it contains "hybrid", else onsite
    (also for a missing or empty value); so letter case and separators
    make no difference. *)
Theorem normalizeWorkMode_three_modes (raw : option string) (a b : string) (c : ascii) :
  isWorkMode (Fetcher.normalizeWorkMode raw)
  /\ Fetcher.normalizeWorkMode (Some (Fetcher.normalizeWorkMode raw))
     = Fetcher.normalizeWorkMode raw
  /\ (Fetcher.normalizeWorkMode raw = "remote"
      <-> includes (workModeKey raw) "remote" = true)
  /\ (Fetcher.normalizeWorkMode raw = "hybrid"
      <-> includes (workModeKey raw) "remote" = false
          /\ includes (workModeKey raw) "hybrid" = true)
  /\ Fetcher.normalizeWorkMode None = "onsite"
  /\ Fetcher.normalizeWorkMode (Some "") = "onsite"
  /\ Fetcher.normalizeWorkMode (Some (toLowerCase a)) = Fetcher.normalizeWorkMode (Some a)
  /\ (Fetcher.isSeparator c = true ->
      Fetcher.normalizeWorkMode (Some (a +:+ String c b))
      = Fetcher.normalizeWorkMode (Some (a +:+ b))).
Proof.
  rewrite (normalizeWorkMode_key raw).
  split.
  { unfold isWorkMode.
    destruct (includes (workModeKey raw) "remote"); [now left|].
    destruct (includes (workModeKey raw) "hybrid"); [right; now left | right; now right]. }
  split.
  { destruct (includes (workModeKey raw) "remote"); [reflexivity|].
    destruct (includes (workModeKey raw) "hybrid"); reflexivity. }
  split.
  { destruct (includes (workModeKey raw) "remote"); [tauto|].
    destruct (includes (workModeKey raw) "hybrid"); split; discriminate. }
  split.
  { destruct (includes (workModeKey raw) "remote").
    - split; [discriminate | intros [H _]; discriminate H].
    - destruct (includes (workModeKey raw) "hybrid"); split;
        try discriminate; try tauto; intros [_ H]; discriminate H. }
  split; [reflexivity|]. split; [reflexivity|].
  split.
  { rewrite !normalizeWorkMode_key. unfold workModeKey.
    now rewrite !orElse_some_empty, toLowerCase_idem. }
  intros Hc. rewrite !normalizeWorkMode_key. unfold workModeKey.
  rewrite !orElse_some_empty, !toLowerCase_app, !without_app.
  change (toLowerCase (String c b)) with (String (lowerChar c) (toLowerCase b)).
  cbn [without]. now rewrite (separator_lower c Hc).
Qed.

Example normalizeWorkMode_examples :
  Fetcher.normalizeWorkMode (Some "On_Site") = "onsite"
  /\ Fetcher.normalizeWorkMode (Some "RE-MOTE") = "remote"
  /\ Fetcher.normalizeWorkMode (Some "Hybrid / Remote") = "remote"
  /\ Fetcher.normalizeWorkMode (Some "hy brid") = "hybrid"
  /\ Fetcher.normalizeWorkMode (Some "office") = "onsite".
Proof. repeat split; vm_compute; reflexivity. Qed.

Lemma inr_inj {A B : Type} (x y : B) : @inr A B x = inr y -> x = y.
Proof. intros H. now inversion H. Qed.

Lemma parsePostedDate_inr (dates : Fetcher.DateApi) (raw : option Fetcher.RawDate)
  (d : option string) (c : Confidence) :
  Fetcher.parsePostedDate dates raw = inr (d, c) -> (d = None <-> c = LOW).
Proof.
  unfold Fetcher.parsePostedDate.
  destruct raw as [r|]; [|intros [= <- <-]; tauto].
  destruct (Fetcher.falsyDate (Some r)); [intros [= <- <-]; tauto|].
  destruct (Fetcher.timeStampOf r) as [ts|].
  - destruct (Fetcher.validTime _); [|discriminate].
    intros [= <- <-]. split; discriminate.
  - destruct (Fetcher.timeOf dates _); intros [= <- <-]; [split; discriminate | tauto].
Qed.

Lemma mapToJobPosting_inr (dates : Fetcher.DateApi) (item : Fetcher.HarvestJob)
  (j : JobPosting) :
  Fetcher.mapToJobPosting dates item = inr j ->
  title j <> EmptyString
  /\ (jobId j <> EmptyString -> url j <> EmptyString)
  /\ isWorkMode (workMode j)
  /\ (String.length (description j) <= 20000)%nat
  /\ (forall a, applyUrl j = Some a -> a <> EmptyString /\ a <> url j)
  /\ (postedDate j = None <-> postedDateConfidence j = LOW).
Proof.
  unfold Fetcher.mapToJobPosting.
  destruct (Fetcher.parsePostedDate dates _) as [msg | [d c]] eqn:Hdate; [discriminate|].
  intros H. apply inr_inj in H. subst j.
  cbn [title jobId url workMode description applyUrl postedDate postedDateConfidence].
  split; [apply orElse_nonempty; discriminate|].
  split.
  { intros Hid. apply orElse_nonempty, orElse_nonempty.
    apply truthy_true in Hid. rewrite Hid.
    rewrite append_cons. discriminate. }
  split; [apply (normalizeWorkMode_three_modes _ "" "" "a"%char)|].
  split; [apply take_length_le|].
  split; [|eapply parsePostedDate_inr; exact Hdate].
  intros a Ha. destruct (Fetcher.hj_applyUrl item) as [x|]; [|discriminate].
  destruct (truthy x && negb (String.eqb x _))%bool eqn:Hx; [|discriminate].
  injection Ha as <-. apply andb_true_iff in Hx. destruct Hx as [Ht Hne].
  split; [now apply truthy_true|].
  intros Heq. apply negb_true_iff in Hne. apply String.eqb_neq in Hne. now apply Hne.
Qed.

Lemma mapItems_inr (dates : Fetcher.DateApi) (items : list Fetcher.HarvestJob) :
  forall jobs, Fetcher.mapItems dates items = inr jobs ->
    Forall (fun j => exists item, In item items
                                  /\ Fetcher.mapToJobPosting dates item = inr j) jobs.
Proof.
  induction items as [|item rest IH]; intros jobs H; cbn [Fetcher.mapItems] in H.
  - injection H as <-. constructor.
  - destruct (Fetcher.mapToJobPosting dates item) as [msg | j] eqn:Hj; [discriminate|].
    destruct (Fetcher.mapItems dates rest) as [msg | js]; [discriminate|].
    injection H as <-. constructor.
    + exists item. split; [now left | assumption].
    + eapply Forall_impl; [exact (IH js eq_refl)|].
      intros j' (item' & Hin & Hmap). exists item'. split; [now right | assumption].
Qed.

(** X5: what [fetchJobs] returns.  Every posting has an identifier, a title
    and a URL that are not empty, a work mode that is one of remote, hybrid
    and onsite, a description of at most 20000 code units, and an apply URL
    only when it is not empty and differs from the URL; its date is missing
    exactly when its confidence is LOW; and a posting with a date was
    posted at most 48 hours ago.  The work modes and the job type of the
    filters do not enter the request. *)
Theorem fetched_postings_are_normalised (api : Fetcher.ProviderApi)
  (dates : Fetcher.DateApi) (keywords locations workModes : list string)
  (jobType : string) (jobs : list JobPosting) (j : JobPosting) :
  Fetcher.fetchJobs api dates keywords locations workModes jobType = inr jobs ->
  In j jobs ->
  Normalised j
  /\ (forall d, postedDate j = Some d -> d <> EmptyString ->
        exists posted, Fetcher.timeOf dates d = Some posted
                       /\ Fetcher.currentTime dates - 172800000 <= posted)
  /\ (forall workModes' jobType',
        Fetcher.fetchJobs api dates keywords locations workModes' jobType' = inr jobs).
Proof.
  unfold Fetcher.fetchJobs. intros H Hin.
  destruct (Fetcher.runActor api keywords locations) as [msg | items]; [discriminate|].
  destruct (Fetcher.mapItems dates items) as [msg | mapped] eqn:Hmap; [discriminate|].
  injection H as <-.
  apply filter_In in Hin. destruct Hin as [Hin Hwindow].
  apply filter_In in Hin. destruct Hin as [Hin Hid].
  apply mapItems_inr in Hmap. rewrite List.Forall_forall in Hmap.
  destruct (Hmap j Hin) as (item & _ & Hitem).
  apply mapToJobPosting_inr in Hitem.
  destruct Hitem as (Htitle & Hurl & Hmode & Hdesc & Happly & Hconf).
  apply truthy_true in Hid.
  split; [constructor; auto|].
  split; [|reflexivity].
  intros d Hd Hne. unfold Fetcher.filterByTimeWindow in Hwindow. rewrite Hd in Hwindow.
  apply truthy_true in Hne. rewrite Hne in Hwindow.
  destruct (Fetcher.timeOf dates d) as [posted|]; [|discriminate].
  exists posted. split; [reflexivity|]. now apply Z.leb_le.
Qed.

Lemma fetched_postings_are_normalised_witness :
  exists j,
    Fetcher.fetchJobs (exProvider [exItem "4242" 1699990000; exItem "" 1699990000])
      exDates ["Product Manager"] ["Berlin"] ["remote"] "fullTime" = inr [j]
    /\ jobId j = "4242"
    /\ url j = "https://www.linkedin.com/jobs/view/4242/"
    /\ workMode j = "onsite"
    /\ company j = "Good"
    /\ postedDate j = Some "2023-11-14"
    /\ Normalised j.
Proof.
  eexists. split; [vm_compute; reflexivity|].
  repeat (split; [reflexivity|]).
  eapply (fetched_postings_are_normalised
            (exProvider [exItem "4242" 1699990000; exItem "" 1699990000])
            exDates ["Product Manager"] ["Berlin"] ["remote"] "fullTime").
  - vm_compute. reflexivity.
  - now left.
Defined.

Lemma showZ_nonempty (n : Z) : showZ n <> EmptyString.
Proof.
  intros H. pose proof (parseInt10_showZ n) as Hp. rewrite H in Hp. discriminate.
Qed.

(** X6: [parsePostedDate].  The confidence is LOW exactly when no date is
    returned; a missing, empty or zero value gives no date.  A time stamp
    between 1e9 and 1e12 is read as seconds: it gives the date of the same
    time in milliseconds, whether it comes as a number or as its decimal
    text.  A numeric time stamp above 8.64e15 makes [toISOString] throw,
    and one such item makes the whole [fetchJobs] of a group fail. *)
Theorem parsePostedDate_time_stamps (api : Fetcher.ProviderApi)
  (dates : Fetcher.DateApi) (raw : option Fetcher.RawDate) (n : Z) :
  (forall d c, Fetcher.parsePostedDate dates raw = inr (d, c) ->
     (d = None <-> c = LOW))
  /\ (Fetcher.falsyDate raw = true ->
      Fetcher.parsePostedDate dates raw = inr (None, LOW))
  /\ (1000000000 < n <= 1000000000000 ->
      Fetcher.parsePostedDate dates (Some (Fetcher.DateNumber n))
      = inr (Some (Fetcher.isoDateOf dates (n * 1000)), HIGH)
      /\ Fetcher.parsePostedDate dates (Some (Fetcher.DateNumber (n * 1000)))
         = inr (Some (Fetcher.isoDateOf dates (n * 1000)), HIGH)
      /\ Fetcher.parsePostedDate dates (Some (Fetcher.DateText (showZ n)))
         = inr (Some (Fetcher.isoDateOf dates (n * 1000)), HIGH))
  /\ (8640000000000000 < n ->
      Fetcher.parsePostedDate dates (Some (Fetcher.DateNumber n))
      = inl "Invalid time value"
      /\ forall keywords locations workModes jobType items item,
           Fetcher.runActor api keywords locations = inr items ->
           In item items ->
           Fetcher.hj_postedDate item = None ->
           Fetcher.hj_listedAt item = Some (Fetcher.DateNumber n) ->
           Fetcher.fetchJobs api dates keywords locations workModes jobType
           = inl "Invalid time value").
Proof.
  split; [intros d c; apply parsePostedDate_inr|].
  split.
  { intros Hf. unfold Fetcher.parsePostedDate. destruct raw; [now rewrite Hf | reflexivity]. }
  split.
  { intros [Hlo Hhi].
    assert (Hnum : forall t, t = n \/ t = n * 1000 ->
              Fetcher.parsePostedDate dates (Some (Fetcher.DateNumber t))
              = inr (Some (Fetcher.isoDateOf dates (n * 1000)), HIGH)).
    { intros t Ht. unfold Fetcher.parsePostedDate, Fetcher.falsyDate, Fetcher.timeStampOf.
      assert (Hnz : Z.eqb t 0 = false) by (apply Z.eqb_neq; lia).
      assert (Hgt : Z.ltb 1000000000 t = true) by (apply Z.ltb_lt; lia).
      rewrite Hnz, Hgt. cbv zeta.
      assert (Hms : (if Z.ltb 1000000000000 t then t else t * 1000) = n * 1000).
      { destruct (Z.ltb_spec 1000000000000 t); lia. }
      rewrite Hms.
      assert (Hv : Fetcher.validTime (n * 1000) = true)
        by (unfold Fetcher.validTime; apply Z.leb_le; lia).
      now rewrite Hv. }
    split; [apply Hnum; now left|]. split; [apply Hnum; now right|].
    unfold Fetcher.parsePostedDate, Fetcher.falsyDate, Fetcher.timeStampOf.
    assert (Ht : truthy (showZ n) = true) by (apply truthy_true, showZ_nonempty).
    rewrite Ht, parseInt10_showZ. cbn [negb].
    assert (Hgt : Z.ltb 1000000000 n = true) by (apply Z.ltb_lt; lia).
    rewrite Hgt. cbv zeta.
    assert (Hle : Z.ltb 1000000000000 n = false) by (apply Z.ltb_ge; lia).
    rewrite Hle.
    assert (Hv : Fetcher.validTime (n * 1000) = true)
      by (unfold Fetcher.validTime; apply Z.leb_le; lia).
    now rewrite Hv. }
  intros Hbig.
  assert (Hthrow : Fetcher.parsePostedDate dates (Some (Fetcher.DateNumber n))
                   = inl "Invalid time value").
  { unfold Fetcher.parsePostedDate, Fetcher.falsyDate, Fetcher.timeStampOf.
    assert (Hnz : Z.eqb n 0 = false) by (apply Z.eqb_neq; lia).
    assert (Hgt : Z.ltb 1000000000 n = true) by (apply Z.ltb_lt; lia).
    assert (Hgt' : Z.ltb 1000000000000 n = true) by (apply Z.ltb_lt; lia).
    rewrite Hnz, Hgt. cbv zeta. rewrite Hgt'.
    assert (Hv : Fetcher.validTime n = false)
      by (unfold Fetcher.validTime; apply Z.leb_gt; lia).
    now rewrite Hv. }
  split; [exact Hthrow|].
  intros keywords locations workModes jobType items item Hrun Hin Hposted Hlisted.
  unfold Fetcher.fetchJobs. rewrite Hrun.
  assert (Hmap : Fetcher.mapItems dates items = inl "Invalid time value").
  { clear Hrun. induction items as [|x rest IH]; [contradiction|].
    cbn [Fetcher.mapItems].
    assert (Hmsg : forall y msg, Fetcher.mapToJobPosting dates y = inl msg ->
                     msg = "Invalid time value").
    { intros y msg. unfold Fetcher.mapToJobPosting, Fetcher.parsePostedDate.
      destruct (match Fetcher.hj_postedDate y with
                | Some s => Some (Fetcher.DateText s)
                | None => Fetcher.hj_listedAt y
                end) as [r|]; [|discriminate].
      destruct (Fetcher.falsyDate (Some r)); [discriminate|].
      destruct (Fetcher.timeStampOf r).
      - destruct (Fetcher.validTime _); [discriminate | congruence].
      - destruct (Fetcher.timeOf dates _); discriminate. }
    destruct Hin as [-> | Hin].
    - unfold Fetcher.mapToJobPosting. rewrite Hposted, Hlisted, Hthrow. reflexivity.
    - destruct (Fetcher.mapToJobPosting dates x) as [msg | j] eqn:Hx.
      + now rewrite (Hmsg x msg Hx).
      + now rewrite (IH Hin). }
  now rewrite Hmap.
Qed.

(** ** extractCountry *)

Lemma assoc_region_nonempty (key v : string) :
  assoc key REGION_TO_COUNTRY = Some v -> v <> EmptyString.
Proof.
  unfold REGION_TO_COUNTRY. cbn [assoc].
  repeat match goal with
         | |- (if ?c then _ else _) = _ -> _ =>
             destruct c; [intros [= <-]; discriminate|]
         end.
  discriminate.
Qed.

Lemma last_filter_truthy (xs : list string) (x : string) :
  List.last (map Some (List.filter truthy xs)) None = Some x -> x <> EmptyString.
Proof.
  intros H.
  assert (Hin : In x (List.filter truthy xs)).
  { remember (List.filter truthy xs) as l eqn:Hl. clear Hl.
    induction l as [|y l IH]; [discriminate|].
    cbn [map] in H. destruct l as [|z l].
    - cbn in H. injection H as ->. now left.
    - right. apply IH. exact H. }
  apply filter_In in Hin. destruct Hin as [_ Ht]. now apply truthy_true.
Qed.

Lemma regionOr_cases (last : string) :
  (exists name, regionOr (toLowerCase last) last = CountryName name
                /\ (last <> EmptyString -> name <> EmptyString))
  \/ (regionOr (toLowerCase last) last = Inherited (toLowerCase last)
      /\ (toLowerCase last = "constructor" \/ toLowerCase last = "__proto__")).
Proof.
  unfold regionOr.
  destruct (assoc (toLowerCase last) REGION_TO_COUNTRY) as [v|] eqn:Hv.
  - left. exists v. split; [reflexivity|]. intros _. eapply assoc_region_nonempty, Hv.
  - destruct (existsb (String.eqb (toLowerCase last)) objectPrototypeKeys) eqn:Hk.
    + right. split; [reflexivity|].
      apply existsb_exists in Hk. destruct Hk as (k & Hin & Heq).
      apply String.eqb_eq in Heq.
      pose proof (toLowerCase_idem last) as Hidem. rewrite Heq in Hidem.
      unfold objectPrototypeKeys in Hin. cbn [In] in Hin.
      repeat (destruct Hin as [<- | Hin];
              [first [now left | now right | vm_compute in Hidem; discriminate Hidem]|]).
      contradiction.
    + left. exists last. split; [reflexivity | tauto].
Qed.

(** X7: [extractCountry] of the jobs route and its copy in the analytics
    route.  The two agree on every location except those that the jobs
    route files under "Remote / Unknown", which the analytics route files
    under "Unknown" (no location) or "Remote".  A text that is returned is
    never empty.  When the only segment of a location is "constructor" or
    "__proto__" in lower case, the table lookup finds an inherited property
    and the result is not a text; this happens for no other key. *)
Theorem extractCountry_copies_agree (location : option string) :
  (JobsRoute.extractCountry location = AnalyticsRoute.extractCountry location
   \/ (JobsRoute.extractCountry location = CountryName "Remote / Unknown"
       /\ (AnalyticsRoute.extractCountry location = CountryName "Unknown"
           \/ AnalyticsRoute.extractCountry location = CountryName "Remote")))
  /\ (forall name, JobsRoute.extractCountry location = CountryName name ->
        name <> EmptyString)
  /\ (forall name, AnalyticsRoute.extractCountry location = CountryName name ->
        name <> EmptyString)
  /\ (forall key, JobsRoute.extractCountry location = Inherited key ->
        key = "constructor" \/ key = "__proto__")
  /\ JobsRoute.extractCountry None = CountryName "Remote / Unknown"
  /\ JobsRoute.extractCountry (Some "   ") = CountryName "Remote / Unknown"
  /\ JobsRoute.extractCountry (Some "Berlin, Germany") = CountryName "Germany"
  /\ JobsRoute.extractCountry (Some "Greater London") = CountryName "United Kingdom"
  /\ JobsRoute.extractCountry (Some "EMEA") = CountryName "EMEA"
  /\ JobsRoute.extractCountry (Some "Constructor") = Inherited "constructor".
Proof.
  split.
  { unfold JobsRoute.extractCountry, AnalyticsRoute.extractCountry.
    destruct location as [l|]; [|right; split; [reflexivity | now left]].
    destruct (truthy l); [|right; split; [reflexivity | now left]].
    destruct (negb (truthy (trim l)) || String.eqb (toLowerCase (trim l)) "remote")%bool;
      [right; split; [reflexivity | now right] | now left]. }
  assert (Hshared : forall l,
            truthy (trim l) = true ->
            let parts := List.filter truthy (map trim (splitOn "," (trim l))) in
            let r := if has AGGREGATES (toLowerCase (trim l)) then CountryName (trim l)
                     else match List.last (map Some parts) None with
                          | None => CountryName (trim l)
                          | Some last =>
                              if has AGGREGATES (toLowerCase last) then CountryName last
                              else match parts with
                                   | [_] => regionOr (toLowerCase last) last
                                   | _ => CountryName last
                                   end
                          end in
            (forall name, r = CountryName name -> name <> EmptyString)
            /\ (forall key, r = Inherited key ->
                  key = "constructor" \/ key = "__proto__")).
  { intros l Htrim parts r. subst r.
    apply truthy_true in Htrim.
    destruct (has AGGREGATES (toLowerCase (trim l)));
      [split; [intros name [= <-]; assumption | discriminate]|].
    destruct (List.last (map Some parts) None) as [last|] eqn:Hlast;
      [|split; [intros name [= <-]; assumption | discriminate]].
    pose proof (last_filter_truthy _ _ Hlast) as Hne.
    destruct (has AGGREGATES (toLowerCase last));
      [split; [intros name [= <-]; assumption | discriminate]|].
    destruct parts as [|p [|q rest]] eqn:Hparts;
      try (split; [intros name [= <-]; assumption | discriminate]).
    cbn in Hlast. injection Hlast as ->.
    destruct (regionOr_cases last) as [(name & Hr & Hname) | (Hr & Hkey)]; rewrite Hr.
    - split; [intros n [= <-]; now apply Hname | discriminate].
    - split; [discriminate|]. now intros key [= <-]. }
  assert (Hboth : forall (remote unknown : string),
            remote <> EmptyString -> unknown <> EmptyString ->
            forall r,
              r = match location with
                  | None => CountryName unknown
                  | Some l =>
                      if truthy l then
                        if (negb (truthy (trim l))
                            || String.eqb (toLowerCase (trim l)) "remote")%bool
                        then CountryName remote
                        else if has AGGREGATES (toLowerCase (trim l))
                             then CountryName (trim l)
                             else
                               match List.last
                                       (map Some (List.filter truthy
                                                    (map trim (splitOn "," (trim l)))))
                                       None with
                               | None => CountryName (trim l)
                               | Some last =>
                                   if has AGGREGATES (toLowerCase last)
                                   then CountryName last
                                   else
                                     match List.filter truthy
                                             (map trim (splitOn "," (trim l))) with
                                     | [_] => regionOr (toLowerCase last) last
                                     | _ => CountryName last
                                     end
                               end
                      else CountryName unknown
                  end ->
              (forall name, r = CountryName name -> name <> EmptyString)
              /\ (forall key, r = Inherited key ->
                    key = "constructor" \/ key = "__proto__")).
  { intros remote unknown Hr Hu r ->.
    destruct location as [l|];
      [|split; [intros name [= <-]; assumption | discriminate]].
    destruct (truthy l);
      [|split; [intros name [= <-]; assumption | discriminate]].
    destruct (truthy (trim l)) eqn:Ht; cbn [negb orb];
      [|split; [intros name [= <-]; assumption | discriminate]].
    destruct (String.eqb (toLowerCase (trim l)) "remote");
      [split; [intros name [= <-]; assumption | discriminate]|].
    exact (Hshared l Ht). }
  split; [apply (Hboth "Remote / Unknown" "Remote / Unknown"); [discriminate.. | reflexivity]|].
  split; [apply (Hboth "Remote" "Unknown"); [discriminate.. | reflexivity]|].
  split; [apply (Hboth "Remote / Unknown" "Remote / Unknown"); [discriminate.. | reflexivity]|].
  repeat split; vm_compute; reflexivity.
Qed.

(** ** The scheduler *)

Lemma stopSchedule_consistent (s : Scheduler.State) :
  schedulerConsistent s ->
  schedulerConsistent (Scheduler.stopSchedule s)
  /\ Scheduler.cronJob (Scheduler.stopSchedule s) = None.
Proof.
  unfold schedulerConsistent, Scheduler.stopSchedule.
  destruct (Scheduler.cronJob s) as [t|] eqn:Hjob.
  - intros (Hticking & _ & _). cbn. rewrite Hticking. cbn.
    rewrite Nat.eqb_refl. cbn. now repeat split.
  - intros H. rewrite Hjob. now split.
Qed.

Lemma startSchedule_consistent (api : Scheduler.CronApi) (expression timezone : string)
  (s : Scheduler.State) :
  schedulerConsistent s ->
  schedulerConsistent (snd (Scheduler.startSchedule api expression timezone s)).
Proof.
  intros H. destruct (stopSchedule_consistent s H) as [H1 Hnone].
  unfold Scheduler.startSchedule.
  destruct (Scheduler.scheduleThrows api _ timezone); cbn [snd]; [exact H1|].
  unfold schedulerConsistent in *. rewrite Hnone in H1. destruct H1 as (Ht & _ & _).
  cbn. rewrite Ht. now repeat split.
Qed.

Lemma schedulerAfter_snoc (api : Scheduler.CronApi) (calls : list Scheduler.Call)
  (c : Scheduler.Call) :
  schedulerAfter api (calls ++ [c]) = Scheduler.call api (schedulerAfter api calls) c.
Proof. unfold schedulerAfter. now rewrite fold_left_app. Qed.

Lemma schedulerAfter_consistent (api : Scheduler.CronApi) (calls : list Scheduler.Call) :
  schedulerConsistent (schedulerAfter api calls).
Proof.
  induction calls as [|c calls IH] using rev_ind.
  - cbn. now repeat split.
  - rewrite schedulerAfter_snoc. destruct c as [e tz|]; cbn [Scheduler.call].
    + now apply startSchedule_consistent.
    + now apply stopSchedule_consistent.
Qed.

(** X8: the scheduler is a singleton.  After any calls of [startSchedule]
    and [stopSchedule], at most one cron task ticks, and it is the task the
    module holds; the status reports it: active exactly when a task ticks,
    with that task's expression and time zone, and no expression or time
    zone otherwise.  [startSchedule] stops the task that ticked before; it
    schedules the expression it is given when [cron.validate] accepts it
    and "0 7 * * *" otherwise.  [stopSchedule] leaves nothing ticking, and
    a second [stopSchedule] changes nothing. *)
Theorem scheduler_runs_one_task (api : Scheduler.CronApi) (calls : list Scheduler.Call)
  (expression timezone : string) :
  let s := schedulerAfter api calls in
  let status := Scheduler.getScheduleStatus s in
  (length (Scheduler.ticking s) <= 1)%nat
  /\ (Scheduler.active status = true <-> Scheduler.ticking s <> [])
  /\ (forall t, In t (Scheduler.ticking s) ->
        Scheduler.expression status = Some (Scheduler.task_expression t)
        /\ Scheduler.timezone status = Some (Scheduler.task_timezone t))
  /\ (Scheduler.active status = false ->
        Scheduler.expression status = None /\ Scheduler.timezone status = None)
  /\ (let '(thrown, s') := Scheduler.startSchedule api expression timezone s in
      match thrown with
      | Some _ => Scheduler.ticking s' = []
      | None =>
          exists t,
            Scheduler.ticking s' = [t]
            /\ Scheduler.task_timezone t = timezone
            /\ Scheduler.task_expression t
               = (if Scheduler.validate api expression then expression
                  else "0 7 * * *")
            /\ ~ In t (Scheduler.ticking s)
      end)
  /\ Scheduler.ticking (Scheduler.stopSchedule s) = []
  /\ Scheduler.stopSchedule (Scheduler.stopSchedule s) = Scheduler.stopSchedule s.
Proof.
  intros s status. subst status.
  pose proof (schedulerAfter_consistent api calls) as Hs. fold s in Hs.
  destruct (stopSchedule_consistent s Hs) as [Hstop Hnone].
  assert (Hids : Forall (fun t => (Scheduler.task_id t < Scheduler.scheduled s)%nat)
                   (Scheduler.ticking s)).
  { subst s. clear. induction calls as [|c calls IH] using rev_ind; [constructor|].
    rewrite schedulerAfter_snoc.
    pose proof (schedulerAfter_consistent api calls) as Hc.
    set (s := schedulerAfter api calls) in *.
    assert (Hstop : Forall (fun t => (Scheduler.task_id t
                                      < Scheduler.scheduled (Scheduler.stopSchedule s))%nat)
                      (Scheduler.ticking (Scheduler.stopSchedule s))).
    { unfold Scheduler.stopSchedule. destruct (Scheduler.cronJob s); [|exact IH].
      cbn. apply List.Forall_forall. intros t Ht. apply filter_In in Ht.
      rewrite List.Forall_forall in IH. now apply IH. }
    destruct c as [e tz|]; cbn [Scheduler.call]; [|exact Hstop].
    unfold Scheduler.startSchedule.
    destruct (Scheduler.scheduleThrows api _ tz); cbn [snd]; [exact Hstop|].
    cbn. apply Forall_app. split.
    - eapply Forall_impl; [exact Hstop|]. intros t Ht. cbn in Ht. lia.
    - constructor; [cbn; lia | constructor]. }
  unfold schedulerConsistent in Hs, Hstop. rewrite Hnone in Hstop.
  destruct Hstop as (Hstop & _ & _).
  unfold Scheduler.getScheduleStatus. cbn [Scheduler.active Scheduler.expression
                                            Scheduler.timezone].
  split; [destruct (Scheduler.cronJob s); destruct Hs as (-> & _); cbn; lia|].
  split.
  { destruct (Scheduler.cronJob s); destruct Hs as (-> & _); split;
      congruence || discriminate. }
  split.
  { intros t Ht. destruct (Scheduler.cronJob s) as [t'|]; destruct Hs as (Hl & He & Hz);
      rewrite Hl in Ht; [|contradiction].
    destruct Ht as [<- | []]. now split. }
  split.
  { intros Hact. destruct (Scheduler.cronJob s); [discriminate|]. now destruct Hs as (_ & ? & ?). }
  split.
  { unfold Scheduler.startSchedule.
    destruct (Scheduler.scheduleThrows api _ timezone); [exact Hstop|].
    cbn. rewrite Hstop. eexists. split; [reflexivity|].
    split; [reflexivity|]. split; [reflexivity|].
    intros Hin. rewrite List.Forall_forall in Hids. specialize (Hids _ Hin). cbn in Hids.
    unfold Scheduler.stopSchedule in Hids.
    destruct (Scheduler.cronJob s); cbn in Hids; lia. }
  split; [exact Hstop|].
  unfold Scheduler.stopSchedule at 1. now rewrite Hnone.
Qed.

(** ** Invariants of the database along a run *)

Section DbInvariant.
Variable P : Db -> Prop.
Hypothesis P_setLogs : forall d logs, P d -> P (setLogs d logs).
Hypothesis P_setRuns : forall d runs seq, P d -> P (setRuns d runs seq).
Hypothesis P_insertJob : forall row d d', P d -> insertJob row d = Inserted d' -> P d'.
Hypothesis P_skipped : forall d seq, P d -> P (setJobs d (jobs d) seq).
Hypothesis P_markJobsSeen : forall now ids d, P d -> P (markJobsSeen now ids d).

Lemma insertJobs_invariant (rows : list JobRow.t) :
  forall d d', P d -> insertJobs rows d = inr d' -> P d'.
Proof.
  induction rows as [|row rows IH]; intros d d' Hd H; cbn [insertJobs] in H.
  - now injection H as <-.
  - destruct (insertJob row d) as [d1 | d1 | msg] eqn:Hins; [| |discriminate].
    + eapply IH; [|exact H]. eapply P_insertJob; eassumption.
    + eapply IH; [|exact H]. apply insertJob_ignored in Hins.
      destruct Hins as [_ ->]. now apply P_skipped.
Qed.

Lemma processFetched_invariant (env : Env) (settings : SettingsRow)
  (names : gset string) (runId : Z) (g : SearchGroupRow.t) (st : RunState)
  (fetched : list JobPosting) :
  P (st_db st) ->
  P (st_db (stepState (processFetched env settings names runId g st fetched))).
Proof.
  intros Hd. unfold processFetched.
  destruct (batchDedup ∅ _) as [batchDupes batchUnique].
  rewrite !insertJobLogs_eq.
  destruct (filterNewJobs _ _) as [newJobs providerDupes].
  destruct (scoreJobs (llm env) newJobs _ _) as [scoredJobs trace1].
  rewrite !insertJobLogs_eq.
  destruct (dedupLoop env settings _ _ scoredJobs) as [jobResults vars].
  rewrite !insertJobLogs_eq.
  match goal with
  | |- context [insertJobs (map (blacklistedJobRow _ _) ?bl) ?d0] =>
      assert (Hd0 : P d0) by (repeat apply P_setLogs; exact Hd);
      destruct (insertJobs (map (blacklistedJobRow (SearchGroupRow.id g) (now env)) bl) d0)
        as [msg | d1] eqn:H1
  end.
  - cbn [stepState st_db]. exact Hd0.
  - pose proof (insertJobs_invariant _ _ _ Hd0 H1) as Hd1.
    destruct (insertJobs (map (scoredJobRow _ _) jobResults) d1) as [msg | d2] eqn:H2;
      cbn [stepState st_db]; [exact Hd1|].
    exact (insertJobs_invariant _ _ _ Hd1 H2).
Qed.

Lemma runGroups_invariant (env : Env) (settings : SettingsRow)
  (names : gset string) (runId : Z) :
  forall (groups : list SearchGroupRow.t) (st : RunState),
    P (st_db st) ->
    P (st_db (stepState (runGroups env settings names runId groups st))).
Proof.
  induction groups as [|g rest IH]; intros st Hd; cbn [runGroups]; [exact Hd|].
  assert (Hg : P (st_db (stepState (processGroup env settings names runId st g)))).
  { unfold processGroup.
    destruct (Z.eqb (SearchGroupRow.is_active g) 0); [exact Hd|].
    destruct (parseGroup g); [exact Hd|].
    destruct (fetchJobs env g); [exact Hd|].
    now apply processFetched_invariant. }
  destruct (processGroup env settings names runId st g) as [st' | msg st'];
    cbn [stepState] in *; [now apply IH | exact Hg].
Qed.

Lemma emailStep_invariant (env : Env) (settings : SettingsRow) (st : RunState) :
  P (st_db st) -> P (st_db (emailStep env settings st)).
Proof.
  intros Hd. unfold emailStep. destruct (Z.eqb (email_enabled settings) 0); [exact Hd|].
  unfold sendDailyReport.
  destruct (sendMail env _ _ _); cbn; try exact Hd.
  destruct (unseenStrongMatches (st_db st)); [exact Hd | now apply P_markJobsSeen].
Qed.

Lemma runPipeline_invariant (env : Env) (trigger : Trigger) (p : Process) :
  P (database p) -> P (database (snd (runPipeline env trigger p))).
Proof.
  intros Hd. unfold runPipeline. destruct (isRunning p); [exact Hd|].
  unfold runBody, tryBlock. cbn [setRunning database llmTrace].
  destruct (settings_row (database p)) as [settings|];
    [|cbn; unfold insertFailedRun; now apply P_setRuns].
  destruct (search_groups (database p)) as [|g gs] eqn:Hg;
    [cbn; unfold insertFailedRun; now apply P_setRuns|].
  cbn [insertRunningRun].
  match goal with
  | |- context [runGroups env settings ?n ?r ?gs0 ?s0] =>
      assert (Hrun : P (st_db (stepState (runGroups env settings n r gs0 s0))))
        by (apply runGroups_invariant; cbn [st_db]; now apply P_setRuns);
      destruct (runGroups env settings n r gs0 s0) as [st | msg st]
  end; cbn [stepState] in Hrun.
  - cbn. unfold updateRuns. apply P_setRuns. now apply emailStep_invariant.
  - cbn. unfold updateRuns. now apply P_setRuns.
Qed.

End DbInvariant.

(** ** The digest *)

Lemma unseen_In (d : Db) (r : JobRow.t) :
  In r (unseenStrongMatches d)
  <-> In r (jobs d) /\ JobRow.seen r = 0 /\ JobRow.is_duplicate r = 0
      /\ JobRow.ai_verdict r = "STRONG_MATCH".
Proof.
  unfold unseenStrongMatches. rewrite filter_In.
  rewrite !andb_true_iff, !Z.eqb_eq, String.eqb_eq. tauto.
Qed.

Lemma markJobsSeen_rows (now : string) (ids : list Z) (d : Db) (x : JobRow.t) :
  In x (jobs (markJobsSeen now ids d))
  <-> exists r, In r (jobs d)
                /\ x = (if existsb (Z.eqb (JobRow.id r)) ids
                        then JobRow.markSeen now r else r).
Proof.
  unfold markJobsSeen. cbn [jobs setJobs]. rewrite in_map_iff.
  split; intros (r & H1 & H2); exists r; split; auto.
Qed.

Lemma existsb_id_In (i : Z) (ids : list Z) :
  existsb (Z.eqb i) ids = true <-> In i ids.
Proof.
  rewrite existsb_exists. split.
  - intros (x & Hin & Heq). apply Z.eqb_eq in Heq. now subst.
  - intros Hin. exists i. split; [assumption | apply Z.eqb_refl].
Qed.

Lemma NoDup_map_inj {A B : Type} (f : A -> B) (l : list A) (x y : A) :
  List.NoDup (map f l) -> In x l -> In y l -> f x = f y -> x = y.
Proof.
  induction l as [|a l IH]; intros Hnd Hx Hy Heq; [contradiction|].
  cbn [map] in Hnd. apply NoDup_cons_iff in Hnd. destruct Hnd as [Hnotin Hnd].
  destruct Hx as [-> | Hx], Hy as [-> | Hy].
  - reflexivity.
  - exfalso. apply Hnotin. rewrite Heq. now apply in_map.
  - exfalso. apply Hnotin. rewrite <- Heq. now apply in_map.
  - now apply IH.
Qed.

Lemma sendDailyReport_sent (env : Env) (stats : RunStats) (recipientEmail : string)
  (d : Db) :
  sendMail env (unseenStrongMatches d) stats recipientEmail = MailSent ->
  fst (sendDailyReport env stats recipientEmail d)
  = inr (true, length (unseenStrongMatches d))
  /\ jobs (snd (sendDailyReport env stats recipientEmail d))
     = map (fun r => if existsb (Z.eqb (JobRow.id r))
                          (map JobRow.id (unseenStrongMatches d))
                     then JobRow.markSeen (now env) r else r) (jobs d).
Proof.
  intros Hmail. unfold sendDailyReport. rewrite Hmail. cbn [fst snd].
  split; [reflexivity|].
  destruct (unseenStrongMatches d) as [|s0 rest] eqn:Hsel; [|reflexivity].
  cbn [map existsb]. now rewrite map_id.
Qed.

(** X9: [sendDailyReport].  When the mail is sent, the count is the number
    of unseen, non-duplicate strong matches; each of them is marked seen at
    [now]; no unseen strong match is left; no row is added or removed; and,
    the keys being distinct, every other row is as it was.  When the mail
    is rejected or the call throws, the database is unchanged, so the same
    jobs are selected by the next digest. *)
Theorem digest_marks_what_it_sends (env : Env) (stats : RunStats)
  (recipientEmail : string) (d : Db) :
  let selected := unseenStrongMatches d in
  let outcome := fst (sendDailyReport env stats recipientEmail d) in
  let d' := snd (sendDailyReport env stats recipientEmail d) in
  match outcome with
  | inr (true, jobCount) =>
      jobCount = length selected
      /\ unseenStrongMatches d' = []
      /\ (forall r, In r selected -> In (JobRow.markSeen (now env) r) (jobs d'))
      /\ jobIds d' = jobIds d
      /\ (List.NoDup (jobIds d) ->
          forall r, In r (jobs d) -> ~ In r selected -> In r (jobs d'))
  | inr (false, jobCount) =>
      jobCount = length selected /\ d' = d
      /\ (exists msg, sendMail env selected stats recipientEmail = MailRejected msg)
  | inl msg => d' = d /\ sendMail env selected stats recipientEmail = MailThrows msg
  end.
Proof.
  intros selected outcome d'. subst outcome d'. unfold sendDailyReport.
  fold selected.
  destruct (sendMail env selected stats recipientEmail) as [msg | msg |] eqn:Hmail;
    cbn [fst snd].
  - now split.
  - split; [reflexivity|]. split; [reflexivity|]. now exists msg.
  - split; [reflexivity|].
    pose proof (sendDailyReport_sent env stats recipientEmail d Hmail) as [_ Hcase].
    unfold sendDailyReport in Hcase. fold selected in Hcase.
    rewrite Hmail in Hcase. cbn [snd] in Hcase.
    set (dd := match selected with
               | [] => d
               | _ => markJobsSeen (now env) (map JobRow.id selected) d
               end) in *.
    split.
    { (* nothing is left unseen *)
      destruct (unseenStrongMatches dd) as [|x xs] eqn:Hleft; [reflexivity|].
      exfalso.
      assert (Hx : In x (unseenStrongMatches dd)) by (rewrite Hleft; now left).
      apply unseen_In in Hx. destruct Hx as (Hin & Hseen & Hdup & Hv).
      rewrite Hcase in Hin. apply in_map_iff in Hin. destruct Hin as (r & <- & Hr).
      destruct (existsb (Z.eqb (JobRow.id r)) (map JobRow.id selected)) eqn:Hsel.
      - cbn in Hseen. discriminate.
      - assert (Hrs : In r selected) by (apply unseen_In; auto).
        assert (Hrid : existsb (Z.eqb (JobRow.id r)) (map JobRow.id selected) = true)
          by (apply existsb_id_In; now apply in_map).
        congruence. }
    split.
    { intros r Hr. rewrite Hcase. apply in_map_iff. exists r.
      assert (Hrid : existsb (Z.eqb (JobRow.id r)) (map JobRow.id selected) = true)
        by (apply existsb_id_In; now apply in_map).
      rewrite Hrid. split; [reflexivity|]. now apply unseen_In in Hr. }
    split.
    { unfold jobIds. rewrite Hcase, map_map. apply map_ext.
      intros r. now destruct (existsb _ _). }
    intros Hnd r Hr Hnot. rewrite Hcase. apply in_map_iff. exists r.
    split; [|assumption].
    destruct (existsb (Z.eqb (JobRow.id r)) (map JobRow.id selected)) eqn:Hsel;
      [|reflexivity].
    exfalso. apply Hnot. apply existsb_id_In in Hsel. apply in_map_iff in Hsel.
    destruct Hsel as (s0 & Hid & Hs0).
    assert (Hs0' : In s0 (jobs d)) by now apply unseen_In in Hs0.
    now rewrite <- (NoDup_map_inj JobRow.id (jobs d) s0 r Hnd Hs0' Hr Hid).
Qed.

(** ** What stays seen *)

Lemma allSeen_map (ids : list Z) (d d' : Db) (g : JobRow.t -> JobRow.t) :
  jobs d' = map g (jobs d) ->
  (forall r, JobRow.id (g r) = JobRow.id r) ->
  (forall r, JobRow.seen r = 1 -> JobRow.seen (g r) = 1) ->
  allSeen ids d -> allSeen ids d'.
Proof.
  intros Hjobs Hid Hseen [Hnd Hall]. unfold allSeen, jobIds in *. rewrite Hjobs.
  split.
  - rewrite map_map. erewrite map_ext; [exact Hnd|]. intros r. apply Hid.
  - intros i Hi. destruct (Hall i Hi) as (x & Hx & Hxi & Hxs).
    exists (g x). split; [now apply in_map|]. split; [now rewrite Hid | now apply Hseen].
Qed.

Lemma allSeen_same_jobs (ids : list Z) (d d' : Db) :
  jobs d' = jobs d -> allSeen ids d -> allSeen ids d'.
Proof. intros Hjobs. unfold allSeen, jobIds. now rewrite Hjobs. Qed.

Lemma insertJob_next (row : JobRow.t) (d d' : Db) :
  insertJob row d = Inserted d' ->
  let i := nextId (jobs_seq d) (jobIds d) in
  d' = setJobs d (jobs d ++ [JobRow.withId i row]) i
  /\ ~ In i (jobIds d)
  /\ hasLinkedinId d (JobRow.linkedin_job_id row) = false.
Proof.
  unfold insertJob, jobIds.
  destruct (hasLinkedinId d _) eqn:Hhas; [discriminate|].
  destruct (match JobRow.duplicate_of_job_id row with
            | Some i => hasJobId d i | None => true end); [|discriminate].
  intros [= <-]. split; [reflexivity|]. split; [|reflexivity].
  intros Hin. apply (nextId_fresh (jobs_seq d)) in Hin. lia.
Qed.

Lemma NoDup_snoc {A : Type} (l : list A) (x : A) :
  List.NoDup l -> ~ In x l -> List.NoDup (l ++ [x]).
Proof.
  intros Hnd Hx. induction l as [|a l IH]; cbn.
  - constructor; [intros [] | constructor].
  - apply NoDup_cons_iff in Hnd. destruct Hnd as [Ha Hnd].
    constructor.
    + intros Hin. apply in_app_or in Hin. destruct Hin as [Hin | [<- | []]].
      * contradiction.
      * apply Hx. now left.
    + apply IH; [assumption|]. intros Hin. apply Hx. now right.
Qed.

Lemma allSeen_insertJob (ids : list Z) (row : JobRow.t) (d d' : Db) :
  allSeen ids d -> insertJob row d = Inserted d' -> allSeen ids d'.
Proof.
  intros [Hnd Hall] Hins. apply insertJob_next in Hins.
  destruct Hins as (Hd' & Hfresh & _).
  unfold allSeen, jobIds in *. rewrite Hd'. cbn [jobs setJobs]. split.
  - rewrite map_app. cbn [map]. now apply NoDup_snoc.
  - intros k Hk. destruct (Hall k Hk) as (x & Hx & Hxi & Hxs).
    exists x. split; [apply in_or_app; now left | now split].
Qed.

Lemma allSeen_runPipeline (ids : list Z) (env : Env) (trigger : Trigger) (p : Process) :
  allSeen ids (database p) -> allSeen ids (database (snd (runPipeline env trigger p))).
Proof.
  apply runPipeline_invariant.
  - intros d logs. now apply allSeen_same_jobs.
  - intros d runs seq. now apply allSeen_same_jobs.
  - intros row d d'. apply allSeen_insertJob.
  - intros d seq. now apply allSeen_same_jobs.
  - intros now ids' d. apply (allSeen_map ids d _
      (fun r => if existsb (Z.eqb (JobRow.id r)) ids' then JobRow.markSeen now r else r)).
    + reflexivity.
    + intros r. now destruct (existsb _ _).
    + intros r Hr. now destruct (existsb _ _).
Qed.

Lemma updateJobs_allSeen (ids : list Z) (i : Z) (f : JobRow.t -> JobRow.t) (d : Db) :
  (forall r, JobRow.id (f r) = JobRow.id r) ->
  (forall r, JobRow.seen (f r) = JobRow.seen r) ->
  allSeen ids d -> allSeen ids (Api.updateJobs i f d).
Proof.
  intros Hid Hseen.
  apply (allSeen_map ids d _ (fun r => if Z.eqb (JobRow.id r) i then f r else r)).
  - reflexivity.
  - intros r. destruct (Z.eqb _ _); [apply Hid | reflexivity].
  - intros r Hr. destruct (Z.eqb _ _); [now rewrite Hseen | assumption].
Qed.

Lemma insertGroup_jobs (row : SearchGroupRow.t) (s : Server) :
  jobs (database (runner (snd (insertGroup row s)))) = jobs (database (runner s)).
Proof. reflexivity. Qed.

Lemma handle_allSeen (ids : list Z) (s : Server) (r : Api.Request) :
  allSeen ids (database (runner s)) ->
  allSeen ids (database (runner (snd (Api.handle s r)))).
Proof.
  intros H. destruct r as [body | i body | i a | i | i v | i a | i n | env];
    cbn [Api.handle].
  - unfold Api.postGroup. destruct (Z.leb 15 _); [exact H|].
    destruct (Api.parseGroupBody body); [exact H|].
    destruct (insertGroup _ s) as [k s'] eqn:Hins.
    cbn [snd]. replace s' with (snd (insertGroup (Api.rowOf 0 1 g) s)) by now rewrite Hins.
    eapply allSeen_same_jobs; [apply insertGroup_jobs | exact H].
  - unfold Api.putGroup. destruct (parseInt10 i); [|exact H].
    destruct (Api.parseGroupBody body); [exact H|].
    destruct (Api.findGroup _ _); [|exact H].
    cbn [snd]. eapply allSeen_same_jobs; [|exact H]. reflexivity.
  - unfold Api.patchGroup. destruct (parseInt10 i); [|exact H].
    destruct (Api.findGroup _ _); [|exact H].
    match goal with |- context [match ?b with _ => _ end] => destruct b as [[msg | [o c]]|] end;
      cbn [snd]; exact H.
  - unfold Api.deleteGroup. destruct (parseInt10 i); [|exact H].
    destruct (Z.leb _ 1); [exact H|].
    destruct (Api.findGroup _ _); [|exact H].
    destruct (Api.groupReferenced _ _); [exact H|].
    cbn [snd]. eapply allSeen_same_jobs; [|exact H]. reflexivity.
  - unfold Api.patchVerdict. destruct (parseInt10 i); [|exact H].
    destruct (negb _); [exact H|]. destruct (hasJobId _ _); [|exact H].
    cbn [snd]. apply updateJobs_allSeen; [reflexivity.. | exact H].
  - unfold Api.patchApplied. destruct (parseInt10 i); [|exact H].
    destruct (hasJobId _ _); [|exact H].
    cbn [snd]. apply updateJobs_allSeen; [reflexivity.. | exact H].
  - unfold Api.patchNotes. destruct (parseInt10 i); [|exact H].
    destruct (hasJobId _ _); [|exact H].
    cbn [snd]. apply updateJobs_allSeen; [reflexivity.. | exact H].
  - unfold Api.postRun. destruct (isRunning (runner s)); [exact H|].
    cbn [snd runner]. now apply allSeen_runPipeline.
Qed.

Lemma serve_snoc (s : Server) (actions : list Api.Action) (a : Api.Action) :
  Api.serve s (actions ++ [a]) = Api.act (Api.serve s actions) a.
Proof. unfold Api.serve. now rewrite fold_left_app. Qed.

Lemma serve_allSeen (ids : list Z) (actions : list Api.Action) :
  forall s, allSeen ids (database (runner s)) ->
            allSeen ids (database (runner (Api.serve s actions))).
Proof.
  induction actions as [|a actions IH] using rev_ind; intros s H; [exact H|].
  rewrite serve_snoc. specialize (IH s H).
  destruct a as [r | env]; cbn [Api.act].
  - now apply handle_allSeen.
  - cbn [runner]. now apply allSeen_runPipeline.
Qed.

(** X10: no job is mailed twice.  Once a digest has been sent, none of the
    jobs it held is selected for a digest again, whatever requests the
    server handles and whatever runs it makes afterwards: group requests,
    verdict overrides, notes, manual and scheduled runs.  The keys of
    [jobs] stay distinct throughout. *)
Theorem digest_never_repeats (env : Env) (stats : RunStats) (recipientEmail : string)
  (s : Server) (jobCount : nat) (d' : Db) (actions : list Api.Action) :
  List.NoDup (jobIds (database (runner s))) ->
  sendDailyReport env stats recipientEmail (database (runner s))
  = (inr (true, jobCount), d') ->
  let later := database (runner (Api.serve (withDatabase s d') actions)) in
  List.NoDup (jobIds later)
  /\ forall r r',
       In r (unseenStrongMatches (database (runner s))) ->
       In r' (unseenStrongMatches later) ->
       JobRow.id r' <> JobRow.id r.
Proof.
  intros Hnd Hsend later.
  set (d := database (runner s)) in *.
  assert (Hmail : sendMail env (unseenStrongMatches d) stats recipientEmail = MailSent).
  { unfold sendDailyReport in Hsend.
    destruct (sendMail env (unseenStrongMatches d) stats recipientEmail);
      [discriminate | | reflexivity].
    injection Hsend as Hfalse _. discriminate. }
  destruct (sendDailyReport_sent env stats recipientEmail d Hmail) as [_ Hrows].
  rewrite Hsend in Hrows. cbn [snd] in Hrows.
  assert (Hseen : allSeen (map JobRow.id (unseenStrongMatches d)) d').
  { split.
    - unfold jobIds. rewrite Hrows, map_map.
      erewrite map_ext; [exact Hnd|]. intros r. now destruct (existsb _ _).
    - intros i Hi. apply in_map_iff in Hi. destruct Hi as (r & <- & Hr).
      exists (JobRow.markSeen (now env) r). split; [|now split].
      rewrite Hrows. apply in_map_iff. exists r.
      assert (Hrid : existsb (Z.eqb (JobRow.id r))
                       (map JobRow.id (unseenStrongMatches d)) = true)
        by (apply existsb_id_In; now apply in_map).
      rewrite Hrid. split; [reflexivity|]. now apply unseen_In in Hr. }
  assert (Hlater : allSeen (map JobRow.id (unseenStrongMatches d)) later).
  { subst later. apply serve_allSeen. exact Hseen. }
  destruct Hlater as [Hnd' Hall]. split; [exact Hnd'|].
  intros r r' Hr Hr' Heq.
  destruct (Hall (JobRow.id r) (in_map JobRow.id _ _ Hr)) as (x & Hx & Hxi & Hxs).
  apply unseen_In in Hr'. destruct Hr' as (Hin' & Hseen' & _).
  assert (r' = x).
  { apply (NoDup_map_inj JobRow.id (jobs later)); try assumption. congruence. }
  subst x. rewrite Hseen' in Hxs. discriminate.
Qed.

Lemma digest_never_repeats_witness :
  exists d',
    sendDailyReport (exEnv [] (flakyLlm 0 85)) exStats "me@example.org"
      (database (runner exServer)) = (inr (true, 1%nat), d')
    /\ map JobRow.id (unseenStrongMatches (database (runner exServer))) = [1]
    /\ forall r',
         In r' (unseenStrongMatches
                  (database (runner (Api.serve (withDatabase exServer d')
                                       exLaterActions)))) ->
         JobRow.id r' <> 1.
Proof.
  eexists. split; [vm_compute; reflexivity|].
  split; [reflexivity|].
  intros r' Hr'.
  assert (Hnd : List.NoDup (jobIds (database (runner exServer))))
    by (repeat constructor; intros []).
  destruct (digest_never_repeats (exEnv [] (flakyLlm 0 85)) exStats "me@example.org"
              exServer 1 _ exLaterActions Hnd eq_refl) as [_ H].
  apply (H (exStored 1 "p1" "PM" "Good") r'); [left; reflexivity | exact Hr'].
Defined.

(** ** The configuration under the groups API *)

Lemma configured_same (d d' : Db) :
  settings_row d' = settings_row d -> search_groups d' = search_groups d ->
  configured d -> configured d'.
Proof. intros Hs Hg [H1 H2 H3 H4]. constructor; rewrite ?Hs, ?Hg; assumption. Qed.

Lemma configured_runPipeline (env : Env) (trigger : Trigger) (p : Process) :
  configured (database p) -> configured (database (snd (runPipeline env trigger p))).
Proof.
  apply runPipeline_invariant.
  - intros d logs. now apply configured_same.
  - intros d runs seq. now apply configured_same.
  - intros row d d' Hd Hins. apply insertJob_inserted in Hins. destruct Hins as [i ->].
    revert Hd. now apply configured_same.
  - intros d seq. now apply configured_same.
  - intros now ids d. now apply configured_same.
Qed.

Lemma groupOk_rowOf (b : Api.RawGroupBody) (g : Api.GroupBody) (i a : Z) :
  Api.parseGroupBody b = inr g -> groupOk (Api.rowOf i a g).
Proof.
  intros H. apply parseGroupBody_inr in H.
  destruct H as (_ & _ & _ & _ & _ & _ & _ & _ & _ & Hvalid & _).
  unfold validThresholds in Hvalid. unfold groupOk, groupInvariant. cbn.
  repeat split; lia.
Qed.

Lemma groupOk_setActive (a : Z) (g : SearchGroupRow.t) :
  groupOk g -> groupOk (Api.setActive a g).
Proof. intros H. exact H. Qed.

Lemma configured_map (d : Db) (f : SearchGroupRow.t -> SearchGroupRow.t) :
  (forall g, SearchGroupRow.id (f g) = SearchGroupRow.id g) ->
  (forall g, groupOk g -> groupOk (f g)) ->
  configured d -> configured (setGroups d (map f (search_groups d))).
Proof.
  intros Hid Hok [H1 H2 H3 H4]. constructor; cbn [settings_row search_groups setGroups].
  - exact H1.
  - destruct (search_groups d); [congruence | discriminate].
  - rewrite map_map. erewrite map_ext; [exact H3 | exact Hid].
  - apply Forall_map. eapply Forall_impl; [exact H4|]. intros g. apply Hok.
Qed.

Lemma configured_insertGroup (row : SearchGroupRow.t) (s : Server) :
  (forall i, groupOk
     {| SearchGroupRow.id := i;
        SearchGroupRow.group_name := SearchGroupRow.group_name row;
        SearchGroupRow.locations := SearchGroupRow.locations row;
        SearchGroupRow.keywords := SearchGroupRow.keywords row;
        SearchGroupRow.job_type := SearchGroupRow.job_type row;
        SearchGroupRow.work_modes := SearchGroupRow.work_modes row;
        SearchGroupRow.ai_system_prompt := SearchGroupRow.ai_system_prompt row;
        SearchGroupRow.title_filter := SearchGroupRow.title_filter row;
        SearchGroupRow.score_no_match_max := SearchGroupRow.score_no_match_max row;
        SearchGroupRow.score_weak_match_max := SearchGroupRow.score_weak_match_max row;
        SearchGroupRow.score_strong_match_min := SearchGroupRow.score_strong_match_min row;
        SearchGroupRow.is_active := SearchGroupRow.is_active row |}) ->
  settings_row (database (runner s)) <> None ->
  List.NoDup (map SearchGroupRow.id (search_groups (database (runner s)))) ->
  Forall groupOk (search_groups (database (runner s))) ->
  configured (database (runner (snd (insertGroup row s)))).
Proof.
  intros Hrow Hs Hnd Hall. unfold insertGroup.
  cbn [snd runner database setDatabase].
  constructor; cbn [settings_row search_groups setGroups].
  - exact Hs.
  - destruct (search_groups (database (runner s))); discriminate.
  - rewrite map_app. cbn [map SearchGroupRow.id]. apply NoDup_snoc; [exact Hnd|].
    intros Hin. apply (nextId_fresh (search_groups_seq s)) in Hin. lia.
  - apply Forall_app. split; [exact Hall|]. constructor; [apply Hrow | constructor].
Qed.

Lemma filter_keeps_one (gs : list SearchGroupRow.t) (i : Z) :
  List.NoDup (map SearchGroupRow.id gs) -> (1 < length gs)%nat ->
  List.filter (fun g => negb (Z.eqb (SearchGroupRow.id g) i)) gs <> [].
Proof.
  intros Hnd Hlen. destruct gs as [|g1 [|g2 rest]]; cbn [length] in Hlen; try lia.
  cbn [map] in Hnd. apply NoDup_cons_iff in Hnd. destruct Hnd as [Hne _].
  cbn [List.filter].
  destruct (Z.eqb_spec (SearchGroupRow.id g1) i) as [H1 | H1]; cbn [negb]; [|discriminate].
  destruct (Z.eqb_spec (SearchGroupRow.id g2) i) as [H2 | H2]; cbn [negb]; [|discriminate].
  exfalso. apply Hne. left. congruence.
Qed.

Lemma NoDup_map_filter {A B : Type} (f : A -> B) (p : A -> bool) (l : list A) :
  List.NoDup (map f l) -> List.NoDup (map f (List.filter p l)).
Proof.
  induction l as [|a l IH]; intros Hnd; [constructor|].
  cbn [map] in Hnd. apply NoDup_cons_iff in Hnd. destruct Hnd as [Ha Hnd].
  cbn [List.filter]. destruct (p a); [|now apply IH].
  cbn [map]. constructor; [|now apply IH].
  intros Hin. apply Ha. apply in_map_iff in Hin. destruct Hin as (x & Hx & Hin).
  apply filter_In in Hin. apply in_map_iff. exists x. tauto.
Qed.

Lemma handle_configured (s : Server) (r : Api.Request) :
  configured (database (runner s)) ->
  configured (database (runner (snd (Api.handle s r)))).
Proof.
  intros H. destruct r as [body | i body | i a | i | i v | i a | i n | env];
    cbn [Api.handle].
  - unfold Api.postGroup. destruct (Z.leb 15 _); [exact H|].
    destruct (Api.parseGroupBody body) as [e | g] eqn:Hbody; [exact H|].
    destruct (insertGroup _ s) as [k s'] eqn:Hins. cbn [snd].
    replace s' with (snd (insertGroup (Api.rowOf 0 1 g) s)) by now rewrite Hins.
    destruct H as [H1 H2 H3 H4]. apply configured_insertGroup; try assumption.
    intros j. exact (groupOk_rowOf body g j 1 Hbody).
  - unfold Api.putGroup. destruct (parseInt10 i) as [k|]; [|exact H].
    destruct (Api.parseGroupBody body) as [e | g] eqn:Hbody; [exact H|].
    destruct (Api.findGroup _ _); [|exact H].
    cbn [snd runner database withDatabase setDatabase]. unfold Api.updateGroups.
    apply configured_map; [| |exact H].
    + intros x. now destruct (Z.eqb _ _).
    + intros x Hx. destruct (Z.eqb _ _); [|exact Hx].
      exact (groupOk_rowOf body g _ _ Hbody).
  - unfold Api.patchGroup. destruct (parseInt10 i) as [k|]; [|exact H].
    destruct (Api.findGroup _ _); [|exact H].
    match goal with |- context [match ?b with _ => _ end] => destruct b as [[msg | [o c]]|] end;
      cbn [snd]; try exact H.
    cbn [runner database withDatabase setDatabase]. unfold Api.updateGroups.
    apply configured_map; [| |exact H].
    + intros x. now destruct (Z.eqb _ _).
    + intros x Hx. destruct (Z.eqb _ _); [|exact Hx]. now apply groupOk_setActive.
  - unfold Api.deleteGroup. destruct (parseInt10 i) as [k|]; [|exact H].
    destruct (Z.leb_spec (len (search_groups (database (runner s)))) 1) as [Hle | Hgt];
      [exact H|].
    destruct (Api.findGroup _ _); [|exact H].
    destruct (Api.groupReferenced _ _); [exact H|].
    cbn [snd runner database withDatabase setDatabase].
    destruct H as [H1 H2 H3 H4]. constructor; cbn [settings_row search_groups setGroups].
    + exact H1.
    + apply filter_keeps_one; [exact H3|]. unfold len in Hgt. lia.
    + now apply NoDup_map_filter.
    + apply List.Forall_forall. intros g Hg. apply filter_In in Hg.
      rewrite List.Forall_forall in H4. now apply H4.
  - unfold Api.patchVerdict. destruct (parseInt10 i); [|exact H].
    destruct (negb _); [exact H|]. destruct (hasJobId _ _); [|exact H].
    revert H. now apply configured_same.
  - unfold Api.patchApplied. destruct (parseInt10 i); [|exact H].
    destruct (hasJobId _ _); [|exact H]. revert H. now apply configured_same.
  - unfold Api.patchNotes. destruct (parseInt10 i); [|exact H].
    destruct (hasJobId _ _); [|exact H]. revert H. now apply configured_same.
  - unfold Api.postRun. destruct (isRunning (runner s)); [exact H|].
    cbn [snd runner]. now apply configured_runPipeline.
Qed.

Lemma serve_configured (actions : list Api.Action) :
  forall s, configured (database (runner s)) ->
            configured (database (runner (Api.serve s actions))).
Proof.
  induction actions as [|a actions IH] using rev_ind; intros s H; [exact H|].
  rewrite serve_snoc. specialize (IH s H).
  destruct a as [r | env]; cbn [Api.act].
  - now apply handle_configured.
  - cbn [runner]. now apply configured_runPipeline.
Qed.

Lemma seedSettings_settings (a b : string) (s : Server) :
  settings_row (database (runner (seedSettings a b s))) <> None.
Proof.
  unfold seedSettings.
  destruct (settings_row (database (runner s))) eqn:Hs; [now rewrite Hs|].
  destruct (search_groups (database (runner s))); discriminate.
Qed.

(** X11: the configuration that [seedSettings] sets up is kept by the API.
    On the database of a new installation, [seedSettings] leaves the
    settings row with the default prompts, the model gpt-5.2, the
    thresholds 50, 70, 71 and the digest enabled, and exactly one group:
    key 1, active, full time, the default locations and keywords, the three
    work modes, the default prompt and the thresholds 50, 70, 71.  On a
    database that has a settings row it does nothing, so calling it again
    changes nothing.  From then on, whatever group, job and run requests and
    scheduled runs follow, there is a settings row and at least one group,
    the keys of the groups are distinct, every group has thresholds with
    0 <= no_match_max < weak_match_max <= 99 and strong_match_min =
    weak_match_max + 1, and its JSON columns parse; a run therefore never
    stops at its configuration checks: it always creates its run row. *)
Theorem configuration_stays_valid (a b : string) (s : Server)
  (actions : list Api.Action) (env : Env) (trigger : Trigger) :
  configured (database (runner (seedSettings a b freshServer)))
  /\ search_groups (database (runner (seedSettings a b freshServer)))
     = [{| SearchGroupRow.id := 1;
           SearchGroupRow.group_name := "";
           SearchGroupRow.locations := inr DEFAULT_LOCATIONS;
           SearchGroupRow.keywords := inr DEFAULT_KEYWORDS;
           SearchGroupRow.job_type := "fullTime";
           SearchGroupRow.work_modes := inr ["remote"; "hybrid"; "onsite"];
           SearchGroupRow.ai_system_prompt := a;
           SearchGroupRow.title_filter := "";
           SearchGroupRow.score_no_match_max := 50;
           SearchGroupRow.score_weak_match_max := 70;
           SearchGroupRow.score_strong_match_min := 71;
           SearchGroupRow.is_active := 1 |}]
  /\ settings_row (database (runner (seedSettings a b freshServer)))
     = Some {| ai_system_prompt := a;
               ai_model := "gpt-5.2";
               dedup_system_prompt := b;
               summary_prompt := "";
               score_no_match_max := 50;
               score_weak_match_max := 70;
               score_strong_match_min := 71;
               email_recipient := "";
               email_enabled := 1 |}
  /\ seedSettings a b (seedSettings a b s) = seedSettings a b s
  /\ (settings_row (database (runner s)) <> None -> seedSettings a b s = s)
  /\ (configured (database (runner s)) ->
      let s' := Api.serve s actions in
      configured (database (runner s'))
      /\ (forall g, In g (search_groups (database (runner s'))) -> groupInvariant g)
      /\ (forall msg d t,
            tryBlock env trigger (database (runner s')) (llmTrace (runner s'))
            <> Caught msg None d t)).
Proof.
  assert (Hnoop : forall s0, settings_row (database (runner s0)) <> None ->
                             seedSettings a b s0 = s0).
  { intros s0 H0. unfold seedSettings.
    destruct (settings_row (database (runner s0))); [reflexivity | congruence]. }
  split.
  { constructor; cbn.
    - discriminate.
    - discriminate.
    - constructor; [intros [] | constructor].
    - constructor; [|constructor]. unfold groupOk, groupInvariant. cbn.
      repeat split; lia. }
  split; [reflexivity|].
  split; [reflexivity|].
  split; [apply Hnoop, seedSettings_settings|].
  split; [apply Hnoop|].
  intros Hcfg s'. subst s'.
  pose proof (serve_configured actions s Hcfg) as H'.
  split; [exact H'|].
  split.
  { intros g Hg. destruct H' as [_ _ _ Hall]. rewrite List.Forall_forall in Hall.
    now destruct (Hall g Hg). }
  intros msg d t. destruct H' as [Hs Hg _ _]. unfold tryBlock.
  destruct (settings_row _) as [cfg|]; [|congruence].
  destruct (search_groups _) as [|g gs]; [congruence|].
  cbn [insertRunningRun].
  match goal with
  | |- context [runGroups env cfg ?n ?r ?gs0 ?s0] =>
      destruct (runGroups env cfg n r gs0 s0)
  end; discriminate.
Qed.

(** ** The run row and the result *)

Lemma emailStep_runs (env : Env) (settings : SettingsRow) (st : RunState) :
  search_runs (st_db (emailStep env settings st)) = search_runs (st_db st)
  /\ search_runs_seq (st_db (emailStep env settings st)) = search_runs_seq (st_db st)
  /\ st_counts (emailStep env settings st) = st_counts st.
Proof.
  unfold emailStep. destruct (Z.eqb (email_enabled settings) 0); [now repeat split|].
  unfold sendDailyReport.
  destruct (sendMail env _ _ _); cbn; [now repeat split | now repeat split |].
  destruct (unseenStrongMatches (st_db st)); now repeat split.
Qed.

Lemma updateRuns_last (i : Z) (f : SearchRunRow.t -> SearchRunRow.t) (d : Db)
  (old : list SearchRunRow.t) (row : SearchRunRow.t) :
  search_runs d = old ++ [row] ->
  SearchRunRow.id row = i ->
  (forall r, In r old -> SearchRunRow.id r <> i) ->
  search_runs (updateRuns i f d) = old ++ [f row]
  /\ search_runs_seq (updateRuns i f d) = search_runs_seq d.
Proof.
  intros Hruns Hid Hfresh. unfold updateRuns. cbn [search_runs search_runs_seq setRuns].
  split; [|reflexivity].
  rewrite Hruns, map_app, updateRuns_fresh by exact Hfresh.
  cbn [map]. rewrite Hid, Z.eqb_refl. reflexivity.
Qed.

(** X12: the row of a run in [search_runs] shows what the run returned.  A run
    that passes the gate adds exactly one row to [search_runs], under a key
    that no row had before; when the run has ended, whether with success,
    partial_error or failed, that row holds the time, the six counters, the
    status, the error log, the duration and the trigger of the returned
    result, no earlier row has changed, and [getLastRunResult] gives the
    same result. *)
Theorem run_row_agrees_with_result (env : Env) (trigger : Trigger) (p : Process) :
  isRunning p = false ->
  let result := fst (runPipeline env trigger p) in
  let p' := snd (runPipeline env trigger p) in
  let i := nextId (search_runs_seq (database p))
             (map SearchRunRow.id (search_runs (database p))) in
  search_runs (database p') = search_runs (database p) ++ [rowOfResult i result]
  /\ search_runs_seq (database p') = i
  /\ (forall r, In r (search_runs (database p)) -> SearchRunRow.id r < i)
  /\ lastRunResult p' = Some result
  /\ PipelineResult.trigger result = trigger
  /\ PipelineResult.status result <> running.
Proof.
  intros Hidle result p' i.
  assert (Hfresh : forall r, In r (search_runs (database p)) -> SearchRunRow.id r < i).
  { intros r Hr. apply nextId_fresh. now apply in_map. }
  assert (Hne : forall r, In r (search_runs (database p)) -> SearchRunRow.id r <> i).
  { intros r Hr. specialize (Hfresh r Hr). lia. }
  subst result p'. unfold runPipeline. rewrite Hidle. unfold runBody.
  cbn [setRunning database llmTrace isRunning lastRunResult].
  destruct (tryBlock env trigger (database p) (llmTrace p))
    as [res d t | msg runId d t] eqn:Htry.
  - cbn [fst snd setRunning database lastRunResult].
    unfold tryBlock in Htry.
    destruct (settings_row (database p)) as [settings|]; [|discriminate].
    destruct (search_groups (database p)) as [|g gs] eqn:Hg; [discriminate|].
    cbn [insertRunningRun] in Htry. fold i in Htry.
    match type of Htry with
    | context [runGroups env settings ?n ?r ?gs0 ?s0] =>
        pose proof (runGroups_Extends env settings n r gs0 s0) as Hext;
        destruct (runGroups env settings n r gs0 s0) as [st | m st]
    end; [|discriminate].
    cbn [stepState] in Hext. destruct Hext as [_ _ _ Hruns Hseq _ _ _ _].
    cbn [st_db search_runs search_runs_seq setRuns] in Hruns, Hseq.
    destruct (emailStep_runs env settings st) as (Hruns' & Hseq' & _).
    rewrite <- Hruns' in Hruns. rewrite <- Hseq' in Hseq.
    injection Htry as <- <- <-.
    match goal with
    | |- context [updateRuns i ?f ?d0] =>
        destruct (updateRuns_last i f d0 _ _ Hruns eq_refl Hne) as [-> ->]
    end.
    rewrite Hseq. repeat split; try assumption.
    destruct (st_errors (emailStep env settings st)); discriminate.
  - pose proof (tryBlock_caught _ _ _ _ _ _ _ _ Htry) as Hc.
    unfold catchBlock. cbn [fst snd setRunning database lastRunResult].
    destruct runId as [k|].
    + destruct Hc as (-> & Hruns & Hseq). fold i in Hruns, Hseq. fold i.
      match goal with
      | |- context [updateRuns i ?f ?d0] =>
          destruct (updateRuns_last i f d0 _ _ Hruns eq_refl Hne) as [-> ->]
      end.
      rewrite Hseq. repeat split; try assumption. discriminate.
    + destruct Hc as (-> & _). unfold insertFailedRun.
      cbn [search_runs search_runs_seq setRuns]. fold i.
      repeat split; try assumption. discriminate.
Qed.

Lemma run_row_agrees_with_result_witness :
  search_runs (database (snd (runPipeline exMixedEnv scheduled (runner exServer))))
  = [rowOfResult 1 (fst (runPipeline exMixedEnv scheduled (runner exServer)))]
  /\ PipelineResult.jobsFetched
       (fst (runPipeline exMixedEnv scheduled (runner exServer))) = 3
  /\ PipelineResult.status
       (fst (runPipeline exMixedEnv scheduled (runner exServer))) = success.
Proof.
  split.
  - exact (proj1 (run_row_agrees_with_result exMixedEnv scheduled (runner exServer)
                    eq_refl)).
  - split; vm_compute; reflexivity.
Defined.


(** ** The counters of a run and its audit log *)

Lemma len_app {A : Type} (a b : list A) : len (a ++ b) = len a + len b.
Proof. unfold len. rewrite length_app. lia. Qed.

Lemma len_map {A B : Type} (f : A -> B) (l : list A) : len (map f l) = len l.
Proof. unfold len. now rewrite length_map. Qed.

Lemma len_nonneg {A : Type} (l : list A) : 0 <= len l.
Proof. unfold len. lia. Qed.

Lemma countLabel_nonneg (label : string) (logs : list RunJobLogRow.t) :
  0 <= countLabel label logs.
Proof. apply len_nonneg. Qed.

Lemma countLabel_app (label : string) (a b : list RunJobLogRow.t) :
  countLabel label (a ++ b) = countLabel label a + countLabel label b.
Proof. unfold countLabel. now rewrite List.filter_app, len_app. Qed.

Lemma countScored_app (a b : list RunJobLogRow.t) :
  countScored (a ++ b) = countScored a + countScored b.
Proof. unfold countScored. now rewrite List.filter_app, len_app. Qed.

Lemma countLabel_plain (label label' now : string) (runId gid : Z)
  (xs : list JobPosting) :
  countLabel label (map (plainLogRow runId gid label' now) xs)
  = if String.eqb label' label then len xs else 0.
Proof.
  unfold countLabel. induction xs as [|x xs IH]; cbn [map List.filter].
  - now destruct (String.eqb label' label).
  - change (RunJobLogRow.ai_verdict (plainLogRow runId gid label' now x)) with label'.
    destruct (String.eqb label' label); [|exact IH].
    unfold len in *. cbn [length]. lia.
Qed.

Lemma countScored_plain (label now : string) (runId gid : Z) (xs : list JobPosting) :
  countScored (map (plainLogRow runId gid label now) xs) = 0.
Proof.
  unfold countScored. induction xs as [|x xs IH]; [reflexivity|]. exact IH.
Qed.

Lemma countLabel_one (runId gid : Z) (loggedAt label : string) (r : JobResult.t) :
  countLabel label [scoredLogRow runId gid loggedAt r]
  = if String.eqb (if JobResult.isDuplicate r then "DUPLICATE"
                   else verdictName (verdict (JobResult.scored r))) label
    then 1 else 0.
Proof.
  unfold countLabel. cbn [List.filter].
  change (RunJobLogRow.ai_verdict (scoredLogRow runId gid loggedAt r))
    with (if JobResult.isDuplicate r then "DUPLICATE"
          else verdictName (verdict (JobResult.scored r))).
  now destruct (String.eqb _ label).
Qed.

Lemma dedupStep_counts (env : Env) (settings : SettingsRow) (d : Db)
  (vars : DedupVars) (s : ScoredJob) :
  dv_counts (snd (dedupStep env settings d vars s))
  = countResult (JobResult.isDuplicate (fst (dedupStep env settings d vars s)))
      (verdict s) (dv_counts vars).
Proof.
  unfold dedupStep.
  destruct (verdictEqb (verdict s) STRONG_MATCH); [|reflexivity].
  destruct (has (dv_seenStrongInRun vars) (runKeyOf s)); [reflexivity|].
  destruct (selectExistingJobs d (company (job s)) (title (job s))) as [|e es];
    [reflexivity|].
  unfold dedupAndSummarise.
  destruct (callDedupLlm (llm env) _ _) as [msg | [o|]]; cbn; try reflexivity.
  now destruct (is_duplicate_out o).
Qed.

(** What the loop of step 4b adds to the counters: one for every scored
    posting, under the label its log entry gets. *)
Lemma dedupLoop_counts (env : Env) (settings : SettingsRow) (d : Db)
  (runId gid : Z) (loggedAt : string) :
  forall (scoredJobs : list ScoredJob) (vars : DedupVars),
    let results := fst (dedupLoop env settings d vars scoredJobs) in
    let c := dv_counts vars in
    let c' := dv_counts (snd (dedupLoop env settings d vars scoredJobs)) in
    let rows := map (scoredLogRow runId gid loggedAt) results in
    jobsFetched c' = jobsFetched c
    /\ jobsScored c' = jobsScored c
    /\ jobsDuplicate c' = jobsDuplicate c + countLabel "DUPLICATE" rows
    /\ jobsStrongMatch c' = jobsStrongMatch c + countLabel "STRONG_MATCH" rows
    /\ jobsWeakMatch c' = jobsWeakMatch c + countLabel "WEAK_MATCH" rows
    /\ jobsNoMatch c' = jobsNoMatch c + countLabel "NO_MATCH" rows
    /\ countLabel "DUPLICATE" rows + countLabel "STRONG_MATCH" rows
       + countLabel "WEAK_MATCH" rows + countLabel "NO_MATCH" rows
       = len scoredJobs
    /\ countScored rows = len scoredJobs
    /\ len rows = len scoredJobs
    /\ Forall (fun e => RunJobLogRow.run_id e = runId) rows.
Proof.
  induction scoredJobs as [|s rest IH]; intros vars; cbn zeta.
  - unfold countLabel, countScored, len. cbn. repeat split; try lia. constructor.
  - cbn [dedupLoop].
    pose proof (dedupStep_counts env settings d vars s) as Hc.
    destruct (dedupStep_facts env settings d vars s) as (Hs & _).
    destruct (dedupStep env settings d vars s) as [r vars1]. cbn [fst snd] in Hc, Hs.
    specialize (IH vars1). cbn zeta in IH.
    destruct (dedupLoop env settings d vars1 rest) as [rs vars2]. cbn [fst snd] in *.
    destruct IH as (Hf & Hsc & Hd & Hst & Hw & Hn & Hsum & Hscored & Hlen & Hids).
    cbn [map].
    change (scoredLogRow runId gid loggedAt r :: map (scoredLogRow runId gid loggedAt) rs)
      with ([scoredLogRow runId gid loggedAt r]
            ++ map (scoredLogRow runId gid loggedAt) rs).
    rewrite !countLabel_app, countScored_app, len_app.
    assert (Hone : countScored [scoredLogRow runId gid loggedAt r] = 1) by reflexivity.
    rewrite !(countLabel_one runId gid loggedAt), Hone, Hs.
    replace (len (s :: rest)) with (1 + len rest) by (unfold len; cbn [length]; lia).
    replace (len [scoredLogRow runId gid loggedAt r]) with 1 by reflexivity.
    rewrite Hc in Hf, Hsc, Hd, Hst, Hw, Hn. clear Hc.
    split; [|split; [|split; [|split; [|split; [|split; [|split; [|split; [|split]]]]]]]];
      try (constructor; [reflexivity | exact Hids]);
      destruct (JobResult.isDuplicate r), (verdict s);
      unfold countResult, addDuplicate, addStrong, addWeak, addNoMatch in *;
      cbn [jobsFetched jobsScored jobsDuplicate jobsStrongMatch jobsWeakMatch
             jobsNoMatch] in *;
      simpl (String.eqb _ _); cbn iota; lia.
Qed.

Lemma filter_len_split {A : Type} (p : A -> bool) (l : list A) :
  len (List.filter p l) + len (List.filter (fun x => negb (p x)) l) = len l.
Proof. unfold len. rewrite <- (List.filter_length p l). lia. Qed.

Lemma batchDedup_length (l : list JobPosting) :
  forall seen, len (fst (batchDedup seen l)) + len (snd (batchDedup seen l)) = len l.
Proof.
  induction l as [|j rest IH]; intros seen; cbn [batchDedup]; [reflexivity|].
  destruct (has seen (jobId j)).
  - specialize (IH seen). destruct (batchDedup seen rest) as [dupes unique].
    cbn [fst snd] in *. unfold len in *. cbn [length]. lia.
  - specialize (IH (seen ∪ {[ jobId j ]})).
    destruct (batchDedup (seen ∪ {[ jobId j ]}) rest) as [dupes unique].
    cbn [fst snd] in *. unfold len in *. cbn [length]. lia.
Qed.

Lemma filterNewJobs_length (d : Db) (postings : list JobPosting) :
  len (fst (filterNewJobs d postings)) + len (snd (filterNewJobs d postings))
  = len postings.
Proof.
  unfold filterNewJobs. destruct postings as [|p ps]; [reflexivity|].
  cbn [fst snd].
  match goal with
  | |- len (List.filter _ ?l) + len (List.filter ?q ?l) = _ =>
      rewrite <- (filter_len_split q l)
  end.
  lia.
Qed.

Lemma scoreJobs_length (m : Llm) (settings : SettingsRow) :
  forall (postings : list JobPosting) (trace : list LlmCall),
    len (fst (scoreJobs m postings settings trace)) <= len postings.
Proof.
  induction postings as [|j rest IH]; intros trace; cbn [scoreJobs]; [reflexivity|].
  destruct (scoreOne m settings j trace) as [output trace1].
  specialize (IH trace1).
  destruct (scoreJobs m rest settings trace1) as [results trace2].
  destruct output; cbn [fst] in *; unfold len in *; cbn [length]; lia.
Qed.

(** Every fetched posting is filtered by title, blacklisted, a duplicate
    within the run, or left for the provider-level check. *)
Lemma fetched_split (names seen : gset string) (g : SearchGroupRow.t)
  (fetched : list JobPosting) :
  len (titleFilteredOf g fetched) + len (blacklistedOf names g fetched)
  + len (withinRunDupesOf seen (notBlacklistedOf names g fetched))
  + len (survivorsOf seen (notBlacklistedOf names g fetched))
  = len fetched.
Proof.
  unfold titleFilteredOf, blacklistedOf, notBlacklistedOf, withinRunDupesOf, survivorsOf.
  set (pass := List.filter (passesTitleFilter g) fetched).
  set (clean := List.filter (fun j => negb (isBlacklisted names j)) pass).
  rewrite len_app.
  pose proof (filter_len_split (passesTitleFilter g) fetched) as H1. fold pass in H1.
  pose proof (filter_len_split (isBlacklisted names) pass) as H2. fold clean in H2.
  pose proof (batchDedup_length clean ∅) as H3.
  pose proof (filter_len_split (fun j => has seen (jobId j))
                (snd (batchDedup ∅ clean))) as H4.
  cbn beta in H4. lia.
Qed.

Lemma Forall_run_id_plain (runId gid : Z) (label now : string) (xs : list JobPosting) :
  Forall (fun e => RunJobLogRow.run_id e = runId)
    (map (plainLogRow runId gid label now) xs).
Proof. apply Forall_map. apply List.Forall_forall. reflexivity. Qed.

Section Tally.
Variables (env : Env) (settings : SettingsRow) (names : gset string) (runId : Z)
  (base : list RunJobLogRow.t).

Lemma processFetched_tallied (g : SearchGroupRow.t) (st : RunState)
  (fetched : list JobPosting) :
  talliedFrom base runId st ->
  talliedFrom base runId
    (stepState (processFetched env settings names runId g st fetched)).
Proof.
  intros (added & Hbase & Hids & [Td Ts Tw Tn Tsc Tf Tv]).
  destruct (processFetched_outcome env settings names runId g st fetched)
    as (scoredJobs & trace1 & jobResults & vars & d' & Hscore & Hloop & -> & Hlogs & _).
  pose proof (scoreJobs_length (llm env) (scoringSettingsOf settings g)
                (fst (filterNewJobs (st_db st)
                        (survivorsOf (st_seenInRunJobIds st)
                           (notBlacklistedOf names g fetched))))
                (st_trace st)) as Hlen.
  rewrite Hscore in Hlen. cbn [fst] in Hlen.
  match type of Hloop with
  | dedupLoop _ _ _ ?vars0 _ = _ =>
      pose proof (dedupLoop_counts env settings (st_db st) runId
                    (SearchGroupRow.id g) (now env) scoredJobs vars0) as Hcounts
  end.
  cbn zeta in Hcounts. rewrite Hloop in Hcounts. cbn [fst snd dv_counts] in Hcounts.
  destruct Hcounts as (Hf & Hsc & Hd & Hst & Hw & Hn & Hsum & Hscored & Hrows & Hrun).
  pose proof (fetched_split names (st_seenInRunJobIds st) g fetched) as Hsplit.
  pose proof (filterNewJobs_length (st_db st)
                (survivorsOf (st_seenInRunJobIds st)
                   (notBlacklistedOf names g fetched))) as Hnew.
  unfold addScored, addDuplicate, addFetched in Hf, Hsc, Hd, Hst, Hw, Hn.
  cbn [jobsFetched jobsScored jobsDuplicate jobsStrongMatch jobsWeakMatch jobsNoMatch]
    in Hf, Hsc, Hd, Hst, Hw, Hn.
  eexists. cbn [st_db st_counts].
  split; [rewrite Hlogs, Hbase, <- app_assoc; reflexivity|].
  split.
  { repeat (apply Forall_app; split); try apply Forall_run_id_plain; assumption. }
  pose proof (len_nonneg scoredJobs) as Hnn.
  pose proof (countLabel_nonneg "DUPLICATE"
                (map (scoredLogRow runId (SearchGroupRow.id g) (now env)) jobResults))
    as Hdn.
  rewrite len_map in Hrows.
  constructor;
    rewrite ?countLabel_app, ?countScored_app, ?len_app, ?countLabel_plain,
      ?countScored_plain, ?len_map;
    simpl (String.eqb _ _); cbn iota; lia.
Qed.

Lemma processGroup_tallied (st : RunState) (g : SearchGroupRow.t) :
  talliedFrom base runId st ->
  talliedFrom base runId (stepState (processGroup env settings names runId st g)).
Proof.
  intros H. unfold processGroup.
  destruct (Z.eqb (SearchGroupRow.is_active g) 0); [exact H|].
  destruct (parseGroup g); [exact H|].
  destruct (fetchJobs env g); [exact H|].
  now apply processFetched_tallied.
Qed.

Lemma runGroups_tallied (groups : list SearchGroupRow.t) :
  forall st, talliedFrom base runId st ->
             talliedFrom base runId
               (stepState (runGroups env settings names runId groups st)).
Proof.
  induction groups as [|g rest IH]; intros st H; cbn [runGroups]; [exact H|].
  pose proof (processGroup_tallied st g H) as Hg.
  destruct (processGroup env settings names runId st g) as [st' | msg st'];
    cbn [stepState] in Hg; [now apply IH | exact Hg].
Qed.

End Tally.

(** X13: the counters of a run are the counts of its audit log.  A run that
    passes the gate and does not end failed appends entries to
    [run_job_logs], all under the key of its own row in [search_runs], and
    the counters it returns (and writes to that row) count them:
    [jobsDuplicate] the entries labelled DUPLICATE, [jobsStrongMatch],
    [jobsWeakMatch] and [jobsNoMatch] the entries with these labels,
    [jobsScored] the entries that carry a score.  [jobsFetched] is at least
    the number of entries (a posting whose scoring failed twice is fetched
    but not logged), and strong + weak + no match <= scored <= fetched. *)
Theorem run_counters_match_audit_log (env : Env) (trigger : Trigger) (p : Process) :
  isRunning p = false ->
  let result := fst (runPipeline env trigger p) in
  let p' := snd (runPipeline env trigger p) in
  let i := nextId (search_runs_seq (database p))
             (map SearchRunRow.id (search_runs (database p))) in
  PipelineResult.status result <> failed ->
  exists added,
    run_job_logs (database p') = run_job_logs (database p) ++ added
    /\ Forall (fun e => RunJobLogRow.run_id e = i) added
    /\ PipelineResult.jobsDuplicate result = countLabel "DUPLICATE" added
    /\ PipelineResult.jobsStrongMatch result = countLabel "STRONG_MATCH" added
    /\ PipelineResult.jobsWeakMatch result = countLabel "WEAK_MATCH" added
    /\ PipelineResult.jobsNoMatch result = countLabel "NO_MATCH" added
    /\ PipelineResult.jobsScored result = countScored added
    /\ len added <= PipelineResult.jobsFetched result
    /\ PipelineResult.jobsStrongMatch result + PipelineResult.jobsWeakMatch result
       + PipelineResult.jobsNoMatch result
       <= PipelineResult.jobsScored result <= PipelineResult.jobsFetched result.
Proof.
  intros Hidle result p' i. subst result p'.
  unfold runPipeline. rewrite Hidle. unfold runBody.
  cbn [setRunning database llmTrace isRunning lastRunResult].
  unfold tryBlock.
  destruct (settings_row (database p)) as [settings|];
    [|cbn; intros H; now contradiction H].
  destruct (search_groups (database p)) as [|g gs] eqn:Hg;
    [cbn; intros H; now contradiction H|].
  cbn [insertRunningRun]. fold i.
  match goal with
  | |- context [runGroups env settings ?n ?r ?gs0 ?s0] =>
      pose proof (runGroups_tallied env settings n r (run_job_logs (database p))
                    gs0 s0) as Hgroups;
      destruct (runGroups env settings n r gs0 s0) as [st | m st]
  end; [|cbn; intros H; now contradiction H].
  intros _. cbn [stepState] in Hgroups.
  destruct Hgroups as (added & Hlogs & Hids & [Td Ts Tw Tn Tsc Tf Tv]).
  { exists []. cbn [st_db st_counts run_job_logs setRuns].
    split; [now rewrite app_nil_r|]. split; [constructor|].
    constructor; unfold countLabel, countScored, len; cbn; lia. }
  destruct (emailStep_log_and_trace env settings st) as [Hl _].
  destruct (emailStep_runs env settings st) as (_ & _ & Hc).
  exists added. cbn [fst snd setRunning database].
  unfold updateRuns. cbn [run_job_logs setRuns]. rewrite Hl, Hc.
  cbn [mkResult PipelineResult.jobsDuplicate PipelineResult.jobsStrongMatch
         PipelineResult.jobsWeakMatch PipelineResult.jobsNoMatch
         PipelineResult.jobsScored PipelineResult.jobsFetched].
  repeat (split; [assumption|]).
  assert (Hle : countScored added <= len added).
  { unfold countScored, len. pose proof (List.filter_length_le hasScore added). lia. }
  lia.
Qed.

Lemma run_counters_match_audit_log_witness :
  PipelineResult.jobsDuplicate
    (fst (runPipeline exMixedEnv scheduled (runner exServer)))
  = countLabel "DUPLICATE"
      (run_job_logs
         (database (snd (runPipeline exMixedEnv scheduled (runner exServer)))))
  /\ PipelineResult.jobsScored
       (fst (runPipeline exMixedEnv scheduled (runner exServer)))
     = countScored
         (run_job_logs
            (database (snd (runPipeline exMixedEnv scheduled (runner exServer)))))
  /\ PipelineResult.jobsDuplicate
       (fst (runPipeline exMixedEnv scheduled (runner exServer))) = 1
  /\ PipelineResult.jobsFetched
       (fst (runPipeline exMixedEnv scheduled (runner exServer))) = 3.
Proof.
  assert (Hstatus : PipelineResult.status
                      (fst (runPipeline exMixedEnv scheduled (runner exServer)))
                    <> failed) by (vm_compute; discriminate).
  destruct (run_counters_match_audit_log exMixedEnv scheduled (runner exServer)
              eq_refl Hstatus)
    as (added & Hlogs & _ & Hd & _ & _ & _ & Hs & _).
  change (run_job_logs
            (database (snd (runPipeline exMixedEnv scheduled (runner exServer))))
          = added) in Hlogs.
  rewrite Hlogs.
  split; [exact Hd|]. split; [exact Hs|]. split; vm_compute; reflexivity.
Defined.


(** ** Runs that do not fail *)

Lemma hasJobId_app (d d' : Db) (added : list JobRow.t) (i : Z) :
  jobs d' = jobs d ++ added -> hasJobId d i = true -> hasJobId d' i = true.
Proof.
  unfold hasJobId. intros -> H. rewrite existsb_app, H. reflexivity.
Qed.

Lemma referenceOk_app (d d' : Db) (added : list JobRow.t) (row : JobRow.t) :
  jobs d' = jobs d ++ added -> referenceOk d row -> referenceOk d' row.
Proof.
  unfold referenceOk. intros Hj. destruct (JobRow.duplicate_of_job_id row); [|trivial].
  now apply hasJobId_app with (added := added).
Qed.

Lemma insertJobs_references (rows : list JobRow.t) :
  forall d, Forall (referenceOk d) rows -> exists d', insertJobs rows d = inr d'.
Proof.
  induction rows as [|row rows IH]; intros d Hall; cbn [insertJobs]; [now exists d|].
  apply Forall_cons_iff in Hall. destruct Hall as [Hrow Hall].
  destruct (insertJob row d) as [d1 | d1 | msg] eqn:Hins.
  - apply IH. apply insertJob_inserted in Hins. destruct Hins as [i ->].
    eapply Forall_impl; [exact Hall|]. intros r Hr.
    now apply (referenceOk_app d _ [JobRow.withId i row]).
  - apply IH. apply insertJob_ignored in Hins. destruct Hins as [_ ->]. exact Hall.
  - exfalso. unfold insertJob in Hins. unfold referenceOk in Hrow.
    destruct (hasLinkedinId d _); [discriminate|].
    destruct (JobRow.duplicate_of_job_id row); [rewrite Hrow in Hins|]; discriminate.
Qed.

Lemma insertByFetchedAtDesc_In (r x : JobRow.t) (sorted : list JobRow.t) :
  In x (insertByFetchedAtDesc r sorted) -> x = r \/ In x sorted.
Proof.
  induction sorted as [|y rest IH]; cbn [insertByFetchedAtDesc].
  - intros [<- | []]. now left.
  - destruct (String.ltb _ _).
    + intros [<- | H]; [right; now left|].
      destruct (IH H) as [-> | H']; [now left | right; now right].
    + intros [<- | H]; [now left | now right].
Qed.

Lemma orderByFetchedAtDesc_In (x : JobRow.t) (rows : list JobRow.t) :
  In x (orderByFetchedAtDesc rows) -> In x rows.
Proof.
  unfold orderByFetchedAtDesc. induction rows as [|r rows IH]; cbn [fold_right]; [trivial|].
  intros H. apply insertByFetchedAtDesc_In in H.
  destruct H as [-> | H]; [now left | right; now apply IH].
Qed.

Lemma firstn_In {A : Type} (n : nat) (x : A) :
  forall l, In x (firstn n l) -> In x l.
Proof.
  induction n as [|n IH]; intros [|y l]; cbn [firstn]; try (now intros []).
  intros [<- | Hin]; [now left | right; now apply IH].
Qed.

(** The jobs offered to the dedup model are stored jobs. *)
Lemma selectExistingJobs_stored (d : Db) (companyName titleText : string) (i : Z) :
  In i (map ex_id (selectExistingJobs d companyName titleText)) ->
  hasJobId d i = true.
Proof.
  unfold selectExistingJobs. rewrite map_map. cbn [ex_id]. intros H.
  apply in_map_iff in H. destruct H as (r & <- & Hr).
  apply firstn_In, orderByFetchedAtDesc_In, filter_In in Hr. destruct Hr as [Hr _].
  unfold hasJobId. apply existsb_exists. exists r. split; [exact Hr | apply Z.eqb_refl].
Qed.

Lemma dedupStep_reference (env : Env) (settings : SettingsRow) (d : Db)
  (vars : DedupVars) (s : ScoredJob) (gid : Z) (now : string) :
  namesOfferedJobs (llm env) ->
  referenceOk d (scoredJobRow gid now (fst (dedupStep env settings d vars s))).
Proof.
  intros Hllm. unfold referenceOk, dedupStep.
  destruct (verdictEqb (verdict s) STRONG_MATCH); [|exact I].
  destruct (has (dv_seenStrongInRun vars) (runKeyOf s)); [exact I|].
  destruct (selectExistingJobs d (company (job s)) (title (job s))) as [|e es] eqn:Hex;
    [exact I|].
  unfold dedupAndSummarise.
  destruct (callDedupLlm (llm env) _ _) as [msg | [o|]] eqn:Hcall; cbn; try exact I.
  destruct (is_duplicate_out o) eqn:Hdup; cbn; [|exact I].
  specialize (Hllm _ _ _ Hcall Hdup).
  destruct (duplicate_of_id_out o) as [i|]; cbn; [|exact I].
  destruct (Z.eqb_spec i 0) as [Hz | Hnz]; [exact I|].
  destruct Hllm as [Hz | Hin]; [contradiction|].
  cbn [dr_existing buildDedupSummaryUserMessage] in Hin.
  rewrite map_map in Hin. cbn [ex_id] in Hin.
  apply (selectExistingJobs_stored d (company (job s)) (title (job s))).
  rewrite Hex. exact Hin.
Qed.

Lemma dedupLoop_references (env : Env) (settings : SettingsRow) (d : Db)
  (gid : Z) (now : string) :
  namesOfferedJobs (llm env) ->
  forall (scoredJobs : list ScoredJob) (vars : DedupVars),
    Forall (referenceOk d)
      (map (scoredJobRow gid now) (fst (dedupLoop env settings d vars scoredJobs))).
Proof.
  intros Hllm. induction scoredJobs as [|s rest IH]; intros vars; cbn [dedupLoop].
  - constructor.
  - pose proof (dedupStep_reference env settings d vars s gid now Hllm) as Hs.
    destruct (dedupStep env settings d vars s) as [r vars1]. cbn [fst] in Hs.
    specialize (IH vars1).
    destruct (dedupLoop env settings d vars1 rest) as [rs vars2]. cbn [fst] in *.
    cbn [map]. now constructor.
Qed.

Section NoFailure.
Variables (env : Env) (settings : SettingsRow) (names : gset string) (runId : Z).
Hypothesis Hllm : namesOfferedJobs (llm env).

Lemma processFetched_next (g : SearchGroupRow.t) (st : RunState)
  (fetched : list JobPosting) :
  exists st', processFetched env settings names runId g st fetched = Next st'.
Proof.
  unfold processFetched.
  destruct (batchDedup ∅ _) as [batchDupes batchUnique].
  rewrite ?insertJobLogs_eq, ?logs_setLogs, ?setLogs_setLogs.
  rewrite filterNewJobs_setLogs.
  destruct (filterNewJobs (st_db st) _) as [newJobs providerDupes].
  destruct (scoreJobs (llm env) newJobs _ _) as [scoredJobs trace1].
  rewrite ?insertJobLogs_eq, ?logs_setLogs, ?setLogs_setLogs.
  rewrite dedupLoop_db.
  match goal with
  | |- context [dedupLoop env settings (st_db st) ?vars0 scoredJobs] =>
      pose proof (dedupLoop_references env settings (st_db st) (SearchGroupRow.id g)
                    (now env) Hllm scoredJobs vars0) as Hrefs;
      destruct (dedupLoop env settings (st_db st) vars0 scoredJobs)
        as [jobResults vars]
  end.
  cbn [fst] in Hrefs.
  rewrite ?insertJobLogs_eq, ?logs_setLogs, ?setLogs_setLogs.
  match goal with
  | |- context [insertJobs (map (blacklistedJobRow _ _) ?bl) (setLogs _ ?l)] =>
      remember l as logs eqn:Hlogs; remember bl as blacklisted eqn:Hbl
  end.
  assert (Hfk : Forall (fun row => JobRow.duplicate_of_job_id row = None)
                  (map (blacklistedJobRow (SearchGroupRow.id g) (now env)) blacklisted)).
  { apply List.Forall_forall. intros row Hrow. apply in_map_iff in Hrow.
    now destruct Hrow as (j & <- & _). }
  destruct (insertJobs_no_fk _ Hfk (setLogs (st_db st) logs)) as [d1 Hd1].
  rewrite Hd1.
  destruct (insertJobs_inr _ _ _ Hd1) as (_ & _ & _ & _ & _ & _ & added1 & Hj1 & _).
  destruct (insertJobs_references
              (map (scoredJobRow (SearchGroupRow.id g) (now env)) jobResults) d1)
    as [d2 Hd2].
  { eapply Forall_impl; [exact Hrefs|]. intros row Hrow.
    apply (referenceOk_app (st_db st) d1 added1); assumption. }
  rewrite Hd2. eexists. reflexivity.
Qed.

Lemma runGroups_next (groups : list SearchGroupRow.t) :
  Forall groupOk groups ->
  forall st, exists st', runGroups env settings names runId groups st = Next st'.
Proof.
  induction 1 as [|g rest Hg _ IH]; intros st; cbn [runGroups]; [now exists st|].
  unfold processGroup. destruct Hg as (_ & _ & _ & Hparse). rewrite Hparse.
  destruct (Z.eqb (SearchGroupRow.is_active g) 0); [apply IH|].
  destruct (fetchJobs env g) as [msg | fetched]; [apply IH|].
  destruct (processFetched_next g st fetched) as [st' ->]. apply IH.
Qed.

End NoFailure.

(** X14: an uninterrupted run on a valid configuration fails only by a
    dangling duplicate reference.  Take a run during which the server
    handles no request ([runPipeline] is one step of the embedding; in the
    program a group that is deleted while the run awaits makes the next
    insert of the run fail on its foreign key, and such a run is not
    covered).  When the database has a settings row and groups whose JSON
    columns parse, and the dedup model, whenever it calls a posting a
    duplicate, names one of the jobs it was offered (or none), the run does
    not end failed: a fetch error of a group and an exception of the mail
    client are recorded in the error log and give partial_error, and the
    status is success exactly when the error log is empty. *)
Theorem configured_run_does_not_fail (env : Env) (trigger : Trigger) (p : Process) :
  isRunning p = false ->
  configured (database p) ->
  namesOfferedJobs (llm env) ->
  let result := fst (runPipeline env trigger p) in
  PipelineResult.status result <> failed
  /\ (PipelineResult.status result = success
      \/ PipelineResult.status result = partial_error)
  /\ (PipelineResult.status result = success
      <-> PipelineResult.errorLog result = None).
Proof.
  intros Hidle [Hs Hg _ Hall] Hllm result. subst result.
  unfold runPipeline. rewrite Hidle. unfold runBody.
  cbn [setRunning database llmTrace isRunning lastRunResult].
  unfold tryBlock.
  destruct (settings_row (database p)) as [settings|]; [|congruence].
  destruct (search_groups (database p)) as [|g gs] eqn:Hgroups; [congruence|].
  cbn [insertRunningRun].
  match goal with
  | |- context [runGroups env settings ?n ?r ?gs0 ?s0] =>
      destruct (runGroups_next env settings n r Hllm gs0 Hall s0) as [st ->]
  end.
  cbn [fst mkResult PipelineResult.status PipelineResult.errorLog].
  unfold errorLogOf.
  destruct (st_errors (emailStep env settings st)).
  - split; [discriminate|]. split; [now left|]. split; reflexivity.
  - split; [discriminate|]. split; [now right|]. split; discriminate.
Qed.

Lemma configured_run_does_not_fail_witness :
  PipelineResult.status
    (fst (runPipeline (exEnv [exFirstCopy] (firstOfferedLlm 90)) manual
            (runner exServer))) = success
  /\ PipelineResult.jobsDuplicate
       (fst (runPipeline (exEnv [exFirstCopy] (firstOfferedLlm 90)) manual
               (runner exServer))) = 1.
Proof.
  assert (Hcfg : configured (database (runner exServer))).
  { constructor; cbn.
    - discriminate.
    - discriminate.
    - repeat constructor. intros [].
    - repeat constructor; cbn; lia. }
  assert (Hllm : namesOfferedJobs (llm (exEnv [exFirstCopy] (firstOfferedLlm 90)))).
  { intros n req out Hcall _. cbn in Hcall. injection Hcall as <-. cbn.
    destruct (dr_existing req); [exact I | right; left; reflexivity]. }
  destruct (configured_run_does_not_fail (exEnv [exFirstCopy] (firstOfferedLlm 90))
              manual (runner exServer) eq_refl Hcfg Hllm) as (_ & _ & Hiff).
  split; [apply Hiff; vm_compute; reflexivity | vm_compute; reflexivity].
Defined.

(** ** The sizes of the requests to the model *)

Lemma boundedFrom_refl (t : list LlmCall) : boundedFrom t t.
Proof. exists []. split; [now rewrite app_nil_r | constructor]. Qed.

Lemma boundedFrom_trans (a b c : list LlmCall) :
  boundedFrom a b -> boundedFrom b c -> boundedFrom a c.
Proof.
  intros (x & -> & Hx) (y & -> & Hy). exists (x ++ y).
  split; [now rewrite app_assoc | now apply Forall_app].
Qed.

Lemma boundedFrom_snoc (t : list LlmCall) (c : LlmCall) :
  boundedCall c -> boundedFrom t (t ++ [c]).
Proof. intros H. exists [c]. split; [reflexivity | now repeat constructor]. Qed.

Lemma scoring_request_bounded (systemPrompt model summaryPrompt : string)
  (j : JobPosting) :
  boundedCall (Call1 (buildScoringUserMessage systemPrompt model j summaryPrompt)).
Proof.
  unfold boundedCall, buildScoringUserMessage. cbn [sr_description].
  apply take_length_le.
Qed.

Lemma scoreOne_bounded (m : Llm) (settings : SettingsRow) (j : JobPosting)
  (trace : list LlmCall) :
  boundedFrom trace (snd (scoreOne m settings j trace)).
Proof.
  unfold scoreOne.
  destruct (callScoringLlm m (length trace) _) as [msg | v]; cbn [snd].
  - destruct (callScoringLlm m _ _) as [msg' | v']; cbn [snd];
      (eapply boundedFrom_trans; apply boundedFrom_snoc; apply scoring_request_bounded).
  - apply boundedFrom_snoc, scoring_request_bounded.
Qed.

Lemma scoreJobs_bounded (m : Llm) (settings : SettingsRow) :
  forall (postings : list JobPosting) (trace : list LlmCall),
    boundedFrom trace (snd (scoreJobs m postings settings trace)).
Proof.
  induction postings as [|j rest IH]; intros trace; cbn [scoreJobs].
  - apply boundedFrom_refl.
  - pose proof (scoreOne_bounded m settings j trace) as H1.
    destruct (scoreOne m settings j trace) as [output trace1]. cbn [snd] in H1.
    specialize (IH trace1).
    destruct (scoreJobs m rest settings trace1) as [results trace2]. cbn [snd] in IH.
    destruct output; cbn [snd]; now apply boundedFrom_trans with trace1.
Qed.

Lemma selectExistingJobs_length (d : Db) (companyName titleText : string) :
  (length (selectExistingJobs d companyName titleText) <= 5)%nat.
Proof.
  unfold selectExistingJobs. rewrite length_map. apply List.firstn_le_length.
Qed.

Lemma dedup_request_bounded (dedupPrompt model : string) (s : ScoredJob)
  (existingJobs : list ExistingJob) :
  existingJobs <> [] -> (length existingJobs <= 5)%nat ->
  boundedCall (Call2 (buildDedupSummaryUserMessage dedupPrompt model s existingJobs)).
Proof.
  intros Hne Hlen. unfold boundedCall, buildDedupSummaryUserMessage.
  cbn [dr_existing dr_description]. rewrite length_map.
  split; [|split].
  - destruct existingJobs; [congruence | cbn [length] in *; lia].
  - destruct existingJobs; [congruence | apply take_length_le].
  - apply Forall_map. apply List.Forall_forall. intros e _.
    cbn [ex_description]. apply take_length_le.
Qed.

Lemma dedupStep_bounded (env : Env) (settings : SettingsRow) (d : Db)
  (vars : DedupVars) (s : ScoredJob) :
  boundedFrom (dv_trace vars) (dv_trace (snd (dedupStep env settings d vars s))).
Proof.
  unfold dedupStep.
  destruct (verdictEqb (verdict s) STRONG_MATCH); [|apply boundedFrom_refl].
  destruct (has (dv_seenStrongInRun vars) (runKeyOf s)); [apply boundedFrom_refl|].
  pose proof (selectExistingJobs_length d (company (job s)) (title (job s))) as Hlen.
  destruct (selectExistingJobs d (company (job s)) (title (job s))) as [|e es];
    [apply boundedFrom_refl|].
  assert (Hcall : boundedFrom (dv_trace vars)
            (snd (dedupAndSummarise (llm env) s (e :: es) settings (dv_trace vars)))).
  { unfold dedupAndSummarise.
    destruct (callDedupLlm (llm env) _ _) as [msg | [o|]]; cbn [snd];
      apply boundedFrom_snoc, dedup_request_bounded; (discriminate || exact Hlen). }
  destruct (dedupAndSummarise (llm env) s (e :: es) settings (dv_trace vars))
    as [dedup trace'].
  cbn [snd] in Hcall. now destruct (isDuplicate dedup).
Qed.

Lemma dedupLoop_bounded (env : Env) (settings : SettingsRow) (d : Db) :
  forall (scoredJobs : list ScoredJob) (vars : DedupVars),
    boundedFrom (dv_trace vars)
      (dv_trace (snd (dedupLoop env settings d vars scoredJobs))).
Proof.
  induction scoredJobs as [|s rest IH]; intros vars; cbn [dedupLoop].
  - apply boundedFrom_refl.
  - pose proof (dedupStep_bounded env settings d vars s) as H1.
    destruct (dedupStep env settings d vars s) as [r vars1]. cbn [snd] in H1.
    specialize (IH vars1).
    destruct (dedupLoop env settings d vars1 rest) as [rs vars2]. cbn [snd] in *.
    now apply boundedFrom_trans with (dv_trace vars1).
Qed.

Lemma runGroups_bounded (env : Env) (settings : SettingsRow) (names : gset string)
  (runId : Z) (groups : list SearchGroupRow.t) :
  forall st, boundedFrom (st_trace st)
               (st_trace (stepState (runGroups env settings names runId groups st))).
Proof.
  induction groups as [|g rest IH]; intros st; cbn [runGroups].
  - apply boundedFrom_refl.
  - assert (Hg : boundedFrom (st_trace st)
                   (st_trace (stepState (processGroup env settings names runId st g)))).
    { unfold processGroup.
      destruct (Z.eqb (SearchGroupRow.is_active g) 0); [apply boundedFrom_refl|].
      destruct (parseGroup g); [apply boundedFrom_refl|].
      destruct (fetchJobs env g) as [msg | fetched]; [apply boundedFrom_refl|].
      destruct (processFetched_outcome env settings names runId g st fetched)
        as (scoredJobs & trace1 & jobResults & vars & d' & Hscore & Hloop & -> & _).
      cbn [st_trace].
      pose proof (scoreJobs_bounded (llm env) (scoringSettingsOf settings g)
                    (fst (filterNewJobs (st_db st)
                            (survivorsOf (st_seenInRunJobIds st)
                               (notBlacklistedOf names g fetched))))
                    (st_trace st)) as H1.
      rewrite Hscore in H1. cbn [snd] in H1.
      match type of Hloop with
      | dedupLoop _ _ _ ?vars0 _ = _ =>
          pose proof (dedupLoop_bounded env settings (st_db st) scoredJobs vars0) as H2
      end.
      rewrite Hloop in H2. cbn [snd dv_trace] in H2.
      now apply boundedFrom_trans with trace1. }
    destruct (processGroup env settings names runId st g) as [st' | msg st'];
      cbn [stepState] in *; [|exact Hg].
    eapply boundedFrom_trans; [exact Hg | apply IH].
Qed.

(** X15: the size of what a run sends to the model.  The requests a run makes
    are appended to the trace, and each is within fixed limits: a scoring
    request (Call 1) carries at most 8000 characters of description; a
    dedup request (Call 2) carries between one and five existing jobs, at
    most 1500 characters of each of their descriptions, and at most 5000
    characters of the new description (the 7000 character limit of
    [buildDedupSummaryUserMessage] for an empty list is never used by the
    pipeline, which makes no request then). *)
Theorem run_requests_are_bounded (env : Env) (trigger : Trigger) (p : Process) :
  exists calls,
    llmTrace (snd (runPipeline env trigger p)) = llmTrace p ++ calls
    /\ Forall boundedCall calls.
Proof.
  change (boundedFrom (llmTrace p) (llmTrace (snd (runPipeline env trigger p)))).
  unfold runPipeline. destruct (isRunning p) eqn:Hidle; [apply boundedFrom_refl|].
  unfold runBody. cbn [setRunning database llmTrace isRunning lastRunResult].
  unfold tryBlock.
  destruct (settings_row (database p)) as [settings|]; [|apply boundedFrom_refl].
  destruct (search_groups (database p)) as [|g gs]; [apply boundedFrom_refl|].
  cbn [insertRunningRun].
  match goal with
  | |- context [runGroups env settings ?n ?r ?gs0 ?s0] =>
      pose proof (runGroups_bounded env settings n r gs0 s0) as H;
      destruct (runGroups env settings n r gs0 s0) as [st | m st]
  end; cbn [stepState st_trace] in H.
  - destruct (emailStep_log_and_trace env settings st) as [_ Ht].
    cbn [snd setRunning llmTrace]. now rewrite Ht.
  - cbn [catchBlock snd setRunning llmTrace]. exact H.
Qed.

(** ** What [scoreJobs] returns *)

Lemma scoreJobs_sublist (m : Llm) (settings : SettingsRow) :
  forall (postings : list JobPosting) (trace : list LlmCall),
    sublist (map job (fst (scoreJobs m postings settings trace))) postings.
Proof.
  induction postings as [|j rest IH]; intros trace; cbn [scoreJobs].
  - constructor.
  - destruct (scoreOne m settings j trace) as [output trace1].
    specialize (IH trace1).
    destruct (scoreJobs m rest settings trace1) as [results trace2].
    cbn [fst] in IH. destruct output; cbn [fst map].
    + change (job (toScoredJob j settings s)) with j. now constructor.
    + now constructor.
Qed.

Lemma scoreJobs_all (m : Llm) (settings : SettingsRow) :
  (forall n req, exists o, callScoringLlm m n req = Returns (Some o)) ->
  forall (postings : list JobPosting) (trace : list LlmCall),
    map job (fst (scoreJobs m postings settings trace)) = postings.
Proof.
  intros Hm. induction postings as [|j rest IH]; intros trace; cbn [scoreJobs];
    [reflexivity|].
  unfold scoreOne.
  destruct (Hm (length trace)
              (buildScoringUserMessage (ai_system_prompt settings) (ai_model settings)
                 j (summary_prompt settings))) as [o ->].
  specialize (IH (trace ++ [Call1 (buildScoringUserMessage (ai_system_prompt settings)
                                     (ai_model settings) j (summary_prompt settings))])).
  destruct (scoreJobs m rest settings _) as [results trace2].
  cbn [fst map] in *. now rewrite IH.
Qed.

(** X16: what [scoreJobs] returns.  The scored jobs are postings of the input,
    in the order of the input and each at most once per occurrence; each
    carries the posting as it was passed in (also after a retry on a
    truncated description).  The rationale is cut to 600 characters; a
    rejection category is kept only for a NO_MATCH and is never "NONE"; a
    summary is kept only for a STRONG_MATCH and is then trimmed and not
    empty.  When the model answers every request, every posting is scored. *)
Theorem scoreJobs_keeps_order_and_bounds (m : Llm) (settings : SettingsRow)
  (postings : list JobPosting) (trace : list LlmCall) :
  let results := fst (scoreJobs m postings settings trace) in
  sublist (map job results) postings
  /\ Forall (fun r =>
       (String.length (rationale r) <= 600)%nat
       /\ (forall c, rejectionCategory r = Some c ->
             verdict r = NO_MATCH /\ c <> "NONE")
       /\ (forall t, summary r = Some t ->
             verdict r = STRONG_MATCH /\ t <> "" /\ trim t = t)) results
  /\ ((forall n req, exists o, callScoringLlm m n req = Returns (Some o)) ->
      map job results = postings).
Proof.
  intros results. subst results.
  split; [apply scoreJobs_sublist|].
  split; [|intros Hm; now apply scoreJobs_all].
  apply List.Forall_forall. intros r Hr.
  apply scoreJobs_results in Hr. destruct Hr as (j & o & _ & ->).
  unfold toScoredJob. cbn [rationale rejectionCategory summary verdict].
  split; [apply take_length_le|]. split.
  - intros c Hc.
    destruct (computeVerdict (clampScore (llm_score o)) settings);
      cbn [verdictEqb andb] in Hc; try discriminate.
    destruct (String.eqb_spec (llm_rejection_category o) "NONE") as [Heq | Hne];
      cbn [negb] in Hc; [discriminate|].
    injection Hc as <-. now split.
  - intros t Ht.
    destruct (computeVerdict (clampScore (llm_score o)) settings);
      cbn [verdictEqb] in Ht; try discriminate.
    unfold orNull in Ht.
    destruct (truthy _) eqn:Htruthy; [|discriminate].
    injection Ht as <-. split; [reflexivity|].
    split; [now apply truthy_true | apply trim_idem].
Qed.

(** ** No posting is scored twice *)

Lemma sublist_map {A B : Type} (f : A -> B) (l1 l2 : list A) :
  sublist l1 l2 -> sublist (map f l1) (map f l2).
Proof. induction 1; cbn [map]; now constructor. Qed.

Lemma sublist_List_filter {A : Type} (p : A -> bool) (l : list A) :
  sublist (List.filter p l) l.
Proof.
  induction l as [|x l IH]; cbn [List.filter]; [constructor|].
  destruct (p x); now constructor.
Qed.

Lemma sublist_ListNoDup {A : Type} (l1 l2 : list A) :
  sublist l1 l2 -> List.NoDup l2 -> List.NoDup l1.
Proof.
  intros Hsub Hnd. apply NoDup_ListNoDup. eapply sublist_NoDup; [|exact Hsub].
  now apply NoDup_ListNoDup.
Qed.

Lemma sublist_In {A : Type} (l1 l2 : list A) (x : A) :
  sublist l1 l2 -> In x l1 -> In x l2.
Proof.
  induction 1 as [|y l1 l2 _ IH|y l1 l2 _ IH]; cbn [In]; [trivial| |].
  - intros [-> | H]; [now left | right; now apply IH].
  - intros H. right. now apply IH.
Qed.

Lemma batchDedup_unique (l : list JobPosting) :
  forall seen,
    List.NoDup (map jobId (snd (batchDedup seen l)))
    /\ forall j, In j (snd (batchDedup seen l)) -> jobId j ∉ seen.
Proof.
  induction l as [|x rest IH]; intros seen; cbn [batchDedup].
  - split; [constructor | intros j []].
  - destruct (has seen (jobId x)) eqn:Hx.
    + specialize (IH seen). destruct (batchDedup seen rest) as [dupes unique].
      exact IH.
    + specialize (IH (seen ∪ {[ jobId x ]})).
      destruct (batchDedup (seen ∪ {[ jobId x ]}) rest) as [dupes unique].
      cbn [snd] in *. destruct IH as [Hnd Hnot].
      assert (Hxs : jobId x ∉ seen).
      { intros Hin. apply has_true in Hin. congruence. }
      split.
      * cbn [map]. constructor; [|exact Hnd].
        intros Hin. apply in_map_iff in Hin. destruct Hin as (j & Hj & Hin).
        apply (Hnot j Hin). rewrite Hj. set_solver.
      * intros j [<- | Hin]; [exact Hxs|].
        specialize (Hnot j Hin). set_solver.
Qed.

Lemma filterNewJobs_sublist (d : Db) (postings : list JobPosting) :
  sublist (fst (filterNewJobs d postings)) postings.
Proof.
  unfold filterNewJobs. destruct postings as [|p ps]; [constructor|].
  cbn [fst]. apply sublist_List_filter.
Qed.

Lemma filterNewJobs_fresh (d : Db) (postings : list JobPosting) (j : JobPosting) :
  In j (fst (filterNewJobs d postings)) -> hasLinkedinId d (jobId j) = false.
Proof.
  unfold filterNewJobs. destruct postings as [|p ps]; [intros []|].
  cbn [fst]. intros Hin. apply filter_In in Hin. destruct Hin as [Hin Hnot].
  destruct (hasLinkedinId d (jobId j)) eqn:Hhas; [|reflexivity].
  apply hasLinkedinId_true in Hhas. destruct Hhas as (row & Hrow & Hid).
  assert (Hex : has (list_to_set
                       (map JobRow.linkedin_job_id
                          (List.filter
                             (fun r => has (list_to_set (map jobId (p :: ps)))
                                         (JobRow.linkedin_job_id r))
                             (jobs d))))
                  (jobId j) = true).
  { apply has_list_to_set. apply in_map_iff. exists row. split; [exact Hid|].
    apply filter_In. split; [exact Hrow|].
    apply has_list_to_set. rewrite Hid. now apply in_map. }
  rewrite Hex in Hnot. discriminate.
Qed.

Lemma addJobIds_spec (l : list JobPosting) :
  forall (seen : gset string) (x : string),
    x ∈ addJobIds seen l <-> x ∈ seen \/ In x (map jobId l).
Proof.
  unfold addJobIds. induction l as [|j rest IH]; intros seen x; cbn [fold_left map In].
  - tauto.
  - rewrite IH. rewrite elem_of_union, elem_of_singleton. intuition congruence.
Qed.

Lemma scoredIds_app (a b : list RunJobLogRow.t) :
  scoredIds (a ++ b) = scoredIds a ++ scoredIds b.
Proof. unfold scoredIds. now rewrite List.filter_app, map_app. Qed.

Lemma scoredIds_plain (runId gid : Z) (label now : string) (xs : list JobPosting) :
  scoredIds (map (plainLogRow runId gid label now) xs) = [].
Proof. unfold scoredIds. induction xs as [|x xs IH]; [reflexivity | exact IH]. Qed.

Lemma scoredIds_scored (runId gid : Z) (now : string) (rs : list JobResult.t) :
  scoredIds (map (scoredLogRow runId gid now) rs)
  = map jobId (map job (map JobResult.scored rs)).
Proof.
  unfold scoredIds. induction rs as [|r rs IH]; [reflexivity|].
  cbn [map List.filter].
  change (hasScore (scoredLogRow runId gid now r)) with true.
  cbn [map]. now rewrite IH.
Qed.

Section ScoredOnce.
Variables (env : Env) (settings : SettingsRow) (names : gset string) (runId : Z)
  (d0 : Db) (base : list RunJobLogRow.t).

Lemma processFetched_scoredOnce (g : SearchGroupRow.t) (st : RunState)
  (fetched : list JobPosting) :
  scoredOnce d0 base st ->
  scoredOnce d0 base
    (stepState (processFetched env settings names runId g st fetched)).
Proof.
  intros (added & Hbase & Hnd & Hseen & Hmono).
  destruct (processFetched_outcome env settings names runId g st fetched)
    as (scoredJobs & trace1 & jobResults & vars & d' & Hscore & Hloop & -> & Hlogs
        & _ & _ & _ & _ & _ & (addedJobs & Hjobs & _) & _).
  set (survivors := survivorsOf (st_seenInRunJobIds st)
                      (notBlacklistedOf names g fetched)) in *.
  set (newJobs := fst (filterNewJobs (st_db st) survivors)) in *.
  pose proof (scoreJobs_sublist (llm env) (scoringSettingsOf settings g) newJobs
                (st_trace st)) as Hsub.
  rewrite Hscore in Hsub. cbn [fst] in Hsub.
  match type of Hloop with
  | dedupLoop _ _ _ ?vars0 _ = _ =>
      destruct (dedupLoop_facts env settings (st_db st) scoredJobs vars0)
        as (Hmap & _)
  end.
  rewrite Hloop in Hmap. cbn [fst] in Hmap.
  set (ids := map jobId (map job scoredJobs)).
  assert (Hids : sublist ids (map jobId survivors)).
  { apply sublist_map. etransitivity; [exact Hsub|]. apply filterNewJobs_sublist. }
  destruct (batchDedup_unique (notBlacklistedOf names g fetched) ∅) as [Hunique _].
  assert (Hnd' : List.NoDup ids).
  { apply (sublist_ListNoDup _ _ Hids).
    apply (sublist_ListNoDup _ (map jobId (snd (batchDedup ∅
                                                (notBlacklistedOf names g fetched)))));
      [|exact Hunique].
    apply sublist_map. unfold survivors, survivorsOf. apply sublist_List_filter. }
  assert (Hnew : forall i, In i ids ->
            (i ∉ st_seenInRunJobIds st)
            /\ In i (map jobId survivors)
            /\ hasLinkedinId (st_db st) i = false).
  { intros i Hi. split; [|split].
    - apply (sublist_In _ _ _ Hids) in Hi. apply in_map_iff in Hi.
      destruct Hi as (j & <- & Hj). unfold survivors, survivorsOf in Hj.
      apply filter_In in Hj. destruct Hj as [_ Hj].
      intros Hin. apply has_true in Hin. rewrite Hin in Hj. discriminate.
    - now apply (sublist_In _ _ _ Hids).
    - unfold ids in Hi. apply in_map_iff in Hi. destruct Hi as (j & <- & Hj).
      apply (filterNewJobs_fresh (st_db st) survivors).
      now apply (sublist_In _ _ _ Hsub). }
  exists (added
          ++ map (plainLogRow runId (SearchGroupRow.id g) "FILTERED" (now env))
               (titleFilteredOf g fetched)
          ++ map (plainLogRow runId (SearchGroupRow.id g) "DUPLICATE" (now env))
               (withinRunDupesOf (st_seenInRunJobIds st)
                  (notBlacklistedOf names g fetched))
          ++ map (plainLogRow runId (SearchGroupRow.id g) "DUPLICATE" (now env))
               (snd (filterNewJobs (st_db st) survivors))
          ++ map (plainLogRow runId (SearchGroupRow.id g) "BLACKLISTED" (now env))
               (blacklistedOf names g fetched)
          ++ map (scoredLogRow runId (SearchGroupRow.id g) (now env)) jobResults).
  cbn [st_db st_seenInRunJobIds].
  rewrite !scoredIds_app, !scoredIds_plain, scoredIds_scored, Hmap. cbn [app].
  fold ids.
  split; [rewrite Hlogs, Hbase, <- app_assoc; reflexivity|].
  split; [|split].
  - apply List.NoDup_app; [exact Hnd | exact Hnd' |].
    intros i Hi Hi'. destruct (Hseen i Hi) as [Hin _].
    destruct (Hnew i Hi') as [Hnot _]. contradiction.
  - intros i Hi. apply in_app_or in Hi. destruct Hi as [Hi | Hi].
    + destruct (Hseen i Hi) as [Hin Hfresh]. split; [|exact Hfresh].
      apply addJobIds_spec. now left.
    + destruct (Hnew i Hi) as (_ & Hin & Hfresh). split.
      * apply addJobIds_spec. now right.
      * destruct (hasLinkedinId d0 i) eqn:H0; [|reflexivity].
        apply Hmono in H0. congruence.
  - intros i Hi. apply Hmono in Hi. apply hasLinkedinId_true in Hi.
    destruct Hi as (row & Hrow & Hid). apply hasLinkedinId_true. exists row.
    split; [|exact Hid]. rewrite Hjobs. apply in_or_app. now left.
Qed.

Lemma runGroups_scoredOnce (groups : list SearchGroupRow.t) :
  forall st, scoredOnce d0 base st ->
             scoredOnce d0 base
               (stepState (runGroups env settings names runId groups st)).
Proof.
  induction groups as [|g rest IH]; intros st H; cbn [runGroups]; [exact H|].
  assert (Hg : scoredOnce d0 base
                 (stepState (processGroup env settings names runId st g))).
  { unfold processGroup.
    destruct (Z.eqb (SearchGroupRow.is_active g) 0); [exact H|].
    destruct (parseGroup g); [exact H|].
    destruct (fetchJobs env g); [exact H|].
    now apply processFetched_scoredOnce. }
  destruct (processGroup env settings names runId st g) as [st' | msg st'];
    cbn [stepState] in Hg; [now apply IH | exact Hg].
Qed.

End ScoredOnce.

(** X17: no posting is scored twice.  Among the entries that a run appends to
    the audit log, those that carry a score have pairwise different LinkedIn
    identifiers, also across the groups of the run, and none of them has an
    identifier that [jobs] held when the run started: the run pays for at
    most one scoring of a posting, and for none of a posting it knows. *)
Theorem postings_are_scored_once (env : Env) (trigger : Trigger) (p : Process) :
  exists added,
    run_job_logs (database (snd (runPipeline env trigger p)))
    = run_job_logs (database p) ++ added
    /\ List.NoDup (scoredIds added)
    /\ forall i, In i (scoredIds added) -> hasLinkedinId (database p) i = false.
Proof.
  assert (Hnone : exists added,
            run_job_logs (database p) = run_job_logs (database p) ++ added
            /\ List.NoDup (scoredIds added)
            /\ forall i, In i (scoredIds added) ->
                         hasLinkedinId (database p) i = false).
  { exists []. split; [now rewrite app_nil_r|]. split; [constructor | intros i []]. }
  unfold runPipeline. destruct (isRunning p) eqn:Hidle; [exact Hnone|].
  unfold runBody. cbn [setRunning database llmTrace isRunning lastRunResult].
  unfold tryBlock.
  destruct (settings_row (database p)) as [settings|];
    [|unfold catchBlock, insertFailedRun; cbn; exact Hnone].
  destruct (search_groups (database p)) as [|g gs];
    [unfold catchBlock, insertFailedRun; cbn; exact Hnone|].
  cbn [insertRunningRun].
  match goal with
  | |- context [runGroups env settings ?n ?r ?gs0 ?s0] =>
      pose proof (runGroups_scoredOnce env settings n r (database p)
                    (run_job_logs (database p)) gs0 s0) as H;
      destruct (runGroups env settings n r gs0 s0) as [st | m st]
  end; cbn [stepState] in H.
  - destruct H as (added & Hlogs & Hnd & Hseen & _).
    { exists []. cbn [st_db run_job_logs setRuns]. split; [now rewrite app_nil_r|].
      split; [constructor|]. split; [intros i []|].
      intros i Hi. exact Hi. }
    destruct (emailStep_log_and_trace env settings st) as [Hl _].
    exists added. cbn [snd setRunning database]. unfold updateRuns.
    cbn [run_job_logs setRuns]. rewrite Hl.
    split; [exact Hlogs|]. split; [exact Hnd|]. intros i Hi. now destruct (Hseen i Hi).
  - destruct H as (added & Hlogs & Hnd & Hseen & _).
    { exists []. cbn [st_db run_job_logs setRuns]. split; [now rewrite app_nil_r|].
      split; [constructor|]. split; [intros i []|].
      intros i Hi. exact Hi. }
    exists added. cbn [catchBlock snd setRunning database]. unfold updateRuns.
    cbn [run_job_logs setRuns].
    split; [exact Hlogs|]. split; [exact Hnd|]. intros i Hi. now destruct (Hseen i Hi).
Qed.

(** ** Refused requests and the limit of fifteen groups *)

(** X18: a refused request changes nothing.  Whatever a request to the group,
    job and run routes of the API asks for, when the response reports an
    error (status 400, 404, 409 or 500) the database and the state of the
    runner are exactly as before; a response without an error has status
    200 or 201. *)
Theorem refused_requests_change_nothing (s : Server) (r : Api.Request) :
  let resp := fst (Api.handle s r) in
  let s' := snd (Api.handle s r) in
  (Api.error resp <> None ->
     s' = s
     /\ (Api.status resp = 400 \/ Api.status resp = 404
         \/ Api.status resp = 409 \/ Api.status resp = 500))
  /\ (Api.error resp = None -> Api.status resp = 200 \/ Api.status resp = 201).
Proof.
  destruct r as [body | i body | i a | i | i v | i a | i n | env]; cbn [Api.handle].
  - unfold Api.postGroup. destruct (Z.leb 15 _); [cbn; intuition congruence|].
    destruct (Api.parseGroupBody body); [cbn; intuition congruence|].
    destruct (insertGroup _ s). cbn. intuition congruence.
  - unfold Api.putGroup.
    destruct (parseInt10 i); [|cbn; intuition congruence].
    destruct (Api.parseGroupBody body); [cbn; intuition congruence|].
    destruct (Api.findGroup _ _); cbn; intuition congruence.
  - unfold Api.patchGroup.
    destruct (parseInt10 i); [|cbn; intuition congruence].
    destruct (Api.findGroup _ _); [|cbn; intuition congruence].
    match goal with |- context [match ?b with _ => _ end] =>
      destruct b as [[msg | [o c]]|] end; cbn; intuition congruence.
  - unfold Api.deleteGroup.
    destruct (parseInt10 i); [|cbn; intuition congruence].
    destruct (Z.leb _ 1); [cbn; intuition congruence|].
    destruct (Api.findGroup _ _); [|cbn; intuition congruence].
    destruct (Api.groupReferenced _ _); cbn; intuition congruence.
  - unfold Api.patchVerdict.
    destruct (parseInt10 i); [|cbn; intuition congruence].
    destruct (negb _); [cbn; intuition congruence|].
    destruct (hasJobId _ _); cbn [fst snd Api.ok Api.refuse Api.error Api.status];
      intuition congruence.
  - unfold Api.patchApplied.
    destruct (parseInt10 i); [|cbn; intuition congruence].
    destruct (hasJobId _ _); cbn [fst snd Api.ok Api.refuse Api.error Api.status];
      intuition congruence.
  - unfold Api.patchNotes.
    destruct (parseInt10 i); [|cbn; intuition congruence].
    destruct (hasJobId _ _); cbn [fst snd Api.ok Api.refuse Api.error Api.status];
      intuition congruence.
  - unfold Api.postRun.
    destruct (isRunning (runner s)); cbn [fst snd Api.ok Api.refuse Api.error Api.status];
      intuition congruence.
Qed.

Lemma runPipeline_groups (env : Env) (trigger : Trigger) (p : Process) :
  search_groups (database (snd (runPipeline env trigger p)))
  = search_groups (database p).
Proof.
  apply (runPipeline_invariant
           (fun d => search_groups d = search_groups (database p))).
  - intros d logs H. exact H.
  - intros d runs seq H. exact H.
  - intros row d d' H Hins. apply insertJob_inserted in Hins.
    destruct Hins as [i ->]. exact H.
  - intros d seq H. exact H.
  - intros now ids d H. exact H.
  - reflexivity.
Qed.

Lemma handle_group_limit (s : Server) (r : Api.Request) :
  len (search_groups (database (runner s))) <= 15 ->
  len (search_groups (database (runner (snd (Api.handle s r))))) <= 15.
Proof.
  intros H. destruct r as [body | i body | i a | i | i v | i a | i n | env];
    cbn [Api.handle].
  - unfold Api.postGroup.
    destruct (Z.leb_spec 15 (len (search_groups (database (runner s))))) as [Hle | Hlt];
      [exact H|].
    destruct (Api.parseGroupBody body); [exact H|].
    unfold insertGroup. cbn [snd runner database setDatabase search_groups setGroups].
    rewrite len_app. unfold len in *. cbn [length]. lia.
  - unfold Api.putGroup. destruct (parseInt10 i); [|exact H].
    destruct (Api.parseGroupBody body); [exact H|].
    destruct (Api.findGroup _ _); [|exact H].
    cbn [snd runner database withDatabase setDatabase]. unfold Api.updateGroups.
    cbn [search_groups setGroups]. now rewrite len_map.
  - unfold Api.patchGroup. destruct (parseInt10 i); [|exact H].
    destruct (Api.findGroup _ _); [|exact H].
    match goal with |- context [match ?b with _ => _ end] =>
      destruct b as [[msg | [o c]]|] end; cbn [snd]; try exact H.
    cbn [runner database withDatabase setDatabase]. unfold Api.updateGroups.
    cbn [search_groups setGroups]. now rewrite len_map.
  - unfold Api.deleteGroup. destruct (parseInt10 i); [|exact H].
    destruct (Z.leb _ 1); [exact H|].
    destruct (Api.findGroup _ _); [|exact H].
    destruct (Api.groupReferenced _ _); [exact H|].
    cbn [snd runner database withDatabase setDatabase search_groups setGroups].
    match goal with
    | |- len (List.filter ?f ?l) <= _ => pose proof (List.filter_length_le f l) as Hf
    end.
    unfold len in *. lia.
  - unfold Api.patchVerdict. destruct (parseInt10 i); [|exact H].
    destruct (negb _); [exact H|]. destruct (hasJobId _ _); exact H.
  - unfold Api.patchApplied. destruct (parseInt10 i); [|exact H].
    destruct (hasJobId _ _); exact H.
  - unfold Api.patchNotes. destruct (parseInt10 i); [|exact H].
    destruct (hasJobId _ _); exact H.
  - unfold Api.postRun. destruct (isRunning (runner s)); [exact H|].
    cbn [snd runner]. now rewrite runPipeline_groups.
Qed.

(** X19: at most fifteen groups.  A server that has at most fifteen search
    groups still has at most fifteen after any requests to the group, job
    and run routes and any scheduled runs: POST /api/groups refuses the
    sixteenth, and nothing else adds a group. *)
Theorem groups_stay_within_limit (s : Server) (actions : list Api.Action) :
  len (search_groups (database (runner s))) <= 15 ->
  len (search_groups (database (runner (Api.serve s actions)))) <= 15.
Proof.
  intros H. induction actions as [|a actions IH] using rev_ind; [exact H|].
  rewrite serve_snoc. destruct a as [r | env]; cbn [Api.act].
  - now apply handle_group_limit.
  - cbn [runner]. now rewrite runPipeline_groups.
Qed.

Lemma groups_stay_within_limit_witness :
  len (search_groups
         (database
            (runner
               (Api.serve exServer
                  [Api.Call (Api.PostGroup (exRawBody None None None));
                   Api.Tick exMixedEnv;
                   Api.Call (Api.DeleteGroup "1")]))))
  <= 15.
Proof.
  apply groups_stay_within_limit. unfold len. cbn. lia.
Defined.

(** ** The provider-level deduplicator *)

(** X20: [filterNewJobs] splits the postings by whether [jobs] stores their
    identifier.  The new postings are those whose LinkedIn identifier no
    row of [jobs] has, the provider duplicates are those whose identifier
    some row has; both keep the order and the repetitions of the input, so
    together they are the input. *)
Theorem filterNewJobs_partitions (d : Db) (postings : list JobPosting) :
  fst (filterNewJobs d postings)
  = List.filter (fun j => negb (hasLinkedinId d (jobId j))) postings
  /\ snd (filterNewJobs d postings)
     = List.filter (fun j => hasLinkedinId d (jobId j)) postings
  /\ len (fst (filterNewJobs d postings)) + len (snd (filterNewJobs d postings))
     = len postings
  /\ forall j, In j postings ->
       (In j (fst (filterNewJobs d postings))
        <-> ~ In j (snd (filterNewJobs d postings))).
Proof.
  assert (Hsame : forall j, In j postings ->
            has (list_to_set
                   (map JobRow.linkedin_job_id
                      (List.filter
                         (fun r => has (list_to_set (map jobId postings))
                                     (JobRow.linkedin_job_id r))
                         (jobs d))))
              (jobId j)
            = hasLinkedinId d (jobId j)).
  { intros j Hj. apply eq_true_iff_eq. rewrite has_list_to_set, hasLinkedinId_true.
    split.
    - intros Hin. apply in_map_iff in Hin. destruct Hin as (row & Hid & Hrow).
      apply filter_In in Hrow. exists row. tauto.
    - intros (row & Hrow & Hid). apply in_map_iff. exists row. split; [exact Hid|].
      apply filter_In. split; [exact Hrow|].
      apply has_list_to_set. rewrite Hid. now apply in_map. }
  assert (Hfst : fst (filterNewJobs d postings)
                 = List.filter (fun j => negb (hasLinkedinId d (jobId j))) postings).
  { unfold filterNewJobs. destruct postings as [|p ps]; [reflexivity|]. cbn [fst].
    apply filter_ext_in. intros j Hj. now rewrite Hsame. }
  assert (Hsnd : snd (filterNewJobs d postings)
                 = List.filter (fun j => hasLinkedinId d (jobId j)) postings).
  { unfold filterNewJobs. destruct postings as [|p ps]; [reflexivity|]. cbn [snd].
    apply filter_ext_in. intros j Hj. now rewrite Hsame. }
  split; [exact Hfst|]. split; [exact Hsnd|].
  split; [apply filterNewJobs_length|].
  intros j Hj. rewrite Hfst, Hsnd, !filter_In.
  destruct (hasLinkedinId d (jobId j)); cbn [negb]; intuition congruence.
Qed.

(** ** What a run logs as scored is stored *)

Lemma hasLinkedinId_app (d d' : Db) (added : list JobRow.t) (i : string) :
  jobs d' = jobs d ++ added -> hasLinkedinId d i = true -> hasLinkedinId d' i = true.
Proof.
  unfold hasLinkedinId. intros -> H. rewrite existsb_app, H. reflexivity.
Qed.

Section Stored.
Variables (env : Env) (settings : SettingsRow) (names : gset string) (runId : Z).

(** When the loop body ends normally, the batch of step 6 was committed. *)
Lemma processFetched_commits (g : SearchGroupRow.t) (st st' : RunState)
  (fetched : list JobPosting) (scoredJobs : list ScoredJob) (trace1 : list LlmCall)
  (jobResults : list JobResult.t) (vars : DedupVars) :
  let survivors := survivorsOf (st_seenInRunJobIds st) (notBlacklistedOf names g fetched) in
  let withinRunDupes :=
    withinRunDupesOf (st_seenInRunJobIds st) (notBlacklistedOf names g fetched) in
  let newJobs := fst (filterNewJobs (st_db st) survivors) in
  let providerDupes := snd (filterNewJobs (st_db st) survivors) in
  scoreJobs (llm env) newJobs (scoringSettingsOf settings g) (st_trace st)
  = (scoredJobs, trace1) ->
  dedupLoop env settings (st_db st)
    {| dv_trace := trace1; dv_seenStrongInRun := st_seenStrongInRun st;
       dv_counts :=
         addScored (len scoredJobs)
           (addDuplicate (len providerDupes)
              (addDuplicate (len withinRunDupes)
                 (addFetched (len fetched) (st_counts st)))) |}
    scoredJobs
  = (jobResults, vars) ->
  processFetched env settings names runId g st fetched = Next st' ->
  forall r, In r jobResults ->
    hasLinkedinId (st_db st') (jobId (job (JobResult.scored r))) = true.
Proof.
  intros survivors withinRunDupes newJobs providerDupes.
  subst survivors withinRunDupes newJobs providerDupes.
  unfold processFetched, withinRunDupesOf, survivorsOf, notBlacklistedOf.
  destruct (batchDedup ∅ _) as [batchDupes batchUnique].
  cbn [fst snd].
  rewrite ?insertJobLogs_eq, ?logs_setLogs, ?setLogs_setLogs.
  rewrite filterNewJobs_setLogs.
  destruct (filterNewJobs (st_db st) _) as [newJobs providerDupes].
  cbn [fst snd].
  intros Hscore. rewrite Hscore.
  rewrite ?insertJobLogs_eq, ?logs_setLogs, ?setLogs_setLogs.
  rewrite dedupLoop_db.
  intros Hloop. rewrite Hloop.
  rewrite ?insertJobLogs_eq, ?logs_setLogs, ?setLogs_setLogs.
  destruct (insertJobs (map (blacklistedJobRow _ _) _) _) as [msg | d1];
    [discriminate|].
  destruct (insertJobs (map (scoredJobRow _ _) jobResults) d1) as [msg | d2] eqn:Hd2;
    [discriminate|].
  intros [= <-] r Hr. cbn [st_db].
  apply (insertJobs_present _ _ _ Hd2
           (scoredJobRow (SearchGroupRow.id g) (now env) r)).
  apply in_map_iff. now exists r.
Qed.

Lemma processFetched_storedFrom (base : list RunJobLogRow.t) (g : SearchGroupRow.t)
  (st st' : RunState) (fetched : list JobPosting) :
  processFetched env settings names runId g st fetched = Next st' ->
  storedFrom base st -> storedFrom base st'.
Proof.
  intros Hnext (added & Hbase & Hstored).
  destruct (processFetched_outcome env settings names runId g st fetched)
    as (scoredJobs & trace1 & jobResults & vars & d' & Hscore & Hloop & Hstate & Hlogs
        & _ & _ & _ & _ & _ & (addedJobs & Hjobs & _) & Hblack).
  pose proof (processFetched_commits g st st' fetched scoredJobs trace1 jobResults vars
                Hscore Hloop Hnext) as Hscored.
  rewrite Hnext in Hstate. cbn [stepState] in Hstate.
  assert (Hdb : st_db st' = d') by now rewrite Hstate.
  unfold storedFrom. rewrite Hdb in Hscored. rewrite Hdb. clear Hstate Hdb.
  eexists. split; [rewrite Hlogs, Hbase, <- app_assoc; reflexivity|].
  intros e He Hrep.
  apply in_app_or in He. destruct He as [He | He].
  { apply (hasLinkedinId_app (st_db st) d' addedJobs); [exact Hjobs|].
    now apply Hstored. }
  apply in_app_or in He. destruct He as [He | He].
  { apply in_map_iff in He. destruct He as (j & <- & _). discriminate. }
  apply in_app_or in He. destruct He as [He | He].
  { apply in_map_iff in He. destruct He as (j & <- & _). discriminate. }
  apply in_app_or in He. destruct He as [He | He].
  { apply in_map_iff in He. destruct He as (j & <- & _). discriminate. }
  apply in_app_or in He. destruct He as [He | He].
  - apply in_map_iff in He. destruct He as (j & <- & Hj).
    destruct (Hblack j Hj) as (row & Hrow & Hid & _).
    apply hasLinkedinId_true. exists row. split; [exact Hrow | exact Hid].
  - apply in_map_iff in He. destruct He as (r & <- & Hr).
    exact (Hscored r Hr).
Qed.

Lemma runGroups_storedFrom (base : list RunJobLogRow.t)
  (groups : list SearchGroupRow.t) :
  forall st st',
    runGroups env settings names runId groups st = Next st' ->
    storedFrom base st -> storedFrom base st'.
Proof.
  induction groups as [|g rest IH]; intros st st' Hrun H; cbn [runGroups] in Hrun.
  - now injection Hrun as <-.
  - destruct (processGroup env settings names runId st g) as [st1 | msg st1] eqn:Hg;
      [|discriminate].
    apply (IH st1 st' Hrun). unfold processGroup in Hg.
    destruct (Z.eqb (SearchGroupRow.is_active g) 0); [now injection Hg as <-|].
    destruct (parseGroup g); [discriminate|].
    destruct (fetchJobs env g) as [msg | fetched].
    + injection Hg as <-. exact H.
    + now apply (processFetched_storedFrom base g st st1 fetched).
Qed.

End Stored.

Lemma emailStep_linkedin_ids (env : Env) (settings : SettingsRow) (st : RunState)
  (i : string) :
  hasLinkedinId (st_db st) i = true ->
  hasLinkedinId (st_db (emailStep env settings st)) i = true.
Proof.
  unfold emailStep. destruct (Z.eqb (email_enabled settings) 0); [trivial|].
  unfold sendDailyReport.
  destruct (sendMail env _ _ _); cbn [st_db withDb withErrors]; try trivial.
  destruct (unseenStrongMatches (st_db st)) as [|r rs]; [trivial|].
  unfold markJobsSeen, hasLinkedinId. cbn [jobs setJobs].
  rewrite !existsb_exists. intros (x & Hx & Hid).
  eexists. split; [apply in_map; exact Hx|].
  destruct (existsb _ _); exact Hid.
Qed.

(** X21: what a run reports as scored is stored.  In a run that does not
    end failed, every posting for which the run appended a scored entry or
    a BLACKLISTED entry to the audit log has a row in [jobs] when the run
    ends: a score that was paid for is not lost.  (A failed run is
    different: the batch of the failing group is rolled back while its log
    entries stay.) *)
Theorem scored_postings_are_stored (env : Env) (trigger : Trigger) (p : Process) :
  isRunning p = false ->
  PipelineResult.status (fst (runPipeline env trigger p)) <> failed ->
  exists added,
    run_job_logs (database (snd (runPipeline env trigger p)))
    = run_job_logs (database p) ++ added
    /\ forall e, In e added -> reportsStoredPosting e = true ->
         hasLinkedinId (database (snd (runPipeline env trigger p)))
           (RunJobLogRow.linkedin_job_id e) = true.
Proof.
  intros Hidle. unfold runPipeline. rewrite Hidle. unfold runBody.
  cbn [setRunning database llmTrace isRunning lastRunResult].
  unfold tryBlock.
  destruct (settings_row (database p)) as [settings|];
    [|cbn; intros H; now contradiction H].
  destruct (search_groups (database p)) as [|g gs];
    [cbn; intros H; now contradiction H|].
  cbn [insertRunningRun].
  match goal with
  | |- context [runGroups env settings ?n ?r ?gs0 ?s0] =>
      pose proof (runGroups_storedFrom env settings n r (run_job_logs (database p))
                    gs0 s0) as Hgroups;
      destruct (runGroups env settings n r gs0 s0) as [st | m st]
  end; [|cbn; intros H; now contradiction H].
  intros _. destruct (Hgroups st eq_refl) as (added & Hlogs & Hstored).
  { exists []. cbn [st_db run_job_logs setRuns]. split; [now rewrite app_nil_r|].
    intros e []. }
  destruct (emailStep_log_and_trace env settings st) as [Hl _].
  exists added. cbn [fst snd setRunning database]. unfold updateRuns.
  cbn [run_job_logs setRuns]. rewrite Hl. split; [exact Hlogs|].
  intros e He Hrep.
  change (hasLinkedinId (st_db (emailStep env settings st))
            (RunJobLogRow.linkedin_job_id e) = true).
  apply emailStep_linkedin_ids. now apply Hstored.
Qed.

Lemma scored_postings_are_stored_witness :
  Forall (fun e =>
            reportsStoredPosting e = true ->
            hasLinkedinId
              (database (snd (runPipeline exMixedEnv scheduled (runner exServer))))
              (RunJobLogRow.linkedin_job_id e) = true)
    (run_job_logs
       (database (snd (runPipeline exMixedEnv scheduled (runner exServer)))))
  /\ map RunJobLogRow.ai_verdict
       (run_job_logs
          (database (snd (runPipeline exMixedEnv scheduled (runner exServer)))))
     = ["DUPLICATE"; "BLACKLISTED"; "STRONG_MATCH"].
Proof.
  assert (Hstatus : PipelineResult.status
                      (fst (runPipeline exMixedEnv scheduled (runner exServer)))
                    <> failed) by (vm_compute; discriminate).
  destruct (scored_postings_are_stored exMixedEnv scheduled (runner exServer)
              eq_refl Hstatus) as (added & Hlogs & Hstored).
  change (run_job_logs
            (database (snd (runPipeline exMixedEnv scheduled (runner exServer))))
          = added) in Hlogs.
  split; [|vm_compute; reflexivity].
  apply List.Forall_forall. intros e He. apply Hstored. rewrite <- Hlogs. exact He.
Defined.

(** ** Cleaning a description *)

(** X22: cleaning never lengthens a text.  [stripHtml] returns a trimmed
    text that is no longer than its argument (every replacement it makes
    is at most as long as what it replaces), and [trimBoilerplate] returns
    a text no longer than its argument.  So the description in a scoring
    request is no longer than the description of the posting, and at most
    8000 characters. *)
Theorem cleaning_never_lengthens (html systemPrompt model summaryPrompt : string)
  (j : JobPosting) :
  (String.length (stripHtml html) <= String.length html)%nat
  /\ trim (stripHtml html) = stripHtml html
  /\ (String.length (trimBoilerplate html) <= String.length html)%nat
  /\ (String.length
        (sr_description (buildScoringUserMessage systemPrompt model j summaryPrompt))
      <= Nat.min 8000 (String.length (description j)))%nat.
Proof.
  split; [apply stripHtml_length|].
  split; [unfold stripHtml; apply trim_idem|].
  split; [apply trimBoilerplate_length|].
  unfold buildScoringUserMessage. cbn [sr_description].
  rewrite take_length_min.
  pose proof (stripHtml_length (description j)) as H1.
  pose proof (trimBoilerplate_length (stripHtml (description j))) as H2.
  revert H1 H2. generalize 8000%nat. intros n H1 H2. lia.
Qed.
